(* ===== verification/_CoqProject ===== *)
-Q . S2P
Prelude.v
Sha1.v
Sha256.v
Json.v
JsonText.v
Timestamps.v
Retry.v
Errors.v
Identity.v
Calls.v
Definitions.v
Results.v
Operations.v
Markers.v
Fence.v
ConfigurationUI.v
Steps.v
AddressPolicy.v
Url.v
ProviderHttp.v
Base64.v
OAuth.v
TextGen.v
StructuredOutput.v
TextGenAttempt.v
ProjectModels.v
JsonDumps.v
CanonicalJson.v
ManifestValues.v
ManifestGrants.v
JwtBearer.v
ManifestRefresh.v
ManifestFacts.v
ChatFormat.v
ChatFacts.v
ProjectStorage.v
StoreProgram.v
ProjectConnections.v
ProjectProvider.v
CredentialRefresh.v
ConnectionFacts.v
RefreshOutcomes.v
ConnectionFrames.v
Broker.v
Loading.v
DexWebStore.v
MailProgram.v
EmailClient.v
EmailBody.v
EmailMessages.v
EmailOperations.v
EmailSessions.v
EmailArguments.v
EmailReading.v
EmailSubmission.v
EmailChanges.v
