(* ===== verification/Prelude.v ===== *)
(** * Verification of the Dex connectors in Python

    This library models src/sdkpython/src/dex_connectors/sdk, the Python SDK that provider
    connectors are built on, and the email connector
    (src/connectors/superdurable/email/python/src/dex_connectors/superdurable_email), the one that
    speaks its protocols itself, as a shallow embedding: a Python function is a Rocq function of the
    same name, an exception is a value ([res A] is [Ok a] or [Err (Exn class message)]), mutable
    state is passed explicitly, and interleavings are an inductive step relation.  Definitions are
    executable, so concrete inputs are evaluated by computation.

    ** The program

    A connector declares operations (types.py): a Query reads, a Mutation writes.  A Dex Step
    (steps.py) builds a [Call] with a stable identity, runs the operation (operations.py), which
    validates the call and the provider's answer into a result on a declared branch, a retry or a
    defect, and routes that result.  A provider operation sends HTTP requests through
    providerhttp (address policy, bounded reads, error tokens, Retry-After), authenticates
    with oauthtoken and credentials.py, guards a write that cannot be repeated with the
    single-dispatch fence (singledispatch), and the text generation Query (textgen) is one such
    operation, complete with its schema language.  The settings of a project's connections are
    revisioned documents in a versioned object store (projectconfig).  The email connector searches,
    reads, moves and flags messages over IMAP, and submits and answers messages over SMTP, which has
    no idempotency key: a Dex heartbeat claims the submission before the message is sent.

    ** Files

    - Prelude: Python values the code computes with (text, dictionaries, exact binary64 floats,
      timedelta rounding), exceptions and the result monad, and the tactics [res_inv], [bool_inv]
      and [say] used throughout.
    - Sha1, Sha256, Json, JsonText, JsonDumps, Url: the standard library functions whose results the
      code depends on: SHA-1 for UUIDv5, SHA-256 for object digests, JSON values with Python equality
      and truth, json.loads, json.dumps, urlsplit and quote_plus.
    - Timestamps (timestamps.py), Retry (retry_policy.py), Errors (errors.py): canonical Go
      timestamps, retry policies in nanoseconds, failures and retry errors.
    - Identity, Calls, Definitions, Results (types.py): references and derived call identifiers,
      the call and its progress reporter, operation definitions, receipts, results and attempts;
      each with the checks of its constructor and its wire form.
    - Operations (operations.py), Steps (steps.py), ConfigurationUI (configuration_ui.py).
    - Markers and Fence (singledispatch/markers.py and fence.py): the heartbeat checkpoint, the
      resend decision, and the interleaving of all attempts' fences with the repeating claim, the
      provider request, crashes and heartbeat frames, any of which Dex may lose.
    - AddressPolicy and ProviderHttp (providerhttp), OAuth (oauthtoken/__init__.py and
      credentials.py), Base64 and JwtBearer (its JWT-bearer assertions).
    - ManifestValues, ManifestGrants, ManifestRefresh (oauthtoken/manifest_refresh.py): the values a
      manifest declares (durations, templates, response URLs, claimed expiries), the grants of its
      authentication methods with their validation and the decision to refresh, and the exchange
      itself; ManifestFacts has their theorems.  A driver is an instance of the class [Driver].
    - TextGen, StructuredOutput, TextGenAttempt (textgen/contracts.py, structured_output.py and
      query.py): configuration and stream limits, the schema subset, and one attempt.  ChatFormat
      (openaichat.py) is a wire format for them, ChatFacts its theorems.
    - ProjectModels and ProjectStorage (projectconfig/models.py and storage.py): the configuration
      document; the object store interface ([ObjectStore], with the laws [VersionedStore]), the
      in-memory store as its instance, the S3 store over a client, and the configuration store,
      written against the interface, with the interleaving of its writers.  CanonicalJson shows that
      the stored JSON bytes read back.
    - StoreProgram: programs over the store, the clock, token drawing and the refresh driver, as
      trees of commands, with their run alone and the faults of a store; another client may act
      between any two commands.
    - ProjectConnections and ProjectProvider (connections.py and provider.py): connection heads,
      credential envelopes, the connection store and the refresh provider as such programs.
      CredentialRefresh interleaves any number of their tasks ([step], [reachable]) with a
      specification logic for one task ([spec]) and the protocol that heads follow ([transition]).
      ConnectionFacts reads back what was written; ConnectionFrames keeps connections apart;
      RefreshOutcomes follows an abandoned exchange and a result without expiry.
    - Broker (broker.py): the credential broker client and the cache of shared credentials.
    - Loading and DexWebStore (projectconfig/__init__.py and dexweb_store.py): choosing and loading a
      project, and the store over Dex Web's credential file.
    - MailProgram: programs over mail sessions, heartbeats, credentials and the clock, as trees of
      commands.  Each method of imaplib and smtplib that the connector calls is one command, its
      answer or exception arbitrary; [runs] follows a program through any answers and may stop
      anywhere; [keeps] is the logic for its histories.
    - EmailClient (client.py), EmailBody (imap_bodystructure.py), EmailMessages and EmailOperations
      (operations.py): the client and its TLS sessions, the BODYSTRUCTURE parser, reading messages,
      and the six operations, each [invoke] a program.  The parts of Python's email package, the
      codecs and HTMLParser are the class [EmailLibrary].
    - EmailSessions, EmailArguments, EmailReading, EmailSubmission, EmailChanges: their theorems, with
      a sample library and server for the witnesses.

    ** What the theorems show

    - Safety of sending: at most one provider request of a call is outstanding over all attempts, in
      every interleaving of them and whatever frames are lost ([at_most_once_dispatch]); a marker
      permits a resend only with proof ([send_allowed_only_when_proved]); a restricted client dials only
      what its policy permits, and nothing when one answer is refused ([dials_only_permitted]).
    - Outcomes: what every Query and Mutation run returns or raises for each answer of the provider
      ([run_query_outcome], [run_mutation_outcome]); a built Step routes every declared result
      ([step_routes_results]); every text generation attempt is a well-formed retry or one
      of six branches and does not leak the credential ([attempt_outcomes]).
    - Revisions: under any interleaving of configuration writers the stored versions of a document
      carry the revisions 1, 2, 3, ... ([revisions_count_versions]); a write that answers replaced
      exactly the revision it expected, in every store that keeps the laws
      ([write_replaces_expected]).
    - Credential refresh: in every interleaving of providers, writers and recoveries with storage
      faults, each version of a connection head follows from the one before by one transition of
      the protocol ([heads_follow_protocol]), at most one refresh is dispatched per fence
      ([one_dispatch_per_fence]), and the credential a head refers to exists with its digest
      ([references_resolve]).  A replaced credential is the one read next, with its expiry
      ([replace_then_read]).  An exchange nobody runs any more releases its connection after its deadline,
      where the released head can be written ([abandoned_refresh_released]).
    - Manifest-declared refresh: it sends nothing but HTTPS outside private networks
      ([refresh_only_https]), writes each mapped value to the field that names it as destination, and
      nothing else, secrets as secrets ([refresh_writes_mapped_fields]), keeps a stored credential only when it can be used
      ([kept_credential_usable]), accepts response URLs only as allowed origins, plain HTTP
      ones only of loopback hosts ([response_url_confined]), fills templates without changing their shape
      ([template_shape_kept]) and reads back what it signs ([signed_claims_read_back]).
    - Chat Completions: decoding does not depend on chunk boundaries ([chunks_irrelevant]), deltas are
      the answer ([text_written_is_answer]), decoded values keep their types
      ([decoded_well_formed]) and encoded requests pass the checks of the Query and, without floats,
      read back ([encoded_requests_accepted]).
    - Shared and local credentials: an expired credential, and the revision a call was given and reports
      rejected, is not served from the broker ([resolve_serves_unexpired], [rejected_never_served]); Dex
      Web's file is adopted completely ([sync_adopts_file]) and the write-back replaces only a record that
      still held the imported credential when the file was read again ([newer_file_kept]; a save in the
      window after that read is lost, [save_in_window_lost]).
    - Loading: hosted storage is guarded ([selection_guarded]), a project is pinned to the version it
      names ([project_pinned]), and its environment is exact ([environment_exact]).
    - Email: credentials, mailbox names and messages only travel inside TLS that verifies the server
      ([credentials_inside_tls]); no argument of a command can end its line ([commands_confined]); over
      any attempts and faults a message is submitted at most once, plus once for each accepted claim that a
      lost Worker took with it and each answer that is neither success nor refusal
      ([submitted_at_most_once]), arrives as it was written ([content_survives_stuffing]) and is reported sent only when it was accepted
      for every recipient ([sent_means_accepted], [recipients_unique_complete]); a message is moved
      only where it was found and removed only once it was copied ([moved_only_when_copied]); flags
      are set as asked and reported as read back ([flags_as_requested]); mailbox names and
      BODYSTRUCTURE expressions read back ([mailbox_argument_roundtrip], [structure_reads_back]), the
      parser ends on every input with distinct, bounded parts ([structure_reading_ends],
      [structure_parts_bounded]), and the pages of a search list every message once
      ([pages_list_each_once]).
    - Refinement: the validation of a structured answer decides exactly conformance to its schema
      ([answer_check_exact]), which is stated by rational values, the calendar and the shapes of texts;
      redaction's traversal equals recursion; a JSON Pointer binding is
      valid exactly when it is RFC 6901 text.
    - Round trips of every wire form; bounds of bodies, streams, delays, failure texts and write
      windows; totality and termination where the code loops.
    - Defects found: theorems about what the code does where it does not do what it means to
      ([to_wire_loses_nanosecond], [nanosecond_receipt_is_defect],
      [scoped_metadata_address_permitted], [null_bound_accepted_then_raises],
      [retry_after_raises], [kept_credential_unreadable], [expired_after_rejection],
      [undated_refresh_refused], [distant_expiry_escapes], [refresh_token_rule_unchecked],
      [bare_sign_accepted], [overflowing_count_escapes], [limit_depends_on_chunks],
      [garbled_answer_released], [copy_repeated], [unusable_credentials_rejected],
      [unnamed_call_escapes], [save_in_window_lost]).

    ** Bounds and fuel

    Recursion is structural wherever the source's is.  The exceptions carry a measure that is
    never exhausted: decimal printing uses the binary length, the redaction traversal the size of
    the document, a schema at most ten levels because the portable check refuses deeper ones, a
    duration the length of its text because every part consumes characters, the BODYSTRUCTURE parser
    twice the length of its source because a value consumes a byte, the segments of a file name the number
    of parameters because each segment is another one, and the search for the shortest digits of a float seventeen, which always suffice.  Integers are
    unbounded as in Python; floats are dyadic numbers rounded to 53 bits; durations are exact
    microseconds.

    ** What is not modelled

    In the email connector an exception of a session never is one of the connector's own classes; the
    attempts of a call run one after another, and an attempt that asks for the claim is told what
    the newest accepted heartbeat recorded, or, when its Worker was lost before Dex stored it, what was
    recorded before; a socket is open wherever its timeout is set.  The
    regular expressions of its source are written out as searches.

    Input and output (sockets, files, DNS, the clock, Dex itself) and third-party libraries (httpx, the
    Dex SDK, boto3, cryptography) are parameters of the definitions that use them, as are the HTTP date
    parser and datetime.fromisoformat, the regular expressions a manifest or profile declares, str.lower
    and the Unicode database, PEM keys and RSA signatures.  Not modelled: the text generation test kit
    and the mock servers, which are test support; the connectors of HTTP providers, which build
    requests and read responses over the SDK; generated files, the Go code generator and the other
    SDKs. *)

From Stdlib Require Export ZArith NArith Ascii Lia.
From stdpp Require Export base option list gmap strings.

#[export] Set Default Goal Selector "!".

(** ** Python [str]

    A Python [str] is a sequence of Unicode code points.  Literals are written
    as Rocq strings (ASCII only) and coerced. *)

Abbreviation pystr := (list N).

Fixpoint codes (s : string) : list N :=
  match s with
  | EmptyString => []
  | String c s' => N_of_ascii c :: codes s'
  end.

Definition lit (s : string) : pystr := codes s.
Coercion lit : string >-> list.
Arguments lit : simpl never.


(** Truth value of a [str]: the empty string is false. *)
Definition truthy (s : pystr) : bool := match s with [] => false | _ => true end.

Lemma truthy_true s : truthy s = true ↔ s ≠ [].
Proof. by destruct s. Qed.

Lemma truthy_false s : truthy s = false ↔ s = [].
Proof. by destruct s. Qed.

Definition in_range (lo hi c : N) : bool := (lo <=? c)%N && (c <=? hi)%N.

(** [str.isspace] on one code point (the 29 code points of Unicode 14). *)
Definition py_isspace (c : N) : bool :=
  in_range 0x09 0x0D c || in_range 0x1C 0x20 c || (c =? 0x85)%N || (c =? 0xA0)%N ||
  (c =? 0x1680)%N || in_range 0x2000 0x200A c || (c =? 0x2028)%N || (c =? 0x2029)%N ||
  (c =? 0x202F)%N || (c =? 0x205F)%N || (c =? 0x3000)%N.

Section Strip.
Context (p : N → bool).

Fixpoint drop_while (s : pystr) : pystr :=
  match s with
  | [] => []
  | c :: s' => if p c then drop_while s' else s
  end.

Definition drop_while_end (s : pystr) : pystr := rev (drop_while (rev s)).
Definition trim (s : pystr) : pystr := drop_while_end (drop_while s).

Lemma drop_while_head s c s' : drop_while s = c :: s' → p c = false.
Proof. induction s as [|d s IH]; simpl; [done|]. case_match; [auto|]. by intros [= -> ->]. Qed.

Lemma drop_while_id s : (∀ c s', s = c :: s' → p c = false) → drop_while s = s.
Proof. destruct s as [|c s]; [done|]. intros H. simpl. by rewrite (H c s). Qed.

Lemma drop_while_idemp s : drop_while (drop_while s) = drop_while s.
Proof. apply drop_while_id. intros c s' H. by eapply drop_while_head. Qed.

Lemma drop_while_all s : forallb p s = true → drop_while s = [].
Proof. induction s as [|c s IH]; simpl; [done|]. intros [-> ?]%andb_prop. auto. Qed.

Lemma drop_while_nil s : drop_while s = [] → forallb p s = true.
Proof. induction s as [|c s IH]; simpl; [done|]. case_match; [auto|done]. Qed.

Lemma drop_while_suffix s : ∃ pre, s = pre ++ drop_while s ∧ forallb p pre = true.
Proof.
  induction s as [|c s (pre & Hs & Hp)]; simpl; [by exists []|].
  destruct (p c) eqn:Hc; [|by exists []].
  exists (c :: pre). simpl. rewrite Hc, <- Hs. done.
Qed.

Lemma trim_split s : ∃ pre post,
  s = pre ++ trim s ++ post ∧ forallb p pre = true ∧ forallb p post = true.
Proof.
  destruct (drop_while_suffix s) as (pre & Hpre & Hp).
  destruct (drop_while_suffix (rev (drop_while s))) as (post & Hpost & Hq).
  exists pre, (rev post). unfold trim, drop_while_end.
  rewrite <- rev_app_distr, <- Hpost, rev_involutive, <- Hpre. split_and!; [done|done|].
  apply forallb_forall. intros c Hc%in_rev. rewrite rev_involutive in Hc || idtac.
  eapply forallb_forall in Hq; [exact Hq|done].
Qed.

Lemma trim_nil s : trim s = [] ↔ forallb p s = true.
Proof.
  unfold trim, drop_while_end. split.
  - intros H. apply (f_equal (@rev N)) in H. rewrite rev_involutive in H. simpl in H.
    apply drop_while_nil in H. destruct (drop_while_suffix s) as (pre & Hs & Hp).
    rewrite Hs, forallb_app, Hp. simpl.
    apply forallb_forall. intros c Hc. eapply forallb_forall in H; [exact H|].
    by apply in_rev; rewrite rev_involutive.
  - intros H. by rewrite (drop_while_all s H).
Qed.
End Strip.

(** [str.strip()]. *)
Definition py_strip (s : pystr) : pystr := trim py_isspace s.

(** [not s.strip()]. *)
Definition blank (s : pystr) : bool := negb (truthy (py_strip s)).

Fixpoint starts_with (p s : pystr) : bool :=
  match p, s with
  | [], _ => true
  | a :: p', b :: s' => (a =? b)%N && starts_with p' s'
  | _ :: _, [] => false
  end.

Lemma starts_with_app p s : starts_with p (p ++ s) = true.
Proof. induction p as [|c p IH]; [done|]. cbn [app starts_with]. by rewrite N.eqb_refl. Qed.

Lemma starts_with_split p s : starts_with p s = true → ∃ r, s = p ++ r.
Proof.
  revert s. induction p as [|c p IH]; intros [|x s] H; [by exists []|by exists (x :: s)|done|].
  cbn [starts_with] in H. apply andb_prop in H as [Hc H]. apply N.eqb_eq in Hc as <-. apply IH in H as [r ->]. by exists r.
Qed.

Definition ends_with (p s : pystr) : bool := starts_with (rev p) (rev s).

Definition has_char (c : N) (s : pystr) : bool := existsb (N.eqb c) s.

(** [str.split(sep)] for a one-character separator: never empty. *)
Fixpoint split_char (sep : N) (s : pystr) : list pystr :=
  match s with
  | [] => [[]]
  | c :: s' =>
      if (c =? sep)%N then [] :: split_char sep s'
      else match split_char sep s' with
           | seg :: rest => (c :: seg) :: rest
           | [] => [[c]]
           end
  end.

Lemma split_char_none sep s : sep ∉ s → split_char sep s = [s].
Proof.
  induction s as [|c s IH]; [done|]. intros [Hc Hs]%not_elem_of_cons. cbn [split_char].
  destruct (N.eqb_spec c sep); [done|]. by rewrite IH.
Qed.

Lemma split_char_at sep s t : sep ∉ s → split_char sep (s ++ sep :: t) = s :: split_char sep t.
Proof.
  induction s as [|c s IH]; intros Hn; cbn [app split_char]; [by rewrite N.eqb_refl|].
  apply not_elem_of_cons in Hn as [Hc Hs]. destruct (N.eqb_spec c sep); [done|]. by rewrite IH.
Qed.

(** [sep.join(parts)]. *)
Fixpoint join (sep : pystr) (parts : list pystr) : pystr :=
  match parts with
  | [] => []
  | [x] => x
  | x :: rest => x ++ sep ++ join sep rest
  end.

(** [str.replace(old, new)] for a one-character [old]. *)
Definition replace_char (old : N) (new : pystr) (s : pystr) : pystr :=
  flat_map (λ c, if (c =? old)%N then new else [c]) s.

(** [str.replace(old, "")] for a nonempty [old]: left-to-right, non-overlapping. *)
Fixpoint remove_sub (fuel : nat) (old s : pystr) : pystr :=
  match fuel with
  | O => s
  | S n =>
      match s with
      | [] => []
      | c :: s' =>
          if starts_with old s then remove_sub n old (drop (length old) s)
          else c :: remove_sub n old s'
      end
  end.

(** [needle in s] for strings. *)
Fixpoint contains (needle s : pystr) : bool :=
  starts_with needle s || match s with [] => false | _ :: s' => contains needle s' end.

(** Character classes of the regular expressions of the SDK. *)
Definition is_lower (c : N) : bool := in_range 97 122 c.
Definition is_upper (c : N) : bool := in_range 65 90 c.
Definition is_digit (c : N) : bool := in_range 48 57 c.
Definition is_alpha (c : N) : bool := is_lower c || is_upper c.
Definition is_alnum (c : N) : bool := is_alpha c || is_digit c.
Definition is_lower_hex (c : N) : bool := is_digit c || in_range 97 102 c.
Definition is_hex (c : N) : bool := is_lower_hex c || in_range 65 70 c.

(** [str.lower()] on an ASCII string. *)
Definition ascii_lower (s : pystr) : pystr :=
  map (λ c, if is_upper c then (c + 32)%N else c) s.

(** ** Decimal numbers *)

(** The value of [int(s)] for a run of ASCII digits. *)
Definition digits_value (s : pystr) : Z :=
  fold_left (λ acc c, (acc * 10 + (Z.of_N c - 48))%Z) s 0%Z.

Fixpoint N_digits_fuel (fuel : nat) (n : N) (acc : pystr) : pystr :=
  match fuel with
  | O => acc
  | S k =>
      let acc' := (48 + n mod 10)%N :: acc in
      if (n <? 10)%N then acc' else N_digits_fuel k (n / 10)%N acc'
  end.

(** [str(n)] for a natural number. *)
Definition str_of_N (n : N) : pystr := N_digits_fuel (S (N.to_nat (N.size n))) n [].

(** [str(z)] for an integer. *)
Definition str_of_Z (z : Z) : pystr :=
  match z with
  | Z0 => "0"
  | Zpos p => str_of_N (Npos p)
  | Zneg p => 45%N :: str_of_N (Npos p)
  end.

Definition digit_step (acc : Z) (c : N) : Z := (acc * 10 + (Z.of_N c - 48))%Z.

Lemma digits_fuel_value k n acc : (n < 10 ^ N.of_nat k)%N →
  fold_left digit_step (N_digits_fuel k n acc) 0%Z = fold_left digit_step acc (Z.of_N n).
Proof.
  revert n acc. induction k as [|k IH]; intros n acc Hn; cbn [N_digits_fuel].
  - cbn in Hn. by replace n with 0%N by lia.
  - destruct (N.ltb_spec n 10) as [Hs|Hs].
    + cbn [fold_left]. unfold digit_step at 2. rewrite N.mod_small by done. f_equal. lia.
    + rewrite IH.
      * cbn [fold_left]. unfold digit_step at 2. f_equal. pose proof (N.div_mod n 10 ltac:(lia)). lia.
      * rewrite Nat2N.inj_succ, N.pow_succ_r' in Hn. apply N.Div0.div_lt_upper_bound. lia.
Qed.

Lemma str_of_N_value n : digits_value (str_of_N n) = Z.of_N n.
Proof.
  unfold digits_value, str_of_N. change (fold_left _ ?l ?a) with (fold_left digit_step l a).
  rewrite digits_fuel_value; [done|]. rewrite Nat2N.inj_succ, N2Nat.id, N.pow_succ_r'.
  pose proof (N.size_gt n). pose proof (N.pow_le_mono_l 2 10 (N.size n) ltac:(lia)).
  assert (0 < 10 ^ N.size n)%N by lia. lia.
Qed.

(** The digits of a number: decimal digits, the first of them zero only for zero. *)
Lemma digits_fuel_shape k n acc : (0 < n < 10 ^ N.of_nat k)%N → forallb is_digit acc = true →
  ∃ c s, N_digits_fuel k n acc = c :: s ∧ (49 <= c <= 57)%N ∧ forallb is_digit s = true.
Proof.
  revert n acc. induction k as [|k IH]; intros n acc Hn Hacc; cbn [N_digits_fuel]; [cbn in Hn; lia|].
  assert (Hd : (0 <= n mod 10 < 10)%N) by (split; [apply N.le_0_l|by apply N.mod_lt]).
  destruct (N.ltb_spec n 10) as [Hs|Hs].
  - rewrite N.mod_small by done. eexists _, _. split; [reflexivity|]. split; [lia|done].
  - apply IH.
    + rewrite Nat2N.inj_succ, N.pow_succ_r' in Hn. split; [by apply N.div_str_pos|apply N.Div0.div_lt_upper_bound; lia].
    + cbn [forallb]. rewrite Hacc, andb_true_r. apply andb_true_intro; split; apply N.leb_le; lia.
Qed.

Lemma str_of_N_shape n : n ≠ 0%N →
  ∃ c s, str_of_N n = c :: s ∧ (49 <= c <= 57)%N ∧ forallb is_digit s = true.
Proof.
  intros Hn. apply digits_fuel_shape; [|done]. split; [lia|].
  rewrite Nat2N.inj_succ, N2Nat.id, N.pow_succ_r'.
  pose proof (N.size_gt n). pose proof (N.pow_le_mono_l 2 10 (N.size n) ltac:(lia)).
  assert (0 < 10 ^ N.size n)%N by lia. lia.
Qed.

(** [f"{n:02d}"] for [0 <= n <= 99]. *)
Definition two_digits (z : Z) : pystr := [Z.to_N (48 + z / 10); Z.to_N (48 + z mod 10)].

(** ** UTF-8 *)

(** [str.encode("utf-8")] on one code point; a surrogate cannot be encoded. *)
Definition utf8_char (c : N) : option (list N) :=
  if (c <? 0x80)%N then Some [c]
  else if (c <? 0x800)%N then Some [0xC0 + c / 64; 0x80 + c mod 64]%N
  else if in_range 0xD800 0xDFFF c then None
  else if (c <? 0x10000)%N then
    Some [0xE0 + c / 4096; 0x80 + (c / 64) mod 64; 0x80 + c mod 64]%N
  else if (c <? 0x110000)%N then
    Some [0xF0 + c / 262144; 0x80 + (c / 4096) mod 64; 0x80 + (c / 64) mod 64; 0x80 + c mod 64]%N
  else None.

Fixpoint utf8 (s : pystr) : option (list N) :=
  match s with
  | [] => Some []
  | c :: s' => b ← utf8_char c; bs ← utf8 s'; Some (b ++ bs)
  end.

(** ** Exceptions and fallible computations *)

(** The exception classes the SDK raises or catches. *)
Inductive exn_class :=
  | Exception | ValueError | UnicodeEncodeError | TypeError | LookupError | KeyError
  | IndexError | AttributeError | OverflowError | RuntimeError | AssertionError
  | OSError | TimeoutError | EOFError
  | ReauthorizationRequiredError | AddressRefusal | BodyTooLargeError
  | ProviderTransportError | ProviderReportedError
  | DispatchNotAllowedError | InsufficientAttemptTimeError | CheckpointError
  | ObjectNotFoundError | ObjectConflictError | OutcomeUnknownError
  | CredentialBrokerUnavailableError | CredentialBrokerRejectedError
  | ConnectionNotSelectedError | RejectedCredentialNotRefreshedError
  | RefreshFailedError | ExchangePendingError | LocationError
  | HTTPError | HTTPTimeout | ProviderStalledError | TextStreamWriteError
  | DecimalOverflow | InvalidURL.

#[global] Instance exn_class_eq_dec : EqDecision exn_class.
Proof. solve_decision. Defined.

(** The direct base class ([Exception] is the top of the modelled classes). *)
Definition base_class (c : exn_class) : exn_class :=
  match c with
  | UnicodeEncodeError | AddressRefusal | BodyTooLargeError | ObjectConflictError
  | CredentialBrokerRejectedError | ConnectionNotSelectedError
  | RejectedCredentialNotRefreshedError | LocationError => ValueError
  | KeyError | IndexError | ObjectNotFoundError => LookupError
  | DispatchNotAllowedError | InsufficientAttemptTimeError | CheckpointError => RuntimeError
  | ProviderStalledError => TimeoutError
  | HTTPTimeout => HTTPError
  | TimeoutError | ProviderTransportError | OutcomeUnknownError
  | CredentialBrokerUnavailableError | RefreshFailedError | ExchangePendingError => OSError
  | _ => Exception
  end.

(** [issubclass(c, d)]: below [Exception] the hierarchy above has at most three levels. *)
Definition subclass (c d : exn_class) : bool :=
  bool_decide (c = d) || bool_decide (base_class c = d) || bool_decide (base_class (base_class c) = d)
  || bool_decide (d = Exception).

Record exn := Exn { exn_cls : exn_class; exn_msg : pystr }.

Definition isinst (e : exn) (c : exn_class) : bool := subclass (exn_cls e) c.

Inductive result (E A : Type) : Type :=
  | Ok (a : A)
  | Err (e : E).
Arguments Ok {E A} a.
Arguments Err {E A} e.

Abbreviation res := (result exn).

#[global] Instance result_ret E : MRet (result E) := λ A a, Ok a.
#[global] Instance result_bind E : MBind (result E) := λ A B f m,
  match m with Ok a => f a | Err e => Err e end.
#[global] Instance result_fmap E : FMap (result E) := λ A B f m,
  match m with Ok a => Ok (f a) | Err e => Err e end.

Definition raise {A} (c : exn_class) (msg : pystr) : res A := Err (Exn c msg).

(** [if b: raise c(msg)]. *)
Definition raise_if (b : bool) (c : exn_class) (msg : pystr) : res unit :=
  if b then raise c msg else Ok ().

Definition is_ok {E A} (m : result E A) : bool := match m with Ok _ => true | Err _ => false end.

(** [for x in xs: f(x)]. *)
Fixpoint for_each {E A} (f : A → result E unit) (xs : list A) : result E unit :=
  match xs with
  | [] => Ok ()
  | x :: xs' => f x ≫= λ _, for_each f xs'
  end.

(** [[f(x) for x in xs]]. *)
Fixpoint mapR {E A B} (f : A → result E B) (xs : list A) : result E (list B) :=
  match xs with
  | [] => Ok []
  | x :: xs' => y ← f x; ys ← mapR f xs'; Ok (y :: ys)
  end.

Lemma bind_Ok {E A B} (m : result E A) (f : A → result E B) b :
  m ≫= f = Ok b ↔ ∃ a, m = Ok a ∧ f a = Ok b.
Proof.
  destruct m as [a|e]; simpl; split.
  - intros ?. by exists a.
  - by intros (a' & [= ->] & ?).
  - done.
  - by intros (? & ? & ?).
Qed.

Lemma Ok_inj {E A} (a b : A) : @Ok E A a = Ok b → a = b.
Proof. by intros [=]. Qed.

Lemma bind_Err {E A B} (m : result E A) (f : A → result E B) e :
  m ≫= f = Err e ↔ m = Err e ∨ ∃ a, m = Ok a ∧ f a = Err e.
Proof.
  destruct m as [a|e']; simpl; split.
  - intros ?. right. by exists a.
  - intros [?|(a' & [= ->] & ?)]; done.
  - intros [= ->]. by left.
  - intros [[= ->]|(? & ? & ?)]; done.
Qed.

Lemma raise_if_Ok b c msg u : raise_if b c msg = Ok u ↔ b = false.
Proof. destruct b, u; simpl; split; done. Qed.

Lemma raise_if_Err b c msg e : raise_if b c msg = Err e ↔ b = true ∧ e = Exn c msg.
Proof. unfold raise_if, raise. destruct b; split; [by intros [= <-]|by intros [_ ->]|done|by intros [? _]]. Qed.

Lemma for_each_Ok {E A} (f : A → result E unit) xs u :
  for_each f xs = Ok u ↔ Forall (λ x, f x = Ok ()) xs.
Proof.
  destruct u. induction xs as [|x xs IH]; simpl.
  - split; auto.
  - rewrite Forall_cons, <- IH. destruct (f x) as [[]|] eqn:Hf; simpl; split; [auto|by intros [??]|done|by intros [??]].
Qed.

Lemma for_each_Err {E A} (f : A → result E unit) xs e :
  for_each f xs = Err e → ∃ x, x ∈ xs ∧ f x = Err e.
Proof.
  induction xs as [|x xs IH]; simpl; [done|].
  destruct (f x) as [[]|e'] eqn:Hf; simpl.
  - intros (y & ? & ?)%IH. exists y. split; [by right|done].
  - intros [= ->]. exists x. split; [by left|done].
Qed.

Lemma mapR_Ok {E A B} (f : A → result E B) xs ys :
  mapR f xs = Ok ys ↔ Forall2 (λ x y, f x = Ok y) xs ys.
Proof.
  revert ys. induction xs as [|x xs IH]; intros ys; simpl.
  - split; [intros [= <-]; constructor|]. by inversion_clear 1.
  - split.
    + intros (y & Hy & (ys' & Hys & [= <-])%bind_Ok)%bind_Ok. constructor; [done|]. by apply IH.
    + intros H. inversion_clear H as [|? y ? ys' Hy Hys]. rewrite Hy. simpl.
      apply IH in Hys. rewrite Hys. done.
Qed.

Lemma mapR_elem {E A B} (f : A → result E B) xs ys y :
  mapR f xs = Ok ys → y ∈ ys → ∃ x, x ∈ xs ∧ f x = Ok y.
Proof.
  revert ys. induction xs as [|x xs IH]; intros ys; simpl; [by intros [= <-] ?%elem_of_nil|].
  intros (z & Hz & (zs & Hzs & [= <-])%bind_Ok)%bind_Ok [->|Hin]%elem_of_cons.
  - exists x. split; [by left|done].
  - destruct (IH zs Hzs Hin) as (x' & ? & ?). exists x'. split; [by right|done].
Qed.

(** The computation fails, if at all, with a [ValueError] that has a message. *)
Definition said {A} (m : res A) : Prop :=
  ∀ e, m = Err e → isinst e ValueError = true ∧ exn_msg e ≠ [].

Lemma said_Ok {A} (a : A) : said (Ok a).
Proof. by intros e. Qed.

Lemma said_raise {A} msg : msg ≠ [] → said (A:=A) (raise ValueError msg).
Proof. by intros Hm e [= <-]. Qed.

Lemma said_raise_if b msg : msg ≠ [] → said (raise_if b ValueError msg).
Proof. intros Hm. destruct b; [by apply said_raise|apply said_Ok]. Qed.

Lemma said_bind {A B} (m : res A) (f : A → res B) : said m → (∀ a, said (f a)) → said (m ≫= f).
Proof. intros Hm Hf e [?|(a & _ & ?)]%bind_Err; [by apply Hm|by eapply Hf]. Qed.

Lemma said_for_each {A} (f : A → res unit) xs : (∀ x, said (f x)) → said (for_each f xs).
Proof. intros Hf e (x & _ & Hx)%for_each_Err. by eapply Hf. Qed.

Create HintDb said discriminated.
#[export] Hint Resolve said_Ok said_raise said_raise_if said_for_each : said.
#[export] Hint Extern 1 (said (_ ≫= _)) => apply said_bind : said.
#[export] Hint Extern 1 (lit _ ≠ []) => discriminate : said.

(** Discharge [said] by following the binds and branches of the code. *)
Ltac say :=
  repeat first
    [ progress intros
    | solve [auto with said nocore]
    | apply said_bind
    | match goal with |- said (match ?x with _ => _ end) => destruct x end
    | match goal with |- said (if ?b then _ else _) => destruct b end ].

Create HintDb py discriminated.

(** Open every successful [bind] and guard among the hypotheses. *)
Ltac res_inv :=
  repeat match goal with
  | H : _ ≫= _ = Ok _ |- _ =>
      let a := fresh "a" in let Ha := fresh "Ha" in
      apply bind_Ok in H; destruct H as (a & Ha & H)
  | H : raise_if _ _ _ = Ok _ |- _ => apply raise_if_Ok in H
  | H : Ok _ = Ok _ |- _ => injection H as H
  | H : Err _ = Ok _ |- _ => discriminate H
  | H : raise _ _ = Ok _ |- _ => discriminate H
  | u : unit |- _ => destruct u
  end; simplify_eq.

(** Split boolean guards into their parts. *)
Ltac bool_inv :=
  repeat match goal with
  | H : _ || _ = false |- _ => apply orb_false_elim in H; destruct H
  | H : _ && _ = true |- _ => apply andb_prop in H; destruct H
  | H : negb _ = false |- _ => apply negb_false_iff in H
  | H : negb _ = true |- _ => apply negb_true_iff in H
  | H : bool_decide _ = true |- _ => apply bool_decide_eq_true in H
  | H : bool_decide _ = false |- _ => apply bool_decide_eq_false in H
  | H : (_ <? _)%Z = false |- _ => apply Z.ltb_ge in H
  | H : (_ <? _)%Z = true |- _ => apply Z.ltb_lt in H
  | H : (_ <=? _)%Z = false |- _ => apply Z.leb_gt in H
  | H : (_ <=? _)%Z = true |- _ => apply Z.leb_le in H
  | H : (_ =? _)%Z = true |- _ => apply Z.eqb_eq in H
  | H : (_ =? _)%Z = false |- _ => apply Z.eqb_neq in H
  | H : (_ =? _)%N = true |- _ => apply N.eqb_eq in H
  | H : (_ =? _)%N = false |- _ => apply N.eqb_neq in H
  end.

(** ** Dictionaries

    A Python [dict] keeps insertion order: an association list without
    duplicate keys; assignment to a present key keeps its position. *)

Definition dict (V : Type) : Type := list (pystr * V).

Section Dict.
Context {V : Type}.
Implicit Types (d : dict V) (k : pystr) (v : V).

Fixpoint dget (k : pystr) (d : dict V) : option V :=
  match d with
  | [] => None
  | (k', v) :: d' => if bool_decide (k = k') then Some v else dget k d'
  end.

Definition dkeys (d : dict V) : list pystr := map fst d.
Definition dhas (k : pystr) (d : dict V) : bool := bool_decide (k ∈ dkeys d).

Fixpoint dset (k : pystr) (v : V) (d : dict V) : dict V :=
  match d with
  | [] => [(k, v)]
  | (k', v') :: d' => if bool_decide (k = k') then (k', v) :: d' else (k', v') :: dset k v d'
  end.

Definition ddel (k : pystr) (d : dict V) : dict V :=
  List.filter (λ kv, negb (bool_decide (fst kv = k))) d.

Definition dict_ok (d : dict V) : Prop := NoDup (dkeys d).

Lemma dget_dset_eq k v d : dget k (dset k v d) = Some v.
Proof.
  induction d as [|[k' v'] d IH]; simpl; [by rewrite bool_decide_true|].
  destruct (bool_decide (k = k')) eqn:Hk; simpl; by rewrite Hk.
Qed.

Lemma dget_dset_ne k k' v d : k ≠ k' → dget k (dset k' v d) = dget k d.
Proof.
  intros Hne. induction d as [|[k2 v2] d IH]; simpl.
  - by rewrite bool_decide_false.
  - destruct (bool_decide (k' = k2)) eqn:Hk; simpl.
    + apply bool_decide_eq_true in Hk as <-. by rewrite bool_decide_false.
    + by rewrite IH.
Qed.

Lemma dget_None k d : dget k d = None ↔ k ∉ dkeys d.
Proof.
  induction d as [|[k' v'] d IH]; simpl.
  - split; [intros _; apply not_elem_of_nil|done].
  - rewrite not_elem_of_cons. case_bool_decide; [split; [done|by intros [??]]|]. rewrite IH. tauto.
Qed.

Lemma dget_elem k v d : dget k d = Some v → (k, v) ∈ d.
Proof.
  induction d as [|[k' v'] d IH]; simpl; [done|].
  case_bool_decide; [intros [= ->]; subst; by left|]. intros ?. right. auto.
Qed.

Lemma dget_ok_elem k v d : dict_ok d → (k, v) ∈ d → dget k d = Some v.
Proof.
  unfold dict_ok. induction d as [|[k' v'] d IH]; simpl; [by intros _ ?%not_elem_of_nil|].
  intros [Hn Hd]%NoDup_cons [[= -> ->]|Hin]%elem_of_cons; [by rewrite bool_decide_true|].
  rewrite bool_decide_false; [auto|]. intros ->. apply Hn.
  apply list_elem_of_fmap. exists (k', v). done.
Qed.

Lemma dkeys_dset_elem k k' v d : k ∈ dkeys (dset k' v d) ↔ k = k' ∨ k ∈ dkeys d.
Proof.
  induction d as [|[k2 v2] d IH]; simpl.
  - rewrite list_elem_of_singleton. rewrite elem_of_nil. tauto.
  - case_bool_decide; subst; simpl; rewrite !elem_of_cons; [tauto|]. rewrite IH. tauto.
Qed.

Lemma dict_ok_dset k v d : dict_ok d → dict_ok (dset k v d).
Proof.
  unfold dict_ok. induction d as [|[k' v'] d IH]; simpl.
  - intros _. apply NoDup_singleton.
  - intros [Hn Hd]%NoDup_cons. case_bool_decide; simpl; [by constructor|].
    constructor; [|auto]. rewrite dkeys_dset_elem. intros [->|?]; done.
Qed.
End Dict.

(** ** Rounding, [float] and [timedelta]

    A finite [float] is a dyadic number [m * 2^e]; a [timedelta] is its exact
    number of microseconds. *)

Inductive pyfloat :=
  | FFin (m e : Z)
  | FInf (negative : bool)
  | FNan.

(** Round [num / den] to the nearest integer, ties to even. *)
Definition half_even (num den : Z) : Z :=
  let q := (num / den)%Z in
  let r := (num mod den)%Z in
  match (2 * r ?= den)%Z with
  | Lt => q
  | Gt => (q + 1)%Z
  | Eq => if Z.even q then q else (q + 1)%Z
  end.

(** The binary64 number nearest to [n / d] (ties to even), for values below
    [2 ^ 1024], which every number the SDK divides or prints lies in. *)
Definition round_ratio (n d : Z) : pyfloat :=
  if (n =? 0)%Z then FFin 0 0
  else
    let a := Z.abs n in
    let scaled e := if (0 <=? e)%Z then (a, d * 2 ^ e)%Z else (a * 2 ^ (- e), d)%Z in
    let e0 := (Z.log2 a - Z.log2 d - 52)%Z in
    let '(x0, y0) := scaled e0 in
    let e := Z.max (if (x0 / y0 <? 2 ^ 52)%Z then (e0 - 1)%Z else e0) (-1074) in
    let '(x, y) := scaled e in
    FFin (Z.sgn n * half_even x y) e.

(** [int(f)] of a finite float: truncation toward zero. *)
Definition trunc_dyadic (m e : Z) : Z :=
  if (0 <=? e)%Z then (m * 2 ^ e)%Z else Z.quot m (2 ^ (- e)).

(** Comparison of two floats; [None] when one is a NaN. *)
Definition fcmp (x y : pyfloat) : option comparison :=
  match x, y with
  | FNan, _ | _, FNan => None
  | FInf a, FInf b =>
      Some (if Bool.eqb a b then Eq else if a then Lt else Gt)
  | FInf a, _ => Some (if a then Lt else Gt)
  | _, FInf b => Some (if b then Gt else Lt)
  | FFin m1 e1, FFin m2 e2 =>
      let e := Z.min e1 e2 in Some (m1 * 2 ^ (e1 - e) ?= m2 * 2 ^ (e2 - e))%Z
  end.

Definition flt (x y : pyfloat) : bool := match fcmp x y with Some Lt => true | _ => false end.
Definition fle (x y : pyfloat) : bool :=
  match fcmp x y with Some (Lt | Eq) => true | _ => false end.
Definition feq (x y : pyfloat) : bool := match fcmp x y with Some Eq => true | _ => false end.
Definition isfinite (x : pyfloat) : bool := match x with FFin _ _ => true | _ => false end.
Definition f_of_Z (z : Z) : pyfloat := FFin z 0.

(** [timedelta.total_seconds()]: an integer true division, correctly rounded. *)
Definition total_seconds (us : Z) : pyfloat := round_ratio us 1000000.

(** [f * n] for a finite float and an integer below [2^53]. *)
Definition fmul_int (f : pyfloat) (n : Z) : pyfloat :=
  match f with
  | FFin m e =>
      if (0 <=? e)%Z then round_ratio (m * n * 2 ^ e) 1 else round_ratio (m * n) (2 ^ (- e))
  | _ => f
  end.

(** [int(f)]: overflow on infinities, an error on NaN. *)
Definition int_of_float (f : pyfloat) : res Z :=
  match f with
  | FFin m e => Ok (trunc_dyadic m e)
  | FInf _ => raise OverflowError "cannot convert float infinity to integer"
  | FNan => raise ValueError "cannot convert float NaN to integer"
  end.

(** [timedelta(microseconds=f)] and [timedelta * f]: round half to even. *)
Definition timedelta_of_float (f : pyfloat) : Z :=
  match f with
  | FFin m e => if (0 <=? e)%Z then (m * 2 ^ e)%Z else half_even m (2 ^ (- e))
  | _ => 0%Z
  end.

Definition timedelta_mul_dyadic (us m e : Z) : Z :=
  if (0 <=? e)%Z then (us * m * 2 ^ e)%Z else half_even (us * m) (2 ^ (- e)).

(** [timedelta / n]. *)
Definition timedelta_div (us n : Z) : Z := half_even us n.

Lemma flt_zero_nonneg m e : flt (FFin m e) (FFin 0 0) = false → (0 <= m)%Z.
Proof.
  unfold flt, fcmp. rewrite Z.mul_0_l. intros H.
  assert (0 < 2 ^ (e - Z.min e 0))%Z by (apply Z.pow_pos_nonneg; lia).
  destruct (Z.compare_spec (m * 2 ^ (e - Z.min e 0)) 0); [nia|done|nia].
Qed.

Lemma trunc_nonneg m e : (0 <= m)%Z → (0 <= trunc_dyadic m e)%Z.
Proof.
  intros Hm. unfold trunc_dyadic. destruct (Z.leb_spec 0 e).
  - apply Z.mul_nonneg_nonneg; [done|apply Z.pow_nonneg; lia].
  - apply Z.quot_pos; [done|apply Z.pow_pos_nonneg; lia].
Qed.

Lemma half_even_bounds num den : (0 < den)%Z →
  (2 * den * half_even num den <= 2 * num + den)%Z ∧
  (2 * num - den <= 2 * den * half_even num den)%Z.
Proof.
  intros Hd. unfold half_even.
  pose proof (Z.div_mod num den ltac:(lia)). pose proof (Z.mod_pos_bound num den Hd).
  destruct (Z.compare_spec (2 * (num mod den)) den); [destruct (Z.even _)|..]; nia.
Qed.

Lemma half_even_exact n den : (0 < den)%Z → half_even (n * den) den = n.
Proof.
  intros Hd. pose proof (half_even_bounds (n * den) den Hd). nia.
Qed.

Lemma half_even_nonneg num den : (0 < den)%Z → (0 <= num)%Z → (0 <= half_even num den)%Z.
Proof. intros Hd Hn. pose proof (half_even_bounds num den Hd). nia. Qed.

Lemma half_even_mono a b den : (0 < den)%Z → (a <= b)%Z → (half_even a den <= half_even b den)%Z.
Proof.
  intros Hd Hab. unfold half_even.
  pose proof (Z.div_mod a den ltac:(lia)) as Ha. pose proof (Z.mod_pos_bound a den Hd) as Hra.
  pose proof (Z.div_mod b den ltac:(lia)) as Hb. pose proof (Z.mod_pos_bound b den Hd) as Hrb.
  pose proof (Z.div_le_mono a b den Hd Hab) as Hq.
  destruct (decide (a / den = b / den)%Z) as [He|Hne].
  - rewrite He in *.
    destruct (Z.compare_spec (2 * (a mod den)) den), (Z.compare_spec (2 * (b mod den)) den);
      destruct (Z.even (b / den)); nia.
  - destruct (Z.compare_spec (2 * (a mod den)) den), (Z.compare_spec (2 * (b mod den)) den);
      destruct (Z.even (a / den)), (Z.even (b / den)); nia.
Qed.

#[export] Hint Resolve half_even_nonneg half_even_mono : py.
