(* ===== verification/Sha1.v ===== *)
(** * SHA-1 and version-5 UUIDs

    The two standard-library functions behind [derive_call_id]
    (sdkpython/src/dex_connectors/sdk/types.py): [hashlib.sha1(data).digest()] on a
    byte string and [str(UUID(bytes=digest, version=5))].  Words are 32-bit
    numbers kept below [2^32] by explicit reduction. *)

From S2P Require Import Prelude.

Module Sha1.
Open Scope N_scope.

Definition w32 (n : N) : N := n mod 2 ^ 32.
Definition add32 (a b : N) : N := w32 (a + b).
Definition rotl (n x : N) : N := N.lor (w32 (N.shiftl x n)) (N.shiftr x (32 - n)).
Definition not32 (x : N) : N := N.lxor x (2 ^ 32 - 1).

(** [be k n]: [n.to_bytes(k, "big")]. *)
Fixpoint be (k : nat) (n : N) : list N :=
  match k with
  | O => []
  | S k' => N.shiftr n (8 * N.of_nat k') mod 256 :: be k' n
  end.

Definition of_be (bytes : list N) : N := fold_left (λ acc b, acc * 256 + b) bytes 0.

(** The padded message: 0x80, zeros, and the bit length on eight bytes. *)
Definition pad (msg : list N) : list N :=
  let len := length msg in
  let zeros := ((119 - (len mod 64)) mod 64)%nat in
  msg ++ 0x80 :: repeat 0 zeros ++ be 8 (8 * N.of_nat len).

Fixpoint chunks (fuel k : nat) (l : list N) : list (list N) :=
  match fuel, l with
  | O, _ | _, [] => []
  | S f, _ => take k l :: chunks f k (drop k l)
  end.

(** The message schedule, kept in reverse order while it grows. *)
Fixpoint extend (n : nat) (w : list N) : list N :=
  match n with
  | O => w
  | S n' =>
      let x k := nth k w 0 in
      extend n' (rotl 1 (N.lxor (N.lxor (x 2%nat) (x 7%nat)) (N.lxor (x 13%nat) (x 15%nat))) :: w)
  end.

Definition schedule (block : list N) : list N :=
  rev (extend 64 (rev (map of_be (chunks 16 4 block)))).

Definition round_fn (t : nat) (b c d : N) : N * N :=
  if (t <? 20)%nat then (N.lor (N.land b c) (N.land (not32 b) d), 0x5A827999)
  else if (t <? 40)%nat then (N.lxor (N.lxor b c) d, 0x6ED9EBA1)
  else if (t <? 60)%nat then
    (N.lor (N.lor (N.land b c) (N.land b d)) (N.land c d), 0x8F1BBCDC)
  else (N.lxor (N.lxor b c) d, 0xCA62C1D6).

Fixpoint rounds (t : nat) (w : list N) (a b c d e : N) : N * N * N * N * N :=
  match w with
  | [] => (a, b, c, d, e)
  | wt :: w' =>
      let '(f, k) := round_fn t b c d in
      let tmp := add32 (add32 (add32 (rotl 5 a) f) (add32 e k)) wt in
      rounds (S t) w' tmp a (rotl 30 b) c d
  end.

Definition compress (h : list N) (block : list N) : list N :=
  match h with
  | [h0; h1; h2; h3; h4] =>
      let '(a, b, c, d, e) := rounds 0 (schedule block) h0 h1 h2 h3 h4 in
      [add32 h0 a; add32 h1 b; add32 h2 c; add32 h3 d; add32 h4 e]
  | _ => h
  end.

Definition initial : list N := [0x67452301; 0xEFCDAB89; 0x98BADCFE; 0x10325476; 0xC3D2E1F0].

(** [hashlib.sha1(msg).digest()]: 20 bytes. *)
Definition sha1 (msg : list N) : list N :=
  let p := pad msg in
  flat_map (be 4) (fold_left compress (chunks (length p) 64 p) initial).

Lemma be_length k n : length (be k n) = k.
Proof. induction k; simpl; [done|]. by rewrite IHk. Qed.

Lemma be_byte k n : Forall (λ b, b < 256) (be k n).
Proof. induction k; simpl; constructor; [apply N.mod_lt; lia|done]. Qed.

Lemma compress_length h block : length h = 5%nat → length (compress h block) = 5%nat.
Proof.
  intros H. destruct h as [|h0 [|h1 [|h2 [|h3 [|h4 [|]]]]]]; try done.
  cbn [compress]. by destruct (rounds _ _ _ _ _ _ _) as [[[[??]?]?]?].
Qed.

Lemma fold_compress_length blocks h :
  length h = 5%nat → length (fold_left compress blocks h) = 5%nat.
Proof. revert h. induction blocks; intros h H; simpl; [done|]. by apply IHblocks, compress_length. Qed.

Lemma flat_map_be_length k (h : list N) : length (flat_map (be k) h) = (k * length h)%nat.
Proof. induction h; simpl; [lia|]. rewrite length_app, be_length, IHh. lia. Qed.

Lemma sha1_length msg : length (sha1 msg) = 20%nat.
Proof.
  unfold sha1. rewrite flat_map_be_length, fold_compress_length; [done|done].
Qed.

Lemma sha1_bytes msg : Forall (λ b, b < 256) (sha1 msg).
Proof.
  unfold sha1. generalize (fold_left compress (chunks (length (pad msg)) 64 (pad msg)) initial).
  intros h. induction h; cbn [flat_map]; [constructor|]. apply Forall_app. split; [apply be_byte|done].
Qed.

Definition hex_digit (n : N) : N := if n <? 10 then 48 + n else 87 + n.
Definition hex_byte (b : N) : pystr := [hex_digit (b / 16); hex_digit (b mod 16)].

(** [UUID(bytes=b, version=5)]: version nibble and RFC 4122 variant bits. *)
Definition uuid_bytes (b : list N) : list N :=
  <[6%nat := N.lor 0x50 (nth 6 b 0 mod 16)]> (<[8%nat := N.lor 0x80 (nth 8 b 0 mod 64)]> b).

(** [str(UUID)]: lower-case hexadecimal in groups of 8-4-4-4-12. *)
Definition uuid_str (b : list N) : pystr :=
  let h (lo n : nat) := flat_map hex_byte (take n (drop lo b)) in
  h 0%nat 4%nat ++ "-" ++ h 4%nat 2%nat ++ "-" ++ h 6%nat 2%nat ++ "-" ++
  h 8%nat 2%nat ++ "-" ++ h 10%nat 6%nat.

Lemma hex_digit_is_hex n : n < 16 → is_lower_hex (hex_digit n) = true.
Proof.
  intros H. unfold hex_digit, is_lower_hex, is_digit, in_range.
  destruct (N.ltb_spec n 10); apply orb_true_iff; [left|right];
    apply andb_true_intro; split; apply N.leb_le; lia.
Qed.

Lemma hex_byte_is_hex b : b < 256 → forallb is_lower_hex (hex_byte b) = true.
Proof.
  intros H. simpl. rewrite !hex_digit_is_hex; [done|apply N.mod_lt; lia|].
  apply N.Div0.div_lt_upper_bound; lia.
Qed.

Lemma hex_bytes_is_hex bs :
  Forall (λ b, b < 256) bs → forallb is_lower_hex (flat_map hex_byte bs) = true.
Proof.
  induction 1 as [|b bs Hb _ IH]; cbn [flat_map]; [done|].
  by rewrite forallb_app, IH, hex_byte_is_hex.
Qed.

Lemma hex_bytes_length bs : length (flat_map hex_byte bs) = (2 * length bs)%nat.
Proof. induction bs; simpl; [done|]. rewrite IHbs. lia. Qed.

Lemma lor_lt_256 a b : a < 256 → b < 256 → N.lor a b < 256.
Proof.
  intros Ha Hb. destruct (N.eq_dec (N.lor a b) 0) as [->|Hz]; [lia|].
  change 256 with (2 ^ 8). apply N.log2_lt_pow2; [lia|]. rewrite N.log2_lor.
  apply N.max_lub_lt.
  - destruct (N.eq_dec a 0) as [->|]; [simpl; lia|]. apply N.log2_lt_pow2; [lia|done].
  - destruct (N.eq_dec b 0) as [->|]; [simpl; lia|]. apply N.log2_lt_pow2; [lia|done].
Qed.

Lemma uuid_bytes_length b : length (uuid_bytes b) = length b.
Proof. unfold uuid_bytes. by rewrite !length_insert. Qed.

Lemma uuid_bytes_byte b : Forall (λ x, x < 256) b → Forall (λ x, x < 256) (uuid_bytes b).
Proof.
  intros H. unfold uuid_bytes. apply Forall_insert; [apply Forall_insert; [done|]|].
  - apply lor_lt_256; [lia|]. apply N.lt_le_trans with 64; [apply N.mod_lt|]; lia.
  - apply lor_lt_256; [lia|]. apply N.lt_le_trans with 16; [apply N.mod_lt|]; lia.
Qed.
End Sha1.
