(* ===== verification/Sha256.v ===== *)
(** * SHA-256 digests

    [hashlib.sha256(contents).hexdigest()], the standard-library function behind [digest_bytes]
    (sdkpython/src/dex_connectors/sdk/projectconfig/models.py), with the word operations of
    Sha1.v. *)

From S2P Require Import Prelude Sha1.

Module Sha256.
Import Sha1.
Open Scope N_scope.

(** The constants of FIPS 180-4, from their definition: the first 32 bits of the fractional parts of
    the cube roots of the first 64 primes, and of the square roots of the first eight. *)
Definition is_prime (n : N) : bool :=
  (1 <? n) && forallb (λ d, negb (n mod d =? 0)) (map N.of_nat (seq 2 (N.to_nat n - 2))).
Definition primes : list N := Eval vm_compute in List.filter is_prime (map N.of_nat (seq 0 312)).

(** The largest number below [2 ^ k] whose [d]-th power is at most [n]. *)
Fixpoint root (d : N) (k : nat) (n acc : N) : N :=
  match k with
  | O => acc
  | S k' =>
      let acc' := acc + 2 ^ N.of_nat k' in
      root d k' n (if acc' ^ d <=? n then acc' else acc)
  end.
Definition root_fraction (d p : N) : N := root d 40 (p * 2 ^ (32 * d)) 0 mod 2 ^ 32.

Definition round_constants : list N := Eval vm_compute in map (root_fraction 3) primes.
Definition initial : list N := Eval vm_compute in map (root_fraction 2) (take 8 primes).

Definition rotr (n x : N) : N := rotl (32 - n) x.
Definition xor3 (a b c : N) : N := N.lxor (N.lxor a b) c.

(** The message schedule, kept in reverse order while it grows. *)
Fixpoint extend (n : nat) (w : list N) : list N :=
  match n with
  | O => w
  | S n' =>
      let x k := nth k w 0 in
      let s0 := xor3 (rotr 7 (x 14%nat)) (rotr 18 (x 14%nat)) (N.shiftr (x 14%nat) 3) in
      let s1 := xor3 (rotr 17 (x 1%nat)) (rotr 19 (x 1%nat)) (N.shiftr (x 1%nat) 10) in
      extend n' (add32 (add32 (x 15%nat) s0) (add32 (x 6%nat) s1) :: w)
  end.

Definition schedule (block : list N) : list N := rev (extend 48 (rev (map of_be (chunks 16 4 block)))).

(** One round on the eight working variables. *)
Definition round (v : list N) (kw : N * N) : list N :=
  match v with
  | [a; b; c; d; e; f; g; h] =>
      let s1 := xor3 (rotr 6 e) (rotr 11 e) (rotr 25 e) in
      let ch := N.lxor (N.land e f) (N.land (not32 e) g) in
      let t1 := add32 (add32 (add32 h s1) (add32 ch (fst kw))) (snd kw) in
      let s0 := xor3 (rotr 2 a) (rotr 13 a) (rotr 22 a) in
      let maj := xor3 (N.land a b) (N.land a c) (N.land b c) in
      [add32 t1 (add32 s0 maj); a; b; c; add32 d t1; e; f; g]
  | _ => v
  end.

Definition compress (h : list N) (block : list N) : list N :=
  zip_with add32 h (fold_left round (zip round_constants (schedule block)) h).

(** [hashlib.sha256(msg).digest()]: 32 bytes. *)
Definition sha256 (msg : list N) : list N :=
  let p := pad msg in
  flat_map (be 4) (fold_left compress (chunks (length p) 64 p) initial).

Definition hexdigest (msg : list N) : pystr := flat_map hex_byte (sha256 msg).

Example hexdigest_abc :
  hexdigest (lit "abc") = lit "ba7816bf8f01cfea414140de5dae2223b00361a396177a9cb410ff61f20015ad".
Proof. vm_compute. reflexivity. Qed.

Lemma compress256_length h block : length h = 8%nat → length (compress h block) = 8%nat.
Proof.
  intros Hh. unfold compress. rewrite length_zip_with.
  enough (length (fold_left round (zip round_constants (schedule block)) h) = 8%nat) by lia.
  generalize (zip round_constants (schedule block)) as ws. intros ws. revert h Hh.
  induction ws as [|kw ws IH]; intros h Hh; [done|]. cbn [fold_left]. apply IH.
  do 9 (destruct h as [|? h]; try done).
Qed.

Lemma hexdigest_length msg : length (hexdigest msg) = 64%nat.
Proof.
  unfold hexdigest, sha256.
  assert (Hl : ∀ blocks h, length h = 8%nat → length (fold_left compress blocks h) = 8%nat).
  { induction blocks as [|b bs IH]; intros h Hh; [done|]. cbn [fold_left]. by apply IH, compress256_length. }
  rewrite hex_bytes_length, flat_map_be_length, Hl; done.
Qed.

End Sha256.
