(* ===== verification/Json.v ===== *)
(** * JSON values

    The value a Python program holds after [json.loads], and passes to
    [json.dumps]: the wire shapes of the SDK are built from these. *)

From S2P Require Import Prelude.

#[local] Set Warnings "-register-all".

Inductive json :=
  | JNull
  | JBool (b : bool)
  | JInt (z : Z)
  | JFloat (f : pyfloat)
  | JStr (s : pystr)
  | JArr (items : list json)
  | JObj (members : list (pystr * json)).

(** Induction with hypotheses for the elements of arrays and objects. *)
Section JsonInd.
Context (P : json → Prop).
Hypothesis Hnull : P JNull.
Hypothesis Hbool : ∀ b, P (JBool b).
Hypothesis Hint : ∀ z, P (JInt z).
Hypothesis Hfloat : ∀ f, P (JFloat f).
Hypothesis Hstr : ∀ s, P (JStr s).
Hypothesis Harr : ∀ l, Forall P l → P (JArr l).
Hypothesis Hobj : ∀ d, Forall (λ kv, P kv.2) d → P (JObj d).

Fixpoint json_ind' (j : json) : P j :=
  match j with
  | JNull => Hnull
  | JBool b => Hbool b
  | JInt z => Hint z
  | JFloat f => Hfloat f
  | JStr s => Hstr s
  | JArr l =>
      Harr l ((fix go (l : list json) : Forall P l :=
        match l with [] => Forall_nil_2 P | x :: l' => Forall_cons_2 P x l' (json_ind' x) (go l') end) l)
  | JObj d =>
      Hobj d ((fix go (d : list (pystr * json)) : Forall (λ kv, P kv.2) d :=
        match d with
        | [] => Forall_nil_2 _
        | kv :: d' => Forall_cons_2 _ kv d' (json_ind' kv.2) (go d')
        end) d)
  end.
End JsonInd.

(** [value[key]] on a dictionary. *)
Definition item (key : pystr) (d : dict json) : res json :=
  match dget key d with Some v => Ok v | None => raise KeyError key end.

(** [value.get(key, default)] and [value.get(key)]. *)
Definition get_or (key : pystr) (default : json) (d : dict json) : json :=
  match dget key d with Some v => v | None => default end.
Definition get (key : pystr) (d : dict json) : json := get_or key JNull d.

Definition is_str (j : json) : bool := match j with JStr _ => true | _ => false end.
Definition is_dict (j : json) : bool := match j with JObj _ => true | _ => false end.
Definition is_list (j : json) : bool := match j with JArr _ => true | _ => false end.
(** [isinstance(v, int) and not isinstance(v, bool)]. *)
Definition is_int (j : json) : bool := match j with JInt _ => true | _ => false end.

(** Truth value of a JSON value. *)
Definition jtruthy (j : json) : bool :=
  match j with
  | JNull => false
  | JBool b => b
  | JInt z => negb (z =? 0)%Z
  | JFloat f => negb (feq f (FFin 0 0))
  | JStr s => truthy s
  | JArr l => match l with [] => false | _ => true end
  | JObj d => match d with [] => false | _ => true end
  end.

(** [set(d) == {k1, ...}] for a dictionary and distinct expected keys. *)
Definition keys_exactly (d : dict json) (expected : list pystr) : bool :=
  forallb (λ k, bool_decide (k ∈ expected)) (dkeys d) && forallb (λ k, dhas k d) expected.

(** [set(d) <= {k1, ...}]. *)
Definition keys_within (d : dict json) (allowed : list pystr) : bool :=
  forallb (λ k, bool_decide (k ∈ allowed)) (dkeys d).

(** The numeric value Python compares [int], [float] and [bool] by. *)
Definition num_value (j : json) : option pyfloat :=
  match j with
  | JBool b => Some (FFin (if b then 1 else 0) 0)
  | JInt z => Some (FFin z 0)
  | JFloat f => Some f
  | _ => None
  end.

(** Python [==]: numbers by value across types, objects without member order. *)
Fixpoint py_eq (a b : json) : bool :=
  match num_value a, num_value b with
  | Some x, Some y => feq x y
  | Some _, None | None, Some _ => false
  | None, None =>
      match a, b with
      | JNull, JNull => true
      | JStr s, JStr t => bool_decide (s = t)
      | JArr l, JArr m =>
          (fix go (l m : list json) : bool :=
             match l, m with
             | [], [] => true
             | x :: l', y :: m' => py_eq x y && go l' m'
             | _, _ => false
             end) l m
      | JObj d, JObj e =>
          (length d =? length e)%nat &&
          (fix go (d : list (pystr * json)) : bool :=
             match d with
             | [] => true
             | (k, v) :: d' =>
                 match dget k e with Some w => py_eq v w | None => false end && go d'
             end) d
      | _, _ => false
      end
  end.
