(* ===== verification/JsonText.v ===== *)
(** * json.loads

    The standard library's JSON decoder, which the SDK reads every stored document and answer with:
    [loads] of a text and [loads_bytes] of its encoding, as CPython's accelerated scanner reads them
    ([NaN] and the infinities accepted, the last of equal keys kept, control characters refused).
    Nesting beyond the interpreter's recursion limit is not modelled. *)

From S2P Require Import Prelude Json.

(** ** Text encodings *)

Definition cont_byte (b : N) : bool := in_range 0x80 0xBF b.

(** [bytes.decode("utf-8", "surrogatepass")]: shortest forms up to U+10FFFF, surrogates included. *)
Fixpoint utf8_decode (bytes : list N) : option pystr :=
  match bytes with
  | [] => Some []
  | a :: r =>
      if (a <? 0x80)%N then (cons a) <$> utf8_decode r
      else if in_range 0xC2 0xDF a then
        match r with
        | x :: r => if cont_byte x then cons ((a - 0xC0) * 64 + (x - 0x80))%N <$> utf8_decode r else None
        | _ => None
        end
      else if in_range 0xE0 0xEF a then
        match r with
        | x :: y :: r =>
            if cont_byte x && cont_byte y && ((0xE0 <? a)%N || (0xA0 <=? x)%N)
            then cons ((a - 0xE0) * 4096 + (x - 0x80) * 64 + (y - 0x80))%N <$> utf8_decode r else None
        | _ => None
        end
      else if in_range 0xF0 0xF4 a then
        match r with
        | x :: y :: z :: r =>
            if cont_byte x && cont_byte y && cont_byte z && ((0xF0 <? a)%N || (0x90 <=? x)%N)
               && ((a <? 0xF4)%N || (x <? 0x90)%N)
            then cons ((a - 0xF0) * 262144 + (x - 0x80) * 4096 + (y - 0x80) * 64 + (z - 0x80))%N
                   <$> utf8_decode r
            else None
        | _ => None
        end
      else None
  end.

(** [bytes.decode("utf-8", errors="replace")]: every maximal part of a sequence that cannot be completed
    becomes U+FFFD. *)
Fixpoint utf8_replace (bytes : list N) : pystr :=
  match bytes with
  | [] => []
  | a :: r =>
      if (a <? 0x80)%N then a :: utf8_replace r
      else if in_range 0xC2 0xDF a then
        match r with
        | x :: r1 => if cont_byte x then ((a - 0xC0) * 64 + (x - 0x80))%N :: utf8_replace r1
                     else 0xFFFD%N :: utf8_replace r
        | [] => [0xFFFD%N]
        end
      else if in_range 0xE0 0xEF a then
        match r with
        | x :: r1 =>
            if cont_byte x && (negb (a =? 0xE0)%N || (0xA0 <=? x)%N) && (negb (a =? 0xED)%N || (x <? 0xA0)%N) then
              match r1 with
              | y :: r2 => if cont_byte y
                           then ((a - 0xE0) * 4096 + (x - 0x80) * 64 + (y - 0x80))%N :: utf8_replace r2
                           else 0xFFFD%N :: utf8_replace r1
              | [] => [0xFFFD%N]
              end
            else 0xFFFD%N :: utf8_replace r
        | [] => [0xFFFD%N]
        end
      else if in_range 0xF0 0xF4 a then
        match r with
        | x :: r1 =>
            if cont_byte x && (negb (a =? 0xF0)%N || (0x90 <=? x)%N) && (negb (a =? 0xF4)%N || (x <? 0x90)%N) then
              match r1 with
              | y :: r2 =>
                  if cont_byte y then
                    match r2 with
                    | z :: r3 =>
                        if cont_byte z
                        then ((a - 0xF0) * 262144 + (x - 0x80) * 4096 + (y - 0x80) * 64 + (z - 0x80))%N
                               :: utf8_replace r3
                        else 0xFFFD%N :: utf8_replace r2
                    | [] => [0xFFFD%N]
                    end
                  else 0xFFFD%N :: utf8_replace r1
              | [] => [0xFFFD%N]
              end
            else 0xFFFD%N :: utf8_replace r
        | [] => [0xFFFD%N]
        end
      else 0xFFFD%N :: utf8_replace r
  end.

Definition is_high (c : N) : bool := in_range 0xD800 0xDBFF c.
Definition is_low (c : N) : bool := in_range 0xDC00 0xDFFF c.
Definition join_surrogates (high low : N) : N := (0x10000 + (high - 0xD800) * 1024 + (low - 0xDC00))%N.

(** UTF-16 and UTF-32 units, big or little endian, surrogates passed through. *)
Fixpoint utf16_decode (little : bool) (bytes : list N) : option pystr :=
  let unit a b := (if little then b * 256 + a else a * 256 + b)%N in
  match bytes with
  | [] => Some []
  | a :: b :: r =>
      match r with
      | c :: d :: r' =>
          if is_high (unit a b) && is_low (unit c d)
          then cons (join_surrogates (unit a b) (unit c d)) <$> utf16_decode little r'
          else cons (unit a b) <$> utf16_decode little r
      | _ => cons (unit a b) <$> utf16_decode little r
      end
  | _ => None
  end.

Fixpoint utf32_decode (little : bool) (bytes : list N) : option pystr :=
  match bytes with
  | [] => Some []
  | a :: b :: c :: d :: r =>
      let u := (if little then ((d * 256 + c) * 256 + b) * 256 + a
                else ((a * 256 + b) * 256 + c) * 256 + d)%N in
      if (u <? 0x110000)%N then cons u <$> utf32_decode little r else None
  | _ => None
  end.

(** [json.detect_encoding] and the decoding it selects. *)
Definition decode_text (bytes : list N) : option pystr :=
  let bom prefix := starts_with prefix bytes in
  let zero k := (nth k bytes 1 =? 0)%N in
  if bom [0; 0; 0xFE; 0xFF]%N then utf32_decode false (drop 4 bytes)
  else if bom [0xFF; 0xFE; 0; 0]%N then utf32_decode true (drop 4 bytes)
  else if bom [0xFE; 0xFF]%N then utf16_decode false (drop 2 bytes)
  else if bom [0xFF; 0xFE]%N then utf16_decode true (drop 2 bytes)
  else if bom [0xEF; 0xBB; 0xBF]%N then utf8_decode (drop 3 bytes)
  else if (4 <=? length bytes)%nat then
    if zero 0%nat then (if zero 1%nat then utf32_decode false bytes else utf16_decode false bytes)
    else if zero 1%nat then
      (if zero 2%nat && zero 3%nat then utf32_decode true bytes else utf16_decode true bytes)
    else utf8_decode bytes
  else if (length bytes =? 2)%nat then
    if zero 0%nat then utf16_decode false bytes
    else if zero 1%nat then utf16_decode true bytes else utf8_decode bytes
  else utf8_decode bytes.

(** ** The scanner *)

Definition decode_error {A} (message : pystr) : res A := raise ValueError message.

Definition json_space (c : N) : bool := (c =? 32)%N || (c =? 9)%N || (c =? 10)%N || (c =? 13)%N.
Definition skip_space (s : pystr) : pystr := drop_while json_space s.

Definition hex_value (c : N) : option N :=
  if is_digit c then Some (c - 48)%N
  else if in_range 97 102 c then Some (c - 87)%N
  else if in_range 65 70 c then Some (c - 55)%N
  else None.

Definition hex4_value (a b c d : N) : option N :=
  a ← hex_value a; b ← hex_value b; c ← hex_value c; d ← hex_value d;
  Some (((a * 16 + b) * 16 + c) * 16 + d)%N.

(** The character of a one-letter escape. *)
Definition escape_char (c : N) : option N :=
  if (c =? 34)%N || (c =? 92)%N || (c =? 47)%N then Some c
  else if (c =? 98)%N then Some 8%N
  else if (c =? 102)%N then Some 12%N
  else if (c =? 110)%N then Some 10%N
  else if (c =? 114)%N then Some 13%N
  else if (c =? 116)%N then Some 9%N
  else None.

(** A \u escape at the start of the text. *)
Definition low_escape (s : pystr) : option (N * pystr) :=
  match s with
  | bs :: u :: a :: b :: c :: d :: r =>
      if (bs =? 92)%N && (u =? 117)%N then
        match hex4_value a b c d with
        | Some v => if is_low v then Some (v, r) else None
        | None => None
        end
      else None
  | _ => None
  end.

(** The rest of a string after its opening quote: its value and what follows the closing quote.
    An escaped high surrogate takes an escaped low one with it. *)
Fixpoint scan_string (s : pystr) : res (pystr * pystr) :=
  match s with
  | [] => decode_error "Unterminated string starting at"
  | c :: r =>
      if (c =? 34)%N then Ok ([], r)
      else if (c =? 92)%N then
        match r with
        | [] => decode_error "Unterminated string starting at"
        | e :: r =>
            if (e =? 117)%N then
              match r with
              | a :: b :: c :: d :: r =>
                  match hex4_value a b c d with
                  | None => decode_error "Invalid \uXXXX escape"
                  | Some v =>
                      match r with
                      | _ :: _ :: _ :: _ :: _ :: _ :: r' =>
                          match (if is_high v then low_escape r else None) with
                          | Some (w, _) => '(t, rest) ← scan_string r'; Ok (join_surrogates v w :: t, rest)
                          | None => '(t, rest) ← scan_string r; Ok (v :: t, rest)
                          end
                      | _ => '(t, rest) ← scan_string r; Ok (v :: t, rest)
                      end
                  end
              | _ => decode_error "Invalid \uXXXX escape"
              end
            else
              match escape_char e with
              | Some v => '(t, rest) ← scan_string r; Ok (v :: t, rest)
              | None => decode_error "Invalid \escape"
              end
        end
      else if (c <? 32)%N then decode_error "Invalid control character at"
      else '(t, rest) ← scan_string r; Ok (c :: t, rest)
  end.

(** The binary64 value of [digits * 10 ^ exponent]. *)
Definition float_of_decimal (negative : bool) (digits : pystr) (exponent : Z) : pyfloat :=
  let n := (if negative then - digits_value digits else digits_value digits)%Z in
  let f := if (0 <=? exponent)%Z then round_ratio (n * 10 ^ exponent) 1
           else round_ratio n (10 ^ (- exponent)) in
  if fle (FFin (2 ^ 1024) 0) f || fle f (FFin (- 2 ^ 1024) 0) then FInf negative else f.

Fixpoint span (p : N → bool) (s : pystr) : pystr * pystr :=
  match s with
  | c :: s' => if p c then let '(a, b) := span p s' in (c :: a, b) else ([], s)
  | [] => ([], [])
  end.

Definition head_is (c : N) (s : pystr) : bool := match s with x :: _ => (x =? c)%N | [] => false end.

(** The fraction and exponent after the integer digits; a point or [e] without digits is not read. *)
Definition scan_fraction (s : pystr) : option pystr * pystr :=
  if head_is 46 s then
    match span is_digit (tail s) with
    | ([], _) => (None, s)
    | (f, r) => (Some f, r)
    end
  else (None, s).

Definition scan_exponent (s : pystr) : option Z * pystr :=
  if head_is 101 s || head_is 69 s then
    let r := tail s in
    let '(negative, r) := if head_is 45 r then (true, tail r) else if head_is 43 r then (false, tail r) else (false, r) in
    match span is_digit r with
    | ([], _) => (None, s)
    | (e, r) => (Some (if negative then - digits_value e else digits_value e)%Z, r)
    end
  else (None, s).

(** A number; [s] starts at its first character. *)
Definition scan_number (s : pystr) : res (json * pystr) :=
  let negative := head_is 45 s in
  let s := if negative then tail s else s in
  let '(digits, r) := if head_is 48 s then ([48%N], tail s) else span is_digit s in
  match digits with
  | [] => decode_error "Expecting value"
  | _ =>
      let '(fraction, r) := scan_fraction r in
      let '(exponent, r) := scan_exponent r in
      match fraction, exponent with
      | None, None =>
          raise_if (4300 <? length digits)%nat
            ValueError "Exceeds the limit (4300 digits) for integer string conversion" ≫= λ _,
          Ok (JInt (if negative then - digits_value digits else digits_value digits)%Z, r)
      | _, _ =>
          let f := default [] fraction in
          Ok (JFloat (float_of_decimal negative (digits ++ f) (default 0 exponent - Z.of_nat (length f))%Z), r)
      end
  end.

(** A literal at the start of the text. *)
Definition after (word s : pystr) : option pystr :=
  if starts_with word s then Some (drop (length word) s) else None.

Definition scan_literal (s : pystr) : option (json * pystr) :=
  let try_word word v := match after word s with Some r => Some (v, r) | None => None end in
  match try_word "null" JNull with Some x => Some x | None =>
  match try_word "true" (JBool true) with Some x => Some x | None =>
  match try_word "false" (JBool false) with Some x => Some x | None =>
  match try_word "NaN" (JFloat FNan) with Some x => Some x | None =>
  match try_word "Infinity" (JFloat (FInf false)) with Some x => Some x | None =>
  try_word "-Infinity" (JFloat (FInf true)) end end end end end.

(** [scan_once]; the measure bounds the nested calls by the characters they consume. *)
Fixpoint scan_once (n : nat) (s : pystr) {struct n} : res (json * pystr) :=
  match n with
  | O => decode_error "Expecting value"
  | S n =>
      match s with
      | [] => decode_error "Expecting value"
      | c :: r =>
          if (c =? 34)%N then '(v, rest) ← scan_string r; Ok (JStr v, rest)
          else if (c =? 123)%N then
            let r := skip_space r in
            if head_is 125 r then Ok (JObj [], tail r)
            else '(d, rest) ← scan_members n r []; Ok (JObj d, rest)
          else if (c =? 91)%N then
            let r := skip_space r in
            if head_is 93 r then Ok (JArr [], tail r)
            else '(l, rest) ← scan_items n r; Ok (JArr l, rest)
          else
            match scan_literal s with
            | Some x => Ok x
            | None => scan_number s
            end
      end
  end
with scan_items (n : nat) (s : pystr) {struct n} : res (list json * pystr) :=
  match n with
  | O => decode_error "Expecting value"
  | S n =>
      '(v, r) ← scan_once n s;
      let r := skip_space r in
      if head_is 93 r then Ok ([v], tail r)
      else if head_is 44 r then '(l, rest) ← scan_items n (skip_space (tail r)); Ok (v :: l, rest)
      else decode_error "Expecting ',' delimiter"
  end
with scan_members (n : nat) (s : pystr) (d : dict json) {struct n} : res (dict json * pystr) :=
  match n with
  | O => decode_error "Expecting value"
  | S n =>
      if negb (head_is 34 s) then decode_error "Expecting property name enclosed in double quotes"
      else
        '(k, r) ← scan_string (tail s);
        let r := skip_space r in
        if negb (head_is 58 r) then decode_error "Expecting ':' delimiter"
        else
          '(v, r) ← scan_once n (skip_space (tail r));
          let d := dset k v d in
          let r := skip_space r in
          if head_is 125 r then Ok (d, tail r)
          else if head_is 44 r then scan_members n (skip_space (tail r)) d
          else decode_error "Expecting ',' delimiter"
  end.

(** [json.loads] of a text. *)
Definition loads (s : pystr) : res json :=
  if head_is 0xFEFF s then decode_error "Unexpected UTF-8 BOM (decode using utf-8-sig)"
  else
    let s := skip_space s in
    '(v, rest) ← scan_once (length s + 1) s;
    match skip_space rest with
    | [] => Ok v
    | _ => decode_error "Extra data"
    end.

(** [json.loads] of encoded bytes. *)
Definition loads_bytes (bytes : list N) : res json :=
  match decode_text bytes with
  | Some s => loads s
  | None => raise ValueError "can't decode bytes"
  end.

(** A text whose quotes are written as apostrophes. *)
Definition quoted (s : pystr) : pystr := replace_char 39 [34%N] s.

Example loads_sample :
  loads (quoted "{'a': [1, -2.5e1, 'x\u00e9\n'], 'b': {} , 'c':'\ud83d\ude00\ud83d', 'a': null}")
  = Ok (JObj [(lit "a", JNull); (lit "b", JObj []); (lit "c", JStr [0x1F600; 0xD83D]%N)]).
Proof. vm_compute. reflexivity. Qed.

Example loads_numbers :
  loads "[0, -0, 12, 1.5, 2e3, 1e400, 5e-324, -Infinity]"
  = Ok (JArr [JInt 0; JInt 0; JInt 12; JFloat (FFin (3 * 2 ^ 51) (-52)); JFloat (FFin (2000 * 2 ^ 42) (-42));
              JFloat (FInf false); JFloat (FFin 1 (-1074)); JFloat (FInf true)]).
Proof. vm_compute. reflexivity. Qed.

Example loads_refuses : forallb (λ s, negb (is_ok (loads s)))
  [lit ""; lit "01"; lit "[1,]"; lit "nul"; lit "1 2"; lit "-"; lit "[1 2]"; lit "{1:2}"; lit "+1"] = true.
Proof. vm_compute. reflexivity. Qed.
