(* ===== verification/Timestamps.v ===== *)
(** * Go-compatible RFC 3339 timestamps

    sdkpython/src/dex_connectors/sdk/timestamps.py: parsing of Go [time.Time] JSON,
    the offset-preserving [RFC3339NanoTimestamp] and formatting of aware datetimes. *)

From S2P Require Import Prelude.

Module GoTime.
Open Scope Z_scope.

(** The standard library's [datetime], by its components; [dt_offset] is the
    UTC offset in microseconds, absent for a naive value. *)
Record datetime := DT {
  dt_year : Z; dt_month : Z; dt_day : Z;
  dt_hour : Z; dt_minute : Z; dt_second : Z; dt_micro : Z;
  dt_offset : option Z
}.

Definition is_leap (y : Z) : bool :=
  (y mod 4 =? 0) && (negb (y mod 100 =? 0) || (y mod 400 =? 0)).

Definition days_in_month (y m : Z) : Z :=
  if m =? 2 then (if is_leap y then 29 else 28)
  else if (m =? 4) || (m =? 6) || (m =? 9) || (m =? 11) then 30 else 31.

(** [date(y, m, d)] does not raise. *)
Definition date_valid (y m d : Z) : bool :=
  (1 <=? y) && (y <=? 9999) && (1 <=? m) && (m <=? 12) && (1 <=? d) && (d <=? days_in_month y m).

(** [date.toordinal() - 1]: days since 0001-01-01. *)
Definition days_before_year (y : Z) : Z :=
  let p := y - 1 in p * 365 + p / 4 - p / 100 + p / 400.
Definition days_before_month (y m : Z) : Z :=
  fold_left (λ acc k, acc + days_in_month y (Z.of_nat k)) (seq 1 (Z.to_nat (m - 1))) 0.
Definition day_number (y m d : Z) : Z := days_before_year y + days_before_month y m + (d - 1).

(** Microseconds since [datetime.min] in UTC; a naive value counts as UTC. *)
Definition instant (t : datetime) : Z :=
  ((day_number (dt_year t) (dt_month t) (dt_day t) * 86400
    + dt_hour t * 3600 + dt_minute t * 60 + dt_second t) * 1000000 + dt_micro t)
  - default 0 (dt_offset t).

(** [datetime.min.replace(tzinfo=UTC)]. *)
Definition datetime_min_utc : datetime := DT 1 1 1 0 0 0 0 (Some 0).

Definition datetime_eqb (a b : datetime) : bool := instant a =? instant b.

(** The month that day [n] (from 0) of year [y] lies in. *)
Definition month_of (y n : Z) : Z :=
  default 1 (List.find (λ m, days_before_month y m <=? n) [12; 11; 10; 9; 8; 7; 6; 5; 4; 3; 2; 1]).

(** [date.fromordinal(n + 1)]: year, month and day of a day number. *)
Definition civil (n : Z) : Z * Z * Z :=
  let a := n / 146097 in let n1 := n mod 146097 in
  let b := n1 / 36524 in let n2 := n1 mod 36524 in
  let c := n2 / 1461 in let n3 := n2 mod 1461 in
  let d := n3 / 365 in let n4 := n3 mod 365 in
  let y := a * 400 + b * 100 + c * 4 + d + 1 in
  if (d =? 4) || (b =? 4) then (y - 1, 12, 31)
  else let m := month_of y n4 in (y, m, n4 - days_before_month y m + 1).

(** [t + timedelta(microseconds=us)]. *)
Definition add_micros (t : datetime) (us : Z) : res datetime :=
  let local := instant t + default 0 (dt_offset t) + us in
  let days := local / 86400000000 in
  let rest := local mod 86400000000 in
  raise_if ((days <? 0) || (3652058 <? days)) OverflowError "date value out of range" ≫= λ _,
  let '(y, m, d) := civil days in
  Ok (DT y m d (rest / 3600000000) (rest / 60000000 mod 60) (rest / 1000000 mod 60) (rest mod 1000000)
        (dt_offset t)).

(** The groups of [_TIMESTAMP]. *)
Record go_parts := GoParts {
  g_year : pystr; g_month : pystr; g_day : pystr;
  g_hour : pystr; g_minute : pystr; g_second : pystr;
  g_fraction : option pystr; g_offset : pystr
}.

Fixpoint take_digits (n : nat) (s : pystr) : option (pystr * pystr) :=
  match n with
  | O => Some ([], s)
  | S n' =>
      match s with
      | c :: s' =>
          if is_digit c then '(ds, rest) ← take_digits n' s'; Some (c :: ds, rest) else None
      | [] => None
      end
  end.

Definition expect (c : N) (s : pystr) : option pystr :=
  match s with d :: s' => if (d =? c)%N then Some s' else None | [] => None end.

(** [[0-9]+] takes every leading digit. *)
Fixpoint span_digits (s : pystr) : pystr * pystr :=
  match s with
  | c :: s' => if is_digit c then let '(ds, rest) := span_digits s' in (c :: ds, rest) else ([], s)
  | [] => ([], [])
  end.

Definition match_hour (s : pystr) : option (pystr * pystr) :=
  match take_digits 2 s with Some r => Some r | None => take_digits 1 s end.

Definition match_fraction (s : pystr) : option (option pystr * pystr) :=
  match s with
  | c :: s' =>
      if (c =? 46)%N || (c =? 44)%N then
        match span_digits s' with ([], _) => None | (ds, rest) => Some (Some ds, rest) end
      else Some (None, s)
  | [] => Some (None, s)
  end.

Definition match_offset (s : pystr) : option pystr :=
  if bool_decide (s = lit "Z") then Some s
  else
    match s with
    | sign :: s1 =>
        if (sign =? 43)%N || (sign =? 45)%N then
          '(hh, s2) ← take_digits 2 s1; s3 ← expect 58 s2; '(mm, s4) ← take_digits 2 s3;
          match s4 with [] => Some s | _ => None end
        else None
    | [] => None
    end.

(** [_TIMESTAMP.fullmatch(value)]. *)
Definition match_timestamp (s : pystr) : option go_parts :=
  '(year, s) ← take_digits 4 s; s ← expect 45 s;
  '(month, s) ← take_digits 2 s; s ← expect 45 s;
  '(day, s) ← take_digits 2 s; s ← expect 84 s;
  '(hour, s) ← match_hour s; s ← expect 58 s;
  '(minute, s) ← take_digits 2 s; s ← expect 58 s;
  '(second, s) ← take_digits 2 s;
  '(fraction, s) ← match_fraction s;
  offset ← match_offset s;
  Some (GoParts year month day hour minute second fraction offset).

(** [offset[1:3]] and [offset[4:6]] as integers. *)
Definition offset_hours (o : pystr) : Z := digits_value (take 2 (drop 1 o)).
Definition offset_minutes (o : pystr) : Z := digits_value (take 2 (drop 4 o)).

Definition rstrip_zeros (s : pystr) : pystr := drop_while_end (λ c, (c =? 48)%N) s.

Definition is_zulu (o : pystr) : bool := bool_decide (o = lit "Z").

Definition canonical_offset (o : pystr) : pystr :=
  if bool_decide (o = lit "+00:00") || bool_decide (o = lit "-00:00") then lit "Z" else o.

Definition canonical_of (p : go_parts) : pystr :=
  let fraction := rstrip_zeros (default [] (g_fraction p)) in
  g_year p ++ "-" ++ g_month p ++ "-" ++ g_day p ++ "T" ++ two_digits (digits_value (g_hour p))
    ++ ":" ++ g_minute p ++ ":" ++ g_second p
    ++ (if truthy fraction then "." ++ fraction else []) ++ canonical_offset (g_offset p).

(** The date check: every Python date, and year 0000 as a leap year. *)
Definition go_date_ok (p : go_parts) : bool :=
  let month := digits_value (g_month p) in
  let day := digits_value (g_day p) in
  date_valid (digits_value (g_year p)) month day ||
  (bool_decide (g_year p = lit "0000") && (1 <=? month) && (month <=? 12)
   && (1 <=? day) && (day <=? 31)
   && (day <=? (if month =? 2 then 29
                else if (month =? 4) || (month =? 6) || (month =? 9) || (month =? 11)
                     then 30 else 31))).

(** [_go_time_parts]. *)
Definition _go_time_parts (value : pystr) : res (go_parts * pystr) :=
  match match_timestamp value with
  | None => raise ValueError "timestamp must be a Go RFC 3339 time"
  | Some p =>
      raise_if (negb (go_date_ok p)) ValueError "timestamp has an invalid date" ≫= λ _,
      raise_if ((23 <? digits_value (g_hour p)) || (59 <? digits_value (g_minute p))
                || (59 <? digits_value (g_second p)))
        ValueError "timestamp has an invalid clock time" ≫= λ _,
      raise_if (negb (is_zulu (g_offset p))
                && ((24 <? offset_hours (g_offset p)) || (60 <? offset_minutes (g_offset p))))
        ValueError "timestamp has an invalid timezone offset" ≫= λ _,
      Ok (p, canonical_of p)
  end.

Definition offset_micros (o : pystr) : Z :=
  if is_zulu o then 0
  else (if starts_with "-" o then -1 else 1)
       * (offset_hours o * 60 + offset_minutes o) * 60000000.

(** [datetime.fromisoformat] on the [YYYY-MM-DDTHH:MM:SS[.f]offset] form: a
    fraction is read to six digits. *)
Definition fromisoformat (s : pystr) : res datetime :=
  match match_timestamp s with
  | None => raise ValueError "Invalid isoformat string"
  | Some p =>
      Ok (DT (digits_value (g_year p)) (digits_value (g_month p)) (digits_value (g_day p))
            (digits_value (g_hour p)) (digits_value (g_minute p)) (digits_value (g_second p))
            (digits_value (take 6 (default [] (g_fraction p) ++ "000000")))
            (Some (offset_micros (g_offset p))))
  end.

(** [parse_go_datetime_input]; both wrappers re-raise with the field name. *)
Definition parse_go_datetime_input (value field_name : pystr) : res datetime :=
  let run :=
    '(p, canonical) ← _go_time_parts value;
    raise_if (bool_decide (g_year p = lit "0000")
              || existsb (λ d, negb (d =? 48)%N) (drop 6 (default [] (g_fraction p))))
      ValueError "cannot be represented exactly as a Python datetime" ≫= λ _,
    raise_if (negb (is_zulu (g_offset p))
              && ((23 <? offset_hours (g_offset p)) || (59 <? offset_minutes (g_offset p))))
      ValueError "cannot be represented exactly as a Python datetime" ≫= λ _,
    fromisoformat canonical in
  match run with
  | Ok t => Ok t
  | Err e => raise ValueError (field_name ++ ": " ++ exn_msg e)
  end.

Record RFC3339NanoTimestamp := Nano { wire : pystr }.

Definition parsed (t : RFC3339NanoTimestamp) : res datetime :=
  parse_go_datetime_input (wire t) "timestamp".

Definition from_wire (value : pystr) : res RFC3339NanoTimestamp :=
  '(_, canonical) ← _go_time_parts value; Ok (Nano canonical).

(** [f"{n:0kd}"] for a natural number below [10^k]. *)
Fixpoint padded (k : nat) (n : Z) : pystr :=
  match k with
  | O => []
  | S k' => padded k' (n / 10) ++ [Z.to_N (48 + n mod 10)]
  end.

(** The offset part of [datetime.isoformat()]. *)
Definition iso_offset (off : Z) : pystr :=
  let a := Z.abs off in
  (if off <? 0 then "-" else "+")
    ++ padded 2 (a / 3600000000) ++ ":" ++ padded 2 (a / 60000000 mod 60)
    ++ (if a mod 60000000 =? 0 then []
        else ":" ++ padded 2 (a / 1000000 mod 60)
             ++ (if a mod 1000000 =? 0 then [] else "." ++ padded 6 (a mod 1000000))).

(** [value.isoformat(timespec="microseconds").replace("+00:00", "Z")]: the text
    "+00:00" can only open the offset part. *)
Definition iso_wire (t : datetime) (off : Z) : pystr :=
  padded 4 (dt_year t) ++ "-" ++ padded 2 (dt_month t) ++ "-" ++ padded 2 (dt_day t) ++ "T"
    ++ padded 2 (dt_hour t) ++ ":" ++ padded 2 (dt_minute t) ++ ":" ++ padded 2 (dt_second t)
    ++ "." ++ padded 6 (dt_micro t)
    ++ (let o := iso_offset off in
        if starts_with "+00:00" o then "Z" ++ drop 6 o else o).

Definition from_datetime (t : datetime) : res RFC3339NanoTimestamp :=
  match dt_offset t with
  | None => raise ValueError "timestamp requires a timezone offset"
  | Some off => from_wire (iso_wire t off)
  end.

(** A receipt or expiry time: a preserved Go timestamp or a datetime. *)
Inductive timestamp :=
  | TNano (t : RFC3339NanoTimestamp)
  | TDate (d : datetime).

Definition format_rfc3339_nano (v : timestamp) : res pystr :=
  match v with
  | TNano t => Ok (wire t)
  | TDate d => wire <$> from_datetime d
  end.

(** ** Calendar arithmetic *)

(** The days before each month, [l] being 1 in a leap year. *)
Definition days_before_table (l m : Z) : Z :=
  match m with
  | 1 => 0 | 2 => 31 | 3 => 59 + l | 4 => 90 + l | 5 => 120 + l | 6 => 151 + l | 7 => 181 + l
  | 8 => 212 + l | 9 => 243 + l | 10 => 273 + l | 11 => 304 + l | _ => 334 + l
  end.
Definition leap_day (y : Z) : Z := if is_leap y then 1 else 0.

Lemma month_cases m : 1 <= m <= 12 →
  m = 1 ∨ m = 2 ∨ m = 3 ∨ m = 4 ∨ m = 5 ∨ m = 6 ∨ m = 7 ∨ m = 8 ∨ m = 9 ∨ m = 10 ∨ m = 11 ∨ m = 12.
Proof. lia. Qed.

Lemma days_before_month_table y m : 1 <= m <= 12 →
  days_before_month y m = days_before_table (leap_day y) m.
Proof.
  intros Hm%month_cases. unfold days_before_month, leap_day, days_in_month.
  repeat destruct Hm as [->|Hm]; try subst m; cbn; destruct (is_leap y); reflexivity.
Qed.

Lemma month_of_spec y n : 0 <= n < 365 + leap_day y →
  let m := month_of y n in
  1 <= m <= 12 ∧ days_before_month y m <= n < days_before_month y m + days_in_month y m.
Proof.
  intros Hn. cbv zeta. unfold month_of. cbn [List.find]. rewrite !days_before_month_table by lia.
  assert (Hl : leap_day y = 0 ∨ leap_day y = 1) by (unfold leap_day; destruct (is_leap y); auto).
  assert (Hf : days_in_month y 2 = 28 + leap_day y) by (unfold days_in_month, leap_day; cbn; by destruct (is_leap y)).
  cbn [days_before_table].
  repeat match goal with |- context [if ?a <=? n then _ else _] => destruct (Z.leb_spec a n) end;
    try (exfalso; lia); cbn [from_option id];
    rewrite days_before_month_table by lia; cbn [days_before_table]; rewrite ?Hf; unfold days_in_month; cbn; lia.
Qed.

Lemma civil_spec n : 0 <= n → 
  let '(y, m, d) := civil n in day_number y m d = n ∧ 1 <= m <= 12 ∧ 1 <= d <= days_in_month y m.
Proof.
  intros Hn. unfold civil.
  pose proof (Z.div_mod n 146097 ltac:(lia)). pose proof (Z.mod_pos_bound n 146097 ltac:(lia)).
  set (a := n / 146097) in *. set (n1 := n mod 146097) in *. clearbody a n1.
  pose proof (Z.div_mod n1 36524 ltac:(lia)). pose proof (Z.mod_pos_bound n1 36524 ltac:(lia)).
  set (b := n1 / 36524) in *. set (n2 := n1 mod 36524) in *. clearbody b n2.
  pose proof (Z.div_mod n2 1461 ltac:(lia)). pose proof (Z.mod_pos_bound n2 1461 ltac:(lia)).
  set (c := n2 / 1461) in *. set (n3 := n2 mod 1461) in *. clearbody c n3.
  pose proof (Z.div_mod n3 365 ltac:(lia)). pose proof (Z.mod_pos_bound n3 365 ltac:(lia)).
  set (d := n3 / 365) in *. set (n4 := n3 mod 365) in *. clearbody d n4.
  assert (0 <= b <= 4 ∧ 0 <= c <= 24 ∧ 0 <= d <= 4) as (? & ? & ?) by lia.
  assert (Hy : ∀ b c d, 0 <= b <= 3 → 0 <= c <= 24 → 0 <= d <= 3 → let p := a * 400 + b * 100 + c * 4 + d in
            p / 4 = a * 100 + b * 25 + c ∧ p / 100 = a * 4 + b ∧ p / 400 = a).
  { clear. intros b c d ? ? ? p. subst p. repeat split; symmetry;
      [apply (Z.div_unique _ 4 _ d)|apply (Z.div_unique _ 100 _ (c * 4 + d))
      |apply (Z.div_unique _ 400 _ (b * 100 + c * 4 + d))]; lia. }
  destruct ((d =? 4) || (b =? 4)) eqn:E.
  - replace (a * 400 + b * 100 + c * 4 + d + 1 - 1) with (a * 400 + b * 100 + c * 4 + d) by lia.
    set (y := a * 400 + b * 100 + c * 4 + d).
    assert (Hlast : ∃ k, y = 4 * k ∧ (y mod 100 ≠ 0 ∨ y mod 400 = 0) ∧
              (y - 1) / 4 = k - 1 ∧ days_before_year y + 365 = n).
    { unfold days_before_year. subst y. apply orb_true_iff in E as [Ed%Z.eqb_eq|Eb%Z.eqb_eq].
      - assert (c <= 23) by lia. assert (b <= 3) by lia. destruct (Hy b c 3) as (E1 & E2 & E3); [lia..|].
        exists (a * 100 + b * 25 + c + 1).
        replace (a * 400 + b * 100 + c * 4 + d - 1) with (a * 400 + b * 100 + c * 4 + 3) by lia.
        rewrite E1, E2, E3. split; [lia|]. split; [left|lia].
        replace (a * 400 + b * 100 + c * 4 + d) with (4 * (c + 1) + (4 * a + b) * 100) by lia.
        rewrite Z.mod_add, Z.mod_small by lia. lia.
      - assert (c = 0 ∧ d = 0) as [-> ->] by lia.
        destruct (Hy 3 24 3) as (E1 & E2 & E3); [lia..|].
        exists (a * 100 + 100). subst b.
        replace (a * 400 + 4 * 100 + 0 * 4 + 0 - 1) with (a * 400 + 3 * 100 + 24 * 4 + 3) by lia.
        rewrite E1, E2, E3. split; [lia|]. split; [right|lia].
        replace (a * 400 + 4 * 100 + 0 * 4 + 0) with ((a + 1) * 400) by lia. by apply Z.mod_mul. }
    clearbody y. destruct Hlast as (k & Hk & Hleap & _ & Hn').
    assert (Hl : is_leap y = true).
    { unfold is_leap. rewrite Hk at 1. rewrite Z.mul_comm, Z.mod_mul by lia. cbn [andb Z.eqb].
      destruct Hleap as [Hleap| ->]; [|by rewrite orb_true_r].
      by apply Z.eqb_neq in Hleap as ->. }
    unfold day_number. rewrite days_before_month_table by lia. unfold leap_day. rewrite Hl. cbn. lia.
  - apply orb_false_elim in E as [Ed%Z.eqb_neq Eb%Z.eqb_neq].
    set (y := a * 400 + b * 100 + c * 4 + d + 1).
    destruct (month_of_spec y n4) as [Hm Hd].
    { split; [lia|]. unfold leap_day. destruct (is_leap y); lia. }
    unfold day_number. split; [|lia].
    assert (days_before_year y + n4 = n); [|lia]. unfold days_before_year. subst y.
    destruct (Hy b c d) as (E1 & E2 & E3); [lia..|].
    replace (a * 400 + b * 100 + c * 4 + d + 1 - 1) with (a * 400 + b * 100 + c * 4 + d) by lia.
    rewrite E1, E2, E3. lia.
Qed.

Lemma civil_year n : 0 <= n <= 3652058 → let '(y, _, _) := civil n in 1 <= y <= 9999.
Proof.
  intros Hn. unfold civil. cbv zeta. destruct (_ || _) eqn:E.
  all: Z.to_euclidean_division_equations; lia.
Qed.

(** Adding a duration moves the instant by exactly it. *)
Lemma add_micros_instant t us t' : add_micros t us = Ok t' →
  instant t' = instant t + us ∧ dt_offset t' = dt_offset t.
Proof.
  unfold add_micros. intros ([] & Hr & H)%bind_Ok. apply raise_if_Ok in Hr. bool_inv.
  remember (instant t + default 0 (dt_offset t) + us) as local eqn:Hl.
  pose proof (civil_spec (local / 86400000000) ltac:(lia)) as Hc.
  destruct (civil (local / 86400000000)) as [[y m] d]. destruct Hc as (Hd & _). apply Ok_inj in H as <-.
  split; [|done]. unfold instant at 1. cbn [dt_year dt_month dt_day dt_hour dt_minute dt_second dt_micro dt_offset].
  rewrite Hd. clear Hd. cbn [default].
  Z.to_euclidean_division_equations. lia.
Qed.

(** ** Well-formed groups *)

Definition digits_of (n : nat) (s : pystr) : Prop := length s = n ∧ forallb is_digit s = true.

Definition offset_form (o : pystr) : Prop :=
  o = lit "Z" ∨
  ∃ sign hh mm, (sign = 43%N ∨ sign = 45%N) ∧ digits_of 2 hh ∧ digits_of 2 mm
                ∧ o = sign :: hh ++ 58%N :: mm.

(** What [match_timestamp] guarantees, with an hour of [hl] digits. *)
Record wf_parts (hour_ok : pystr → Prop) (p : go_parts) : Prop := {
  wf_year : digits_of 4 (g_year p);
  wf_month : digits_of 2 (g_month p);
  wf_day : digits_of 2 (g_day p);
  wf_hour : hour_ok (g_hour p);
  wf_minute : digits_of 2 (g_minute p);
  wf_second : digits_of 2 (g_second p);
  wf_fraction : match g_fraction p with
                | Some ds => ds ≠ [] ∧ forallb is_digit ds = true
                | None => True
                end;
  wf_offset : offset_form (g_offset p)
}.

(** The text whose groups are [p]. *)
Definition build (p : go_parts) : pystr :=
  g_year p ++ "-" ++ g_month p ++ "-" ++ g_day p ++ "T" ++ g_hour p
    ++ ":" ++ g_minute p ++ ":" ++ g_second p
    ++ (match g_fraction p with Some ds => "." ++ ds | None => [] end) ++ g_offset p.

Lemma take_digits_app n ds rest : digits_of n ds → take_digits n (ds ++ rest) = Some (ds, rest).
Proof.
  revert ds. induction n as [|n IH]; intros [|d ds] [Hl Hd]; simpl in *; try done.
  apply andb_prop in Hd as [-> Hd]. rewrite IH; [done|]. split; [lia|done].
Qed.

Lemma take_digits_Some n s ds rest :
  take_digits n s = Some (ds, rest) → digits_of n ds ∧ s = ds ++ rest.
Proof.
  revert s ds. induction n as [|n IH]; intros s ds; simpl; [by intros [= <- <-]|].
  destruct s as [|c s]; [done|]. { destruct (is_digit c) eqn:Hc; [|done].
    intros ([ds' rest'] & H & [= <- <-])%bind_Some. apply IH in H as [[Hl Hd] ->].
    split; [|done]. split; simpl; [by rewrite Hl|by rewrite Hc]. }
Qed.

Lemma span_digits_app ds rest :
  forallb is_digit ds = true → (∀ c s, rest = c :: s → is_digit c = false) →
  span_digits (ds ++ rest) = (ds, rest).
Proof.
  intros Hd Hr. induction ds as [|d ds IH]; simpl in *.
  - destruct rest as [|c s]; simpl; [done|]. by rewrite (Hr c s).
  - apply andb_prop in Hd as [-> Hd]. by rewrite IH.
Qed.

Lemma span_digits_eq s ds rest :
  span_digits s = (ds, rest) → s = ds ++ rest ∧ forallb is_digit ds = true.
Proof.
  revert ds. induction s as [|c s IH]; simpl; intros ds.
  - by intros [= <- <-].
  - destruct (is_digit c) eqn:Hc.
    + destruct (span_digits s) as [ds' rest'] eqn:Hs. intros [= <- <-].
      destruct (IH ds' eq_refl) as [-> Hd]. simpl. by rewrite Hc.
    + by intros [= <- <-].
Qed.

Lemma expect_Some c s rest : expect c s = Some rest → s = c :: rest.
Proof. destruct s as [|d s]; simpl; [done|]. case_match; [|done]. intros [= ->]. bool_inv. by subst. Qed.

Lemma expect_cons c s : expect c (c :: s) = Some s.
Proof. simpl. by rewrite N.eqb_refl. Qed.

Lemma match_offset_Some s o : match_offset s = Some o → offset_form o ∧ s = o.
Proof.
  unfold match_offset. case_bool_decide as Hz; [intros [= <-]; split; [by left|done]|].
  destruct s as [|c s]; [done|]. intros Ho.
  destruct ((c =? 43)%N || (c =? 45)%N) eqn:Hc; [|done].
  apply bind_Some in Ho as ([hh s2] & [Hhh ->]%take_digits_Some & Ho).
  apply bind_Some in Ho as (s3 & ->%expect_Some & Ho).
  apply bind_Some in Ho as ([mm s4] & [Hmm ->]%take_digits_Some & Ho).
  destruct s4; [|done]. injection Ho as <-. rewrite app_nil_r. split; [|done].
  right. exists c, hh, mm. split_and!; try done.
  apply orb_prop in Hc as [?|?]; bool_inv; auto.
Qed.

Lemma match_offset_form o : offset_form o → match_offset o = Some o.
Proof.
  intros [->|(sign & hh & mm & Hs & Hh & Hm & ->)]; [done|].
  unfold match_offset. rewrite bool_decide_false by (by destruct Hs as [-> | ->]).
  replace ((sign =? 43)%N || (sign =? 45)%N) with true by (by destruct Hs as [-> | ->]).
  rewrite (take_digits_app 2 hh) by done. cbn [mbind option_bind]. rewrite expect_cons.
  cbn [mbind option_bind]. pose proof (take_digits_app 2 mm [] Hm) as Hmm.
  rewrite app_nil_r in Hmm. by rewrite Hmm.
Qed.

Lemma offset_form_nondigit o : offset_form o → ∃ c s, o = c :: s ∧ is_digit c = false ∧ c ≠ 46%N ∧ c ≠ 44%N.
Proof.
  intros [->|(sign & hh & mm & [-> | ->] & _ & _ & ->)]; by eexists _, _.
Qed.

Lemma match_fraction_build f o : offset_form o →
  (match f with Some ds => ds ≠ [] ∧ forallb is_digit ds = true | None => True end) →
  match_fraction ((match f with Some ds => "." ++ ds | None => [] end) ++ o) = Some (f, o).
Proof.
  intros (c & s & -> & Hc & Hd & Hm)%offset_form_nondigit Hf. destruct f as [ds|].
  - destruct Hf as [Hne Hds]. unfold lit. cbn -[span_digits]. rewrite span_digits_app; [by destruct ds|done|].
    by intros ? ? [= <- <-].
  - simpl. apply N.eqb_neq in Hd, Hm. by rewrite Hd, Hm.
Qed.

(** Rebuilding the text from well-formed groups and matching it gives them back. *)
Lemma match_build p : wf_parts (digits_of 2) p → match_timestamp (build p) = Some p.
Proof.
  intros [Hy Hm Hd Hh Hmi Hs Hf Ho].
  pose proof (match_fraction_build (g_fraction p) (g_offset p) Ho Hf) as Hmf.
  unfold build, match_timestamp, match_hour, lit in *. cbn [codes app] in *.
  repeat (first [rewrite expect_cons
                |rewrite (take_digits_app 4) by done
                |rewrite (take_digits_app 2) by done]; cbn [mbind option_bind app]).
  rewrite Hmf. cbn [mbind option_bind]. rewrite match_offset_form by done. by destruct p.
Qed.

Definition hour_1_or_2 (s : pystr) : Prop := digits_of 1 s ∨ digits_of 2 s.

Lemma match_hour_Some s ds r : match_hour s = Some (ds, r) → hour_1_or_2 ds.
Proof.
  unfold match_hour. destruct (take_digits 2 s) as [[ds2 r2]|] eqn:E2.
  - intros [= <- <-]. apply take_digits_Some in E2 as [? _]. by right.
  - intros [? _]%take_digits_Some. by left.
Qed.

Lemma match_fraction_Some s f r :
  match_fraction s = Some (f, r) →
  match f with Some ds => ds ≠ [] ∧ forallb is_digit ds = true | None => True end.
Proof.
  unfold match_fraction. destruct s as [|c s']; [by intros [= <- _]|].
  destruct ((c =? 46)%N || (c =? 44)%N); [|by intros [= <- _]].
  destruct (span_digits s') as [ds' rest'] eqn:Hs. destruct ds'; [done|].
  intros [= <- _]. by apply span_digits_eq in Hs as [_ ?].
Qed.

Lemma match_wf s p : match_timestamp s = Some p → wf_parts hour_1_or_2 p.
Proof.
  unfold match_timestamp. intros H.
  repeat match goal with
  | H : take_digits _ _ ≫= _ = Some _ |- _ =>
      let ds := fresh "ds" in let r := fresh "r" in let E := fresh "E" in
      apply bind_Some in H as ([ds r] & [E ->]%take_digits_Some & H)
  | H : expect _ _ ≫= _ = Some _ |- _ =>
      let r := fresh "r" in apply bind_Some in H as (r & ->%expect_Some & H)
  | H : match_hour _ ≫= _ = Some _ |- _ =>
      let ds := fresh "hh" in let r := fresh "r" in let E := fresh "Ehour" in
      apply bind_Some in H as ([ds r] & E & H)
  | H : match_fraction _ ≫= _ = Some _ |- _ =>
      let f := fresh "frac" in let r := fresh "r" in let E := fresh "Efrac" in
      apply bind_Some in H as ([f r] & E & H)
  | H : match_offset _ ≫= _ = Some _ |- _ =>
      let o := fresh "off" in let E := fresh "Eoff" in
      apply bind_Some in H as (o & [E _]%match_offset_Some & H)
  end.
  injection H as <-. constructor; simpl; try done.
  - by apply match_hour_Some in Ehour.
  - by apply match_fraction_Some in Efrac.
Qed.

(** The canonical groups of a parsed timestamp. *)
Definition canon_parts (p : go_parts) : go_parts :=
  let fraction := rstrip_zeros (default [] (g_fraction p)) in
  GoParts (g_year p) (g_month p) (g_day p) (two_digits (digits_value (g_hour p)))
    (g_minute p) (g_second p) (if truthy fraction then Some fraction else None)
    (canonical_offset (g_offset p)).

Lemma canonical_of_build p : canonical_of p = build (canon_parts p).
Proof.
  unfold canonical_of, build, canon_parts; cbn. by destruct (rstrip_zeros _).
Qed.

Lemma is_digit_spec c : is_digit c = true ↔ (48 <= c <= 57)%N.
Proof. unfold is_digit, in_range. rewrite andb_true_iff, !N.leb_le. lia. Qed.

Lemma digits_1 s : digits_of 1 s → ∃ a, s = [a] ∧ (48 <= a <= 57)%N.
Proof.
  destruct s as [|a [|]]; intros [Hl Hd]; try done. simpl in Hd. bool_inv.
  exists a. by rewrite <- is_digit_spec.
Qed.

Lemma digits_2 s : digits_of 2 s → ∃ a b, s = [a; b] ∧ (48 <= a <= 57)%N ∧ (48 <= b <= 57)%N.
Proof.
  destruct s as [|a [|b [|]]]; intros [Hl Hd]; try done. simpl in Hd. bool_inv.
  exists a, b. by rewrite <- !is_digit_spec.
Qed.

Lemma two_digits_ok z : 0 <= z <= 99 → digits_of 2 (two_digits z) ∧ digits_value (two_digits z) = z.
Proof.
  intros Hz. pose proof (Z.div_mod z 10). pose proof (Z.mod_pos_bound z 10).
  split; [split; [done|]|].
  - simpl. rewrite !(proj2 (is_digit_spec _)); [done|lia|lia].
  - unfold digits_value, two_digits. simpl. rewrite !Z2N.id by lia. lia.
Qed.

Lemma two_digits_value s : digits_of 2 s → two_digits (digits_value s) = s.
Proof.
  intros (a & b & -> & Ha & Hb)%digits_2. unfold two_digits, digits_value. cbn [fold_left].
  replace ((0 * 10 + (Z.of_N a - 48)) * 10 + (Z.of_N b - 48))
    with ((Z.of_N a - 48) * 10 + (Z.of_N b - 48)) by lia.
  rewrite Z.div_add_l by lia. rewrite (Z.div_small (Z.of_N b - 48) 10) by lia.
  rewrite (Z.add_comm (_ * 10)), Z.mod_add, Z.mod_small by lia.
  f_equal; [lia|f_equal; lia].
Qed.

Lemma hour_value s : hour_1_or_2 s → 0 <= digits_value s <= 99.
Proof.
  intros [(a & -> & ?)%digits_1|(a & b & -> & ? & ?)%digits_2]; unfold digits_value; simpl; lia.
Qed.

Lemma rstrip_zeros_idemp s : rstrip_zeros (rstrip_zeros s) = rstrip_zeros s.
Proof. unfold rstrip_zeros, drop_while_end. by rewrite rev_involutive, drop_while_idemp. Qed.

Lemma rstrip_zeros_split s : ∃ n, s = rstrip_zeros s ++ replicate n 48%N.
Proof.
  destruct (drop_while_suffix (λ c, (c =? 48)%N) (rev s)) as (pre & Hs & Hp).
  exists (length pre). unfold rstrip_zeros, drop_while_end.
  assert (Hrep : rev pre = replicate (length pre) 48%N).
  { clear Hs. induction pre as [|c l IH]; [done|]. simpl in *. bool_inv. subst.
    rewrite IH by done. by rewrite <- replicate_S_end. }
  rewrite <- Hrep, <- rev_app_distr, <- Hs, rev_involutive. done.
Qed.

Lemma rstrip_zeros_digits s : forallb is_digit s = true → forallb is_digit (rstrip_zeros s) = true.
Proof.
  destruct (rstrip_zeros_split s) as [n Hn]. rewrite Hn at 1. rewrite forallb_app. intros. by bool_inv.
Qed.

Lemma canonical_offset_idemp o : canonical_offset (canonical_offset o) = canonical_offset o.
Proof.
  unfold canonical_offset at 2 3.
  destruct (bool_decide (o = lit "+00:00") || bool_decide (o = lit "-00:00")) eqn:H; [done|].
  unfold canonical_offset. by rewrite H.
Qed.

Lemma canonical_offset_form o : offset_form o → offset_form (canonical_offset o).
Proof. unfold canonical_offset. case_match; [by left|done]. Qed.

Lemma wf_hour_1_or_2 p : wf_parts (digits_of 2) p → wf_parts hour_1_or_2 p.
Proof. intros []. constructor; try done. by right. Qed.

Lemma canon_wf p : wf_parts hour_1_or_2 p → wf_parts (digits_of 2) (canon_parts p).
Proof.
  intros [Hy Hm Hd Hh Hmi Hs Hf Ho]. constructor; simpl; try done.
  - apply two_digits_ok. by apply hour_value.
  - destruct (truthy (rstrip_zeros _)) eqn:Ht; [|done]. split; [by destruct (rstrip_zeros _)|].
    apply rstrip_zeros_digits. destruct (g_fraction p) as [ds|]; [apply Hf|done].
  - by apply canonical_offset_form.
Qed.

Lemma canon_idemp p : wf_parts hour_1_or_2 p → canon_parts (canon_parts p) = canon_parts p.
Proof.
  intros Hwf. pose proof (hour_value _ (wf_hour _ _ Hwf)) as Hh. unfold canon_parts at 1. simpl.
  rewrite (proj2 (two_digits_ok _ Hh)), canonical_offset_idemp. unfold canon_parts.
  destruct (rstrip_zeros (default [] (g_fraction p))) as [|c l] eqn:Hz; simpl.
  - done.
  - rewrite <- Hz, rstrip_zeros_idemp, Hz. done.
Qed.

Lemma canon_offset_checks o :
  (negb (is_zulu o) && ((24 <? offset_hours o) || (60 <? offset_minutes o))) = false →
  (negb (is_zulu (canonical_offset o))
     && ((24 <? offset_hours (canonical_offset o)) || (60 <? offset_minutes (canonical_offset o)))) = false.
Proof. unfold canonical_offset. by case_match. Qed.

Lemma go_parts_canonical value p canonical :
  _go_time_parts value = Ok (p, canonical) →
  wf_parts hour_1_or_2 p ∧ canonical = canonical_of p ∧
  _go_time_parts canonical = Ok (canon_parts p, canonical).
Proof.
  unfold _go_time_parts. destruct (match_timestamp value) as [q|] eqn:Hm; [|done].
  intros H. res_inv. apply match_wf in Hm. split; [done|]. split; [done|].
  rewrite canonical_of_build, match_build by (by apply canon_wf).
  pose proof (hour_value _ (wf_hour _ _ Hm)) as Hh.
  replace (go_date_ok (canon_parts p)) with (go_date_ok p) by done.
  replace (digits_value (g_hour (canon_parts p))) with (digits_value (g_hour p))
    by (simpl; by rewrite (proj2 (two_digits_ok _ Hh))).
  apply canon_offset_checks in Ha1.
  repeat match goal with H : ?b = false |- context [raise_if ?b] => rewrite H end.
  cbn [raise_if mbind result_bind g_minute g_second g_offset canon_parts].
  rewrite Ha0, Ha1. simpl. by rewrite canonical_of_build, canon_idemp by done.
Qed.

(** ** Formatting a datetime *)

(** A datetime the interpreter can construct, with an offset of whole minutes. *)
Definition datetime_ok (t : datetime) (off : Z) : Prop :=
  dt_offset t = Some off ∧ date_valid (dt_year t) (dt_month t) (dt_day t) = true ∧
  0 <= dt_hour t < 24 ∧ 0 <= dt_minute t < 60 ∧ 0 <= dt_second t < 60 ∧
  0 <= dt_micro t < 1000000 ∧ Z.abs off < 86400000000 ∧ off mod 60000000 = 0.

Lemma digits_value_snoc s c : digits_value (s ++ [c]) = digits_value s * 10 + (Z.of_N c - 48).
Proof. unfold digits_value. by rewrite fold_left_app. Qed.

Lemma padded_ok k n : 0 <= n < 10 ^ Z.of_nat k →
  digits_of k (padded k n) ∧ digits_value (padded k n) = n.
Proof.
  revert n. induction k as [|k IH]; intros n Hn; [split; [done|change (0 = n); change (10 ^ Z.of_nat 0) with 1 in Hn; lia]|].
  rewrite Nat2Z.inj_succ, Z.pow_succ_r in Hn by lia.
  pose proof (Z.div_mod n 10). pose proof (Z.mod_pos_bound n 10).
  destruct (IH (n / 10)) as [[Hl Hd] Hv]; [split; [apply Z.div_pos; lia|apply Z.div_lt_upper_bound; lia]|].
  cbn [padded]. split; [split|].
  - rewrite length_app, Hl. simpl. lia.
  - rewrite forallb_app, Hd. cbn [forallb]. rewrite (proj2 (is_digit_spec _)); [done|lia].
  - rewrite digits_value_snoc, Hv, Z2N.id by lia. lia.
Qed.

Lemma padded_2 n : 0 <= n < 100 → digits_of 2 (padded 2 n) ∧ digits_value (padded 2 n) = n.
Proof. intros H. by apply (padded_ok 2). Qed.

(** The offset text of a whole-minute offset. *)
Definition offset_text (off : Z) : pystr :=
  if off =? 0 then lit "Z"
  else (if off <? 0 then 45%N else 43%N)
         :: padded 2 (Z.abs off / 3600000000) ++ 58%N :: padded 2 (Z.abs off / 60000000 mod 60).

Lemma offset_text_values off : Z.abs off < 86400000000 → off <> 0 →
  offset_hours (offset_text off) = Z.abs off / 3600000000 ∧
  offset_minutes (offset_text off) = Z.abs off / 60000000 mod 60 ∧
  starts_with "-" (offset_text off) = (off <? 0) ∧ is_zulu (offset_text off) = false ∧
  offset_form (offset_text off).
Proof.
  intros Ha Hne. unfold offset_text. rewrite (proj2 (Z.eqb_neq _ _)) by done.
  destruct (padded_2 (Z.abs off / 3600000000)) as [Hh Hhv].
  { split; [apply Z.div_pos; lia|apply Z.div_lt_upper_bound; lia]. }
  destruct (padded_2 (Z.abs off / 60000000 mod 60)) as [Hm Hmv].
  { pose proof (Z.mod_pos_bound (Z.abs off / 60000000) 60). lia. }
  assert (offset_form ((if off <? 0 then 45%N else 43%N)
         :: padded 2 (Z.abs off / 3600000000) ++ 58%N :: padded 2 (Z.abs off / 60000000 mod 60))).
  { right. eexists _, _, _. split_and!; [|exact Hh|exact Hm|done]. destruct (off <? 0); auto. }
  apply digits_2 in Hh as (a & b & Hab & _). apply digits_2 in Hm as (c & d & Hcd & _).
  rewrite Hab, Hcd in *. split_and!; [done|done| |by destruct (off <? 0)|done].
  by destruct (off <? 0).
Qed.

Lemma offset_text_micros off : Z.abs off < 86400000000 → off mod 60000000 = 0 →
  offset_micros (offset_text off) = off.
Proof.
  intros Ha Hm. destruct (decide (off = 0)) as [->|Hne]; [done|].
  destruct (offset_text_values off Ha Hne) as (Hh & Hmi & Hs & Hz & _).
  unfold offset_micros. rewrite Hh, Hmi, Hs, Hz.
  replace (Z.abs off / 3600000000) with (Z.abs off / 60000000 / 60) by (rewrite Z.div_div by lia; done).
  pose proof (Z.div_mod (Z.abs off / 60000000) 60). pose proof (Z.div_mod off 60000000).
  assert (Z.abs off = 60000000 * (Z.abs off / 60000000)).
  { apply Z_div_exact_full_2; [lia|]. destruct (Z.abs_spec off) as [[_ ->]|[_ ->]]; [done|].
    by apply Z_mod_zero_opp_full. }
  destruct (off <? 0) eqn:E; bool_inv; lia.
Qed.

Lemma canonical_offset_text off : Z.abs off < 86400000000 → off mod 60000000 = 0 →
  canonical_offset (offset_text off) = offset_text off.
Proof.
  intros Ha Hm. destruct (decide (off = 0)) as [->|Hne]; [done|].
  pose proof (offset_text_micros off Ha Hm) as Hv. unfold canonical_offset.
  rewrite !bool_decide_false; [done| |]; intros He; rewrite He in Hv; by apply Hne.
Qed.

Lemma iso_offset_text off : Z.abs off < 86400000000 → off mod 60000000 = 0 →
  (let o := iso_offset off in if starts_with "+00:00" o then "Z" ++ drop 6 o else o) = offset_text off.
Proof.
  intros Ha Hm. destruct (decide (off = 0)) as [->|Hne]; [done|].
  assert (Ht : iso_offset off = offset_text off).
  { unfold iso_offset, offset_text. rewrite (proj2 (Z.eqb_neq off 0)) by done.
    replace (Z.abs off mod 60000000 =? 0) with true.
    - unfold lit. cbn [codes]. rewrite app_nil_r. by destruct (off <? 0).
    - symmetry. apply Z.eqb_eq. destruct (Z.abs_spec off) as [[_ ->]|[_ ->]]; [done|].
      by apply Z_mod_zero_opp_full. }
  rewrite Ht. destruct (offset_text_values off Ha Hne) as (_ & _ & _ & _ & Hf).
  pose proof (offset_text_micros off Ha Hm) as Hv.
  destruct Hf as [-> | (sg & hh & mm & Hs & Hh & Hmm & He)]; [done|].
  apply digits_2 in Hh as (a & b & -> & _). apply digits_2 in Hmm as (c & d & -> & _).
  rewrite He in *. cbv zeta. destruct (starts_with _ _) eqn:Hsw; [|done]. exfalso. apply Hne.
  rewrite <- Hv. unfold lit in Hsw. cbn in Hsw. bool_inv. by subst.
Qed.

(** The groups of the text [from_datetime] hands to [from_wire]. *)
Definition date_parts (t : datetime) (off : Z) : go_parts :=
  GoParts (padded 4 (dt_year t)) (padded 2 (dt_month t)) (padded 2 (dt_day t))
    (padded 2 (dt_hour t)) (padded 2 (dt_minute t)) (padded 2 (dt_second t))
    (Some (padded 6 (dt_micro t))) (offset_text off).

Lemma iso_wire_build t off : datetime_ok t off → iso_wire t off = build (date_parts t off).
Proof.
  intros (_ & _ & _ & _ & _ & _ & Ha & Hm). unfold iso_wire, build.
  rewrite iso_offset_text by done. unfold date_parts. cbn [g_year g_month g_day g_hour g_minute
    g_second g_fraction g_offset]. by rewrite <- (app_assoc ".").
Qed.

Lemma date_valid_bounds y m d : date_valid y m d = true →
  1 <= y <= 9999 ∧ 1 <= m <= 12 ∧ 1 <= d <= 31.
Proof.
  unfold date_valid, days_in_month. intros H. bool_inv.
  repeat split; try lia. revert H0. repeat case_match; lia.
Qed.

Lemma date_parts_values t off : datetime_ok t off →
  wf_parts (digits_of 2) (date_parts t off) ∧
  digits_value (g_year (date_parts t off)) = dt_year t ∧
  digits_value (g_month (date_parts t off)) = dt_month t ∧
  digits_value (g_day (date_parts t off)) = dt_day t ∧
  digits_value (g_hour (date_parts t off)) = dt_hour t ∧
  digits_value (g_minute (date_parts t off)) = dt_minute t ∧
  digits_value (g_second (date_parts t off)) = dt_second t ∧
  digits_value (padded 6 (dt_micro t)) = dt_micro t.
Proof.
  intros (_ & (Hy & Hmo & Hd)%date_valid_bounds & Hh & Hmi & Hs & Hu & Ha & Hm).
  destruct (padded_ok 4 (dt_year t)) as [??]; [lia|].
  destruct (padded_2 (dt_month t)) as [??]; [lia|]. destruct (padded_2 (dt_day t)) as [??]; [lia|].
  destruct (padded_2 (dt_hour t)) as [??]; [lia|]. destruct (padded_2 (dt_minute t)) as [??]; [lia|].
  destruct (padded_2 (dt_second t)) as [??]; [lia|].
  destruct (padded_ok 6 (dt_micro t)) as [[Hl Hdg] ?]; [lia|].
  split; [|done].
  constructor; cbn [date_parts g_year g_month g_day g_hour g_minute g_second g_fraction g_offset]; try done.
  destruct (decide (off = 0)) as [->|Hne]; [by left|]. by apply offset_text_values.
Qed.

Lemma offset_text_in_range off : Z.abs off < 86400000000 →
  negb (is_zulu (offset_text off))
    && ((23 <? offset_hours (offset_text off)) || (59 <? offset_minutes (offset_text off))) = false.
Proof.
  intros Ha. destruct (decide (off = 0)) as [->|Hne]; [done|].
  destruct (offset_text_values off Ha Hne) as (-> & -> & _ & -> & _). simpl.
  pose proof (Z.mod_pos_bound (Z.abs off / 60000000) 60).
  assert (Z.abs off / 3600000000 < 24) by (apply Z.div_lt_upper_bound; lia).
  apply orb_false_intro; apply Z.ltb_ge; lia.
Qed.

Lemma strict_offset_lenient z h m :
  negb z && ((23 <? h) || (59 <? m)) = false → negb z && ((24 <? h) || (60 <? m)) = false.
Proof. destruct z; [done|]. cbn [negb andb]. intros H. bool_inv. by rewrite !(proj2 (Z.ltb_ge _ _)) by lia. Qed.

Lemma date_parts_go t off : datetime_ok t off →
  _go_time_parts (build (date_parts t off))
  = Ok (date_parts t off, canonical_of (date_parts t off)).
Proof.
  intros Hok. destruct (date_parts_values t off Hok) as (Hwf & Hy & Hmo & Hd & Hh & Hmi & Hs & _).
  destruct Hok as (_ & Hdv & ? & ? & ? & _ & Ha & _).
  unfold _go_time_parts. rewrite match_build by done. unfold go_date_ok.
  rewrite Hy, Hmo, Hd, Hh, Hmi, Hs, Hdv. cbn [orb negb raise_if mbind result_bind].
  rewrite (proj2 (Z.ltb_ge 23 (dt_hour t))), (proj2 (Z.ltb_ge 59 (dt_minute t))),
    (proj2 (Z.ltb_ge 59 (dt_second t))) by lia. cbn [orb raise_if mbind result_bind].
  change (g_offset (date_parts t off)) with (offset_text off).
  by rewrite (strict_offset_lenient _ _ _ (offset_text_in_range off Ha)).
Qed.

Lemma rstrip_zeros_micro s : length s = 6%nat → take 6 (rstrip_zeros s ++ "000000") = s.
Proof.
  intros Hl. destruct (rstrip_zeros_split s) as [n Hn]. rewrite Hn at 2.
  assert (length (rstrip_zeros s) + n = 6)%nat.
  { rewrite Hn, length_app, length_replicate in Hl. done. }
  rewrite take_app_ge by lia. f_equal.
  replace (lit "000000") with (replicate 6 48%N) by done. rewrite take_replicate. f_equal. lia.
Qed.

(** A datetime with an offset of whole minutes formats to a timestamp whose exact conversion back
    is that same datetime, microseconds and offset included. *)
Theorem from_datetime_parsed d off : datetime_ok d off →
  ∃ t, from_datetime d = Ok t ∧ parsed t = Ok d.
Proof.
  intros Hok. pose proof (date_parts_go d off Hok) as Hgo.
  destruct (date_parts_values d off Hok) as (Hwf & Hy & Hmo & Hd & Hh & Hmi & Hs & Hu).
  pose proof (iso_wire_build d off Hok) as Hiso. destruct Hok as (Hoff & Hdv & _ & _ & _ & Hmic & Ha & Hm).
  exists (Nano (canonical_of (date_parts d off))). split.
  { unfold from_datetime, from_wire. rewrite Hoff, Hiso, Hgo. done. }
  unfold parsed, parse_go_datetime_input. cbn [wire].
  destruct (go_parts_canonical _ _ _ Hgo) as (_ & _ & ->). cbn [mbind result_bind].
  assert (Hoc : g_offset (canon_parts (date_parts d off)) = offset_text off)
    by (by apply canonical_offset_text).
  assert (Hfr : default [] (g_fraction (canon_parts (date_parts d off)))
                = rstrip_zeros (padded 6 (dt_micro d))).
  { cbn [g_fraction canon_parts date_parts]. cbn [default from_option]. by destruct (rstrip_zeros _). }
  destruct (padded_ok 6 (dt_micro d) ltac:(lia)) as [[Hl _] _].
  rewrite Hoc, Hfr, offset_text_in_range by done.
  replace (existsb _ _) with false; last first.
  { rewrite drop_ge; [done|]. destruct (rstrip_zeros_split (padded 6 (dt_micro d))) as [n Hn].
    rewrite Hn, length_app in Hl. lia. }
  replace (bool_decide (g_year _ = lit "0000")) with false; last first.
  { symmetry. apply bool_decide_eq_false. cbn [g_year canon_parts]. intros E. rewrite E in Hy.
    apply date_valid_bounds in Hdv. change (0 = dt_year d) in Hy. lia. }
  cbn [orb raise_if mbind result_bind]. unfold fromisoformat.
  rewrite canonical_of_build, match_build by (by apply canon_wf, wf_hour_1_or_2).
  rewrite Hoc, Hfr, rstrip_zeros_micro, Hu, offset_text_micros by done.
  cbn [canon_parts g_year g_month g_day g_hour g_minute g_second] in *.
  rewrite two_digits_value by apply Hwf. rewrite Hy, Hmo, Hd, Hh, Hmi, Hs, <- Hoff. by destruct d.
Qed.

Lemma from_datetime_parsed_witness :
  ∃ t, from_datetime (DT 2024 2 29 7 8 9 120 (Some 19800000000)) = Ok t ∧
       parsed t = Ok (DT 2024 2 29 7 8 9 120 (Some 19800000000)).
Proof.
  apply (from_datetime_parsed _ 19800000000). repeat split; reflexivity || discriminate.
Defined.

(** Reading a wire timestamp is a normalisation: the text it keeps reads back to the same
    timestamp, whatever hour digits, trailing fraction zeros or zero offset the input had. *)
Theorem from_wire_canonical value t : from_wire value = Ok t → from_wire (wire t) = Ok t.
Proof.
  unfold from_wire. intros ([p canonical] & Hgo & [= <-])%bind_Ok. cbn [wire].
  by destruct (go_parts_canonical _ _ _ Hgo) as (_ & _ & ->).
Qed.

Lemma from_wire_canonical_witness :
  ∃ t, from_wire "2024-05-06T7:08:09.120+00:00" = Ok t ∧ wire t = lit "2024-05-06T07:08:09.12Z" ∧
       from_wire (wire t) = Ok t.
Proof.
  exists (Nano (lit "2024-05-06T07:08:09.12Z")). split; [vm_compute; reflexivity|]. split; [reflexivity|].
  apply (from_wire_canonical "2024-05-06T7:08:09.120+00:00"). vm_compute. reflexivity.
Defined.

End GoTime.
