(* ===== verification/Retry.v ===== *)
(** * Execute retry defaults

    sdkpython/src/dex_connectors/sdk/retry_policy.py: the retry schedule of an operation and
    its nanosecond wire form.  A [timedelta] is its number of microseconds; [float]
    arithmetic is exact binary64. *)

From S2P Require Import Prelude.

(** [int | float]. *)
Inductive num :=
  | NInt (z : Z)
  | NFloat (f : pyfloat).

(** [float(x)]. *)
Definition float_of (x : num) : pyfloat :=
  match x with NInt z => round_ratio z 1 | NFloat f => f end.

(** [int(x)]. *)
Definition int_of (x : num) : res Z :=
  match x with NInt z => Ok z | NFloat f => int_of_float f end.

(** [x / 1000]. *)
Definition div_1000 (x : num) : pyfloat :=
  match x with
  | NInt z => round_ratio z 1000
  | NFloat (FFin m e) =>
      if (0 <=? e)%Z then round_ratio (m * 2 ^ e) 1000 else round_ratio m (1000 * 2 ^ (- e))
  | NFloat f => f
  end.

(** [x < 0]. *)
Definition num_neg (x : num) : bool :=
  match x with NInt z => (z <? 0)%Z | NFloat f => flt f (FFin 0 0) end.

(** The constructor bound of [timedelta]: at most 999999999 days. *)
Definition timedelta_in_range (us : Z) : bool :=
  ((-999999999 * 86400000000 <=? us) && (us <? 1000000000 * 86400000000))%Z.

(** [timedelta(microseconds=f)]. *)
Definition timedelta_us (f : pyfloat) : res Z :=
  match f with
  | FFin _ _ =>
      let us := timedelta_of_float f in
      if timedelta_in_range us then Ok us
      else raise OverflowError "days out of range"
  | FInf _ => raise OverflowError "cannot convert float infinity to integer"
  | FNan => raise ValueError "cannot convert float NaN to integer"
  end.

(** [timedelta(microseconds=x / 1000)]. *)
Definition timedelta_of_ns (x : num) : res Z := timedelta_us (div_1000 x).

(** [int(td.total_seconds() * 1_000_000_000)]. *)
Definition ns_of_timedelta (us : Z) : Z :=
  match int_of_float (fmul_int (total_seconds us) 1000000000) with Ok z => z | Err _ => 0%Z end.

(** [td == timedelta(microseconds=raw / 1000)]. *)
Definition is_interval_of (us raw : Z) : res bool :=
  v ← timedelta_of_ns (NInt raw); Ok (us =? v)%Z.

(** [if m: body]. *)
Definition if_r {A} (m : res bool) (yes no : res A) : res A := b ← m; if b : bool then yes else no.

Module Policy.
Open Scope Z_scope.

Record RetryPolicy := {
  initial_interval : Z;
  backoff_coefficient : num;
  maximum_interval : Z;
  maximum_attempts : Z;
  total_duration : Z;
  _wire_intervals : option (Z * Z * Z)
}.

(** [validate()]. *)
Definition validate (p : RetryPolicy) : res unit :=
  raise_if ((initial_interval p <? 0) || (maximum_interval p <? 0) || (total_duration p <? 0)
            || num_neg (backoff_coefficient p) || (maximum_attempts p <? 0))
    ValueError "invalid connector retry policy".

(** The condition of the [raw] branch of [to_wire]. *)
Definition raw_matches (p : RetryPolicy) (raw : Z * Z * Z) : res bool :=
  let '(a, b, c) := raw in
  x ← is_interval_of (initial_interval p) a;
  if negb x then Ok false else
  y ← is_interval_of (maximum_interval p) b;
  if negb y then Ok false else
  is_interval_of (total_duration p) c.

(** The dictionary [to_wire] returns. *)
Definition wire_dict (ns : Z * Z * Z) (backoff : num) (attempts : Z) : dict num :=
  let '(initial_ns, maximum_ns, total_ns) := ns in
  [ (lit "InitialInterval", NInt initial_ns); (lit "BackoffCoefficient", backoff);
    (lit "MaximumInterval", NInt maximum_ns); (lit "MaximumAttempts", NInt attempts);
    (lit "TotalDuration", NInt total_ns) ].

Definition to_wire (p : RetryPolicy) : res (dict num) :=
  validate p ≫= λ _,
  let plain := (ns_of_timedelta (initial_interval p), ns_of_timedelta (maximum_interval p),
                ns_of_timedelta (total_duration p)) in
  ns ← match _wire_intervals p with
       | None => Ok plain
       | Some raw => b ← raw_matches p raw; Ok (if b : bool then raw else plain)
       end;
  Ok (wire_dict ns (backoff_coefficient p) (maximum_attempts p)).

Definition field (k : string) (d : dict num) : res num :=
  match dget (lit k) d with Some v => Ok v | None => raise KeyError (lit k) end.

Definition expected : list pystr :=
  [lit "InitialInterval"; lit "BackoffCoefficient"; lit "MaximumInterval";
   lit "MaximumAttempts"; lit "TotalDuration"].

Definition from_wire (value : dict num) : res RetryPolicy :=
  raise_if (negb (forallb (λ k, bool_decide (k ∈ expected)) (dkeys value)
                  && forallb (λ k, dhas k value) expected))
    ValueError "retry policy fields are invalid" ≫= λ _,
  ii ← field "InitialInterval" value;
  initial ← timedelta_of_ns ii;
  b ← field "BackoffCoefficient" value;
  mi ← field "MaximumInterval" value;
  maximum ← timedelta_of_ns mi;
  ma ← field "MaximumAttempts" value;
  attempts ← int_of ma;
  td ← field "TotalDuration" value;
  total ← timedelta_of_ns td;
  r0 ← int_of ii;
  r1 ← int_of mi;
  r2 ← int_of td;
  let result := Build_RetryPolicy initial (NFloat (float_of b)) maximum attempts total
                  (Some (r0, r1, r2)) in
  validate result ≫= λ _, Ok result.

Definition default_connector_step_execute_retry_policy : RetryPolicy :=
  Build_RetryPolicy 1000000 (NInt 2) 300000000 0 3600000000 None.

(** ** Lemmas *)

Lemma is_interval_of_ns z us : timedelta_of_ns (NInt z) = Ok us → is_interval_of us z = Ok true.
Proof. intros H. unfold is_interval_of. rewrite H. simpl. by rewrite Z.eqb_refl. Qed.

(** A policy decoded from integer nanoseconds remembers them. *)
Definition remembers (p : RetryPolicy) (a b c : Z) : Prop :=
  timedelta_of_ns (NInt a) = Ok (initial_interval p) ∧
  timedelta_of_ns (NInt b) = Ok (maximum_interval p) ∧
  timedelta_of_ns (NInt c) = Ok (total_duration p) ∧
  _wire_intervals p = Some (a, b, c).

Lemma to_wire_remembers p a b c :
  validate p = Ok () → remembers p a b c →
  to_wire p = Ok (wire_dict (a, b, c) (backoff_coefficient p) (maximum_attempts p)).
Proof.
  intros Hv (Ha & Hb & Hc & Hr). unfold to_wire. rewrite Hv, Hr. cbn [mbind result_bind].
  unfold raw_matches. by rewrite !is_interval_of_ns.
Qed.

Lemma from_wire_inv d a b c att bo p :
  dget (lit "InitialInterval") d = Some (NInt a) →
  dget (lit "MaximumInterval") d = Some (NInt b) →
  dget (lit "TotalDuration") d = Some (NInt c) →
  dget (lit "MaximumAttempts") d = Some (NInt att) →
  dget (lit "BackoffCoefficient") d = Some bo →
  from_wire d = Ok p →
  validate p = Ok () ∧ remembers p a b c ∧ maximum_attempts p = att
  ∧ backoff_coefficient p = NFloat (float_of bo).
Proof.
  intros Ha Hb Hc Hatt Hbo. unfold from_wire, field. rewrite Ha, Hb, Hc, Hatt, Hbo.
  cbn [mbind result_bind int_of]. intros H. res_inv. done.
Qed.

Lemma from_wire_dict a b c f att :
  from_wire (wire_dict (a, b, c) (NFloat f) att) =
  (initial ← timedelta_of_ns (NInt a); maximum ← timedelta_of_ns (NInt b);
   total ← timedelta_of_ns (NInt c);
   let p := Build_RetryPolicy initial (NFloat f) maximum att total (Some (a, b, c)) in
   validate p ≫= λ _, Ok p).
Proof. reflexivity. Qed.

(** Decoding a retry policy sent as integer nanoseconds and encoding it again yields
    the same nanoseconds and attempts, although [timedelta] only holds microseconds. *)
Theorem from_wire_to_wire d a b c att bo p :
  dget (lit "InitialInterval") d = Some (NInt a) →
  dget (lit "MaximumInterval") d = Some (NInt b) →
  dget (lit "TotalDuration") d = Some (NInt c) →
  dget (lit "MaximumAttempts") d = Some (NInt att) →
  dget (lit "BackoffCoefficient") d = Some bo →
  from_wire d = Ok p →
  ∃ w, to_wire p = Ok w ∧ w = wire_dict (a, b, c) (NFloat (float_of bo)) att
       ∧ from_wire w = Ok p.
Proof.
  intros Ha Hb Hc Hatt Hbo H.
  destruct (from_wire_inv _ _ _ _ _ _ _ Ha Hb Hc Hatt Hbo H) as (Hv & Hr & Hma & Hbc).
  eexists. split; [by apply to_wire_remembers|]. rewrite Hma, Hbc. split; [done|].
  destruct Hr as (Ea & Eb & Ec & Hw). rewrite from_wire_dict, Ea, Eb, Ec. cbn [mbind result_bind].
  replace (Build_RetryPolicy _ _ _ _ _ _) with p; [by rewrite Hv|].
  destruct p; cbn in *. by subst.
Qed.

Definition sample_policy : RetryPolicy :=
  Build_RetryPolicy 2 (NFloat (FFin 3 (-1))) 2000000 4 3600000000
    (Some (1500, 2000000001, 3600000000007)).

Lemma from_wire_to_wire_witness :
  ∃ w, to_wire sample_policy = Ok w ∧ dget (lit "InitialInterval") w = Some (NInt 1500).
Proof.
  destruct (from_wire_to_wire (wire_dict (1500, 2000000001, 3600000000007) (NFloat (FFin 3 (-1))) 4)
    1500 2000000001 3600000000007 4 (NFloat (FFin 3 (-1))) sample_policy
    eq_refl eq_refl eq_refl eq_refl eq_refl ltac:(vm_compute; reflexivity))
    as (w & Hw & -> & _).
  exists (wire_dict (1500, 2000000001, 3600000000007) (NFloat (FFin 3 (-1))) 4).
  split; [exact Hw|reflexivity].
Defined.

(** Encoding a policy built from a [timedelta] truncates a rounded float product: 1001
    milliseconds are sent as 1000999999 nanoseconds, one nanosecond short. *)
Theorem to_wire_loses_nanosecond :
  to_wire (Build_RetryPolicy 1001000 (NInt 2) 0 0 0 None)
  = Ok (wire_dict (1000999999, 0, 0) (NInt 2) 0).
Proof. vm_compute. reflexivity. Qed.
End Policy.
