(* ===== verification/Errors.v ===== *)
(** * Provider failures and retry classification

    sdkpython/src/dex_connectors/sdk/errors.py: the closed set of failure kinds, the
    [Failure] value that may enter Flow state, its wire form, and the construction checks of
    [RetryError]. *)

From S2P Require Import Prelude Json.

Inductive FailureKind :=
  | VALIDATION | AUTHENTICATION | AUTHORIZATION | NOT_FOUND | CONFLICT | RATE_LIMIT
  | QUOTA_EXHAUSTED | AVAILABILITY | PROVIDER_REJECTION | TRANSPORT | RESPONSE_TOO_LARGE
  | PROTOCOL | LOCAL_DEFECT.

#[global] Instance FailureKind_eq_dec : EqDecision FailureKind.
Proof. solve_decision. Defined.

(** [kind.value], also the text of a [StrEnum] member. *)
Definition kind_value (k : FailureKind) : pystr :=
  match k with
  | VALIDATION => "VALIDATION" | AUTHENTICATION => "AUTHENTICATION"
  | AUTHORIZATION => "AUTHORIZATION" | NOT_FOUND => "NOT_FOUND" | CONFLICT => "CONFLICT"
  | RATE_LIMIT => "RATE_LIMIT" | QUOTA_EXHAUSTED => "QUOTA_EXHAUSTED"
  | AVAILABILITY => "AVAILABILITY" | PROVIDER_REJECTION => "PROVIDER_REJECTION"
  | TRANSPORT => "TRANSPORT" | RESPONSE_TOO_LARGE => "RESPONSE_TOO_LARGE"
  | PROTOCOL => "PROTOCOL" | LOCAL_DEFECT => "LOCAL_DEFECT"
  end.

Definition all_kinds : list FailureKind :=
  [VALIDATION; AUTHENTICATION; AUTHORIZATION; NOT_FOUND; CONFLICT; RATE_LIMIT; QUOTA_EXHAUSTED;
   AVAILABILITY; PROVIDER_REJECTION; TRANSPORT; RESPONSE_TOO_LARGE; PROTOCOL; LOCAL_DEFECT].

(** [FailureKind(value)]. *)
Definition kind_of_value (s : pystr) : res FailureKind :=
  match List.find (λ k, bool_decide (kind_value k = s)) all_kinds with
  | Some k => Ok k
  | None => raise ValueError "is not a valid FailureKind"
  end.

Module Failure.

Record t := mk {
  kind : FailureKind;
  provider : pystr;
  operation : pystr;
  message : pystr
}.

(** [Failure.validate]; the kind is a [FailureKind] by its type here. *)
Definition validate (f : t) : res unit :=
  raise_if (negb (truthy (provider f)) || negb (truthy (operation f)) || negb (truthy (message f)))
    ValueError "failure provider, operation, and message are required".

Definition to_wire (f : t) : res json :=
  validate f ≫= λ _,
  Ok (JObj [(lit "kind", JStr (kind_value (kind f))); (lit "provider", JStr (provider f));
            (lit "operation", JStr (operation f)); (lit "message", JStr (message f))]).

Definition str_item (k : string) (d : dict json) : pystr :=
  match dget (lit k) d with Some (JStr s) => s | _ => [] end.

Definition from_wire (value : json) : res t :=
  match value with
  | JObj d =>
      raise_if (negb (keys_exactly d [lit "kind"; lit "provider"; lit "operation"; lit "message"]))
        ValueError "invalid failure object" ≫= λ _,
      raise_if (negb (forallb (λ kv, is_str (snd kv)) d)) ValueError "invalid failure fields" ≫= λ _,
      k ← kind_of_value (str_item "kind" d);
      let result := mk k (str_item "provider" d) (str_item "operation" d) (str_item "message" d) in
      validate result ≫= λ _, Ok result
  | _ => raise ValueError "invalid failure object"
  end.

End Failure.

(** ** RetryError *)

(** [RetryError.__init__]: what the exception keeps once constructed. *)
Record RetryError := mkRetryError {
  retry_failure : Failure.t;
  retry_after_seconds : pyfloat
}.

Definition retry_error (failure : Failure.t) (delay : pyfloat) : res RetryError :=
  Failure.validate failure ≫= λ _,
  raise_if (flt delay (FFin 0 0) || negb (isfinite delay))
    ValueError "retry delay must be finite and nonnegative" ≫= λ _,
  Ok (mkRetryError failure delay).

(** The text [super().__init__] receives. *)
Definition retry_message (e : RetryError) : pystr :=
  let f := retry_failure e in
  "connector " ++ Failure.provider f ++ " " ++ Failure.operation f ++ " retry ("
    ++ kind_value (Failure.kind f) ++ "): " ++ Failure.message f.

Definition retry_after_whole_seconds (e : RetryError) : res Z := int_of_float (retry_after_seconds e).

(** ** Theorems *)

Lemma kind_of_value_value k : kind_of_value (kind_value k) = Ok k.
Proof. by destruct k. Qed.

Lemma validate_Ok f u :
  Failure.validate f = Ok u ↔
  Failure.provider f ≠ [] ∧ Failure.operation f ≠ [] ∧ Failure.message f ≠ [].
Proof.
  unfold Failure.validate.
  rewrite raise_if_Ok, !orb_false_iff, !negb_false_iff, !truthy_true. tauto.
Qed.

Lemma wire_roundtrip f w : Failure.to_wire f = Ok w → Failure.from_wire w = Ok f.
Proof.
  unfold Failure.to_wire. intros H. res_inv.
  assert (Hk : kind_of_value (kind_value (Failure.kind f)) = Ok (Failure.kind f))
    by apply kind_of_value_value.
  destruct f as [k p o m]. unfold Failure.from_wire.
  change (Failure.validate (Failure.mk k p o m)) with (Failure.validate (Failure.mk k p o m)) in Ha.
  replace (negb (keys_exactly _ _)) with false by reflexivity.
  cbn [raise_if mbind result_bind forallb is_str snd andb negb Failure.provider Failure.operation
       Failure.message Failure.kind].
  change (Failure.str_item "kind" _) with (kind_value k). cbn [Failure.kind] in Hk. rewrite Hk.
  cbn [mbind result_bind]. change (Failure.str_item "provider" _) with p.
  change (Failure.str_item "operation" _) with o. change (Failure.str_item "message" _) with m.
  by rewrite Ha.
Qed.

Lemma retry_error_Ok failure delay e :
  retry_error failure delay = Ok e →
  retry_failure e = failure ∧ retry_after_seconds e = delay ∧
  Failure.validate failure = Ok () ∧ isfinite delay = true ∧ flt delay (FFin 0 0) = false.
Proof. unfold retry_error. intros H. res_inv. bool_inv. done. Qed.

Lemma whole_seconds_nonneg failure delay e :
  retry_error failure delay = Ok e → ∃ z, retry_after_whole_seconds e = Ok z ∧ (0 <= z)%Z.
Proof.
  intros (_ & Hd & _ & Hf & Hn)%retry_error_Ok. unfold retry_after_whole_seconds. rewrite Hd.
  destruct delay as [m e'| |]; try done. eexists. split; [done|].
  by apply trunc_nonneg, (flt_zero_nonneg m e').
Qed.
