(* ===== verification/Identity.v ===== *)
(** * Stable identities

    sdkpython/src/dex_connectors/sdk/types.py: call identifiers and their derivation from a
    Dex Step execution, connection and operation references, and the [Call] a provider
    operation receives. *)

From S2P Require Import Prelude Json Sha1.

Definition DEFECT_BRANCH_ID : pystr := "defect".
Definition UNCERTAIN_BRANCH_ID : pystr := "uncertain".

(** [CONNECTOR_ID_PATTERN.fullmatch]. *)
Definition connector_id_match (s : pystr) : bool :=
  match s with
  | c :: s' =>
      is_lower c && forallb (λ c, is_lower c || is_digit c || (c =? 45)%N) s'
      && (1 <=? length s')%nat && (length s' <=? 62)%nat
  | [] => false
  end.

(** [OPERATION_ID_PATTERN.fullmatch]. *)
Definition operation_id_match (s : pystr) : bool :=
  match s with
  | c :: s' => is_lower c && forallb is_alnum s' && (1 <=? length s')%nat
  | [] => false
  end.

(** [cast(str, value)] where the text is used: another type fails on its first use. *)
Definition as_str (j : json) : res pystr :=
  match j with JStr s => Ok s | _ => raise TypeError "expected string" end.

Definition as_dict (j : json) : res (dict json) :=
  match j with JObj d => Ok d | _ => raise TypeError "expected object" end.

Definition str_item (k : string) (d : dict json) : res pystr := item (lit k) d ≫= as_str.

(** ** uuid.UUID(text) *)

(** The first code points of the blocks of ten decimal digits [int()] accepts. *)
Definition decimal_zeros : list N :=
  [0x30; 0x660; 0x6f0; 0x7c0; 0x966; 0x9e6; 0xa66; 0xae6; 0xb66; 0xbe6; 0xc66; 0xce6; 0xd66;
   0xde6; 0xe50; 0xed0; 0xf20; 0x1040; 0x1090; 0x17e0; 0x1810; 0x1946; 0x19d0; 0x1a80; 0x1a90;
   0x1b50; 0x1bb0; 0x1c40; 0x1c50; 0xa620; 0xa8d0; 0xa900; 0xa9d0; 0xa9f0; 0xaa50; 0xabf0;
   0xff10; 0x104a0; 0x10d30; 0x11066; 0x110f0; 0x11136; 0x111d0; 0x112f0; 0x11450; 0x114d0;
   0x11650; 0x116c0; 0x11730; 0x118e0; 0x11950; 0x11c50; 0x11d50; 0x11da0; 0x16a60; 0x16ac0;
   0x16b50; 0x1d7ce; 0x1d7d8; 0x1d7e2; 0x1d7ec; 0x1d7f6; 0x1e140; 0x1e2f0; 0x1e950; 0x1fbf0]%N.

(** A digit [int(text, 16)] accepts: hexadecimal, or a decimal digit of another script. *)
Definition int16_digit (c : N) : bool := is_hex c || existsb (λ z, in_range z (z + 9) c) decimal_zeros.

(** Whitespace [int()] skips: the ASCII blanks and every other Unicode space. *)
Definition int_space (c : N) : bool :=
  in_range 0x09 0x0D c || (c =? 0x20)%N || ((127 <? c)%N && py_isspace c).

(** Hexadecimal digits with single underscores between them. *)
Fixpoint int16_digits (prev_digit : bool) (s : pystr) : bool :=
  match s with
  | [] => prev_digit
  | c :: s' =>
      if (c =? 95)%N then prev_digit && int16_digits false s'
      else int16_digit c && int16_digits true s'
  end.

(** [int(text, 16)] succeeds on a text without a minus sign. *)
Definition int16_ok (s : pystr) : bool :=
  let s := trim int_space s in
  let s := match s with c :: s' => if (c =? 43)%N then s' else s | [] => [] end in
  match s with
  | z :: x :: s' =>
      if (z =? 48)%N && ((x =? 120)%N || (x =? 88)%N) then
        match s' with
        | u :: s'' => if (u =? 95)%N then int16_digits false s'' else int16_digits false s'
        | [] => false
        end
      else int16_digits false s
  | _ => int16_digits false s
  end.

(** [UUID(text)] does not raise. *)
Definition uuid_ok (text : pystr) : bool :=
  let s := remove_sub (S (length text)) "urn:" text in
  let s := remove_sub (S (length s)) "uuid:" s in
  let s := trim (λ c, (c =? 123)%N || (c =? 125)%N) s in
  let s := List.filter (λ c, negb (c =? 45)%N) s in
  (length s =? 32)%nat && int16_ok s.

(** [uuid5(NAMESPACE_URL, "https://superdurable.dev/dex-connectors/call-id/v1").bytes]. *)
Definition NAMESPACE_URL : list N :=
  [0x6b; 0xa7; 0xb8; 0x11; 0x9d; 0xad; 0x11; 0xd1; 0x80; 0xb4; 0x00; 0xc0; 0x4f; 0xd4; 0x30; 0xc8]%N.

Definition _CALL_ID_NAMESPACE : list N :=
  Sha1.uuid_bytes (take 16 (Sha1.sha1
    (NAMESPACE_URL ++ codes "https://superdurable.dev/dex-connectors/call-id/v1"))).

Module ConnectionRef.

Record t := mk { provider : pystr; name : pystr }.

#[global] Instance eq_dec : EqDecision t.
Proof. solve_decision. Defined.

Definition validate (c : t) : res unit :=
  raise_if (blank (provider c) || blank (name c))
    ValueError "connection provider and name are required".

Definition to_wire (c : t) : res json :=
  validate c ≫= λ _,
  Ok (JObj [(lit "provider", JStr (provider c)); (lit "name", JStr (name c))]).

Definition from_wire (value : dict json) : res t :=
  p ← str_item "provider" value;
  n ← str_item "name" value;
  let result := mk p n in
  validate result ≫= λ _, Ok result.

End ConnectionRef.

Module OperationRef.

Record t := mk { connector_id : pystr; operation_id : pystr }.

#[global] Instance eq_dec : EqDecision t.
Proof. solve_decision. Defined.

Definition validate (o : t) : res unit :=
  raise_if (negb (connector_id_match (connector_id o)))
    ValueError "connector ID must be DNS-like and 2-63 characters" ≫= λ _,
  raise_if (negb (operation_id_match (operation_id o)))
    ValueError "operation ID must be lower camel case".

Definition to_wire (o : t) : res json :=
  validate o ≫= λ _,
  Ok (JObj [(lit "connectorId", JStr (connector_id o));
            (lit "operationId", JStr (operation_id o))]).

Definition from_wire (value : dict json) : res t :=
  c ← str_item "connectorId" value;
  o ← str_item "operationId" value;
  let result := mk c o in
  validate result ≫= λ _, Ok result.

End OperationRef.

Module CallID.

(** [CallID.validate]. *)
Definition validate (id : pystr) : res unit :=
  raise_if (negb (uuid_ok id)) ValueError "call ID must be a UUID".

Definition encode (s : pystr) : res (list N) :=
  match utf8 s with Some b => Ok b | None => raise UnicodeEncodeError "surrogates not allowed" end.

(** [len(b).to_bytes(4, "big") + b]. *)
Definition length_prefixed (s : pystr) : res (list N) :=
  b ← encode s;
  raise_if (2 ^ 32 <=? N.of_nat (length b))%N OverflowError "int too big to convert" ≫= λ _,
  Ok (Sha1.be 4 (N.of_nat (length b)) ++ b).

Definition fields_payload (fields : list pystr) : res (list N) :=
  parts ← mapR length_prefixed fields; Ok (List.concat parts).

Definition derive_call_id (flow_id step_execution_id : pystr) (operation : OperationRef.t)
    : res pystr :=
  raise_if (negb (truthy flow_id) || negb (truthy step_execution_id))
    ValueError "Dex Flow and Step execution IDs are required" ≫= λ _,
  OperationRef.validate operation ≫= λ _,
  payload ← fields_payload [flow_id; step_execution_id; OperationRef.connector_id operation;
                            OperationRef.operation_id operation];
  let digest := take 16 (Sha1.sha1 (_CALL_ID_NAMESPACE ++ payload)) in
  Ok (Sha1.uuid_str (Sha1.uuid_bytes digest)).

(** ** A formatted UUID validates *)

Lemma starts_with_head p c s : starts_with (c :: p) s = true → ∃ s', s = c :: s'.
Proof. destruct s as [|d s]; simpl; [done|]. intros H. bool_inv. subst. by exists s. Qed.

Lemma remove_sub_absent fuel c old s : c ∉ s → remove_sub fuel (c :: old) s = s.
Proof.
  revert s. induction fuel as [|fuel IH]; intros [|d s] Hc; simpl; try done.
  apply not_elem_of_cons in Hc as [Hd Hs].
  rewrite (proj2 (N.eqb_neq c d)) by done. simpl. by rewrite IH.
Qed.

Lemma trim_id p s : (∀ c, c ∈ s → p c = false) → trim p s = s.
Proof.
  intros H. assert (Hid : ∀ l, (∀ c, c ∈ l → p c = false) → drop_while p l = l).
  { intros l Hl. apply drop_while_id. intros c s' ->. apply Hl. by left. }
  unfold trim, drop_while_end. rewrite (Hid s H), Hid, rev_involutive; [done|].
  intros c Hc. apply H. by apply list_elem_of_In, in_rev, list_elem_of_In.
Qed.

Lemma int16_digits_hex prev s : forallb is_lower_hex s = true → s ≠ [] ∨ prev = true →
  int16_digits prev s = true.
Proof.
  revert prev. induction s as [|c s IH]; intros prev Hs Hne; simpl in *.
  - by destruct Hne.
  - bool_inv. destruct (N.eqb_spec c 95) as [->|_]; [done|].
    unfold int16_digit, is_hex. rewrite H. simpl. apply IH; [done|by right].
Qed.

Lemma lower_hex_bounds c : is_lower_hex c = true → (48 <= c <= 57 ∨ 97 <= c <= 102)%N.
Proof.
  unfold is_lower_hex, is_digit, in_range. intros H. apply orb_prop in H as [H|H];
    apply andb_prop in H as [?%N.leb_le ?%N.leb_le]; lia.
Qed.

Lemma lower_hex_elem s c : forallb is_lower_hex s = true → c ∈ s → (48 <= c <= 57 ∨ 97 <= c <= 102)%N.
Proof. intros Hs Hc%list_elem_of_In. apply lower_hex_bounds. by eapply forallb_forall in Hs. Qed.

Lemma int16_ok_hex s : forallb is_lower_hex s = true → s ≠ [] → int16_ok s = true.
Proof.
  intros Hs Hne. unfold int16_ok. rewrite trim_id.
  - destruct s as [|c s]; [done|]. pose proof (lower_hex_elem _ c Hs ltac:(by left)).
    destruct (N.eqb_spec c 43); [lia|]. destruct s as [|d s]; [by apply int16_digits_hex; [|left]|].
    pose proof (lower_hex_elem _ d Hs ltac:(right; by left)).
    destruct (N.eqb_spec d 120); [lia|]. destruct (N.eqb_spec d 88); [lia|].
    rewrite andb_false_r. by apply int16_digits_hex; [|left].
  - intros c Hc. pose proof (lower_hex_elem _ c Hs Hc) as Hb.
    unfold int_space, in_range. destruct (N.eqb_spec c 32); [lia|].
    destruct (N.leb_spec c 13); [lia|]. destruct (N.ltb_spec 127 c); [lia|]. by rewrite andb_false_r.
Qed.

Lemma hex_no_hyphen s : forallb is_lower_hex s = true → List.filter (λ c, negb (c =? 45)%N) s = s.
Proof.
  induction s as [|c s IH]; simpl; [done|]. intros H. bool_inv.
  pose proof (lower_hex_bounds c H). destruct (N.eqb_spec c 45); [lia|]. simpl. by rewrite IH.
Qed.

(** The characters of a formatted UUID: hexadecimal digits and hyphens. *)
Lemma uuid_str_parts b : length b = 16%nat → Forall (λ x, x < 256)%N b →
  ∃ h1 h2 h3 h4 h5, Sha1.uuid_str b = h1 ++ 45%N :: h2 ++ 45%N :: h3 ++ 45%N :: h4 ++ 45%N :: h5
    ∧ forallb is_lower_hex (h1 ++ h2 ++ h3 ++ h4 ++ h5) = true
    ∧ length (h1 ++ h2 ++ h3 ++ h4 ++ h5) = 32%nat.
Proof.
  intros Hl Hb. unfold Sha1.uuid_str. do 5 eexists. split; [reflexivity|]. split.
  - rewrite !forallb_app, !Sha1.hex_bytes_is_hex; [done|..]; by apply Forall_take, Forall_drop.
  - rewrite !length_app, !Sha1.hex_bytes_length, !length_take, !length_drop, Hl. done.
Qed.

Lemma uuid_str_ok b : length b = 16%nat → Forall (λ x, x < 256)%N b → uuid_ok (Sha1.uuid_str b) = true.
Proof.
  intros Hl Hb. destruct (uuid_str_parts b Hl Hb) as (h1 & h2 & h3 & h4 & h5 & -> & Hh & Hlen).
  set (s := h1 ++ _).
  assert (Hc : ∀ c, c ∈ s → (48 <= c <= 57 ∨ 97 <= c <= 102 ∨ c = 45)%N).
  { intros c Hc. destruct (N.eq_dec c 45%N) as [|Hne]; [auto|].
    cut (48 <= c <= 57 ∨ 97 <= c <= 102)%N; [tauto|]. apply (lower_hex_elem _ c Hh).
    unfold s in Hc. clear -Hc Hne. set_solver. }
  unfold uuid_ok, lit. cbn [codes].
  do 2 rewrite (remove_sub_absent _ _ _ s) by (intros Hin; apply Hc in Hin; cbn in Hin; lia).
  rewrite trim_id; last first.
  { intros c Hin%Hc. destruct (N.eqb_spec c 123); [lia|]. destruct (N.eqb_spec c 125); [lia|done]. }
  replace (List.filter _ s) with (h1 ++ h2 ++ h3 ++ h4 ++ h5).
  - rewrite Hlen, int16_ok_hex; [done|done|]. by intros E; rewrite E in Hlen.
  - unfold s. rewrite !forallb_app in Hh. bool_inv.
    repeat (rewrite ?List.filter_app; cbn [List.filter N.eqb Pos.eqb negb]).
    by rewrite !hex_no_hyphen.
Qed.

(** Every call identifier [derive_call_id] returns passes [CallID.validate]. *)
Theorem derived_id_validates flow_id step_execution_id operation id :
  derive_call_id flow_id step_execution_id operation = Ok id → validate id = Ok ().
Proof.
  unfold derive_call_id. intros (_ & _ & (_ & _ & (payload & _ & H)%bind_Ok)%bind_Ok)%bind_Ok.
  apply Ok_inj in H as <-. unfold validate. rewrite uuid_str_ok; [done|..].
  - by rewrite Sha1.uuid_bytes_length, length_take, Sha1.sha1_length.
  - by apply Sha1.uuid_bytes_byte, Forall_take, Sha1.sha1_bytes.
Qed.

(** ** The hashed payload determines its fields *)

Lemma byte_step n k : (k ≠ 0 → n / k = 256 * (n / (k * 256)) + (n / k) mod 256)%N.
Proof. intros Hk. rewrite <- N.Div0.div_div. apply N.div_mod. lia. Qed.

Lemma be4_value n : (n < 2 ^ 32)%N → Sha1.of_be (Sha1.be 4 n) = n.
Proof.
  intros Hn. unfold Sha1.of_be. cbn [Sha1.be fold_left]. rewrite !N.shiftr_div_pow2.
  change (2 ^ 32)%N with 4294967296%N in *.
  change (2 ^ (8 * N.of_nat 3))%N with (65536 * 256)%N. change (2 ^ (8 * N.of_nat 2))%N with (256 * 256)%N.
  change (2 ^ (8 * N.of_nat 1))%N with (1 * 256)%N. change (2 ^ (8 * N.of_nat 0))%N with 1%N.
  pose proof (byte_step n 1 ltac:(lia)). pose proof (byte_step n 256 ltac:(lia)).
  pose proof (byte_step n 65536 ltac:(lia)). change (256 * 256)%N with 65536%N in *.
  change (1 * 256)%N with 256%N in *. rewrite N.div_1_r in *.
  assert (n / (65536 * 256) < 256)%N by (apply N.Div0.div_lt_upper_bound; lia).
  rewrite (N.mod_small (n / (65536 * 256))) by done. lia.
Qed.

Lemma be4_inj n m r r' : (n < 2 ^ 32)%N → (m < 2 ^ 32)%N →
  Sha1.be 4 n ++ r = Sha1.be 4 m ++ r' → n = m ∧ r = r'.
Proof.
  intros Hn Hm H. apply app_inj_1 in H as [H ->]; [|by rewrite !Sha1.be_length].
  split; [|done]. by rewrite <- (be4_value n Hn), H, be4_value.
Qed.

Lemma utf8_char_cases c b : utf8_char c = Some b →
  (c < 0x80 ∧ b = [c])%N ∨
  (0x80 <= c < 0x800 ∧ b = [0xC0 + c / 64; 0x80 + c mod 64])%N ∨
  (0x800 <= c < 0x10000 ∧ b = [0xE0 + c / 4096; 0x80 + (c / 64) mod 64; 0x80 + c mod 64])%N ∨
  (0x10000 <= c < 0x110000 ∧ b = [0xF0 + c / 262144; 0x80 + (c / 4096) mod 64;
                                  0x80 + (c / 64) mod 64; 0x80 + c mod 64])%N.
Proof.
  unfold utf8_char. destruct (N.ltb_spec c 0x80); [intros [= <-]; by left|].
  destruct (N.ltb_spec c 0x800); [intros [= <-]; right; by left|].
  destruct (in_range _ _ c); [done|].
  destruct (N.ltb_spec c 0x10000); [intros [= <-]; do 2 right; by left|].
  destruct (N.ltb_spec c 0x110000); [intros [= <-]; by do 3 right|done].
Qed.

Lemma utf8_bytes s b : utf8 s = Some b → Forall (λ x, (x < 256)%N) b.
Proof.
  revert b. induction s as [|c s IH]; intros b; cbn [utf8]; [by intros [= <-]|].
  destruct (utf8_char c) as [bc|] eqn:Hc; [|done]. cbn [mbind option_bind]. destruct (utf8 s) as [bs|]; [|done].
  intros [= <-]. apply Forall_app. split; [|by apply IH].
  assert (Hm : ∀ x, (x mod 64 < 64)%N) by (intros; by apply N.mod_lt).
  apply utf8_char_cases in Hc. destruct Hc as [[Hc ->]|[[Hc ->]|[[Hc ->]|[Hc ->]]]];
    pose proof (Hm c); pose proof (Hm (c / 64)%N); pose proof (Hm (c / 4096)%N); repeat constructor; try lia.
  - pose proof (N.Div0.div_lt_upper_bound c 64 32 ltac:(lia)). lia.
  - pose proof (N.Div0.div_lt_upper_bound c 4096 16 ltac:(lia)). lia.
  - pose proof (N.Div0.div_lt_upper_bound c 262144 8 ltac:(lia)). lia.
Qed.

(** A leading byte tells the length, the other bytes the code point. *)
Lemma utf8_char_inj c d b b' r r' :
  utf8_char c = Some b → utf8_char d = Some b' → b ++ r = b' ++ r' → c = d ∧ r = r'.
Proof.
  intros Hc%utf8_char_cases Hd%utf8_char_cases.
  assert (∀ x k, k ≠ 0 → x = k * (x / k) + x mod k)%N as Hdm by (intros; by apply N.div_mod).
  pose proof (Hdm c 64%N ltac:(done)). pose proof (Hdm d 64%N ltac:(done)).
  pose proof (Hdm (c / 64)%N 64%N ltac:(done)). pose proof (Hdm (d / 64)%N 64%N ltac:(done)).
  pose proof (Hdm (c / 4096)%N 64%N ltac:(done)). pose proof (Hdm (d / 4096)%N 64%N ltac:(done)).
  rewrite !N.Div0.div_div in *. change (64 * 64)%N with 4096%N in *. change (4096 * 64)%N with 262144%N in *.
  assert (Hlead : ∀ x n k, (x < k * n → k ≠ 0 → x / k < n)%N) by (intros; by apply N.Div0.div_lt_upper_bound).
  pose proof (Hlead c 32 64)%N. pose proof (Hlead d 32 64)%N.
  pose proof (Hlead c 16 4096)%N. pose proof (Hlead d 16 4096)%N. clear Hdm Hlead.
  destruct Hc as [[? ->]|[[? ->]|[[? ->]|[? ->]]]], Hd as [[? ->]|[[? ->]|[[? ->]|[? ->]]]];
    cbn [app]; intros Heq; injection Heq; clear Heq; intros;
    repeat match goal with
    | _ : context [(?x / ?y)%N] |- _ => generalize dependent (x / y)%N; intros
    | _ : context [(?x mod ?y)%N] |- _ => generalize dependent (x mod y)%N; intros
    end; try (split; [lia|done]); exfalso; lia.
Qed.

Lemma utf8_inj s t b : utf8 s = Some b → utf8 t = Some b → s = t.
Proof.
  revert t b. induction s as [|c s IH]; intros [|d t] b; simpl; [done|..].
  - intros [= <-]. destruct (utf8_char d) as [bd|] eqn:Hd; [|done]. simpl.
    destruct (utf8 t); [|done]. simpl. intros [= E].
    apply utf8_char_cases in Hd. destruct bd; [|done]. naive_solver.
  - intros H [= <-]. revert H. destruct (utf8_char c) as [bc|] eqn:Hc; [|done]. simpl.
    destruct (utf8 s); [|done]. simpl. intros [= E].
    apply utf8_char_cases in Hc. destruct bc; [|done]. naive_solver.
  - destruct (utf8_char c) as [bc|] eqn:Hc, (utf8_char d) as [bd|] eqn:Hd; simpl; try done.
    destruct (utf8 s) as [bs|] eqn:Hs, (utf8 t) as [bt|] eqn:Ht; simpl; try done.
    intros [= <-] [= E].
    destruct (utf8_char_inj _ _ _ _ _ _ Hd Hc E) as [-> ->]. f_equal. by eapply IH.
Qed.

Lemma encode_inj s t b : encode s = Ok b → encode t = Ok b → s = t.
Proof.
  unfold encode. destruct (utf8 s) eqn:Hs, (utf8 t) eqn:Ht; try done. intros [= ->] [= ->].
  by eapply utf8_inj.
Qed.

Lemma length_prefixed_Ok s b : length_prefixed s = Ok b → ∃ bs,
  encode s = Ok bs ∧ (N.of_nat (length bs) < 2 ^ 32)%N ∧ b = Sha1.be 4 (N.of_nat (length bs)) ++ bs.
Proof.
  intros (bs & Hb & (u & Hl%raise_if_Ok & H)%bind_Ok)%bind_Ok. apply Ok_inj in H as <-.
  apply N.leb_gt in Hl. by exists bs.
Qed.

Lemma length_prefixed_inj s t b b' r r' :
  length_prefixed s = Ok b → length_prefixed t = Ok b' → b ++ r = b' ++ r' → s = t ∧ r = r'.
Proof.
  intros (bs & Hs & Hbs & ->)%length_prefixed_Ok (bt & Ht & Hbt & ->)%length_prefixed_Ok.
  rewrite <- !app_assoc. intros H. apply be4_inj in H as [Hl%Nat2N.inj H]; [|done|done].
  apply app_inj_1 in H as [-> ->]; [|done]. split; [|done]. by eapply encode_inj.
Qed.

Lemma prefixed_concat_inj fs gs ps qs : length fs = length gs →
  Forall2 (λ s b, length_prefixed s = Ok b) fs ps → Forall2 (λ s b, length_prefixed s = Ok b) gs qs →
  List.concat ps = List.concat qs → fs = gs.
Proof.
  intros Hl Hp. revert gs qs Hl. induction Hp as [|f p fs ps Hf _ IH]; intros gs qs Hl Hq.
  - by destruct gs.
  - destruct Hq as [|g q gs qs Hg Hq]; [done|]. injection Hl as Hl. cbn [List.concat]. intros H.
    destruct (length_prefixed_inj _ _ _ _ _ _ Hf Hg H) as [-> H']. f_equal. by eapply IH.
Qed.

(** Distinct (flow, step execution, connector, operation) identities are hashed from
    distinct byte strings, since every field carries its length. *)
Theorem fields_payload_injective fs gs b :
  length fs = length gs → fields_payload fs = Ok b → fields_payload gs = Ok b → fs = gs.
Proof.
  intros Hl (ps & Hp%mapR_Ok & Hb)%bind_Ok (qs & Hq%mapR_Ok & Hb')%bind_Ok.
  apply Ok_inj in Hb, Hb'. eapply prefixed_concat_inj; [done..|]. by rewrite Hb, Hb'.
Qed.

Lemma fields_payload_injective_witness :
  fields_payload [lit "ab"; lit "c"] = Ok [0; 0; 0; 2; 97; 98; 0; 0; 0; 1; 99]%N
  ∧ [lit "ab"; lit "c"] = [lit "ab"; lit "c"].
Proof.
  split; [vm_compute; reflexivity|].
  apply (fields_payload_injective _ _ [0; 0; 0; 2; 97; 98; 0; 0; 0; 1; 99]%N);
    vm_compute; reflexivity.
Defined.

(** The shared conformance vector of the Go, TypeScript and Python runtimes. *)
Example derive_call_id_conformance :
  derive_call_id "flow-42" "step-execution-7" (OperationRef.mk "sample" "createItem")
  = Ok (lit "5af8fafa-06ff-5b2d-bb13-04693809fabf").
Proof. vm_compute. reflexivity. Qed.

Lemma derived_id_validates_witness : validate "5af8fafa-06ff-5b2d-bb13-04693809fabf" = Ok ().
Proof.
  apply (derived_id_validates "flow-42" "step-execution-7" (OperationRef.mk "sample" "createItem")).
  vm_compute. reflexivity.
Defined.

End CallID.
