(* ===== verification/Calls.v ===== *)
(** * Calls and structured progress

    sdkpython/src/dex_connectors/sdk/types.py: [Progress], [ProgressUpdate],
    [_ProgressReporter] and [Call].  The Dex stream a reporter writes to is the list of updates
    written so far; a text writer is the list of texts. *)

From S2P Require Import Prelude Json Identity.

Record Progress := mkProgress {
  phase : pystr;
  message : pystr;
  percent : option pyfloat;
  provider_sequence : option Z
}.

Record ProgressUpdate := mkUpdate {
  u_call_id : pystr;
  u_attempt : Z;
  u_sequence : Z;
  u_phase : pystr;
  u_message : pystr;
  u_percent : option pyfloat;
  u_provider_sequence : option Z
}.

Module ProgressReporter.

Record t := mk {
  stream : list ProgressUpdate;
  attempt : Z;
  call_id : pystr;
  sequence : Z
}.

(** [_ProgressReporter.__init__]. *)
Definition init (attempt : Z) (call_id : pystr) : t := mk [] attempt call_id 0.

Definition percent_invalid (p : Progress) : bool :=
  match percent p with
  | Some x => flt x (FFin 0 0) || flt (FFin 1 0) x
  | None => false
  end.

(** [report]: the lock makes the increment and the write one step. *)
Definition report (r : t) (p : Progress) : res t :=
  raise_if (percent_invalid p) ValueError "connector progress percent must be between 0 and 1" ≫= λ _,
  let sequence := (sequence r + 1)%Z in
  Ok (mk (stream r ++ [mkUpdate (call_id r) (attempt r) sequence (phase p) (message p) (percent p)
                         (provider_sequence p)])
         (attempt r) (call_id r) sequence).

(** A run of reports in which the caller handles each [ValueError] and goes on. *)
Fixpoint report_all (r : t) (ps : list Progress) : t :=
  match ps with
  | [] => r
  | p :: ps' => report_all (match report r p with Ok r' => r' | Err _ => r end) ps'
  end.

End ProgressReporter.

Module Call.

Record t := mk {
  id : pystr;
  connection : ConnectionRef.t;
  operation : OperationRef.t;
  idempotency_key : pystr;
  _progress_reporter : option ProgressReporter.t;
  _text_writer : option (list pystr)
}.

(** [replace(call, idempotency_key=key)]. *)
Definition with_key (key : pystr) (c : t) : t :=
  mk (id c) (connection c) (operation c) key (_progress_reporter c) (_text_writer c).

Definition with_reporter (r : option ProgressReporter.t) (c : t) : t :=
  mk (id c) (connection c) (operation c) (idempotency_key c) r (_text_writer c).

Definition report_progress (c : t) (p : Progress) : res t :=
  match _progress_reporter c with
  | Some r => r' ← ProgressReporter.report r p; Ok (with_reporter (Some r') c)
  | None => Ok c
  end.

Definition write_text (c : t) (value : pystr) : t :=
  match _text_writer c with
  | Some w => mk (id c) (connection c) (operation c) (idempotency_key c) (_progress_reporter c)
                (Some (w ++ [value]))
  | None => c
  end.

Definition has_progress_stream (c : t) : bool :=
  match _progress_reporter c with Some _ => true | None => false end.
Definition has_text_stream (c : t) : bool :=
  match _text_writer c with Some _ => true | None => false end.

Definition to_wire (c : t) : res json :=
  CallID.validate (id c) ≫= λ _,
  connection ← ConnectionRef.to_wire (connection c);
  operation ← OperationRef.to_wire (operation c);
  Ok (JObj ([(lit "id", JStr (id c)); (lit "connection", connection); (lit "operation", operation)]
            ++ (if truthy (idempotency_key c)
                then [(lit "idempotencyKey", JStr (idempotency_key c))] else []))).

Definition from_wire (value : dict json) : res t :=
  id ← str_item "id" value;
  cv ← item "connection" value; cd ← as_dict cv; connection ← ConnectionRef.from_wire cd;
  ov ← item "operation" value; od ← as_dict ov; operation ← OperationRef.from_wire od;
  key ← as_str (get_or "idempotencyKey" (JStr []) value);
  let result := mk id connection operation key None None in
  CallID.validate id ≫= λ _, Ok result.

(** ** Theorems *)

Lemma connection_roundtrip c w d :
  ConnectionRef.to_wire c = Ok w → w = JObj d → ConnectionRef.from_wire d = Ok c.
Proof.
  unfold ConnectionRef.to_wire. intros (u & Hv & [= <-])%bind_Ok [= <-].
  unfold ConnectionRef.from_wire, str_item.
  change (item (lit "provider") _) with (@Ok exn _ (JStr (ConnectionRef.provider c))).
  change (item (lit "name") _) with (@Ok exn _ (JStr (ConnectionRef.name c))).
  destruct c as [p n], u. cbn [mbind result_bind as_str ConnectionRef.provider ConnectionRef.name].
  by rewrite Hv.
Qed.

Lemma operation_roundtrip o w d :
  OperationRef.to_wire o = Ok w → w = JObj d → OperationRef.from_wire d = Ok o.
Proof.
  unfold OperationRef.to_wire. intros (u & Hv & [= <-])%bind_Ok [= <-].
  unfold OperationRef.from_wire, str_item.
  change (item (lit "connectorId") _) with (@Ok exn _ (JStr (OperationRef.connector_id o))).
  change (item (lit "operationId") _) with (@Ok exn _ (JStr (OperationRef.operation_id o))).
  destruct o as [c i], u. cbn [mbind result_bind as_str OperationRef.connector_id OperationRef.operation_id].
  by rewrite Hv.
Qed.

Lemma connection_wire_obj c w : ConnectionRef.to_wire c = Ok w → ∃ d, w = JObj d.
Proof. unfold ConnectionRef.to_wire. intros (? & _ & [= <-])%bind_Ok. by eexists. Qed.

Lemma operation_wire_obj o w : OperationRef.to_wire o = Ok w → ∃ d, w = JObj d.
Proof. unfold OperationRef.to_wire. intros (? & _ & [= <-])%bind_Ok. by eexists. Qed.

(** The persisted part of a call: its identity without the live Dex handles. *)
Definition persisted (c : t) : t :=
  mk (id c) (connection c) (operation c) (idempotency_key c) None None.

(** A persisted call is decoded to the same identity, connection, operation and
    idempotency key, without live Dex handles. *)
Theorem call_wire_roundtrip c d :
  to_wire c = Ok (JObj d) → from_wire d = Ok (persisted c).
Proof.
  unfold to_wire. intros ([] & Hv & (wc & Hc & (wo & Ho & [= <-])%bind_Ok)%bind_Ok)%bind_Ok.
  destruct (connection_wire_obj _ _ Hc) as [dc ->], (operation_wire_obj _ _ Ho) as [do ->].
  unfold from_wire, str_item.
  change (item (lit "id") _) with (@Ok exn _ (JStr (id c))).
  change (item (lit "connection") _) with (@Ok exn _ (JObj dc)).
  change (item (lit "operation") _) with (@Ok exn _ (JObj do)).
  cbn [mbind result_bind as_str as_dict].
  rewrite (connection_roundtrip _ _ _ Hc eq_refl), (operation_roundtrip _ _ _ Ho eq_refl).
  cbn [mbind result_bind].
  replace (get_or _ _ _) with (JStr (idempotency_key c)); [cbn [mbind result_bind as_str]; by rewrite Hv|].
  by destruct (idempotency_key c).
Qed.

Definition sample_call : t :=
  mk "5af8fafa-06ff-5b2d-bb13-04693809fabf" (ConnectionRef.mk "sample" "main")
    (OperationRef.mk "sample" "createItem") "key-1" (Some (ProgressReporter.init 1 "x")) None.

Lemma call_wire_roundtrip_witness :
  ∃ d, to_wire sample_call = Ok (JObj d) ∧ from_wire d = Ok (persisted sample_call).
Proof.
  eexists. split; [vm_compute; reflexivity|].
  apply (call_wire_roundtrip sample_call). vm_compute. reflexivity.
Defined.

End Call.

Module ReporterFacts.
Import ProgressReporter.

(** The reporter's invariant: the updates written are numbered 1, 2, ... in order. *)
Definition numbered (r : t) : Prop :=
  map u_sequence (stream r) = map Z.of_nat (seq 1 (length (stream r))) ∧
  sequence r = Z.of_nat (length (stream r)) ∧
  Forall (λ u, u_call_id u = call_id r ∧ u_attempt u = attempt r) (stream r).

Lemma report_numbered r p r' : numbered r → report r p = Ok r' → numbered r'.
Proof.
  intros (Hs & Hn & Hf) (_ & _ & H)%bind_Ok. apply Ok_inj in H as <-. unfold numbered. simpl.
  rewrite length_app, map_app, Hs, Hn, seq_app, map_app. simpl.
  split; [|split; [lia|]].
  - do 2 f_equal. lia.
  - apply Forall_app. split; [done|]. by repeat constructor.
Qed.

Lemma init_numbered a i : numbered (init a i).
Proof. by repeat constructor. Qed.

(** Over any run of reports the stream receives updates numbered 1, 2, ... without gaps
    or repetition, one for each accepted report; a rejected percentage writes nothing. *)
Theorem reports_numbered a i ps :
  map u_sequence (stream (report_all (init a i) ps))
  = map Z.of_nat (seq 1 (length (List.filter (λ p, negb (percent_invalid p)) ps))).
Proof.
  assert (Hgen : ∀ r, numbered r → numbered (report_all r ps) ∧
    length (stream (report_all r ps))
    = (length (stream r) + length (List.filter (λ p, negb (percent_invalid p)) ps))%nat).
  { induction ps as [|p ps IH]; intros r Hr; simpl; [split; [done|lia]|].
    destruct (report r p) as [r'|e] eqn:Hp.
    - destruct (IH r' (report_numbered _ _ _ Hr Hp)) as [? ->]. split; [done|].
      apply bind_Ok in Hp as (_ & Hp%raise_if_Ok & Heq). apply Ok_inj in Heq as <-.
      rewrite Hp. simpl. rewrite length_app. simpl. lia.
    - destruct (IH r Hr) as [? ->]. split; [done|].
      apply bind_Err in Hp as [[Hp _]%raise_if_Err|(? & _ & ?)]; [|done]. by rewrite Hp. }
  destruct (Hgen (init a i) (init_numbered a i)) as [(-> & _ & _) ->]. done.
Qed.

End ReporterFacts.
