(* ===== verification/Definitions.v ===== *)
(** * Operation definitions

    sdkpython/src/dex_connectors/sdk/types.py: branch definitions, Execute-only Step defaults,
    and the Query and Mutation definitions with their wire forms.  [str(value)] of a JSON value
    that is neither a string, a boolean, an integer nor null is the interpreter's [repr], a
    parameter of the decoders. *)

From S2P Require Import Prelude Json Retry Identity Calls.

(** [str(value)]. *)
Definition py_str (repr : json → pystr) (j : json) : pystr :=
  match j with
  | JStr s => s
  | JNull => "None"
  | JBool b => if b then "True" else "False"
  | JInt z => str_of_Z z
  | _ => repr j
  end.

(** [cast(int, value)] where the number is used. *)
Definition as_int (j : json) : res Z :=
  match j with JInt z => Ok z | _ => raise TypeError "expected integer" end.

Definition num_json (x : num) : json := match x with NInt z => JInt z | NFloat f => JFloat f end.

Definition json_num (j : json) : res num :=
  match j with
  | JInt z => Ok (NInt z)
  | JFloat f => Ok (NFloat f)
  | JBool b => Ok (NInt (if b then 1 else 0))
  | _ => raise TypeError "unsupported operand type"
  end.

Module BranchDefinition.

Record t := mk { id : pystr; description : pystr; optional : bool }.

Definition validate (b : t) : res unit :=
  raise_if (negb (operation_id_match (id b)) || blank (description b))
    ValueError "invalid branch identity or description".

Definition to_wire (b : t) : res json :=
  validate b ≫= λ _,
  Ok (JObj ([(lit "id", JStr (id b)); (lit "description", JStr (description b))]
            ++ (if optional b then [(lit "optional", JBool true)] else []))).

Definition from_wire (repr : json → pystr) (value : dict json) : res t :=
  i ← item "id" value;
  d ← item "description" value;
  let result := mk (py_str repr i) (py_str repr d) (jtruthy (get_or "optional" (JBool false) value)) in
  validate result ≫= λ _, Ok result.

End BranchDefinition.

Module StepDefaults.

Record t := mk {
  execute_method_timeout : Z;
  execute_durability : Z;
  heartbeat_timeout : Z;
  execute_retry : option Policy.RetryPolicy;
  _wire_timeouts : option (Z * Z)
}.

Definition validate (s : t) : res unit :=
  raise_if ((execute_method_timeout s <? 0)%Z || (heartbeat_timeout s <? 0)%Z)
    ValueError "Step timeouts cannot be negative" ≫= λ _,
  raise_if (negb ((0 <=? execute_durability s)%Z && (execute_durability s <=? 2)%Z))
    ValueError "Step Execute durability is invalid" ≫= λ _,
  match execute_retry s with Some p => Policy.validate p | None => Ok () end.

Definition raw_matches (s : t) (raw : Z * Z) : res bool :=
  x ← is_interval_of (execute_method_timeout s) (fst raw);
  if negb x then Ok false else is_interval_of (heartbeat_timeout s) (snd raw).

Definition timeouts_ns (s : t) : res (Z * Z) :=
  let plain := (ns_of_timedelta (execute_method_timeout s), ns_of_timedelta (heartbeat_timeout s)) in
  match _wire_timeouts s with
  | None => Ok plain
  | Some raw => b ← raw_matches s raw; Ok (if b : bool then raw else plain)
  end.

Definition retry_wire (s : t) : res (dict json) :=
  match execute_retry s with
  | Some p => w ← Policy.to_wire p;
              Ok [(lit "executeRetry", JObj (map (λ kv, (fst kv, num_json (snd kv))) w))]
  | None => Ok []
  end.

Definition heartbeat_present (s : t) : bool :=
  negb (heartbeat_timeout s =? 0)%Z
  || match _wire_timeouts s with Some (_, h) => negb (h =? 0)%Z | None => false end.

Definition to_wire (s : t) : res json :=
  validate s ≫= λ _,
  ns ← timeouts_ns s;
  retry ← retry_wire s;
  Ok (JObj ([(lit "executeMethodTimeout", JInt (fst ns));
             (lit "executeDurability", JInt (execute_durability s))]
            ++ (if heartbeat_present s then [(lit "heartbeatTimeout", JInt (snd ns))] else [])
            ++ retry)).

(** [RetryPolicy.from_wire] on a JSON object: the key check precedes every use of a value. *)
Definition retry_from_json (j : json) : res Policy.RetryPolicy :=
  d ← as_dict j;
  raise_if (negb (keys_exactly d Policy.expected))
    ValueError "retry policy fields are invalid" ≫= λ _,
  nums ← mapR (λ kv, n ← json_num (snd kv); Ok (fst kv, n)) d;
  Policy.from_wire nums.

Definition optional_retry (j : json) : res (option Policy.RetryPolicy) :=
  match j with JNull => Ok None | _ => p ← retry_from_json j; Ok (Some p) end.

Definition from_wire (value : dict json) : res t :=
  let retry := get "executeRetry" value in
  ev ← item "executeMethodTimeout" value; e ← as_int ev;
  execute ← timedelta_of_ns (NInt e);
  dv ← item "executeDurability" value; durability ← as_int dv;
  h ← as_int (get_or "heartbeatTimeout" (JInt 0) value);
  heartbeat ← timedelta_of_ns (NInt h);
  policy ← optional_retry retry;
  let result := mk execute durability heartbeat policy (Some (e, h)) in
  validate result ≫= λ _, Ok result.

End StepDefaults.

Module QueryDefinition.

Record t := mk {
  operation : OperationRef.t;
  branches : option (list BranchDefinition.t);
  step_defaults : StepDefaults.t
}.

Definition branch_ids (d : t) : list pystr :=
  map BranchDefinition.id (default [] (branches d)).

(** [{branch.id for branch in definition.branches or ()}]. *)
Definition declared (d : t) (branch : pystr) : bool := bool_decide (branch ∈ branch_ids d).

(** The checks both definitions share; [uncertain_allowed] is the only difference. *)
Definition validate_with (uncertain_allowed : bool) (msg : string) (d : t) : res unit :=
  OperationRef.validate (operation d) ≫= λ _,
  match branches d with
  | None | Some [] => StepDefaults.validate (step_defaults d)
  | Some bs =>
      let ids := map BranchDefinition.id bs in
      raise_if (negb (bool_decide (NoDup ids)) || negb (bool_decide (DEFECT_BRANCH_ID ∈ ids))
                || (negb uncertain_allowed && bool_decide (UNCERTAIN_BRANCH_ID ∈ ids)))
        ValueError msg ≫= λ _,
      for_each BranchDefinition.validate bs ≫= λ _,
      StepDefaults.validate (step_defaults d)
  end.

Definition validate (d : t) : res unit := validate_with false "invalid Query branches" d.

(** [to_wire] and [from_wire] dispatch on the class's own [validate]. *)
Definition to_wire (validate : t → res unit) (d : t) : res json :=
  validate d ≫= λ _,
  o ← OperationRef.to_wire (operation d);
  bs ← match branches d with
       | Some bs => ws ← mapR BranchDefinition.to_wire bs; Ok (JArr ws)
       | None => Ok JNull
       end;
  s ← StepDefaults.to_wire (step_defaults d);
  Ok (JObj [(lit "operation", o); (lit "branches", bs); (lit "stepDefaults", s)]).

Definition from_wire (repr : json → pystr) (validate : t → res unit) (value : dict json) : res t :=
  ov ← item "operation" value;
  bv ← item "branches" value;
  od ← as_dict ov;
  c ← str_item "connectorId" od;
  i ← str_item "operationId" od;
  bs ← match bv with
       | JNull => Ok None
       | JArr l => bs ← mapR (λ j, d ← as_dict j; BranchDefinition.from_wire repr d) l; Ok (Some bs)
       | _ => raise TypeError "branches are not iterable objects"
       end;
  sv ← item "stepDefaults" value;
  sd ← as_dict sv;
  s ← StepDefaults.from_wire sd;
  let result := mk (OperationRef.mk c i) bs s in
  validate result ≫= λ _, Ok result.

End QueryDefinition.

Module MutationDefinition.

Definition validate (d : QueryDefinition.t) : res unit :=
  QueryDefinition.validate_with true "invalid Mutation branches" d.

End MutationDefinition.

Module DefinitionFacts.
Import QueryDefinition.

Lemma branch_roundtrip repr b w : BranchDefinition.to_wire b = Ok w →
  ∃ d, w = JObj d ∧ BranchDefinition.from_wire repr d = Ok b.
Proof.
  unfold BranchDefinition.to_wire. intros ([] & Hv & [= <-])%bind_Ok. eexists. split; [done|].
  unfold BranchDefinition.from_wire.
  change (item (lit "id") _) with (@Ok exn _ (JStr (BranchDefinition.id b))).
  change (item (lit "description") _) with (@Ok exn _ (JStr (BranchDefinition.description b))).
  cbn [mbind result_bind py_str].
  replace (jtruthy _) with (BranchDefinition.optional b) by (by destruct (BranchDefinition.optional b)).
  destruct b. cbn [BranchDefinition.id BranchDefinition.description BranchDefinition.optional].
  by rewrite Hv.
Qed.

Lemma branches_roundtrip repr bs ws : mapR BranchDefinition.to_wire bs = Ok ws →
  mapR (λ j, d ← as_dict j; BranchDefinition.from_wire repr d) ws = Ok bs.
Proof.
  intros H%mapR_Ok. apply mapR_Ok. induction H as [|b w bs ws Hb _ IH]; constructor; [|done].
  by destruct (branch_roundtrip repr _ _ Hb) as (d & -> & Hd).
Qed.

(** The retry schedule of a decoded definition came as integer nanoseconds. *)
Definition retry_remembers (s : StepDefaults.t) : Prop :=
  match StepDefaults.execute_retry s with
  | Some p => ∃ a b c f, Policy.remembers p a b c ∧ Policy.backoff_coefficient p = NFloat f
  | None => True
  end.

Definition remembers (s : StepDefaults.t) (e h : Z) : Prop :=
  timedelta_of_ns (NInt e) = Ok (StepDefaults.execute_method_timeout s) ∧
  timedelta_of_ns (NInt h) = Ok (StepDefaults.heartbeat_timeout s) ∧
  StepDefaults._wire_timeouts s = Some (e, h).

Lemma retry_json_roundtrip p a b c f :
  Policy.validate p = Ok () → Policy.remembers p a b c → Policy.backoff_coefficient p = NFloat f →
  ∃ w, Policy.to_wire p = Ok w ∧
       StepDefaults.retry_from_json (JObj (map (λ kv, (fst kv, num_json (snd kv))) w)) = Ok p.
Proof.
  intros Hv Hr Hf. eexists. split; [by apply Policy.to_wire_remembers|]. rewrite Hf.
  change (StepDefaults.retry_from_json _) with
    (Policy.from_wire (Policy.wire_dict (a, b, c) (NFloat f) (Policy.maximum_attempts p))).
  rewrite Policy.from_wire_dict. destruct Hr as (-> & -> & -> & Hw). cbn [mbind result_bind].
  replace (Policy.Build_RetryPolicy _ _ _ _ _ _) with p; [by rewrite Hv|].
  destruct p; cbn in *. by subst.
Qed.

Lemma defaults_roundtrip s e h : StepDefaults.validate s = Ok () → remembers s e h → retry_remembers s →
  ∃ d, StepDefaults.to_wire s = Ok (JObj d) ∧ StepDefaults.from_wire d = Ok s
       ∧ dget (lit "executeMethodTimeout") d = Some (JInt e).
Proof.
  intros Hv (He & Hh & Hw) Hr. unfold StepDefaults.to_wire, StepDefaults.timeouts_ns.
  rewrite Hv, Hw. cbn [mbind result_bind]. unfold StepDefaults.raw_matches. cbn [fst snd].
  rewrite !(Policy.is_interval_of_ns _ _ He), !(Policy.is_interval_of_ns _ _ Hh). cbn [mbind result_bind negb fst snd].
  assert (Hret : ∃ r, StepDefaults.retry_wire s = Ok r ∧
    match dget (lit "executeRetry") r with
    | Some j => ∃ p, j ≠ JNull ∧ StepDefaults.execute_retry s = Some p ∧ StepDefaults.retry_from_json j = Ok p
    | None => r = [] ∧ StepDefaults.execute_retry s = None
    end ∧ dget (lit "heartbeatTimeout") r = None).
  { unfold StepDefaults.retry_wire, retry_remembers in *. unfold StepDefaults.validate in Hv.
    destruct (StepDefaults.execute_retry s) as [p|]; [|by exists []].
    destruct Hr as (a & b & c & f & Hr & Hf). apply bind_Ok in Hv as (_ & _ & (_ & _ & Hv)%bind_Ok).
    destruct (retry_json_roundtrip p a b c f Hv Hr Hf) as (w & -> & Hj). eexists.
    split; [reflexivity|]. split; [by exists p|done]. }
  destruct Hret as (r & -> & Hd & Hhb). cbn [mbind result_bind]. eexists. split; [done|].
  split; [|done]. unfold StepDefaults.from_wire.
  change (item (lit "executeMethodTimeout") _) with (@Ok exn _ (JInt e)).
  change (item (lit "executeDurability") _) with (@Ok exn _ (JInt (StepDefaults.execute_durability s))).
  cbn [mbind result_bind as_int]. rewrite He. cbn [mbind result_bind].
  replace (get_or (lit "heartbeatTimeout") _ _) with (JInt h); last first.
  { unfold StepDefaults.heartbeat_present, get_or. rewrite Hw.
    destruct (negb (StepDefaults.heartbeat_timeout s =? 0)%Z || negb (h =? 0)%Z) eqn:Hz; [done|].
    apply orb_false_elim in Hz as [_ Hz]. apply negb_false_iff, Z.eqb_eq in Hz as ->.
    change (dget _ _) with (dget (lit "heartbeatTimeout") r). by rewrite Hhb. }
  cbn [as_int mbind result_bind]. rewrite Hh. cbn [mbind result_bind].
  replace (get (lit "executeRetry") _) with (default JNull (dget (lit "executeRetry") r));
    [|unfold get, get_or; by destruct (StepDefaults.heartbeat_present s)].
  replace (StepDefaults.optional_retry _) with (@Ok exn _ (StepDefaults.execute_retry s)).
  - cbn [mbind result_bind]. rewrite <- Hw. destruct s; simpl in *. by rewrite Hv.
  - destruct (dget (lit "executeRetry") r) as [j|]; simpl.
    + destruct Hd as (p & Hj & -> & Hp). unfold StepDefaults.optional_retry. rewrite Hp. by destruct j.
    + by destruct Hd as [_ ->].
Qed.

Lemma from_wire_remembers v s : StepDefaults.from_wire v = Ok s →
  StepDefaults.validate s = Ok () ∧ ∃ e h, remembers s e h.
Proof.
  intros (ev & _ & (e & _ & (ex & He & H)%bind_Ok)%bind_Ok)%bind_Ok.
  apply bind_Ok in H as (dv & _ & (du & _ & (h & _ & H)%bind_Ok)%bind_Ok).
  apply bind_Ok in H as (hb & Hh & (po & _ & (u & Hv & H)%bind_Ok)%bind_Ok).
  apply Ok_inj in H as <-. destruct u. split; [done|]. by exists e, h.
Qed.

Section WireDefinition.
Context (repr : json → pystr) (validate : t → res unit).
Hypothesis Hoperation : ∀ d, validate d = Ok () → OperationRef.validate (operation d) = Ok ().

Lemma definition_roundtrip d e h :
  validate d = Ok () → StepDefaults.validate (step_defaults d) = Ok () →
  (∀ bs, branches d = Some bs → Forall (λ b, BranchDefinition.validate b = Ok ()) bs) →
  remembers (step_defaults d) e h → retry_remembers (step_defaults d) →
  ∃ w, to_wire validate d = Ok (JObj w) ∧ from_wire repr validate w = Ok d.
Proof.
  intros Hv Hs Hbs Hr Hret. unfold to_wire. rewrite Hv. cbn [mbind result_bind].
  pose proof (Hoperation d Hv) as Ho. unfold OperationRef.to_wire. rewrite Ho. cbn [mbind result_bind].
  destruct (defaults_roundtrip _ _ _ Hs Hr Hret) as (sd & -> & Hsd & _).
  assert (Hb : ∃ j, match branches d with
       | Some bs => ws ← mapR BranchDefinition.to_wire bs; Ok (JArr ws)
       | None => Ok JNull end = Ok j ∧
     match j with
       | JNull => Ok None
       | JArr l => bs ← mapR (λ j, d ← as_dict j; BranchDefinition.from_wire repr d) l; Ok (Some bs)
       | _ => raise TypeError "branches are not iterable objects"
       end = Ok (branches d)).
  { destruct (branches d) as [bs|]; [|by exists JNull].
    assert (Hw : ∃ ws, mapR BranchDefinition.to_wire bs = Ok ws).
    { specialize (Hbs bs eq_refl). clear -Hbs. induction Hbs as [|b bs Hb _ [ws IH]]; [by exists []|].
      assert (Hbw : ∃ w, BranchDefinition.to_wire b = Ok w)
        by (unfold BranchDefinition.to_wire; rewrite Hb; by eexists).
      destruct Hbw as [w Hbw]. exists (w :: ws). cbn [mapR]. by rewrite Hbw, IH. }
    destruct Hw as [ws Hw]. rewrite Hw. eexists. split; [done|].
    cbn beta iota. by rewrite (branches_roundtrip repr _ _ Hw). }
  destruct Hb as (j & -> & Hj). cbn [mbind result_bind]. eexists. split; [done|].
  unfold from_wire.
  change (item (lit "operation") _) with (@Ok exn _ (JObj [(lit "connectorId", JStr (OperationRef.connector_id (operation d)));
    (lit "operationId", JStr (OperationRef.operation_id (operation d)))])).
  change (item (lit "branches") _) with (@Ok exn _ j).
  change (item (lit "stepDefaults") _) with (@Ok exn _ (JObj sd)).
  cbn [mbind result_bind as_dict]. unfold str_item.
  change (item (lit "connectorId") _) with (@Ok exn _ (JStr (OperationRef.connector_id (operation d)))).
  change (item (lit "operationId") _) with (@Ok exn _ (JStr (OperationRef.operation_id (operation d)))).
  cbn [mbind result_bind as_str]. cbn [mbind result_bind] in Hj. rewrite Hj. cbn [mbind result_bind].
  rewrite Hsd. cbn [mbind result_bind].
  destruct d as [[c i] bs s]. cbn [operation branches step_defaults OperationRef.connector_id OperationRef.operation_id].
  by rewrite Hv.
Qed.
End WireDefinition.

Lemma validate_with_inv u msg d : validate_with u msg d = Ok () →
  OperationRef.validate (operation d) = Ok () ∧ StepDefaults.validate (step_defaults d) = Ok () ∧
  (∀ bs, branches d = Some bs → Forall (λ b, BranchDefinition.validate b = Ok ()) bs).
Proof.
  intros ([] & Ho & H)%bind_Ok. split; [done|]. destruct (branches d) as [[|b bs]|].
  - split; [done|]. by intros ? [= <-].
  - apply bind_Ok in H as (_ & _ & ([] & Hf%for_each_Ok & Hs)%bind_Ok). split; [done|].
    by intros ? [= <-].
  - by split.
Qed.

(** A Query or Mutation definition decoded from the wire is encoded to a wire form that
    decodes to the same definition, timeouts and retry intervals included. *)
Theorem definition_wire_stable repr mutation v d :
  let validate := if mutation : bool then MutationDefinition.validate else QueryDefinition.validate in
  from_wire repr validate v = Ok d → retry_remembers (step_defaults d) →
  ∃ w, to_wire validate d = Ok (JObj w) ∧ from_wire repr validate w = Ok d.
Proof.
  intros validate H Hret. unfold from_wire in H.
  do 6 apply bind_Ok in H as (? & _ & H). apply bind_Ok in H as (sv & _ & H).
  apply bind_Ok in H as (sd & _ & (s & Hs%from_wire_remembers & ([] & Hv & H)%bind_Ok)%bind_Ok).
  apply Ok_inj in H as <-. destruct Hs as [Hsv (e & h & Hr)].
  assert (Hinv : ∀ d, validate d = Ok () →
    OperationRef.validate (operation d) = Ok () ∧ StepDefaults.validate (step_defaults d) = Ok () ∧
    (∀ bs, branches d = Some bs → Forall (λ b, BranchDefinition.validate b = Ok ()) bs)).
  { intros d Hd. subst validate. destruct mutation; by eapply validate_with_inv. }
  eapply definition_roundtrip; [intros d Hd; by apply Hinv|done|done|by apply Hinv|done|done].
Qed.

Definition sample_definition : t :=
  mk (OperationRef.mk "sample" "createItem")
    (Some [BranchDefinition.mk "created" "Item created" false;
           BranchDefinition.mk "defect" "Local defect" true])
    (StepDefaults.mk 30000000 0 0 (Some Policy.sample_policy) (Some (30000000500, 0)%Z)).

Lemma definition_wire_stable_witness :
  ∃ w, to_wire QueryDefinition.validate sample_definition = Ok (JObj w)
       ∧ from_wire (λ _, []) QueryDefinition.validate w = Ok sample_definition.
Proof.
  apply (definition_wire_stable (λ _, []) false
    (match to_wire QueryDefinition.validate sample_definition with Ok (JObj w) => w | _ => [] end)).
  - vm_compute. reflexivity.
  - exists 1500%Z, 2000000001%Z, 3600000000007%Z, (FFin 3 (-1)).
    split; [|reflexivity]. repeat split; vm_compute; reflexivity.
Defined.

(** A valid Query definition with branches declares distinct routes, the defect route and
    no uncertainty route; a valid Mutation definition differs only by allowing uncertainty. *)
Theorem valid_definition_routes u msg d bs :
  validate_with u msg d = Ok () → branches d = Some bs → bs ≠ [] →
  NoDup (branch_ids d) ∧ declared d DEFECT_BRANCH_ID = true ∧
  (u = false → declared d UNCERTAIN_BRANCH_ID = false).
Proof.
  intros (_ & _ & H)%bind_Ok Hb Hne. unfold declared, branch_ids. rewrite Hb in *.
  destruct bs as [|b bs]; [done|]. apply bind_Ok in H as (_ & H%raise_if_Ok & _).
  cbn [default from_option] in *. bool_inv. split; [done|]. split; [by apply bool_decide_eq_true|].
  intros ->. cbn [negb andb] in *. done.
Qed.

Lemma valid_definition_routes_witness :
  declared sample_definition DEFECT_BRANCH_ID = true ∧ declared sample_definition UNCERTAIN_BRANCH_ID = false.
Proof.
  destruct (valid_definition_routes false "invalid Query branches" sample_definition
    [BranchDefinition.mk "created" "Item created" false; BranchDefinition.mk "defect" "Local defect" true])
    as (_ & H1 & H2); [vm_compute; reflexivity|reflexivity|discriminate|].
  split; [exact H1|exact (H2 eq_refl)].
Defined.

End DefinitionFacts.
