(* ===== verification/Results.v ===== *)
(** * Receipts, results and attempts

    sdkpython/src/dex_connectors/sdk/types.py: [Receipt], [QueryResult], [MutationResult],
    [QueryAttempt] and [MutationAttempt] with the checks their construction performs.  The
    value of a result is [None] or a value of the operation's output type; on the wire it is a
    JSON value. *)

From S2P Require Import Prelude Json Timestamps Errors Identity Definitions.

Module Receipt.

(** [from_wire] stores [providerObjectId] and [providerRequestId] as they come, so these two
    fields hold any JSON value. *)
Record t := mk {
  call_id : pystr;
  provider : pystr;
  observed_at : GoTime.timestamp;
  idempotency_key : pystr;
  provider_object_id : json;
  provider_request_id : json;
  metadata : dict pystr
}.

(** [Receipt()]. *)
Definition zero : t :=
  mk [] [] (GoTime.TDate GoTime.datetime_min_utc) [] (JStr []) (JStr []) [].

Definition strings_json (d : dict pystr) : json := JObj (map (λ kv, (fst kv, JStr (snd kv))) d).

Definition to_wire (r : t) : res json :=
  at_wire ← GoTime.format_rfc3339_nano (observed_at r);
  Ok (JObj ([(lit "callId", JStr (call_id r)); (lit "provider", JStr (provider r));
             (lit "observedAt", JStr at_wire)]
            ++ (if truthy (idempotency_key r)
                then [(lit "idempotencyKey", JStr (idempotency_key r))] else [])
            ++ (if jtruthy (provider_object_id r)
                then [(lit "providerObjectId", provider_object_id r)] else [])
            ++ (if jtruthy (provider_request_id r)
                then [(lit "providerRequestId", provider_request_id r)] else [])
            ++ (match metadata r with [] => [] | m => [(lit "metadata", strings_json m)] end))).

(** The check and the copy of the metadata object. *)
Definition string_members (j : json) : option (dict pystr) :=
  match j with
  | JObj d => mapM (λ kv, match snd kv with JStr s => Some (fst kv, s) | _ => None end) d
  | _ => None
  end.

Definition from_wire (repr : json → pystr) (value : json) : res t :=
  match value with
  | JObj d =>
      match get "callId" d, get "provider" d, get "observedAt" d with
      | JStr call_id, JStr provider, JStr observed =>
          match string_members (get_or "metadata" (JObj []) d) with
          | None => raise ValueError "receipt metadata is invalid"
          | Some metadata =>
              (if truthy call_id then CallID.validate call_id else Ok ()) ≫= λ _,
              observed_at ← GoTime.from_wire observed;
              Ok (mk call_id provider (GoTime.TNano observed_at)
                    (py_str repr (get_or "idempotencyKey" (JStr []) d))
                    (get_or "providerObjectId" (JStr []) d)
                    (get_or "providerRequestId" (JStr []) d) metadata)
          end
      | _, _, _ => raise ValueError "receipt fields are invalid"
      end
  | _ => raise ValueError "receipt must be an object"
  end.

End Receipt.

Section Results.
Context {V : Type}.

(** The common shape of [QueryResult] and [MutationResult]. *)
Record Result := mkResult {
  r_branch : pystr;
  r_value : option V;
  r_receipt : Receipt.t;
  r_failure : option Failure.t
}.

Definition validate_failure (f : option Failure.t) : res unit :=
  match f with Some f => Failure.validate f | None => Ok () end.

Definition no_failure (f : option Failure.t) : bool := match f with None => true | _ => false end.

(** [QueryResult(branch, value, receipt, failure)] with its [__post_init__]. *)
Definition QueryResult (branch : pystr) (value : option V) (receipt : Receipt.t)
    (failure : option Failure.t) : res Result :=
  raise_if (negb (truthy branch) || bool_decide (branch = UNCERTAIN_BRANCH_ID))
    ValueError "Query result branch is invalid" ≫= λ _,
  validate_failure failure ≫= λ _,
  Ok (mkResult branch value receipt failure).

(** [MutationResult(branch, value, receipt, failure)] with its [__post_init__]. *)
Definition MutationResult (branch : pystr) (value : option V) (receipt : Receipt.t)
    (failure : option Failure.t) : res Result :=
  raise_if (negb (truthy branch) || (bool_decide (branch = UNCERTAIN_BRANCH_ID) && no_failure failure))
    ValueError "Mutation result branch is invalid" ≫= λ _,
  validate_failure failure ≫= λ _,
  Ok (mkResult branch value receipt failure).

Inductive attempt_kind := KBranch | KRetry | KUncertain.

Record Attempt := mkAttempt {
  a_kind : attempt_kind;
  a_branch : pystr;
  a_value : option V;
  a_receipt : option Receipt.t;
  a_failure : option Failure.t;
  a_retry_after_seconds : pyfloat
}.

(** The retry checks both attempts share. *)
Definition retry_invalid (a : Attempt) : bool :=
  no_failure (a_failure a) || flt (a_retry_after_seconds a) (FFin 0 0)
  || negb (isfinite (a_retry_after_seconds a)) || truthy (a_branch a)
  || (match a_receipt a with Some _ => true | None => false end)
  || (match a_value a with Some _ => true | None => false end).

Definition no_receipt (a : Attempt) : bool := match a_receipt a with None => true | _ => false end.
Definition delayed (a : Attempt) : bool := negb (feq (a_retry_after_seconds a) (FFin 0 0)).

(** [QueryAttempt.__post_init__]. *)
Definition QueryAttempt (a : Attempt) : res Attempt :=
  match a_kind a with
  | KRetry =>
      raise_if (retry_invalid a) ValueError "Query retry requires failure and nonnegative delay"
  | KBranch =>
      raise_if (negb (truthy (a_branch a)) || bool_decide (a_branch a = UNCERTAIN_BRANCH_ID)
                || no_receipt a || delayed a)
        ValueError "Query branch requires route and receipt"
  | KUncertain => raise ValueError "Query attempt kind is invalid"
  end ≫= λ _, validate_failure (a_failure a) ≫= λ _, Ok a.

(** [MutationAttempt.__post_init__]. *)
Definition MutationAttempt (a : Attempt) : res Attempt :=
  match a_kind a with
  | KRetry =>
      raise_if (retry_invalid a) ValueError "Mutation retry requires failure and nonnegative delay"
  | _ =>
      raise_if (negb (truthy (a_branch a)) || no_receipt a || delayed a)
        ValueError "Mutation terminal outcome requires route and receipt" ≫= λ _,
      match a_kind a with
      | KBranch =>
          raise_if (bool_decide (a_branch a = UNCERTAIN_BRANCH_ID))
            ValueError "uncertainty requires an uncertain Mutation attempt"
      | _ =>
          raise_if (negb (bool_decide (a_branch a = UNCERTAIN_BRANCH_ID)) || no_failure (a_failure a))
            ValueError "uncertain Mutation requires failure and uncertainty route"
      end
  end ≫= λ _, validate_failure (a_failure a) ≫= λ _, Ok a.

(** The class methods of both attempts. *)
Definition branch_result (branch : pystr) (value : V) (receipt : Receipt.t)
    (failure : option Failure.t) : Attempt :=
  mkAttempt KBranch branch (Some value) (Some receipt) failure (FFin 0 0).
Definition retry (failure : Failure.t) (delay : pyfloat) : Attempt :=
  mkAttempt KRetry [] None None (Some failure) delay.
Definition uncertain (value : V) (failure : Failure.t) (receipt : Receipt.t) : Attempt :=
  mkAttempt KUncertain UNCERTAIN_BRANCH_ID (Some value) (Some receipt) (Some failure) (FFin 0 0).

End Results.
Arguments Result : clear implicits.
Arguments Attempt : clear implicits.

(** ** Wire forms of results *)

(** The optional [failure] member, written and read. *)
Definition failure_member (f : option Failure.t) : res (dict json) :=
  match f with
  | Some f => w ← Failure.to_wire f; Ok [(lit "failure", w)]
  | None => Ok []
  end.

Definition failure_of (d : dict json) : res (option Failure.t) :=
  match dget (lit "failure") d with
  | Some w => f ← Failure.from_wire w; Ok (Some f)
  | None => Ok None
  end.

(** [to_wire] of both results; the value is a JSON value, [None] being null. *)
Definition result_to_wire (r : Result json) : res json :=
  receipt ← Receipt.to_wire (r_receipt r);
  failure ← failure_member (r_failure r);
  Ok (JObj ([(lit "branch", JStr (r_branch r)); (lit "value", default JNull (r_value r));
             (lit "receipt", receipt)] ++ failure)).

(** [from_wire] of both results, with the class's constructor. *)
Definition result_from_wire (repr : json → pystr)
    (build : pystr → option json → Receipt.t → option Failure.t → res (Result json))
    (value : dict json) : res (Result json) :=
  failure ← failure_of value;
  b ← item "branch" value;
  v ← item "value" value;
  rw ← item "receipt" value;
  receipt ← Receipt.from_wire repr rw;
  build (py_str repr b) (match v with JNull => None | _ => Some v end) receipt failure.

Definition query_result_from_wire repr := result_from_wire repr QueryResult.
Definition mutation_result_from_wire repr := result_from_wire repr MutationResult.

(** ** Theorems *)

Lemma string_members_json m : Receipt.string_members (Receipt.strings_json m) = Some m.
Proof.
  unfold Receipt.string_members, Receipt.strings_json. induction m as [|[k v] m IH]; [done|].
  cbn [map mapM fst snd mbind option_bind]. by rewrite IH.
Qed.

(** The receipts [from_wire] returns. *)
Definition receipt_wf (r : Receipt.t) : Prop :=
  (Receipt.call_id r = [] ∨ CallID.validate (Receipt.call_id r) = Ok ()) ∧
  (∃ t, Receipt.observed_at r = GoTime.TNano t ∧ GoTime.from_wire (GoTime.wire t) = Ok t) ∧
  (jtruthy (Receipt.provider_object_id r) = true ∨ Receipt.provider_object_id r = JStr []) ∧
  (jtruthy (Receipt.provider_request_id r) = true ∨ Receipt.provider_request_id r = JStr []).

Lemma receipt_roundtrip repr r : receipt_wf r →
  ∃ w, Receipt.to_wire r = Ok w ∧ Receipt.from_wire repr w = Ok r.
Proof.
  intros (Hid & (t & Hobs & Ht) & Hobj & Hreq). unfold Receipt.to_wire. rewrite Hobs.
  eexists. split; [reflexivity|]. unfold Receipt.from_wire. set (d := _ ++ _).
  change (get "callId" d) with (JStr (Receipt.call_id r)).
  change (get "provider" d) with (JStr (Receipt.provider r)).
  change (get "observedAt" d) with (JStr (GoTime.wire t)). cbn beta iota.
  assert (Hm : get_or "metadata" (JObj []) d = Receipt.strings_json (Receipt.metadata r)).
  { subst d. by destruct (truthy _), (jtruthy (Receipt.provider_object_id r)),
      (jtruthy (Receipt.provider_request_id r)), (Receipt.metadata r). }
  assert (Hk : get_or "idempotencyKey" (JStr []) d = JStr (Receipt.idempotency_key r)).
  { subst d. by destruct (Receipt.idempotency_key r), (jtruthy (Receipt.provider_object_id r)),
      (jtruthy (Receipt.provider_request_id r)), (Receipt.metadata r). }
  assert (Ho : get_or "providerObjectId" (JStr []) d = Receipt.provider_object_id r).
  { subst d. destruct Hobj as [-> | ->], (truthy (Receipt.idempotency_key r)),
      (jtruthy (Receipt.provider_request_id r)), (Receipt.metadata r); done. }
  assert (Hq : get_or "providerRequestId" (JStr []) d = Receipt.provider_request_id r).
  { subst d. destruct Hreq as [-> | ->], (truthy (Receipt.idempotency_key r)),
      (jtruthy (Receipt.provider_object_id r)), (Receipt.metadata r); done. }
  rewrite Hm, string_members_json, Hk, Ho, Hq.
  replace (if truthy (Receipt.call_id r) then CallID.validate (Receipt.call_id r) else Ok ())
    with (@Ok exn _ ()); last first.
  { destruct Hid as [Hid|Hid]; rewrite Hid; [done|by destruct (truthy (Receipt.call_id r))]. }
  cbn [mbind result_bind]. rewrite Ht. cbn [mbind result_bind py_str]. clear -Hobs. by destruct r; simpl in *; subst.
Qed.

(** A Query or Mutation result whose receipt came from the wire survives encoding and
    decoding: branch, value, receipt and failure are the same. *)
Theorem result_wire_roundtrip repr mutation (r : Result json) :
  let build := if mutation : bool then MutationResult else QueryResult in
  build (r_branch r) (r_value r) (r_receipt r) (r_failure r) = Ok r →
  receipt_wf (r_receipt r) → r_value r ≠ Some JNull →
  ∃ w, result_to_wire r = Ok (JObj w) ∧ result_from_wire repr build w = Ok r.
Proof.
  intros build Hb Hr Hnull. destruct (receipt_roundtrip repr _ Hr) as (rw & Hrw & Hrf).
  assert (Hf : ∃ l, failure_member (r_failure r) = Ok l ∧ failure_of l = Ok (r_failure r)).
  { assert (Hvf : validate_failure (r_failure r) = Ok ()).
    { subst build. destruct mutation; by apply bind_Ok in Hb as (_ & _ & ([] & ? & _)%bind_Ok). }
    destruct (r_failure r) as [f|]; [|by exists []]. simpl in Hvf.
    assert (Hfw : ∃ w, Failure.to_wire f = Ok w) by (unfold Failure.to_wire; rewrite Hvf; by eexists).
    destruct Hfw as [w Hw]. exists [(lit "failure", w)]. unfold failure_member, failure_of.
    rewrite Hw. split; [done|]. cbn [dget]. rewrite bool_decide_true by done.
    by rewrite (wire_roundtrip _ _ Hw). }
  destruct Hf as (l & Hl & Hlf). unfold result_to_wire. rewrite Hrw. cbn [mbind result_bind].
  rewrite Hl. eexists. split; [done|]. unfold result_from_wire.
  change (failure_of _) with (failure_of l). rewrite Hlf. cbn [mbind result_bind].
  change (item (lit "branch") _) with (@Ok exn _ (JStr (r_branch r))).
  change (item (lit "value") _) with (@Ok exn _ (default JNull (r_value r))).
  change (item (lit "receipt") _) with (@Ok exn _ rw).
  cbn [mbind result_bind py_str]. rewrite Hrf. cbn [mbind result_bind].
  replace (match default JNull (r_value r) with JNull => None | _ => Some (default JNull (r_value r)) end)
    with (r_value r); [done|].
  destruct (r_value r) as [[]|]; done.
Qed.

Definition sample_receipt : Receipt.t :=
  Receipt.mk "5af8fafa-06ff-5b2d-bb13-04693809fabf" "sample"
    (GoTime.TNano (GoTime.Nano "2026-01-02T03:04:05.123456789Z")) "key" (JStr "obj-1") (JStr [])
    [(lit "region", lit "eu")].

Lemma sample_receipt_wf : receipt_wf sample_receipt.
Proof.
  split; [right; vm_compute; reflexivity|]. split; [eexists; split; [reflexivity|vm_compute; reflexivity]|].
  split; [left; reflexivity|by right].
Qed.

Definition sample_result : Result json :=
  mkResult "uncertain" (Some (JInt 3)) sample_receipt
    (Some (Failure.mk TRANSPORT "sample" "createItem" "connection lost")).

Lemma result_wire_roundtrip_witness :
  ∃ w, result_to_wire sample_result = Ok (JObj w)
       ∧ mutation_result_from_wire (λ _, []) w = Ok sample_result.
Proof.
  apply (result_wire_roundtrip (λ _, []) true sample_result);
    [vm_compute; reflexivity|exact sample_receipt_wf|discriminate].
Defined.
