(* ===== verification/Operations.v ===== *)
(** * Running provider operations

    sdkpython/src/dex_connectors/sdk/operations.py: one Query or Mutation invocation,
    validated into a declared result.  The provider's code (the [Query] and [Mutation]
    protocols) is a record of functions; [now] is the clock reading [datetime.now(UTC)]. *)

From S2P Require Import Prelude Json Timestamps Retry Errors Identity Calls Definitions Results.

(** What an invocation may raise. *)
Inductive op_error :=
  | ERetry (e : RetryError)
  | EExn (e : exn).

Abbreviation opres := (result op_error).

(** An ordinary exception of the SDK's own code. *)
Definition lift {A} (m : res A) : opres A :=
  match m with Ok a => Ok a | Err e => Err (EExn e) end.

Section Protocols.
Context (Input V : Type).

(** The [Query] protocol; [invoke] may return something that is not an attempt ([None]). *)
Record Query := mkQuery {
  q_definition : QueryDefinition.t;
  q_invoke : Call.t → Input → opres (option (Attempt V))
}.

Record Mutation := mkMutation {
  m_definition : QueryDefinition.t;
  m_idempotency_key : pystr → Input → opres pystr;
  m_invoke : Call.t → Input → opres (option (Attempt V))
}.

End Protocols.
Arguments mkQuery {Input V}.
Arguments mkMutation {Input V}.
Arguments q_definition {Input V}.
Arguments q_invoke {Input V}.
Arguments m_definition {Input V}.
Arguments m_idempotency_key {Input V}.
Arguments m_invoke {Input V}.

Section Run.
Context {Input V : Type} (now : GoTime.datetime).

Definition _validate_call (call : Call.t) (operation : OperationRef.t) : res unit :=
  CallID.validate (Call.id call) ≫= λ _,
  ConnectionRef.validate (Call.connection call) ≫= λ _,
  raise_if (negb (bool_decide (Call.operation call = operation)))
    ValueError "call operation does not match the definition".

(** [value == datetime.min.replace(tzinfo=UTC)]; a naive value is never equal to an aware one. *)
Definition is_min_utc (d : GoTime.datetime) : bool :=
  match GoTime.dt_offset d with
  | Some _ => GoTime.datetime_eqb d GoTime.datetime_min_utc
  | None => false
  end.

Definition is_zero_time (t : GoTime.timestamp) : res bool :=
  match t with
  | GoTime.TNano n => d ← GoTime.parsed n; Ok (is_min_utc d)
  | GoTime.TDate d => Ok (is_min_utc d)
  end.

Definition _complete_receipt (receipt : option Receipt.t) (call : Call.t) : res Receipt.t :=
  match receipt with
  | None => raise ValueError "operation returned no receipt"
  | Some r =>
      raise_if (truthy (Receipt.call_id r) && negb (bool_decide (Receipt.call_id r = Call.id call)))
        ValueError "operation returned a receipt for another call" ≫= λ _,
      raise_if (truthy (Receipt.idempotency_key r)
                && negb (bool_decide (Receipt.idempotency_key r = Call.idempotency_key call)))
        ValueError "operation returned a receipt with another idempotency key" ≫= λ _,
      zero ← is_zero_time (Receipt.observed_at r);
      Ok (Receipt.mk (Call.id call)
            (if truthy (Receipt.provider r) then Receipt.provider r
             else OperationRef.connector_id (Call.operation call))
            (if zero : bool then GoTime.TDate now else Receipt.observed_at r)
            (Call.idempotency_key call) (Receipt.provider_object_id r)
            (Receipt.provider_request_id r) (Receipt.metadata r))
  end.

Definition _raise_retry {A} (failure : option Failure.t) (delay : pyfloat) : opres A :=
  match failure with
  | None => Err (EExn (Exn ValueError "retry attempt requires a failure"))
  | Some f => match retry_error f delay with Ok e => Err (ERetry e) | Err e => Err (EExn e) end
  end.

Definition _failure (call : Call.t) (message : pystr) : Failure.t :=
  Failure.mk LOCAL_DEFECT (OperationRef.connector_id (Call.operation call))
    (OperationRef.operation_id (Call.operation call)) message.

Definition _defect_receipt (call : Call.t) : Receipt.t :=
  Receipt.mk (Call.id call) (OperationRef.connector_id (Call.operation call)) (GoTime.TDate now)
    (Call.idempotency_key call) (JStr []) (JStr []) [].

Definition _query_defect (call : Call.t) (message : pystr) : opres (Result V) :=
  lift (QueryResult "defect" None (_defect_receipt call) (Some (_failure call message))).

Definition _mutation_defect (call : Call.t) (message : pystr) : opres (Result V) :=
  lift (MutationResult "defect" None (_defect_receipt call) (Some (_failure call message))).

(** The part of [run_query] after [invoke] returned an attempt. *)
Definition finish_query (definition : QueryDefinition.t) (call : Call.t) (attempt : Attempt V)
    : opres (Result V) :=
  match a_kind attempt with
  | KRetry => _raise_retry (a_failure attempt) (a_retry_after_seconds attempt)
  | _ =>
      if negb (QueryDefinition.declared definition (a_branch attempt)) then
        _query_defect call "query returned an unknown branch"
      else
        match _complete_receipt (a_receipt attempt) call with
        | Ok receipt =>
            lift (QueryResult (a_branch attempt) (a_value attempt) receipt (a_failure attempt))
        | Err e => if isinst e ValueError then _query_defect call (exn_msg e) else Err (EExn e)
        end
  end.

Definition run_query (operation : Query Input V) (call : Call.t) (input : Input) : opres (Result V) :=
  let definition := q_definition operation in
  match QueryDefinition.validate definition ≫= λ _,
        _validate_call call (QueryDefinition.operation definition) with
  | Err e => if isinst e ValueError then _query_defect call (exn_msg e) else Err (EExn e)
  | Ok _ =>
      match q_invoke operation call input with
      | Err (EExn e) =>
          if isinst e ValueError then _query_defect call "query returned an invalid attempt"
          else Err (EExn e)
      | Err e => Err e
      | Ok None => _query_defect call "query returned an invalid attempt"
      | Ok (Some attempt) => finish_query definition call attempt
      end
  end.

Definition finish_mutation (definition : QueryDefinition.t) (call : Call.t) (attempt : Attempt V)
    : opres (Result V) :=
  match a_kind attempt with
  | KRetry => _raise_retry (a_failure attempt) (a_retry_after_seconds attempt)
  | kind =>
      if negb (QueryDefinition.declared definition (a_branch attempt)) then
        _mutation_defect call "mutation returned an unknown branch"
      else if match kind with KUncertain => true | _ => false end
              && negb (bool_decide (a_branch attempt = lit "uncertain")) then
        _mutation_defect call "mutation returned invalid uncertainty"
      else
        match _complete_receipt (a_receipt attempt) call with
        | Ok receipt =>
            lift (MutationResult (a_branch attempt) (a_value attempt) receipt (a_failure attempt))
        | Err e => if isinst e ValueError then _mutation_defect call (exn_msg e) else Err (EExn e)
        end
  end.

Definition run_mutation (operation : Mutation Input V) (call : Call.t) (input : Input)
    : opres (Result V) :=
  let definition := m_definition operation in
  match MutationDefinition.validate definition ≫= λ _,
        _validate_call call (QueryDefinition.operation definition) with
  | Err e => if isinst e ValueError then _mutation_defect call (exn_msg e) else Err (EExn e)
  | Ok _ =>
      key ← m_idempotency_key operation (Call.id call) input;
      let key := if truthy key then key else Call.id call in
      if blank key then _mutation_defect call "mutation returned an invalid idempotency key"
      else
        let call := Call.with_key key call in
        match m_invoke operation call input with
        | Err (EExn e) =>
            if isinst e ValueError then _mutation_defect call "mutation returned an invalid attempt"
            else Err (EExn e)
        | Err e => Err e
        | Ok None => _mutation_defect call "mutation returned an invalid attempt"
        | Ok (Some attempt) => finish_mutation definition call attempt
        end
  end.

End Run.

(** ** Theorems *)

Module RunFacts.

Lemma said_StepDefaults s : said (StepDefaults.validate s).
Proof. unfold StepDefaults.validate, Policy.validate. say. Qed.

Lemma said_definition u msg d : lit msg ≠ [] → said (QueryDefinition.validate_with u msg d).
Proof.
  intros Hm. pose proof said_StepDefaults.
  unfold QueryDefinition.validate_with, OperationRef.validate, BranchDefinition.validate. say.
Qed.

Lemma said_call c o : said (_validate_call c o).
Proof. unfold _validate_call, CallID.validate, ConnectionRef.validate. say. Qed.

Lemma said_parsed n : said (GoTime.parsed n).
Proof.
  unfold GoTime.parsed, GoTime.parse_go_datetime_input. cbv zeta.
  destruct (_ ≫= _); [apply said_Ok|]. by apply said_raise.
Qed.

Lemma said_receipt now r c : said (_complete_receipt now r c).
Proof. pose proof said_parsed. unfold _complete_receipt, is_zero_time. say. Qed.

(** ** What the caller of an operation gets

    Stated without the operation's runner: which receipts fit a call, how one is completed, and what
    each answer of the provider's code becomes. *)
Section Outcomes.
Context {V : Type} (now : GoTime.datetime).

Definition date_of (t : GoTime.timestamp) : res GoTime.datetime :=
  match t with GoTime.TNano n => GoTime.parsed n | GoTime.TDate d => Ok d end.

Definition given {A} (o : option A) : bool := match o with Some _ => true | None => false end.

(** The instant that stands for no time: the first one, with any offset, but with one. *)
Definition first_instant (d : GoTime.datetime) : bool :=
  given (GoTime.dt_offset d) && (GoTime.instant d =? 0)%Z.

(** The receipt leaves the identity of the call open or repeats it, and its time is a datetime. *)
Definition fits (c : Call.t) (r : Receipt.t) : Prop :=
  Receipt.call_id r ∈ [[]; Call.id c] ∧ Receipt.idempotency_key r ∈ [[]; Call.idempotency_key c] ∧
  ∃ d, date_of (Receipt.observed_at r) = Ok d.

(** The receipt of the call: its identity, the connector unless the provider is named, the clock's time
    unless one is given, and all else as the provider's code gave it. *)
Definition completed (c : Call.t) (r : Receipt.t) : Receipt.t :=
  Receipt.mk (Call.id c)
    (if bool_decide (Receipt.provider r = []) then OperationRef.connector_id (Call.operation c) else Receipt.provider r)
    (match date_of (Receipt.observed_at r) with
     | Ok d => if first_instant d then GoTime.TDate now else Receipt.observed_at r
     | Err _ => Receipt.observed_at r
     end)
    (Call.idempotency_key c) (Receipt.provider_object_id r) (Receipt.provider_request_id r) (Receipt.metadata r).

(** The result of the defect route. *)
Definition defect_result (c : Call.t) (message : pystr) : Result V :=
  mkResult DEFECT_BRANCH_ID None (_defect_receipt now c) (Some (_failure c message)).

(** The answer of the provider's code is a finished attempt on a declared branch with a fitting receipt. *)
Definition finished (branches : list pystr) (c : Call.t) (a : Attempt V) (r : Receipt.t) : Prop :=
  a_kind a ≠ KRetry ∧ a_branch a ∈ branches ∧ a_receipt a = Some r ∧ fits c r.

(** What [answered] becomes; each answer becomes one thing only. *)
Inductive outcome (branches : list pystr) (c : Call.t) (answered : opres (option (Attempt V))) : opres (Result V) → Prop :=
  | out_result a r :
      answered = Ok (Some a) → finished branches c a r →
      outcome branches c answered (Ok (mkResult (a_branch a) (a_value a) (completed c r) (a_failure a)))
  | out_unfinished a message :
      answered = Ok (Some a) → a_kind a ≠ KRetry → (∀ r, ¬ finished branches c a r) → message ≠ [] →
      outcome branches c answered (Ok (defect_result c message))
  | out_invalid message :
      answered = Ok None ∨ (∃ e, answered = Err (EExn e) ∧ isinst e ValueError = true) → message ≠ [] →
      outcome branches c answered (Ok (defect_result c message))
  | out_retry a f :
      answered = Ok (Some a) → a_kind a = KRetry → a_failure a = Some f →
      outcome branches c answered (Err (ERetry (mkRetryError f (a_retry_after_seconds a))))
  | out_retry_raised e : answered = Err (ERetry e) → outcome branches c answered (Err (ERetry e))
  | out_raised e :
      answered = Err (EExn e) → isinst e ValueError = false → outcome branches c answered (Err (EExn e)).

(** A call or a definition that is refused: the defect route, unless the call's operation has no name, for
    which not even a failure can be made. *)
Definition refused (c : Call.t) (r : opres (Result V)) : Prop :=
  ∃ message, message ≠ [] ∧
    r = if bool_decide (OperationRef.connector_id (Call.operation c) = [] ∨ OperationRef.operation_id (Call.operation c) = [])
        then Err (EExn (Exn ValueError "failure provider, operation, and message are required"))
        else Ok (defect_result c message).

(** *** Lemmas *)

Lemma defect_made c message : message ≠ [] →
  lift (QueryResult DEFECT_BRANCH_ID None (_defect_receipt now c) (Some (_failure c message))) =
    (if bool_decide (OperationRef.connector_id (Call.operation c) = [] ∨ OperationRef.operation_id (Call.operation c) = [])
     then Err (EExn (Exn ValueError "failure provider, operation, and message are required"))
     else Ok (defect_result c message)) ∧
  _mutation_defect (V:=V) now c message = _query_defect now c message.
Proof.
  intros Hm. split; [|done]. unfold defect_result, _defect_receipt, QueryResult, _failure. cbn [validate_failure]. unfold Failure.validate.
  cbn [Failure.provider Failure.operation Failure.message].
  destruct (OperationRef.connector_id (Call.operation c)) as [|x l] eqn:Hc; [done|].
  destruct (OperationRef.operation_id (Call.operation c)) as [|y l'] eqn:Ho; [done|].
  destruct message as [|z message]; [done|]. rewrite (bool_decide_eq_false_2 (_ ∨ _)); [done|by intros [|]].
Qed.

Lemma query_defect_refused c message : message ≠ [] → refused c (_query_defect now c message).
Proof. intros Hm. exists message. split; [done|]. by apply defect_made. Qed.

Definition named (c : Call.t) : Prop :=
  OperationRef.connector_id (Call.operation c) ≠ [] ∧ OperationRef.operation_id (Call.operation c) ≠ [].

Lemma query_defect_named c message : named c → message ≠ [] → _query_defect now c message = Ok (defect_result c message).
Proof.
  intros [Hc Ho] Hm. unfold _query_defect. change (lit "defect") with DEFECT_BRANCH_ID.
  rewrite (proj1 (defect_made c message Hm)). rewrite (bool_decide_eq_false_2 (_ ∨ _)); [done|by intros [|]].
Qed.

Lemma first_instant_min d : is_min_utc d = first_instant d.
Proof. unfold is_min_utc, first_instant. by destruct (GoTime.dt_offset d). Qed.

Lemma open_or_same (x y : pystr) : truthy x && negb (bool_decide (x = y)) = false ↔ x ∈ [[]; y].
Proof. rewrite !elem_of_cons, andb_false_iff, negb_false_iff, bool_decide_eq_true. destruct x; cbn; set_solver. Qed.

(** Completing a receipt: exactly the fitting ones are completed. *)
Lemma complete_receipt_spec c r :
  (fits c r → _complete_receipt now (Some r) c = Ok (completed c r)) ∧
  (¬ fits c r → ∃ e, isinst e ValueError = true ∧ exn_msg e ≠ [] ∧ _complete_receipt now (Some r) c = Err e).
Proof.
  unfold fits, completed, _complete_receipt, is_zero_time. rewrite <- !open_or_same.
  destruct (truthy (Receipt.call_id r) && _) eqn:Hi; [split; [by intros [? _]|intros _; eexists; split; [|split; [|reflexivity]]; done]|].
  destruct (truthy (Receipt.idempotency_key r) && _) eqn:Hk; [split; [by intros (_ & ? & _)|intros _; eexists; split; [|split; [|reflexivity]]; done]|].
  cbn [raise_if mbind result_bind]. assert (Hs : said (date_of (Receipt.observed_at r))).
  { destruct (Receipt.observed_at r); [apply said_parsed|apply said_Ok]. }
  destruct (date_of (Receipt.observed_at r)) as [d|e] eqn:Hd.
  - split; [intros _|intros []; by eauto]. unfold date_of in Hd.
    assert ((match Receipt.observed_at r with
             | GoTime.TNano n => d ← GoTime.parsed n; Ok (is_min_utc d) | GoTime.TDate d => Ok (is_min_utc d) end) = Ok (E:=exn) (first_instant d)) as ->.
    { destruct (Receipt.observed_at r); [rewrite Hd|apply Ok_inj in Hd as ->]; cbn; by rewrite first_instant_min. }
    cbn [mbind result_bind]. do 2 f_equal. by destruct (Receipt.provider r).
  - split; [by intros (_ & _ & d & ?)|]. intros _. destruct (Hs e eq_refl) as [He Hm]. unfold date_of in Hd.
    destruct (Receipt.observed_at r); [rewrite Hd|done]. by exists e.
Qed.

(** A finished or unfinished attempt, whatever the runner: [finish] is what it makes of the receipt. *)
Lemma finish_outcome branches c a (finish : Receipt.t → opres (Result V)) unknown : named c → unknown ≠ [] →
  a_kind a ≠ KRetry → given (a_receipt a) = true →
  (∀ r, finish r = Ok (mkResult (a_branch a) (a_value a) r (a_failure a))) →
  outcome branches c (Ok (Some a))
    (if negb (bool_decide (a_branch a ∈ branches)) then _query_defect now c unknown
     else match _complete_receipt now (a_receipt a) c with
          | Ok receipt => finish receipt
          | Err e => if isinst e ValueError then _query_defect now c (exn_msg e) else Err (EExn e)
          end).
Proof.
  intros Hn Hu Hk Hr Hf. case_bool_decide as Hb; cbn [negb].
  2:{ rewrite query_defect_named by done. eapply out_unfinished; [done|done| |done]. by intros r (_ & ? & _). }
  destruct (a_receipt a) as [r|] eqn:Ha; [|done]. destruct (complete_receipt_spec c r) as [Hok Hbad].
  assert (Hdec : fits c r ∨ ¬ fits c r).
  { unfold fits. destruct (decide (Receipt.call_id r ∈ [[]; Call.id c])); [|naive_solver].
    destruct (decide (Receipt.idempotency_key r ∈ [[]; Call.idempotency_key c])); [|naive_solver].
    destruct (date_of (Receipt.observed_at r)); [left; eauto|right; by intros (_ & _ & d & ?)]. }
  destruct Hdec as [Hfit|Hfit].
  - rewrite (Hok Hfit), Hf. by eapply out_result.
  - destruct (Hbad Hfit) as (e & He & Hm & ->). rewrite He, query_defect_named by done.
    eapply out_unfinished; [done|done| |done]. intros r' (_ & _ & Hr' & ?). rewrite Ha in Hr'. by injection Hr' as <-.
Qed.

End Outcomes.

Section Facts.
Context {Input V : Type} (now : GoTime.datetime).

Lemma retry_outcome branches c (a : Attempt V) u : named c → a_kind a = KRetry →
  raise_if (retry_invalid a) ValueError u = Ok () → validate_failure (a_failure a) = Ok () →
  outcome now branches c (Ok (Some a)) (_raise_retry (a_failure a) (a_retry_after_seconds a)).
Proof.
  intros Hn Hkind Hk%raise_if_Ok Hf. unfold retry_invalid in Hk. bool_inv.
  destruct (a_failure a) as [f|] eqn:Ha; [|done]. cbn [validate_failure] in Hf.
  unfold _raise_retry, retry_error. rewrite Hf. cbn [mbind result_bind].
  repeat match goal with H : _ = false |- _ => rewrite H | H : _ = true |- _ => rewrite H end.
  by apply out_retry.
Qed.

Lemma finish_query_outcome d c (a : Attempt V) : named c → QueryAttempt a = Ok a →
  outcome now (QueryDefinition.branch_ids d) c (Ok (Some a)) (finish_query now d c a).
Proof.
  intros Hn. unfold QueryAttempt, finish_query. intros H. apply bind_Ok in H as (u & Hk & (u' & Hf & _)%bind_Ok). destruct u, u'.
  destruct (a_kind a) eqn:Hkind; [|by eapply retry_outcome|done]. apply raise_if_Ok in Hk. bool_inv.
  assert (Hr : given (a_receipt a) = true) by (unfold no_receipt in *; by destruct (a_receipt a)).
  eapply finish_outcome; [done|done|by rewrite Hkind|done|]. intros r. unfold QueryResult.
  rewrite Hf, bool_decide_eq_false_2 by done. by destruct (a_branch a).
Qed.

Lemma finish_mutation_outcome d c (a : Attempt V) : named c → MutationAttempt a = Ok a →
  outcome now (QueryDefinition.branch_ids d) c (Ok (Some a)) (finish_mutation now d c a).
Proof.
  intros Hn. unfold MutationAttempt, finish_mutation. intros H.
  apply bind_Ok in H as (u & Hk & (u' & Hf & _)%bind_Ok). destruct u, u'.
  destruct (a_kind a) eqn:Hkind; [|by eapply retry_outcome|];
    apply bind_Ok in Hk as (_ & Hk%raise_if_Ok & Hu%raise_if_Ok); bool_inv;
    (assert (Hr : given (a_receipt a) = true) by (unfold no_receipt in *; by destruct (a_receipt a))); cbn [andb].
  - eapply finish_outcome; [done|done|by rewrite Hkind|done|]. intros r. unfold MutationResult.
    rewrite Hf, bool_decide_eq_false_2 by done. by destruct (a_branch a).
  - match goal with H : a_branch a = UNCERTAIN_BRANCH_ID |- _ => rename H into Hbr end.
    change (lit "uncertain") with UNCERTAIN_BRANCH_ID.
    rewrite (bool_decide_eq_true_2 (a_branch a = UNCERTAIN_BRANCH_ID) Hbr). cbn [negb].
    eapply finish_outcome; [done|done|by rewrite Hkind|done|]. intros r. unfold MutationResult.
    rewrite Hf, (bool_decide_eq_true_2 _ Hbr). destruct (a_failure a); [|done]. by rewrite Hbr.
Qed.

(** What was refused before the provider's code is asked, or its answer. *)
Lemma answer_outcome branches c (answered : opres (option (Attempt V))) (invalid : pystr) (finish : Attempt V → opres (Result V)) :
  named c → invalid ≠ [] →
  (∀ a, answered = Ok (Some a) → outcome now branches c (Ok (Some a)) (finish a)) →
  outcome now branches c answered
    match answered with
    | Err (EExn e) => if isinst e ValueError then _query_defect now c invalid else Err (EExn e)
    | Err e => Err e
    | Ok None => _query_defect now c invalid
    | Ok (Some a) => finish a
    end.
Proof.
  intros Hn Hm Hf. destruct answered as [[a|]|[e|e]]; [by apply Hf| |by apply out_retry_raised|].
  - rewrite query_defect_named by done. apply out_invalid; [by left|done].
  - destruct (isinst e ValueError) eqn:He; [|by apply out_raised].
    rewrite query_defect_named by done. apply out_invalid; [|done]. right. by exists e.
Qed.

Lemma valid_named u msg d c :
  (QueryDefinition.validate_with u msg d ≫= λ _, _validate_call c (QueryDefinition.operation d)) = Ok () → named c.
Proof.
  intros (u' & Hd & Hc)%bind_Ok. unfold QueryDefinition.validate_with in Hd. apply bind_Ok in Hd as (u1 & Ho & _).
  unfold _validate_call in Hc. apply bind_Ok in Hc as (u2 & _ & Hc). apply bind_Ok in Hc as (u3 & _ & Hc%raise_if_Ok).
  apply negb_false_iff, bool_decide_eq_true in Hc. unfold OperationRef.validate in Ho. rewrite <- Hc in Ho.
  apply bind_Ok in Ho as (u4 & H1%raise_if_Ok & H2%raise_if_Ok). apply negb_false_iff in H1, H2.
  split; [intros E; by rewrite E in H1|intros E; by rewrite E in H2].
Qed.

End Facts.

(** The provider returns attempts that passed their construction checks. *)
Definition query_constructs {Input V} (op : Query Input V) : Prop :=
  ∀ c i a, q_invoke op c i = Ok (Some a) → QueryAttempt a = Ok a.
Definition mutation_constructs {Input V} (op : Mutation Input V) : Prop :=
  ∀ c i a, m_invoke op c i = Ok (Some a) → MutationAttempt a = Ok a.

(** C11: what [run_query] makes of a call.  A definition or a call that does not validate selects the defect
    route, except that a call whose operation has an empty name makes [ValueError] escape.  Otherwise the
    provider's answer decides, each answer in one way ([outcome]): an attempt on a declared branch whose
    receipt leaves the identity of the call open or repeats it becomes the result with that branch, value
    and failure and the receipt completed; any other finished attempt, no attempt, or a ValueError selects
    the defect route; a retry is raised with the provider's failure and delay, and so is every other
    exception.  The provider's attempts have passed their construction checks. *)
Theorem run_query_outcome {Input V} now (op : Query Input V) call input :
  query_constructs op →
  match QueryDefinition.validate (q_definition op) ≫= λ _, _validate_call call (QueryDefinition.operation (q_definition op)) with
  | Err _ => refused now call (run_query now op call input)
  | Ok _ => outcome now (QueryDefinition.branch_ids (q_definition op)) call (q_invoke op call input)
              (run_query now op call input)
  end.
Proof.
  intros Hcons. unfold run_query. unfold QueryDefinition.validate.
  pose proof (said_bind _ _ (said_definition false "invalid Query branches" (q_definition op) ltac:(discriminate))
    (λ _, said_call call (QueryDefinition.operation (q_definition op)))) as Hs.
  destruct (_ ≫= _) as [[]|e] eqn:Hv.
  - apply valid_named in Hv. apply answer_outcome; [done|done|]. intros a Ha. apply finish_query_outcome; [done|by eapply Hcons].
  - destruct (Hs e eq_refl) as [-> Hm]. by apply query_defect_refused.
Qed.

(** C10: what [run_mutation] makes of a call.  A definition or a call that does not validate selects the
    defect route, except that a call whose operation has an empty name makes [ValueError] escape.
    Otherwise the key is the one the provider's code proposes or, when that is empty, the Call ID (an
    error in proposing it is raised; a key of whitespace selects the defect route), so retries of one call
    with one input share it; the provider's code is asked with the call under that key, and its answer
    decides as for a query ([outcome]): the value, the failure and the branch of a finished attempt are
    returned with the receipt completed with that key; a receipt for another call or key is a defect.  The
    provider's attempts have passed their construction checks. *)
Theorem run_mutation_outcome {Input V} now (op : Mutation Input V) call input :
  mutation_constructs op →
  match MutationDefinition.validate (m_definition op) ≫= λ _, _validate_call call (QueryDefinition.operation (m_definition op)) with
  | Err _ => refused now call (run_mutation now op call input)
  | Ok _ =>
      match m_idempotency_key op (Call.id call) input with
      | Err e => run_mutation now op call input = Err e
      | Ok proposed =>
          let key := if bool_decide (proposed = []) then Call.id call else proposed in
          if blank key then ∃ message, message ≠ [] ∧ run_mutation now op call input = Ok (defect_result now call message)
          else let keyed := Call.with_key key call in
               outcome now (QueryDefinition.branch_ids (m_definition op)) keyed (m_invoke op keyed input)
                 (run_mutation now op call input)
      end
  end.
Proof.
  intros Hcons. unfold run_mutation. unfold MutationDefinition.validate.
  match goal with |- context [QueryDefinition.validate_with ?u ?m ?d] =>
    pose proof (said_bind _ _ (said_definition u m d ltac:(discriminate)) (λ _, said_call call (QueryDefinition.operation d))) as Hs
  end.
  destruct (_ ≫= _) as [[]|e] eqn:Hv.
  2:{ destruct (Hs e eq_refl) as [-> Hm]. by apply query_defect_refused. }
  apply valid_named in Hv. destruct (m_idempotency_key op (Call.id call) input) as [proposed|e]; cbn [mbind result_bind]; [|done].
  assert ((if truthy proposed then proposed else Call.id call) = (if bool_decide (proposed = []) then Call.id call else proposed)) as ->
    by by destruct proposed.
  destruct (blank _).
  - eexists. split; [|apply query_defect_named; done]. done.
  - apply answer_outcome; [done|done|]. intros a Ha. apply finish_mutation_outcome; [done|by eapply Hcons].
Qed.

(** A call whose operation has no name makes the runner raise instead of selecting the defect route. *)
Theorem unnamed_call_escapes {Input V} now (op : Query Input V) id connection key input :
  run_query now op (Call.mk id connection (OperationRef.mk [] []) key None None) input =
  Err (EExn (Exn ValueError "failure provider, operation, and message are required")).
Proof.
  unfold run_query.
  pose proof (said_bind _ _ (said_definition false "invalid Query branches" (q_definition op) ltac:(discriminate))
    (λ _, said_call (Call.mk id connection (OperationRef.mk [] []) key None None) (QueryDefinition.operation (q_definition op)))) as Hs.
  unfold QueryDefinition.validate. destruct (_ ≫= _) as [[]|e] eqn:Hv; [|by rewrite (proj1 (Hs e eq_refl))].
  apply valid_named in Hv. by destruct Hv.
Qed.

(** ** Concrete runs *)

Definition clock : GoTime.datetime := GoTime.DT 2026 1 2 3 4 5 0 (Some 0%Z).

Definition sample_query (observed_at : GoTime.timestamp) : Query unit json :=
  mkQuery DefinitionFacts.sample_definition
    (λ _ _, Ok (Some (branch_result "created" (JInt 1)
       (Receipt.mk [] [] observed_at [] (JStr "obj") (JStr []) []) None))).

Definition sample_mutation : Mutation unit json :=
  mkMutation DefinitionFacts.sample_definition (λ _ _, Ok [])
    (λ _ _, Ok (Some (retry (Failure.mk TRANSPORT "sample" "createItem" "reset") (FFin 3 (-1))))).

Lemma run_query_outcome_witness :
  ∃ r, run_query clock (sample_query (GoTime.TDate clock)) Call.sample_call () = Ok r
       ∧ r_branch r = lit "created" ∧ r_value r = Some (JInt 1) ∧ Receipt.provider (r_receipt r) = lit "sample"
       ∧ outcome clock (QueryDefinition.branch_ids DefinitionFacts.sample_definition) Call.sample_call
           (q_invoke (sample_query (GoTime.TDate clock)) Call.sample_call ()) (Ok r).
Proof.
  assert (Hc : query_constructs (sample_query (GoTime.TDate clock))) by (intros c i a [= <-]; vm_compute; reflexivity).
  pose proof (run_query_outcome clock (sample_query (GoTime.TDate clock)) Call.sample_call () Hc) as H.
  assert (Hv : (QueryDefinition.validate DefinitionFacts.sample_definition ≫= λ _,
    _validate_call Call.sample_call (QueryDefinition.operation DefinitionFacts.sample_definition)) = Ok ()) by (vm_compute; reflexivity).
  cbn [q_definition sample_query] in H. rewrite Hv in H.
  destruct (run_query clock (sample_query (GoTime.TDate clock)) Call.sample_call ()) as [r|e] eqn:E; [|vm_compute in E; discriminate E].
  exists r. split; [reflexivity|]. vm_compute in E. injection E as <-. do 3 (split; [reflexivity|]). exact H.
Defined.

Lemma run_mutation_outcome_witness :
  ∃ e, run_mutation clock sample_mutation Call.sample_call () = Err (ERetry e)
       ∧ Failure.message (retry_failure e) = lit "reset"
       ∧ outcome clock (QueryDefinition.branch_ids DefinitionFacts.sample_definition)
           (Call.with_key (Call.id Call.sample_call) Call.sample_call) (m_invoke sample_mutation Call.sample_call ()) (Err (ERetry e)).
Proof.
  assert (Hc : mutation_constructs sample_mutation) by (intros c i a [= <-]; vm_compute; reflexivity).
  pose proof (run_mutation_outcome clock sample_mutation Call.sample_call () Hc) as H.
  assert (Hv : (MutationDefinition.validate DefinitionFacts.sample_definition ≫= λ _,
    _validate_call Call.sample_call (QueryDefinition.operation DefinitionFacts.sample_definition)) = Ok ()) by (vm_compute; reflexivity).
  cbn [m_definition sample_mutation] in H. rewrite Hv in H.
  change (m_idempotency_key sample_mutation (Call.id Call.sample_call) ()) with (Ok (E:=op_error) ([] : pystr)) in H.
  cbv beta iota zeta in H.
  match type of H with context [blank ?k] => assert (Hb : blank k = false) by (vm_compute; reflexivity); rewrite Hb in H end.
  destruct (run_mutation clock sample_mutation Call.sample_call ()) as [r|[e|e]] eqn:E; [vm_compute in E; discriminate E| |vm_compute in E; discriminate E].
  exists e. split; [reflexivity|]. vm_compute in E. injection E as <-. split; [reflexivity|]. exact H.
Defined.

(** A successful invocation whose receipt carries a Go timestamp with nanoseconds (which
    [Receipt.from_wire] preserves on purpose) is turned into the defect route. *)
Theorem nanosecond_receipt_is_defect :
  run_query clock (sample_query (GoTime.TNano (GoTime.Nano "2026-01-02T03:04:05.123456789Z")))
    Call.sample_call ()
  = Ok (defect_result clock Call.sample_call
          "timestamp: cannot be represented exactly as a Python datetime").
Proof. vm_compute. reflexivity. Qed.

End RunFacts.
