(* ===== verification/Markers.v ===== *)
(** * Single-dispatch markers

    sdkpython/src/dex_connectors/sdk/singledispatch/markers.py: the heartbeat checkpoint of a
    non-idempotent provider send, its wire form, and the resend decision of a later attempt. *)

From S2P Require Import Prelude Json Identity.

Inductive State := NOT_SENT | CLAIMED | CAN_RESEND.

#[global] Instance State_eq_dec : EqDecision State.
Proof. solve_decision. Defined.

Definition state_value (s : State) : pystr :=
  match s with NOT_SENT => "notSent" | CLAIMED => "claimed" | CAN_RESEND => "canResend" end.

(** [State(value)]. *)
Definition state_of_value (v : pystr) : res State :=
  match List.find (λ s, bool_decide (state_value s = v)) [NOT_SENT; CLAIMED; CAN_RESEND] with
  | Some s => Ok s
  | None => raise ValueError "is not a valid State"
  end.

Module Marker.

Record t := mk { call_id : pystr; attempt : Z; state : State; provider_id : pystr }.

#[global] Instance eq_dec : EqDecision t.
Proof. solve_decision. Defined.

Definition validate (m : t) : res unit :=
  CallID.validate (call_id m) ≫= λ _,
  raise_if (attempt m <? 1)%Z ValueError "invalid single-dispatch checkpoint".

(** The members, before validation. *)
Definition members (m : t) : dict json :=
  [(lit "callId", JStr (call_id m)); (lit "attempt", JInt (attempt m));
   (lit "state", JStr (state_value (state m)))]
  ++ (if truthy (provider_id m) then [(lit "providerId", JStr (provider_id m))] else []).

Definition to_wire (m : t) : res json := validate m ≫= λ _, Ok (JObj (members m)).

Definition invalid {A} : res A := raise ValueError "invalid single-dispatch checkpoint".

Definition from_wire (value : json) : res t :=
  match value with
  | JObj d =>
      if negb (forallb (λ k, dhas k d) [lit "callId"; lit "attempt"; lit "state"]) then invalid
      else if negb (keys_within d [lit "callId"; lit "attempt"; lit "state"; lit "providerId"])
      then invalid
      else
        match get "callId" d, get "attempt" d, get "state" d, get_or "providerId" (JStr []) d with
        | JStr c, JInt a, JStr s, JStr p =>
            match (st ← state_of_value s;
                   let marker := mk c a st p in validate marker ≫= λ _, Ok marker) with
            | Ok marker => Ok marker
            | Err e => if isinst e ValueError then invalid else Err e
            end
        | _, _, _, _ => invalid
        end
  | _ => invalid
  end.

End Marker.

Inductive DecisionKind := SEND_ALLOWED | READ_BACK_REQUIRED | FAIL_CLOSED.

#[global] Instance DecisionKind_eq_dec : EqDecision DecisionKind.
Proof. solve_decision. Defined.

Record Decision := mkDecision { kind : DecisionKind; marker : option Marker.t; error : pystr }.

(** A previous heartbeat: a decoded marker or another decoded value. *)
Inductive heartbeat :=
  | HMarker (m : Marker.t)
  | HValue (j : json).

(** The object [decide_dispatch] rebuilds from a [Marker]. *)
Definition marker_object (m : Marker.t) : json :=
  JObj [(lit "callId", JStr (Marker.call_id m)); (lit "attempt", JInt (Marker.attempt m));
        (lit "state", JStr (state_value (Marker.state m)));
        (lit "providerId", JStr (Marker.provider_id m))].

Definition resendable (s : State) : bool :=
  match s with NOT_SENT | CAN_RESEND => true | CLAIMED => false end.

Definition decide_dispatch (call_id : pystr) (attempt : Z) (previous_heartbeat : option heartbeat)
    : res Decision :=
  CallID.validate call_id ≫= λ _,
  raise_if (attempt <? 1)%Z ValueError "single dispatch requires a positive attempt" ≫= λ _,
  match previous_heartbeat with
  | None =>
      Ok (mkDecision (if (attempt =? 1)%Z then SEND_ALLOWED else READ_BACK_REQUIRED) None [])
  | Some h =>
      match Marker.from_wire (match h with HMarker m => marker_object m | HValue j => j end) with
      | Err e =>
          if isinst e ValueError
          then Ok (mkDecision FAIL_CLOSED None "invalid single-dispatch checkpoint")
          else Err e
      | Ok marker =>
          if negb (bool_decide (Marker.call_id marker = call_id))
          then Ok (mkDecision FAIL_CLOSED (Some marker) "foreign single-dispatch checkpoint")
          else if (Marker.attempt marker =? attempt - 1)%Z && resendable (Marker.state marker)
                  && negb (truthy (Marker.provider_id marker))
          then Ok (mkDecision SEND_ALLOWED (Some marker) [])
          else Ok (mkDecision READ_BACK_REQUIRED (Some marker) [])
      end
  end.

(** ** Theorems *)

Module MarkerFacts.
Import Marker.

Lemma state_of_value_value s : state_of_value (state_value s) = Ok s.
Proof. by destruct s. Qed.

Lemma build_marker c a s p : validate (mk c a s p) = Ok () →
  (st ← state_of_value (state_value s); let m := mk c a st p in validate m ≫= λ _, Ok m)
  = Ok (mk c a s p).
Proof. intros Hv. rewrite state_of_value_value. cbn [mbind result_bind]. by rewrite Hv. Qed.

(** A marker survives its wire form, with or without a provider identity. *)
Theorem marker_wire_roundtrip m w : to_wire m = Ok w → from_wire w = Ok m.
Proof.
  unfold to_wire. intros ([] & Hv & [= <-])%bind_Ok. destruct m as [c a s p].
  unfold from_wire, members. cbn [call_id attempt state provider_id].
  destruct p as [|x p]; cbn [truthy app].
  - change (negb (forallb _ _)) with false. change (negb (keys_within _ _)) with false.
    change (get "callId" _) with (JStr c). change (get "attempt" _) with (JInt a).
    change (get "state" _) with (JStr (state_value s)). change (get_or "providerId" _ _) with (JStr []).
    cbn beta iota. by rewrite build_marker.
  - change (negb (forallb _ _)) with false. change (negb (keys_within _ _)) with false.
    change (get "callId" _) with (JStr c). change (get "attempt" _) with (JInt a).
    change (get "state" _) with (JStr (state_value s)).
    change (get_or "providerId" _ _) with (JStr (x :: p)).
    cbn beta iota. by rewrite build_marker.
Qed.

Lemma marker_object_decode m : validate m = Ok () → from_wire (marker_object m) = Ok m.
Proof.
  intros Hv. destruct m as [c a s p]. unfold from_wire, marker_object.
  cbn [call_id attempt state provider_id].
  change (negb (forallb _ _)) with false. change (negb (keys_within _ _)) with false.
  change (get "callId" _) with (JStr c). change (get "attempt" _) with (JInt a).
  change (get "state" _) with (JStr (state_value s)). change (get_or "providerId" _ _) with (JStr p).
  cbn beta iota. by rewrite build_marker.
Qed.

Lemma from_wire_valid j m : from_wire j = Ok m → validate m = Ok ().
Proof.
  unfold from_wire. destruct j as [| | | | | |d]; try done.
  destruct (negb _); [done|]. destruct (negb _); [done|].
  destruct (get "callId" d); try done. destruct (get "attempt" d); try done.
  destruct (get "state" d) as [| | | |st| |]; try done.
  destruct (get_or "providerId" _ d); try done.
  destruct (state_of_value st); cbn [mbind result_bind]; [|case_match; done].
  destruct (validate _) as [[]|] eqn:Hv; cbn [mbind result_bind]; [|case_match; done].
  by intros [= <-].
Qed.

Definition decoded (h : heartbeat) : res Marker.t :=
  from_wire (match h with HMarker m => marker_object m | HValue j => j end).

Lemma send_allowed_cases call_id attempt previous d :
  decide_dispatch call_id attempt previous = Ok d → kind d = SEND_ALLOWED →
  (previous = None ∧ attempt = 1%Z) ∨
  (∃ h m, previous = Some h ∧ decoded h = Ok m ∧ Marker.call_id m = call_id ∧
          Marker.attempt m = (attempt - 1)%Z ∧ Marker.state m ≠ CLAIMED ∧
          Marker.provider_id m = []).
Proof.
  unfold decide_dispatch. intros (_ & _ & (_ & _ & H)%bind_Ok)%bind_Ok Hk.
  destruct previous as [h|].
  - right. fold (decoded h) in H. destruct (decoded h) as [m|e] eqn:Hm.
    + destruct (negb _) eqn:Hid; [by injection H as <-|].
      destruct (_ && _) eqn:Hg; injection H as <-; [|done]. bool_inv. exists h, m.
      split_and!; try done; [by destruct (state m)|by apply truthy_false].
    + destruct (isinst e ValueError); [by injection H as <-|done].
  - left. injection H as <-. cbn [kind] in Hk. destruct (attempt =? 1)%Z eqn:E; [|done].
    by apply Z.eqb_eq in E.
Qed.

Lemma decoded_marker m m' : decoded (HMarker m) = Ok m' → m' = m.
Proof.
  unfold decoded. destruct m as [c a s p]. unfold from_wire, marker_object.
  cbn [call_id attempt state provider_id].
  change (negb (forallb _ _)) with false. change (negb (keys_within _ _)) with false.
  change (get "callId" _) with (JStr c). change (get "attempt" _) with (JInt a).
  change (get "state" _) with (JStr (state_value s)). change (get_or "providerId" _ _) with (JStr p).
  cbn beta iota. rewrite state_of_value_value. cbn [mbind result_bind].
  destruct (validate _) as [[]|]; cbn [mbind result_bind]; [by intros [= <-]|case_match; done].
Qed.

(** Sending again is allowed only on the first attempt without a checkpoint, or when the
    immediately preceding attempt of the same call checkpointed that nothing was sent or that
    the provider did not process the request, with no provider identity. *)
Theorem send_allowed_only_when_proved call_id attempt previous d :
  decide_dispatch call_id attempt previous = Ok d → kind d = SEND_ALLOWED →
  (previous = None ∧ attempt = 1%Z) ∨
  (∃ h m, previous = Some h ∧ decoded h = Ok m ∧ Marker.call_id m = call_id ∧
          Marker.attempt m = (attempt - 1)%Z ∧ Marker.state m ≠ CLAIMED ∧
          Marker.provider_id m = []).
Proof. apply send_allowed_cases. Qed.

Definition sample_id : pystr := "5af8fafa-06ff-5b2d-bb13-04693809fabf".

Lemma marker_wire_roundtrip_witness :
  ∃ w, to_wire (mk sample_id 2 CLAIMED "prov-1") = Ok w ∧ from_wire w = Ok (mk sample_id 2 CLAIMED "prov-1").
Proof.
  eexists. split; [vm_compute; reflexivity|].
  apply marker_wire_roundtrip. vm_compute. reflexivity.
Defined.

Lemma send_allowed_only_when_proved_witness :
  ∃ m, decoded (HMarker (mk sample_id 2 CAN_RESEND [])) = Ok m ∧ Marker.state m ≠ CLAIMED.
Proof.
  destruct (send_allowed_only_when_proved sample_id 3 (Some (HMarker (mk sample_id 2 CAN_RESEND [])))
    (mkDecision SEND_ALLOWED (Some (mk sample_id 2 CAN_RESEND [])) []))
    as [[H _]|(h & m & Hh & Hm & _ & _ & Hs & _)].
  - vm_compute. reflexivity.
  - reflexivity.
  - discriminate H.
  - injection Hh as <-. exists m. split; [exact Hm|exact Hs].
Defined.

End MarkerFacts.
