(* ===== verification/Fence.v ===== *)
(** * The single-dispatch fence

    sdkpython/src/dex_connectors/sdk/singledispatch/fence.py: at-most-once provider sends.
    Times and durations are microseconds.  A heartbeat hands a frame to the Worker: one that
    returns was accepted there, one that raises may or may not have been, and in both cases Dex
    may still lose the frame before it keeps it (docs/connector-contract.md, Single-dispatch
    fence guarantee).  The steps of [Fence] between two releases of its lock are functions on
    the fence and on the frames handed over so far; [step] interleaves them, for every attempt
    of one call at once: an attempt that Dex gave up may go on running beside its successors. *)

From S2P Require Import Prelude Json Timestamps Markers.

(** What [context.heartbeat(marker)] did. *)
Inductive heartbeat_outcome := HbOk | HbLost | HbRecorded.

(** The live attempt's Dex context. *)
Record AsyncContext := mkContext { ctx_attempt : Z; ctx_deadline : option Z }.

(** [7 / 12] and [5 / 6]. *)
Definition default_write_window_fraction : pyfloat := FFin 5254199565265579 (-53).
Definition five_sixths : pyfloat := FFin 7505999378950827 (-53).

(** [datetime.max] in UTC, in microseconds since [datetime.min]. *)
Definition datetime_max : Z := GoTime.instant (GoTime.DT 9999 12 31 23 59 59 999999 (Some 0%Z)).

(** [budget * fraction]. *)
Definition scale (budget : Z) (fraction : pyfloat) : Z :=
  match fraction with FFin m e => timedelta_mul_dyadic budget m e | _ => 0%Z end.

Module Fence.

Record t := mk {
  call_id : pystr;
  attempt : Z;
  write_deadline : Z;
  _minimum_request_time : Z;
  _decision : option Decision;
  _has_dispatched : bool;
  _has_send_finished : bool;
  _has_pre_send_retry : bool;
  _marker : option Marker.t
}.

Definition fresh (call_id : pystr) (attempt deadline minimum : Z) : t :=
  mk call_id attempt deadline minimum None false false false None.

(** [Fence.__init__] at the time [started_at]. *)
Definition init (call_id : pystr) (context : option AsyncContext) (execute_timeout : Z)
    (write_window_fraction : pyfloat) (started_at : Z) : res t :=
  match context with
  | None => raise ValueError "single dispatch requires a call, positive attempt, and Execute timeout"
  | Some context =>
      raise_if (negb (truthy call_id) || (ctx_attempt context <? 1)%Z || (execute_timeout <=? 0)%Z)
        ValueError "single dispatch requires a call, positive attempt, and Execute timeout" ≫= λ _,
      raise_if (negb (isfinite write_window_fraction) || fle write_window_fraction (FFin 0 0)
                || flt five_sixths write_window_fraction)
        ValueError "single-dispatch write window must be within (0, 5/6]" ≫= λ _,
      let budget := match ctx_deadline context with
                    | Some deadline => Z.min execute_timeout (deadline - started_at)
                    | None => execute_timeout
                    end in
      let budget := Z.max budget 0 in
      let write_deadline := (started_at + scale budget write_window_fraction)%Z in
      raise_if (datetime_max <? write_deadline)%Z OverflowError "date value out of range" ≫= λ _,
      Ok (fresh call_id (ctx_attempt context) write_deadline (timedelta_div budget 10))
  end.

Definition set_decision (d : Decision) (f : t) : t :=
  mk (call_id f) (attempt f) (write_deadline f) (_minimum_request_time f) (Some d)
    (_has_dispatched f) (_has_send_finished f) (_has_pre_send_retry f) (_marker f).
Definition set_dispatched (f : t) : t :=
  mk (call_id f) (attempt f) (write_deadline f) (_minimum_request_time f) (_decision f)
    true (_has_send_finished f) (_has_pre_send_retry f) (_marker f).
Definition set_finished (f : t) : t :=
  mk (call_id f) (attempt f) (write_deadline f) (_minimum_request_time f) (_decision f)
    (_has_dispatched f) true (_has_pre_send_retry f) (_marker f).
Definition set_pre_send_retry (f : t) : t :=
  mk (call_id f) (attempt f) (write_deadline f) (_minimum_request_time f) (_decision f)
    (_has_dispatched f) (_has_send_finished f) true (_marker f).
Definition set_marker (m : Marker.t) (f : t) : t :=
  mk (call_id f) (attempt f) (write_deadline f) (_minimum_request_time f) (_decision f)
    (_has_dispatched f) (_has_send_finished f) (_has_pre_send_retry f) (Some m).

(** The frames the Worker accepted for the call, the latest first.  Dex may have kept any of
    them, or none. *)
Definition server : Type := list Marker.t.

(** A step of the fence: its outcome, the fence and the accepted frames afterwards. *)
Definition outcome (A : Type) : Type := res A * t * server.

(** [context.heartbeat(marker)]. *)
Definition heartbeat (hb : heartbeat_outcome) (m : Marker.t) (s : server) : res unit * server :=
  match hb with
  | HbOk => (Ok (), m :: s)
  | HbLost => (raise OSError "heartbeat failed", s)
  | HbRecorded => (raise OSError "heartbeat failed", m :: s)
  end.

(** [_record]. *)
Definition _record (hb : heartbeat_outcome) (m : Marker.t) (f : t) (s : server) : outcome unit :=
  match heartbeat hb m s with
  | (Ok _, s') => (Ok (), set_marker m f, s')
  | (Err e, s') => (Err e, f, s')
  end.

Definition marker_of (f : t) (state : State) (provider_id : pystr) : Marker.t :=
  Marker.mk (call_id f) (attempt f) state provider_id.

(** What reading the prior heartbeat yields: an error, no value, or a value that may be absent. *)
Definition last_heartbeat : Type := res (option (option Markers.heartbeat)).

Definition read_decision (f : t) (last : last_heartbeat) : res Decision :=
  previous ← last;
  match previous with
  | Some None => raise ValueError "present heartbeat has no checkpoint"
  | Some (Some h) => decide_dispatch (call_id f) (attempt f) (Some h)
  | None => decide_dispatch (call_id f) (attempt f) None
  end.

Definition decide (last : last_heartbeat) (f : t) : Decision * t :=
  match _decision f with
  | Some d => (d, f)
  | None =>
      let d := match read_decision f last with
               | Ok d => d
               | Err _ => mkDecision FAIL_CLOSED None "single-dispatch checkpoint could not be read"
               end in
      (d, set_decision d f)
  end.

Definition send_permitted (f : t) : bool :=
  match _decision f with Some d => bool_decide (kind d = SEND_ALLOWED) | None => false end
  && negb (_has_dispatched f) && negb (_has_pre_send_retry f).

Definition not_allowed {A} : res A :=
  raise DispatchNotAllowedError "single dispatch is not allowed for this attempt".

(** The locked part of [dispatch] before the request: [hb] is the outcome of its first
    heartbeat, [hb2] of the [NOT_SENT] heartbeat after a failed claim. *)
Definition dispatch_begin (has_send : bool) (now : Z) (hb hb2 : heartbeat_outcome) (f : t) (s : server)
    : outcome unit :=
  if negb (send_permitted f && has_send) then (not_allowed, f, s)
  else if (_minimum_request_time f <=? 0)%Z
          || (write_deadline f - now <? _minimum_request_time f)%Z then
    let f := set_pre_send_retry f in
    match _record hb (marker_of f NOT_SENT []) f s with
    | (Ok _, f', s') =>
        (raise InsufficientAttemptTimeError "insufficient attempt time for single dispatch", f', s')
    | (Err e, f', s') => (Err e, f', s')
    end
  else
    let f := set_dispatched f in
    match _record hb (marker_of f CLAIMED []) f s with
    | (Ok _, f', s') => (Ok (), f', s')
    | (Err e, f', s') =>
        let f' := set_pre_send_retry f' in
        let '(_, f'', s'') := _record hb2 (marker_of f' NOT_SENT []) f' s' in
        (raise CheckpointError "single-dispatch checkpoint could not be recorded", f'', s'')
    end.

(** [max((self.write_deadline - now).total_seconds(), 0)]: the request's time limit. *)
Definition remaining (now : Z) (f : t) : Z := Z.max (write_deadline f - now) 0.

(** The [finally] part of [dispatch]. *)
Definition dispatch_finish (f : t) : t := set_finished f.

Definition record_not_sent (hb : heartbeat_outcome) (f : t) (s : server) : outcome unit :=
  if negb (send_permitted f) then (not_allowed, f, s)
  else let f := set_pre_send_retry f in _record hb (marker_of f NOT_SENT []) f s.

(** The shared guard of the two checkpoints that follow a request. *)
Definition claim_open (f : t) : bool :=
  _has_send_finished f
  && match _marker f with Some m => bool_decide (Marker.state m = CLAIMED) | None => false end.

Definition can_resend_permitted (f : t) : bool :=
  claim_open f && match _marker f with Some m => negb (truthy (Marker.provider_id m)) | None => false end.

Definition record_can_resend (hb : heartbeat_outcome) (f : t) (s : server) : outcome unit :=
  if negb (can_resend_permitted f) then (not_allowed, f, s)
  else _record hb (marker_of f CAN_RESEND []) f s.

Definition record_provider_id (provider_id : pystr) (hb : heartbeat_outcome) (f : t) (s : server)
    : outcome unit :=
  if negb (claim_open f && truthy provider_id) then (not_allowed, f, s)
  else _record hb (marker_of f CLAIMED provider_id) f s.

(** One turn of [_repeat_claim] after its interval passed. *)
Definition _repeat_claim (hb : heartbeat_outcome) (claim : Marker.t) (f : t) (s : server) : server :=
  if bool_decide (_marker f = Some claim) then snd (heartbeat hb claim s) else s.

End Fence.

(** ** All attempts of one call *)

(** Where an attempt's [dispatch] is. *)
Inductive phase := Idle | Claimed | Sending | Done.

(** One attempt: its fence, where its [dispatch] is, and whether it started a provider request
    that was not proved unprocessed since. *)
Record att := mkAtt { fence : Fence.t; at_phase : phase; sent : bool }.

(** What the next attempt may read: an error, nothing, any frame the Worker ever accepted for
    the call, or a marker of another call. *)
Definition reads (id : pystr) (s : Fence.server) (last : Fence.last_heartbeat) : Prop :=
  (∃ e, last = Err e) ∨ last = Ok None ∨
  ∃ m, (m ∈ s ∨ Marker.call_id m ≠ id) ∧ last = Ok (Some (Some (HMarker m))).

(** A step of one attempt. *)
Inductive act (id : pystr) : att → Fence.server → att → Fence.server → Prop :=
  | act_decide f p b s last :
      reads id s last → act id (mkAtt f p b) s (mkAtt (snd (Fence.decide last f)) p b) s
  | act_dispatch f p b s now hb hb2 r f' s' :
      Fence.dispatch_begin true now hb hb2 f s = (r, f', s') →
      act id (mkAtt f p b) s (mkAtt f' (if is_ok r then Claimed else p) b) s'
  | act_send f b s now :
      (0 < Fence.remaining now f)%Z → act id (mkAtt f Claimed b) s (mkAtt f Sending true) s
  | act_finish f p b s :
      p = Claimed ∨ p = Sending → act id (mkAtt f p b) s (mkAtt (Fence.dispatch_finish f) Done b) s
  | act_repeat f p b s hb :
      p ≠ Idle →
      act id (mkAtt f p b) s (mkAtt f p b) (Fence._repeat_claim hb (Fence.marker_of f CLAIMED []) f s)
  | act_not_sent f p b s hb r f' s' :
      Fence.record_not_sent hb f s = (r, f', s') → act id (mkAtt f p b) s (mkAtt f' p b) s'
  | act_can_resend f p b s hb r f' s' :
      Fence.record_can_resend hb f s = (r, f', s') →
      act id (mkAtt f p b) s (mkAtt f' p (b && negb (Fence.can_resend_permitted f))) s'
  | act_provider_id f p b s provider_id hb r f' s' :
      Fence.record_provider_id provider_id hb f s = (r, f', s') →
      act id (mkAtt f p b) s (mkAtt f' p b) s'.

(** All attempts, by number from 1, and the accepted frames. *)
Record sys := mkSys { attempts : list att; frames : Fence.server }.

(** Any attempt may take its next step, or Dex starts another one. *)
Inductive step (id : pystr) : sys → sys → Prop :=
  | step_attempt i a a' l s s' :
      l !! i = Some a → act id a s a' s' → step id (mkSys l s) (mkSys (<[i := a']> l) s')
  | step_next_attempt l s deadline minimum :
      step id (mkSys l s)
        (mkSys (l ++ [mkAtt (Fence.fresh id (Z.of_nat (length l) + 1) deadline minimum) Idle false]) s).

Inductive reachable (id : pystr) : sys → Prop :=
  | reach_start : reachable id (mkSys [] [])
  | reach_step s s' : reachable id s → step id s s' → reachable id s'.

(** ** Theorems *)

Module FenceFacts.
Import Fence.

Definition allowed (f : t) : Prop := ∃ d, _decision f = Some d ∧ kind d = SEND_ALLOWED.

Lemma send_permitted_true f : send_permitted f = true ↔
  allowed f ∧ _has_dispatched f = false ∧ _has_pre_send_retry f = false.
Proof.
  unfold send_permitted, allowed. rewrite !andb_true_iff, !negb_true_iff.
  destruct (_decision f) as [d|]; [|naive_solver]. rewrite bool_decide_eq_true. naive_solver.
Qed.

(** The attempt may have a request at the provider, or is about to start one. *)
Definition live (a : att) : Prop := at_phase a = Claimed ∨ sent a = true.

(** The attempt will never send again, and nothing it sent can have been processed. *)
Definition closed (a : att) : Prop :=
  (_has_dispatched (fence a) = true ∨ _has_pre_send_retry (fence a) = true) ∧ ¬ live a.

(** What holds of every attempt by itself: its claim precedes its request. *)
Record sound (id : pystr) (s : server) (a : att) : Prop := {
  so_id : call_id (fence a) = id;
  so_phase : at_phase a ≠ Idle → _has_dispatched (fence a) = true ∧ allowed (fence a);
  so_finish : at_phase a ≠ Done → _has_send_finished (fence a) = false;
  so_sent : sent a = true → at_phase a = Sending ∨ at_phase a = Done;
  so_sending : at_phase a = Sending → sent a = true;
  so_claim : live a → marker_of (fence a) CLAIMED [] ∈ s
}.

Record inv (id : pystr) (x : sys) : Prop := {
  inv_number : ∀ i a, attempts x !! i = Some a → attempt (fence a) = (Z.of_nat i + 1)%Z;
  inv_sound : ∀ i a, attempts x !! i = Some a → sound id (frames x) a;
  (** a frame that is not a claim was issued by a permitted attempt that is now closed *)
  inv_frame : ∀ m, m ∈ frames x → Marker.state m ≠ CLAIMED →
    ∃ i a, attempts x !! i = Some a ∧ Marker.attempt m = (Z.of_nat i + 1)%Z ∧ closed a ∧ allowed (fence a);
  inv_earlier : ∀ i a j b, attempts x !! i = Some a → allowed (fence a) →
    j < i → attempts x !! j = Some b → closed b
}.

(** [_record] changes the fence's marker at most, and hands over the marker at most. *)
Lemma record_effect hb m f s r f' s' : _record hb m f s = (r, f', s') →
  (f' = f ∨ f' = set_marker m f) ∧ (s' = s ∨ s' = m :: s) ∧ (is_ok r = true → s' = m :: s).
Proof.
  destruct hb; intros H; injection H as <- <- <-; split_and!; (done || (by left) || by right).
Qed.

Lemma set_marker_fields m f f' : f' = f ∨ f' = set_marker m f →
  call_id f' = call_id f ∧ attempt f' = attempt f ∧ _has_dispatched f' = _has_dispatched f ∧
  _has_pre_send_retry f' = _has_pre_send_retry f ∧ _has_send_finished f' = _has_send_finished f ∧
  _decision f' = _decision f.
Proof. by intros [-> | ->]. Qed.

(** *** One attempt *)

(** What a step of one attempt may do to it and to the frames, as its neighbours see it. *)
Record moved (a : att) (s : server) (a' : att) (s' : server) : Prop := {
  mo_number : attempt (fence a') = attempt (fence a);
  mo_closed : closed a → closed a';
  mo_allowed : allowed (fence a) → allowed (fence a');
  mo_frames : ∀ m, m ∈ s' → m ∈ s ∨
    (Marker.attempt m = attempt (fence a') ∧ (Marker.state m ≠ CLAIMED → closed a' ∧ allowed (fence a')));
  mo_keeps : ∀ m, m ∈ s → m ∈ s'
}.

Lemma decide_some f last d : _decision f = Some d → snd (decide last f) = f.
Proof. intros H. unfold decide. by rewrite H. Qed.

Lemma decide_set f last : _decision f = None → ∃ d, snd (decide last f) = set_decision d f.
Proof. intros H. unfold decide. rewrite H. by eexists. Qed.

(** Deciding permits a send to the first attempt, or after a frame of the previous attempt that
    is not a claim. *)
Lemma decide_allows id f s last : reads id s last → call_id f = id → allowed (snd (decide last f)) →
  allowed f ∨ attempt f = 1%Z ∨
  ∃ m, m ∈ s ∧ Marker.attempt m = (attempt f - 1)%Z ∧ Marker.state m ≠ CLAIMED.
Proof.
  intros Hr Hid Ha. destruct (_decision f) as [d|] eqn:Hd; [left; by rewrite (decide_some f last d Hd) in Ha|right].
  destruct Ha as (d & Hs & Hk). unfold decide in Hs. rewrite Hd in Hs.
  cbn [snd set_decision _decision] in Hs. injection Hs as <-.
  destruct Hr as [[e ->]|[->|(m & Hm & ->)]]; [done|..];
    unfold read_decision in Hk; cbn [mbind result_bind] in Hk;
    destruct (decide_dispatch _ _ _) as [d|] eqn:Hdd; try done;
    apply MarkerFacts.send_allowed_cases in Hdd as [[? ?]|(h & m' & [= ] & Hdec & Hc & Hat & Hst & _)];
    try done; [by left|]. subst h. apply MarkerFacts.decoded_marker in Hdec as ->.
  right. exists m. destruct Hm as [Hm|Hm]; [done|congruence].
Qed.

Lemma send_permitted_idle id s a : sound id s a → send_permitted (fence a) = true →
  at_phase a = Idle ∧ sent a = false ∧ allowed (fence a) ∧ ¬ closed a.
Proof.
  intros [_ Hp _ Hs _ _] (Ha & Hd & Hr)%send_permitted_true.
  assert (at_phase a = Idle) as Hi.
  { destruct (at_phase a); [done|..]; destruct Hp as [Hp _]; done || congruence. }
  split_and!; [done| |done|].
  - destruct (sent a); [|done]. destruct Hs; congruence.
  - intros [[?|?] _]; congruence.
Qed.

Lemma claim_open_done id s a : sound id s a → claim_open (fence a) = true →
  at_phase a = Done ∧ _has_dispatched (fence a) = true ∧ allowed (fence a).
Proof.
  intros [_ Hp Hu _ _ _] H. unfold claim_open in H. apply andb_prop in H as [Hfin _].
  assert (at_phase a = Done) as Hd; [|split; [done|by apply Hp; rewrite Hd]].
  destruct (at_phase a); try done; rewrite Hu in Hfin; done.
Qed.

Lemma sound_mono id (s s' : server) (a : att) : (∀ m, m ∈ s → m ∈ s') → sound id s a → sound id s' a.
Proof. intros Hs []. constructor; auto. Qed.

Lemma moved_trans (a : att) s a' s' a'' s'' : moved a s a' s' → moved a' s' a'' s'' → moved a s a'' s''.
Proof.
  intros [Hn Hc Ha Hf Hk] [Hn' Hc' Ha' Hf' Hk']. constructor; auto; [congruence|].
  intros m [Hm|Hm]%Hf'; [|by right]. destruct (Hf _ Hm) as [?|[? Hcl]]; [by left|right].
  split; [congruence|]. intros [??]%Hcl. auto.
Qed.

Lemma moved_refl (a : att) s : moved a s a s.
Proof. constructor; auto. Qed.

(** An attempt that issues a frame: the frame is a claim, or the attempt is closed by then. *)
Lemma moved_record a s f' p' b' hb m r f s' :
  _record hb m f s = (r, f', s') →
  attempt f = attempt (fence a) → Marker.attempt m = attempt f →
  (closed a → closed (mkAtt f p' b')) → (allowed (fence a) → allowed f) →
  (Marker.state m ≠ CLAIMED → closed (mkAtt f p' b') ∧ allowed f) →
  moved a s (mkAtt f' p' b') s'.
Proof.
  intros H Hn Hm Hc Ha Hf. apply record_effect in H as (Hf' & Hs & _).
  pose proof (set_marker_fields _ _ _ Hf') as (_ & Hat & Hd & Hp & _ & Hdec).
  assert (Hcl : closed (mkAtt f p' b') ↔ closed (mkAtt f' p' b')).
  { unfold closed, live. cbn. by rewrite Hd, Hp. }
  assert (Hal : allowed f ↔ allowed f') by (unfold allowed; by rewrite Hdec).
  constructor; cbn.
  - congruence.
  - rewrite <- Hcl. done.
  - rewrite <- Hal. done.
  - intros m' Hm'. destruct Hs as [-> | ->]; [by left|]. apply elem_of_cons in Hm' as [->|?]; [right|by left].
    rewrite <- Hcl, <- Hal, Hat. done.
  - intros m' Hm'. destruct Hs as [-> | ->]; [done|by apply elem_of_cons; right].
Qed.

(** Recording keeps soundness: of the phase, and of the flags the fence had. *)
Lemma sound_record id s f' p' b' hb m r f s' :
  _record hb m f s = (r, f', s') → sound id s (mkAtt f p' b') → sound id s' (mkAtt f' p' b').
Proof.
  intros H [Hid Hp Hu Hs Hg Hc]. apply record_effect in H as (Hf' & Hs' & _). cbn in *.
  pose proof (set_marker_fields _ _ _ Hf') as (Hci & Hat & Hd & _ & Hsf & Hdec).
  constructor; cbn; try done; [congruence| |by rewrite Hsf|].
  - rewrite Hd. unfold allowed. rewrite Hdec. done.
  - unfold live, marker_of in *. rewrite Hci, Hat. intros Hl. specialize (Hc Hl).
    destruct Hs' as [-> | ->]; [done|by apply elem_of_cons; right].
Qed.

Lemma dispatch_begin_sound id f p b s now hb hb2 r f' s' :
  sound id s (mkAtt f p b) → dispatch_begin true now hb hb2 f s = (r, f', s') →
  sound id s' (mkAtt f' (if is_ok r then Claimed else p) b) ∧
  moved (mkAtt f p b) s (mkAtt f' (if is_ok r then Claimed else p) b) s'.
Proof.
  unfold dispatch_begin. intros Hi H. destruct (send_permitted f) eqn:Hperm; cbn [andb negb] in H; last first.
  { injection H as <- <- <-. split; [done|apply moved_refl]. }
  destruct (send_permitted_idle _ _ _ Hi Hperm) as (Hp & Hb & Ha & Hn). cbn in Hp, Hb. subst p b.
  destruct Hi as [Hid _ Hu _ _ _]; cbn in *.
  assert (Hquiet : ∀ g, closed (mkAtt g Idle false) ↔ _has_dispatched g = true ∨ _has_pre_send_retry g = true).
  { intros g. unfold closed, live. cbn. naive_solver. }
  destruct (_ || _) eqn:Htime.
  - destruct (_record _ _ _ _) as [[r0 f0] s0] eqn:Hrec.
    assert (is_ok r = false ∧ f' = f0 ∧ s' = s0) as (-> & -> & ->) by (destruct r0; by injection H as <- <- <-).
    split.
    + eapply sound_record; [exact Hrec|]. constructor; cbn; try done. by intros [|].
    + eapply moved_record; [exact Hrec|done..|by intros _; rewrite Hquiet; right|done|].
      intros _. split; [by rewrite Hquiet; right|done].
  - destruct (_record hb _ _ _) as [[r0 f0] s0] eqn:Hrec. pose proof Hrec as Hok.
    apply record_effect in Hok as (_ & _ & Hok).
    destruct r0 as [u|e].
    + injection H as <- <- <-. cbn. split.
      * apply record_effect in Hrec as (Hf & _). rewrite (Hok eq_refl).
        pose proof (set_marker_fields _ _ _ Hf) as (Hci & Hat & Hd & _ & Hsf & Hdec); cbn in *.
        constructor; cbn; try done; [congruence| |rewrite Hsf; auto|].
        -- rewrite Hd. unfold allowed. by rewrite Hdec.
        -- unfold marker_of. rewrite Hci, Hat. intros _. apply elem_of_cons. by left.
      * eapply moved_record; [exact Hrec|done..].
    + destruct (_record hb2 _ _ _) as [[r1 f1] s1] eqn:Hrec2. injection H as <- <- <-. cbn.
      assert (Hs0 : sound id s0 (mkAtt f0 Idle false)).
      { eapply sound_record; [exact Hrec|]. constructor; cbn; try done. by intros [|]. }
      assert (Hm0 : moved (mkAtt f Idle false) s (mkAtt f0 Idle false) s0).
      { eapply moved_record; [exact Hrec|done..]. }
      split.
      * eapply sound_record; [exact Hrec2|]. destruct Hs0. constructor; cbn in *; done.
      * eapply moved_trans; [exact Hm0|]. eapply moved_record; [exact Hrec2|done..|by intros _; rewrite Hquiet; right|done|].
        intros _. split; [by rewrite Hquiet; right|]. by apply Hm0.
Qed.

Lemma act_sound id a s a' s' : sound id s a → act id a s a' s' → sound id s' a' ∧ moved a s a' s'.
Proof.
  intros Hi Hact.
  destruct Hact as [f p b s last Hr|f p b s now hb hb2 r f' s' H|f b s now Hrem|f p b s Hph
    |f p b s hb Hph|f p b s hb r f' s' H|f p b s hb r f' s' H|f p b s q hb r f' s' H].
  - destruct (_decision f) as [d|] eqn:Hd.
    { rewrite (decide_some f last d Hd). split; [done|apply moved_refl]. }
    destruct (decide_set f last Hd) as [d ->]. assert (Hna : ¬ allowed f) by (intros (d' & ? & _); congruence).
    destruct Hi as [Hid Hp Hu Hs Hg Hc]; cbn in *. split; constructor; cbn; try done.
    + intros Hp'. by destruct (Hp Hp').
    + auto.
  - by eapply dispatch_begin_sound.
  - destruct Hi as [Hid Hp Hu Hs Hg Hc]; cbn in *. split; constructor; cbn; try done.
    + intros _. by apply Hp.
    + intros _. by apply Hu.
    + by left.
    + intros _. apply Hc. by left.
    + intros [_ Hl]. destruct Hl. by left.
    + auto.
  - destruct Hi as [Hid Hp Hu Hs Hg Hc]; cbn in *. split; constructor; cbn; try done.
    + intros _. apply Hp. by destruct Hph as [-> | ->].
    + by right.
    + intros [?|Hb]; [done|]. apply Hc. by right.
    + intros [_ Hl]. destruct Hl. destruct Hph as [-> | ->]; [by left|right; by apply Hg].
    + auto.
  - unfold _repeat_claim. case_bool_decide as Hm; [|by split; [|apply moved_refl]].
    assert (Hs : snd (heartbeat hb (marker_of f CLAIMED []) s) = s ∨
                 snd (heartbeat hb (marker_of f CLAIMED []) s) = marker_of f CLAIMED [] :: s) by (destruct hb; auto).
    destruct Hs as [-> | ->]; [by split; [|apply moved_refl]|].
    assert (Hsub : ∀ m, m ∈ s → m ∈ marker_of f CLAIMED [] :: s) by (intros; apply elem_of_cons; by right).
    split; [by eapply sound_mono|]. constructor; auto.
    intros m [->|?]%elem_of_cons; [by right|by left].
  - unfold record_not_sent in H. destruct (send_permitted f) eqn:Hperm; cbn [negb] in H; last first.
    { injection H as <- <- <-. split; [done|apply moved_refl]. }
    destruct (send_permitted_idle _ _ _ Hi Hperm) as (Hp & Hb & Ha & Hn). cbn in Hp, Hb. subst p b.
    destruct Hi as [Hid _ Hu _ _ Hc]; cbn in *. split.
    + eapply sound_record; [exact H|]. constructor; cbn; done.
    + eapply moved_record; [exact H|done..|]. intros _. split; [|done].
      split; [by right|]. by intros [|].
  - unfold record_can_resend in H. destruct (can_resend_permitted f) eqn:Hperm; cbn [negb] in *; last first.
    { injection H as <- <- <-. rewrite andb_true_r. split; [done|apply moved_refl]. }
    rewrite andb_false_r. unfold can_resend_permitted in Hperm. apply andb_prop in Hperm as [Ho _].
    destruct (claim_open_done _ _ _ Hi Ho) as (Hp & Hd & Ha). cbn in *. subst p.
    assert (Hcl : closed (mkAtt f Done false)) by (split; [by left|by intros [|]]).
    split; [|by eapply moved_record].
    destruct Hi as [Hid Hp Hu _ _ _]; cbn in *. eapply sound_record; [exact H|].
    constructor; cbn; try done. by intros [|].
  - unfold record_provider_id in H. destruct (claim_open f && truthy q); cbn [negb] in H; last first.
    { injection H as <- <- <-. split; [done|apply moved_refl]. }
    split; [by eapply sound_record|by eapply moved_record].
Qed.

(** The locked sections other than [decide] leave the decision as it is. *)
Lemma record_decision hb m f s r f' s' : _record hb m f s = (r, f', s') → _decision f' = _decision f.
Proof. intros (Hf & _)%record_effect. by destruct Hf as [-> | ->]. Qed.

Lemma dispatch_begin_decision now hb hb2 f s r f' s' :
  dispatch_begin true now hb hb2 f s = (r, f', s') → _decision f' = _decision f.
Proof.
  unfold dispatch_begin. destruct (negb _); [by intros [= _ <- _]|]. destruct (_ || _).
  - destruct (_record _ _ _ _) as [[r0 f0] s0] eqn:Hrec. apply record_decision in Hrec.
    by destruct r0; intros [= _ <- _].
  - destruct (_record hb _ _ _) as [[r0 f0] s0] eqn:Hrec. apply record_decision in Hrec.
    destruct r0; [by intros [= _ <- _]|].
    destruct (_record hb2 _ _ _) as [[r1 f1] s1] eqn:Hrec2. apply record_decision in Hrec2.
    intros [= _ <- _]. by rewrite Hrec2.
Qed.

Lemma act_allows id s a a' s' : act id a s a' s' → sound id s a → allowed (fence a') →
  allowed (fence a) ∨ attempt (fence a) = 1%Z ∨
  ∃ m, m ∈ s ∧ Marker.attempt m = (attempt (fence a) - 1)%Z ∧ Marker.state m ≠ CLAIMED.
Proof.
  intros Hact [Hid _ _ _ _ _] Ha.
  destruct Hact as [f p b s last Hr|f p b s now hb hb2 r f' s' H|f b s now Hrem|f p b s Hph
    |f p b s hb Hph|f p b s hb r f' s' H|f p b s hb r f' s' H|f p b s q hb r f' s' H]; cbn in *.
  - by eapply decide_allows.
  - left. unfold allowed in *. by rewrite (dispatch_begin_decision _ _ _ _ _ _ _ _ H) in Ha.
  - by left.
  - by left.
  - by left.
  - left. unfold record_not_sent in H. destruct (negb _); [by injection H as <- <- <-|].
    unfold allowed in *. by rewrite (record_decision _ _ _ _ _ _ _ H) in Ha.
  - left. unfold record_can_resend in H. destruct (negb _); [by injection H as <- <- <-|].
    unfold allowed in *. by rewrite (record_decision _ _ _ _ _ _ _ H) in Ha.
  - left. unfold record_provider_id in H. destruct (negb _); [by injection H as <- <- <-|].
    unfold allowed in *. by rewrite (record_decision _ _ _ _ _ _ _ H) in Ha.
Qed.

(** *** All attempts *)

Lemma inv_start id : inv id (mkSys [] []).
Proof. constructor; cbn; try done. intros m Hm. by apply not_elem_of_nil in Hm. Qed.

Lemma lookup_insert_cases (l : list att) i a j b :
  <[i := a]> l !! j = Some b → (j = i ∧ b = a) ∨ (j ≠ i ∧ l !! j = Some b).
Proof.
  intros H. destruct (Nat.eq_dec j i) as [->|Hne]; [left|right].
  - apply list_lookup_insert_Some in H as [(_ & -> & _)|[? _]]; done.
  - by rewrite list_lookup_insert_ne in H by done.
Qed.

Lemma inv_attempt id l s i a a' s' : inv id (mkSys l s) → l !! i = Some a → act id a s a' s' →
  inv id (mkSys (<[i := a']> l) s').
Proof.
  intros [Hn Hso Hf He] Hl Hact; cbn in *.
  destruct (act_sound _ _ _ _ _ (Hso _ _ Hl) Hact) as [Hs' Hm].
  assert (Hlt : i < length l) by by eapply lookup_lt_Some.
  assert (Hi : <[i := a']> l !! i = Some a') by by apply list_lookup_insert_eq.
  constructor; cbn.
  - intros j b [[-> ->]|[_ Hb]]%lookup_insert_cases; [|by apply Hn]. rewrite (mo_number _ _ _ _ Hm). by apply Hn.
  - intros j b [[-> ->]|[_ Hb]]%lookup_insert_cases; [done|]. eapply sound_mono; [apply Hm|by eapply Hso].
  - intros m Hin Hst. destruct (mo_frames _ _ _ _ Hm _ Hin) as [Hin'|[Hat Hcl]].
    + destruct (Hf _ Hin' Hst) as (j & b & Hb & Hj & Hcb & Hab). destruct (Nat.eq_dec j i) as [->|Hne].
      * replace b with a in * by congruence. exists i, a'. split_and!; [done|done|by apply Hm|by apply Hm].
      * exists j, b. by rewrite list_lookup_insert_ne by done.
    + destruct (Hcl Hst) as [Hc Ha]. exists i, a'. split_and!; [done| |done|done].
      rewrite Hat, (mo_number _ _ _ _ Hm). by apply Hn.
  - intros j b k c Hb Hab Hk Hc.
    assert (Hold : ∀ j b, l !! j = Some b → allowed (fence b) → k < j → closed c).
    { intros j' b' Hb' Hab' Hk'. apply lookup_insert_cases in Hc as [[-> ->]|[_ Hc]].
      - apply Hm. by eapply He.
      - by eapply He. }
    apply lookup_insert_cases in Hb as [[-> ->]|[_ Hb]]; [|by eapply Hold].
    destruct (act_allows _ _ _ _ _ Hact (Hso _ _ Hl) Hab) as [Ha|[Ha|(m & Hin & Hat & Hst)]].
    + by eapply Hold.
    + rewrite (Hn _ _ Hl) in Ha. lia.
    + destruct (Hf _ Hin Hst) as (n & d & Hd & Hnum & Hcd & Had).
      assert (n = i - 1) as -> by (rewrite Hat, (Hn _ _ Hl) in Hnum; lia).
      destruct (Nat.eq_dec k (i - 1)) as [->|Hne]; [|eapply Hold; [exact Hd|done|lia]].
      apply lookup_insert_cases in Hc as [[? _]|[_ Hc]]; [lia|]. congruence.
Qed.

Lemma inv_next id l s deadline minimum : inv id (mkSys l s) →
  inv id (mkSys (l ++ [mkAtt (fresh id (Z.of_nat (length l) + 1) deadline minimum) Idle false]) s).
Proof.
  intros [Hn Hso Hf He]; cbn in *. constructor; cbn.
  - intros i a [Ha|[Hi Ha]]%lookup_app_Some; [by apply Hn|].
    apply list_lookup_singleton_Some in Ha as [? <-]. cbn. lia.
  - intros i a [Ha|[_ Ha]]%lookup_app_Some; [by eapply Hso|].
    apply list_lookup_singleton_Some in Ha as [_ <-]. constructor; cbn; try done. by intros [|].
  - intros m Hin Hst. destruct (Hf m Hin Hst) as (i & a & Ha & ?). exists i, a. split; [|done].
    by apply lookup_app_l_Some.
  - intros i a j b [Ha|[_ Ha]]%lookup_app_Some Hal Hj Hb.
    + assert (i < length l) by by eapply lookup_lt_Some.
      rewrite lookup_app_l in Hb by lia. exact (He _ _ _ _ Ha Hal Hj Hb).
    + apply list_lookup_singleton_Some in Ha as [_ <-]. by destruct Hal as (d & ? & _).
Qed.

Lemma reachable_inv id x : reachable id x → inv id x.
Proof.
  induction 1 as [|x y _ IH Hstep]; [apply inv_start|destruct Hstep as [i a a' l s s' Hl Hact|l s deadline minimum]];
    [by eapply inv_attempt|by apply inv_next].
Qed.

(** C1: the attempts of one call, numbered from one, run their fences side by side: an attempt
    Dex gave up may go on while later ones run.  A heartbeat hands a frame to the Worker or
    fails; of the accepted frames Dex may lose any, and each attempt reads an arbitrary one of
    them, none, a marker of another call, or an error.  Over every interleaving, two attempts
    never both have a request at the provider that may have been processed, counting one about
    to be started: whichever attempt has such a request handed its own claim over first, every
    earlier attempt has proved its request unprocessed or given up sending for good, and no
    later attempt is permitted to send. *)
Theorem at_most_once_dispatch id x i j a b :
  reachable id x → attempts x !! i = Some a → attempts x !! j = Some b → live a →
  marker_of (fence a) CLAIMED [] ∈ frames x ∧
  Marker.attempt (marker_of (fence a) CLAIMED []) = (Z.of_nat i + 1)%Z ∧
  (live b → i = j) ∧
  (j < i → closed b) ∧
  (i < j → ¬ allowed (fence b)).
Proof.
  intros [Hn Hso Hf He]%reachable_inv Ha Hb Hl.
  assert (Hal : ∀ k c, attempts x !! k = Some c → live c → allowed (fence c)).
  { intros k c Hc Hlc. pose proof (Hso k c Hc) as [_ Hp _ Hs _ _]. apply Hp.
    destruct Hlc as [->|Hsent]; [done|]. by destruct (Hs Hsent) as [-> | ->]. }
  assert (Hlt : ∀ k c k' c', attempts x !! k = Some c → attempts x !! k' = Some c' →
    live c → allowed (fence c') → ¬ k < k').
  { intros k c k' c' Hc Hc' Hlc Hac Hk. by destruct (He _ _ _ _ Hc' Hac Hk Hc) as [_ []]. }
  split_and!.
  - by apply (Hso i a Ha).
  - by apply Hn.
  - intros Hlb. pose proof (Hlt _ _ _ _ Ha Hb Hl (Hal _ _ Hb Hlb)).
    pose proof (Hlt _ _ _ _ Hb Ha Hlb (Hal _ _ Ha Hl)). lia.
  - intros Hj. exact (He _ _ _ _ Ha (Hal _ _ Ha Hl) Hj Hb).
  - intros Hj Hab. exact (Hlt _ _ _ _ Ha Hb Hl Hab Hj).
Qed.

(** ** The write window *)

Lemma fraction_below_one m e : (e < 0)%Z → flt five_sixths (FFin m e) = false → (m <= 2 ^ (- e))%Z.
Proof.
  intros He H. unfold flt, fcmp, five_sixths in H. set (c := 7505999378950827%Z) in *.
  assert (Hc : (c <= 2 ^ 53)%Z) by (by vm_compute).
  destruct (Z.compare_spec (c * 2 ^ (-53 - Z.min (-53) e)) (m * 2 ^ (e - Z.min (-53) e))) as [H0|H0|H0]; [| done|].
  all: assert (Hle : (m * 2 ^ (e - Z.min (-53) e) <= c * 2 ^ (-53 - Z.min (-53) e))%Z) by lia.
  all: destruct (Z.le_gt_cases e (-53)) as [Hs|Hs];
    [rewrite Z.min_r, Z.sub_diag, Z.pow_0_r, Z.mul_1_r in Hle by lia;
     replace (- e)%Z with (53 + (-53 - e))%Z by lia; rewrite Z.pow_add_r by lia;
     pose proof (Z.pow_pos_nonneg 2 (-53 - e)); nia
    |rewrite Z.min_l, Z.sub_diag, Z.pow_0_r, Z.mul_1_r in Hle by lia;
     assert (Hp : (2 ^ 53 = 2 ^ (e - -53) * 2 ^ (- e))%Z) by (rewrite <- Z.pow_add_r by lia; f_equal; lia);
     pose proof (Z.pow_pos_nonneg 2 (e - -53)); nia].
Qed.

Lemma fraction_positive m e : fle (FFin m e) (FFin 0 0) = false → (0 < m)%Z.
Proof.
  unfold fle, fcmp. rewrite Z.mul_0_l. intros H.
  assert (0 < 2 ^ (e - Z.min e 0))%Z by (apply Z.pow_pos_nonneg; lia).
  destruct (Z.compare_spec (m * 2 ^ (e - Z.min e 0)) 0); [done|done|nia].
Qed.

Lemma scale_bounds budget f : (0 <= budget)%Z → isfinite f = true →
  fle f (FFin 0 0) = false → flt five_sixths f = false → (0 <= scale budget f <= budget)%Z.
Proof.
  intros Hb Hfin Hpos Hlt. destruct f as [m e| |]; try done. apply fraction_positive in Hpos.
  unfold scale, timedelta_mul_dyadic. destruct (Z.leb_spec 0 e) as [He|He].
  - exfalso. unfold flt, fcmp, five_sixths in Hlt. rewrite Z.min_l in Hlt by lia.
    rewrite Z.sub_diag, Z.pow_0_r, Z.mul_1_r in Hlt.
    assert (2 ^ 53 <= 2 ^ (e - -53))%Z by (apply Z.pow_le_mono_r; lia).
    assert (7505999378950827 < 2 ^ 53)%Z by (by vm_compute).
    destruct (Z.compare_spec 7505999378950827 (m * 2 ^ (e - -53))); [nia|done|nia].
  - pose proof (fraction_below_one m e He Hlt). pose proof (Z.pow_pos_nonneg 2 (- e)).
    split; [apply half_even_nonneg; nia|].
    rewrite <- (half_even_exact budget (2 ^ (- e))) at 2 by lia. apply half_even_mono; nia.
Qed.

(** A constructed fence has a write deadline between its start and the end of the attempt
    budget, the Execute timeout cut at the Dex deadline, and nothing is decided yet. *)
Theorem init_write_window id context timeout fraction started f :
  init id context timeout fraction started = Ok f →
  (started <= write_deadline f)%Z ∧ (write_deadline f <= started + timeout)%Z ∧
  (∀ c deadline, context = Some c → ctx_deadline c = Some deadline →
     (write_deadline f <= Z.max deadline started)%Z) ∧
  (0 <= _minimum_request_time f)%Z ∧ (write_deadline f <= datetime_max)%Z ∧
  _decision f = None ∧ _has_dispatched f = false.
Proof.
  unfold init. destruct context as [c|]; [|done].
  intros (_ & H1%raise_if_Ok & (_ & H2%raise_if_Ok & (_ & H3%raise_if_Ok & H)%bind_Ok)%bind_Ok)%bind_Ok.
  apply Ok_inj in H as <-. bool_inv. cbn [write_deadline _minimum_request_time _decision _has_dispatched fresh].
  match goal with |- context [scale ?b _] => set (budget := b) in * end.
  assert (Hb : (0 <= budget)%Z) by (subst budget; lia).
  destruct (scale_bounds budget fraction Hb) as [Hlo Hhi]; [done..|].
  repeat match goal with H : (_ <=? _)%Z = false |- _ => apply Z.leb_gt in H end.
  split_and!; [lia| | | |lia|done|done].
  - subst budget. destruct (ctx_deadline c); lia.
  - intros c' dl [= <-] Hdl. subst budget. rewrite Hdl in *. lia.
  - apply half_even_nonneg; lia.
Qed.

(** ** Concrete runs *)

Definition id0 : pystr := MarkerFacts.sample_id.

(** The first attempt claims and starts its request; Dex loses the claim and starts a second
    attempt beside it, which reads no frame and is not permitted to send. *)
Lemma at_most_once_dispatch_witness :
  ∃ x a b, reachable id0 x ∧ attempts x = [a; b] ∧ at_phase a = Sending ∧ sent a = true ∧
    _decision (fence b) = Some (mkDecision READ_BACK_REQUIRED None []) ∧ ¬ allowed (fence b).
Proof.
  set (f0 := fresh id0 1 60000000 6000000). set (f1 := snd (decide (Ok None) f0)).
  set (r := dispatch_begin true 0 HbOk HbOk f1 []).
  set (a := mkAtt (snd (fst r)) Sending true). set (s := snd r).
  set (b := mkAtt (snd (decide (Ok None) (fresh id0 2 60000000 6000000))) Idle false).
  assert (Hx : reachable id0 (mkSys [a; b] s)).
  { eapply reach_step; [|eapply (step_attempt id0 1 _ b [a; _] s s); [reflexivity|]].
    2:{ apply (act_decide id0 _ _ _ _ (Ok None)). right. by left. }
    eapply reach_step; [|apply (step_next_attempt id0 [a])].
    eapply reach_step; [|eapply (step_attempt id0 0 _ a [_] s s); [reflexivity|apply (act_send id0 _ false _ 0); vm_compute; reflexivity]].
    eapply reach_step; [|eapply (step_attempt id0 0 _ _ [_] [] s); [reflexivity|]].
    2:{ apply (act_dispatch id0 f1 Idle false [] 0 HbOk HbOk (Ok ()) (snd (fst r)) s). vm_compute. reflexivity. }
    eapply reach_step; [|eapply (step_attempt id0 0 _ _ [_] [] []); [reflexivity|]].
    2:{ apply (act_decide id0 f0 Idle false [] (Ok None)). right. by left. }
    eapply reach_step; [apply reach_start|]. apply (step_next_attempt id0 [] [] 60000000 6000000). }
  exists (mkSys [a; b] s), a, b. split; [exact Hx|]. do 3 (split; [reflexivity|]).
  split; [vm_compute; reflexivity|].
  destruct (at_most_once_dispatch id0 _ 0 1 a b Hx eq_refl eq_refl) as (_ & _ & _ & _ & H); [by right|].
  apply H. lia.
Defined.

#[local] Open Scope Z_scope.

Lemma init_write_window_witness :
  ∃ f, init id0 (Some (mkContext 1 (Some 30000000%Z))) 60000000%Z default_write_window_fraction 0 = Ok f
       ∧ (write_deadline f <= 30000000)%Z.
Proof.
  exists (fresh id0 1 17500000 3000000). split; [vm_compute; reflexivity|].
  destruct (init_write_window id0 (Some (mkContext 1 (Some 30000000%Z))) 60000000
    default_write_window_fraction 0 (fresh id0 1 17500000 3000000)) as (_ & _ & H & _);
    [vm_compute; reflexivity|].
  exact (H _ 30000000 eq_refl eq_refl).
Defined.

End FenceFacts.
