(* ===== verification/ConfigurationUI.v ===== *)
(** * Connector configuration presentation

    sdkpython/src/dex_connectors/sdk/configuration_ui.py: UI bindings with their JSON Pointers,
    units, the ordered configuration of a Step, and the reference to the Step that owns it. *)

From S2P Require Import Prelude Json Identity.

(** [_IDENTIFIER.fullmatch]. *)
Definition identifier_match (s : pystr) : bool :=
  match s with c :: s' => is_lower c && forallb is_alnum s' | [] => false end.

(** The loop of [ConnectorUIBinding.validate] from the current index. *)
Fixpoint escapes_ok (s : pystr) : bool :=
  match s with
  | [] => true
  | c :: s' =>
      if (c =? 126)%N then
        match s' with
        | d :: s'' => ((d =? 48)%N || (d =? 49)%N) && escapes_ok s''
        | [] => false
        end
      else escapes_ok s'
  end.

Module ConnectorUIBinding.

Record t := mk { port : pystr; json_pointer : pystr }.

Definition validate (b : t) : res unit :=
  raise_if (negb (identifier_match (port b)) || negb (starts_with "/" (json_pointer b)))
    ValueError "invalid Connector UI binding" ≫= λ _,
  raise_if (negb (escapes_ok (json_pointer b)))
    ValueError "invalid Connector UI JSON Pointer escape".

Definition to_wire (b : t) : res json :=
  validate b ≫= λ _,
  Ok (JObj [(lit "port", JStr (port b)); (lit "jsonPointer", JStr (json_pointer b))]).

End ConnectorUIBinding.

Module ConnectorUIUnit.

Record t := mk {
  id : pystr;
  unit_id : pystr;
  label : pystr;
  description : pystr;
  required : bool;
  bindings : list ConnectorUIBinding.t
}.

Definition validate (u : t) : res unit :=
  raise_if (negb (identifier_match (id u)) || negb (identifier_match (unit_id u)))
    ValueError "Connector UI unit IDs must be lower camel case" ≫= λ _,
  raise_if (blank (label u) || blank (description u)
            || match bindings u with [] => true | _ => false end)
    ValueError "Connector UI unit needs a label, description, and bindings" ≫= λ _,
  raise_if (negb (bool_decide (NoDup (map ConnectorUIBinding.port (bindings u)))))
    ValueError "Connector UI unit ports must be unique" ≫= λ _,
  for_each ConnectorUIBinding.validate (bindings u).

Definition to_wire (u : t) : res json :=
  validate u ≫= λ _,
  bs ← mapR ConnectorUIBinding.to_wire (bindings u);
  Ok (JObj [(lit "id", JStr (id u)); (lit "unitId", JStr (unit_id u));
            (lit "label", JStr (label u)); (lit "description", JStr (description u));
            (lit "required", JBool (required u)); (lit "bindings", JArr bs)]).

End ConnectorUIUnit.

Module ConnectorConfigurationUI.

Record t := mk { units : list ConnectorUIUnit.t }.

Definition validate (c : t) : res unit :=
  raise_if (negb (bool_decide (NoDup (map ConnectorUIUnit.id (units c)))))
    ValueError "Connector UI unit IDs must be unique" ≫= λ _,
  for_each ConnectorUIUnit.validate (units c).

Definition to_wire (c : t) : res json :=
  validate c ≫= λ _,
  us ← mapR ConnectorUIUnit.to_wire (units c);
  Ok (JObj [(lit "units", JArr us)]).

End ConnectorConfigurationUI.

Module ConnectorConfigurationRef.

Record t := mk {
  connector_id : pystr;
  connection_name : pystr;
  operation_id : pystr;
  flow_type : pystr;
  step_type : pystr
}.

Definition validate (r : t) : res unit :=
  raise_if (negb (connector_id_match (connector_id r)) || negb (operation_id_match (operation_id r)))
    ValueError "invalid Connector configuration identity" ≫= λ _,
  raise_if (blank (connection_name r) || blank (flow_type r) || blank (step_type r))
    ValueError "Connector configuration connection, Flow, and Step are required".

End ConnectorConfigurationRef.

(** ** Theorems *)

Module PointerFacts.

(** RFC 6901 escaping of one reference token, and the text of a nonempty path. *)
Definition escape (token : pystr) : pystr :=
  flat_map (λ c, if (c =? 126)%N then [126; 48]%N else if (c =? 47)%N then [126; 49]%N else [c]) token.
Definition pointer_text (tokens : list pystr) : pystr := flat_map (λ t, 47%N :: escape t) tokens.

Lemma escapes_ok_escape token rest : escapes_ok (escape token ++ rest) = escapes_ok rest.
Proof.
  induction token as [|c token IH]; [done|]. unfold escape in *. cbn [flat_map].
  destruct (c =? 126)%N eqn:Hc; [cbn; by rewrite IH|].
  destruct (c =? 47)%N; [cbn; by rewrite IH|]. cbn. by rewrite Hc, IH.
Qed.

Lemma escapes_ok_pointer tokens : escapes_ok (pointer_text tokens) = true.
Proof.
  induction tokens as [|t tokens IH]; [done|]. unfold pointer_text in *. cbn [flat_map].
  rewrite <- app_comm_cons. cbn [escapes_ok N.eqb Pos.eqb]. by rewrite escapes_ok_escape.
Qed.

(** A text with valid escapes is an escaped token followed by further path segments. *)
Lemma escapes_ok_tokens n s : length s <= n → escapes_ok s = true →
  ∃ t tokens, s = escape t ++ pointer_text tokens.
Proof.
  revert s. induction n as [|n IH]; intros s Hl; [destruct s; [|simpl in Hl; lia]; by exists [], []|].
  destruct s as [|c s]; [by exists [], []|]. simpl in Hl. cbn [escapes_ok].
  destruct (N.eqb_spec c 126) as [->|Hc].
  - destruct s as [|d s]; [done|]. simpl in Hl. intros [Hd Hs]%andb_prop.
    destruct (IH s ltac:(lia) Hs) as (t & tokens & ->).
    apply orb_prop in Hd as [->%N.eqb_eq| ->%N.eqb_eq].
    + by exists (126%N :: t), tokens.
    + by exists (47%N :: t), tokens.
  - intros Hs. destruct (IH s ltac:(lia) Hs) as (t & tokens & ->).
    destruct (N.eqb_spec c 47) as [->|Hn].
    + by exists [], (t :: tokens).
    + exists (c :: t), tokens. unfold escape. cbn [flat_map].
      by rewrite (proj2 (N.eqb_neq c 126) Hc), (proj2 (N.eqb_neq c 47) Hn).
Qed.

(** A binding is valid exactly when its port is an identifier and its pointer is the
    RFC 6901 text of a nonempty path of reference tokens. *)
Theorem binding_valid_iff b :
  ConnectorUIBinding.validate b = Ok () ↔
  identifier_match (ConnectorUIBinding.port b) = true ∧
  ∃ tokens, tokens ≠ [] ∧ ConnectorUIBinding.json_pointer b = pointer_text tokens.
Proof.
  unfold ConnectorUIBinding.validate. destruct b as [port s]; cbn. split.
  - intros (_ & H1%raise_if_Ok & H2%raise_if_Ok)%bind_Ok. bool_inv. split; [done|].
    match goal with H : starts_with _ _ = true |- _ => rename H into Hsl end.
    destruct s as [|c s]; [done|]. unfold lit in Hsl. cbn in Hsl. rewrite andb_true_r in Hsl.
    apply N.eqb_eq in Hsl as <-. cbn in H2.
    destruct (escapes_ok_tokens _ s (le_n _) H2) as (t & tokens & ->).
    by exists (t :: tokens).
  - intros [-> (tokens & Hne & ->)]. rewrite escapes_ok_pointer.
    destruct tokens as [|t tokens]; [done|]. done.
Qed.

End PointerFacts.
