(* ===== verification/Steps.v ===== *)
(** * Dex Steps for connector operations

    sdkpython/src/dex_connectors/sdk/steps.py: the construction checks of [QueryStep] and
    [MutationStep], the merged Step options, and one Execute attempt from the Dex context to a
    Step decision.  The Dex SDK is not part of the repository: Step targets, the failure policy
    and the load options are parameters of the sections below, and a decision records the Dex
    function the code calls. *)

From S2P Require Import Prelude Json Timestamps Retry Errors Identity Calls.
From S2P Require Import Definitions Results Operations ConfigurationUI.

Module StepAnnotations.

Record t := mk { group_id : pystr; group_label : pystr; explanation : pystr }.

(** [_GROUP_ID.fullmatch]. *)
Definition group_id_match (s : pystr) : bool :=
  match s with
  | c :: s' => is_lower c && forallb (λ c, is_lower c || is_digit c || (c =? 45)%N) s'
  | [] => false
  end.

Definition validate (a : t) : res unit :=
  raise_if (negb (group_id_match (group_id a)) || blank (group_label a) || blank (explanation a))
    ValueError "Step group, group label, and explanation are required".

End StepAnnotations.

(** ** Step options *)

Inductive StepDurability := DEFAULT | SYNC | ASYNC.

#[global] Instance StepDurability_eq_dec : EqDecision StepDurability.
Proof. solve_decision. Defined.

(** The fields of [dex.RetryPolicy]. *)
Record DexRetryPolicy := mkDexRetry {
  d_initial_interval : Z;
  d_backoff_coefficient : num;
  d_maximum_interval : Z;
  d_maximum_attempts : Z;
  d_total_duration : Z
}.

Section Options.
(** [dex.WaitForFailurePolicy] with its default, and the type of a load or lock option. *)
Context {Policy : Type} `{EqDecision Policy} (FAIL_FLOW : Policy) {Load : Type}.

Record StepOptions := mkOptions {
  execute_method_timeout : option Z;
  heartbeat_timeout : option Z;
  execute_retry : option DexRetryPolicy;
  execute_durability : StepDurability;
  wait_for_method_timeout : option Z;
  wait_for_retry : option DexRetryPolicy;
  wait_for_failure : Policy;
  wait_for_durability : StepDurability;
  wait_for_lock_attributes : list Load;
  wait_for_load_attribute_maps : list Load;
  wait_for_load_attribute_map_instances : list Load;
  wait_for_load_channels : list Load;
  wait_for_load_channel_maps : list Load;
  wait_for_load_channel_map_instances : list Load
}.

Definition is_some {A} (x : option A) : bool := match x with Some _ => true | None => false end.
Definition nonempty {A} (l : list A) : bool := match l with [] => false | _ => true end.

(** The [wait_for] options an Execute-only Step rejects. *)
Definition has_wait_for (o : StepOptions) : bool :=
  is_some (wait_for_method_timeout o) || is_some (wait_for_retry o)
  || negb (bool_decide (wait_for_failure o = FAIL_FLOW))
  || negb (bool_decide (wait_for_durability o = DEFAULT))
  || nonempty (wait_for_lock_attributes o)
  || nonempty (wait_for_load_attribute_maps o)
  || nonempty (wait_for_load_attribute_map_instances o)
  || nonempty (wait_for_load_channels o)
  || nonempty (wait_for_load_channel_maps o)
  || nonempty (wait_for_load_channel_map_instances o).

(** [x or y] on an optional [timedelta]: zero is false. *)
Definition or_timedelta (x y : option Z) : option Z :=
  match x with Some us => if (us =? 0)%Z then y else x | None => y end.

Definition or_retry (x y : option DexRetryPolicy) : option DexRetryPolicy :=
  match x with Some _ => x | None => y end.

(** The tuple index of [defaults.execute_durability]. *)
Definition durability_of (z : Z) : res StepDurability :=
  let i := (if z <? 0 then z + 3 else z)%Z in
  if (i <? 0)%Z then raise IndexError "tuple index out of range"
  else match List.nth_error [DEFAULT; SYNC; ASYNC] (Z.to_nat i) with
       | Some d => Ok d
       | None => raise IndexError "tuple index out of range"
       end.

Definition _step_options (defaults : StepDefaults.t) (override : option StepOptions)
    : res StepOptions :=
  raise_if (match override with Some o => has_wait_for o | None => false end)
    ValueError "execute-only connector Step rejects wait_for options" ≫= λ _,
  let policy := default Policy.default_connector_step_execute_retry_policy
                  (StepDefaults.execute_retry defaults) in
  let retry := mkDexRetry (Policy.initial_interval policy) (Policy.backoff_coefficient policy)
                 (Policy.maximum_interval policy) (Policy.maximum_attempts policy)
                 (Policy.total_duration policy) in
  durability ← durability_of (StepDefaults.execute_durability defaults);
  let base := mkOptions (Some (StepDefaults.execute_method_timeout defaults))
                (or_timedelta (Some (StepDefaults.heartbeat_timeout defaults)) None)
                (Some retry) durability None None FAIL_FLOW DEFAULT [] [] [] [] [] [] in
  match override with
  | None => Ok base
  | Some o =>
      Ok (mkOptions
            (or_timedelta (execute_method_timeout o) (execute_method_timeout base))
            (or_timedelta (heartbeat_timeout o) (heartbeat_timeout base))
            (or_retry (execute_retry o) (execute_retry base))
            (if bool_decide (execute_durability o = DEFAULT) then execute_durability base
             else execute_durability o)
            (wait_for_method_timeout o) (wait_for_retry o) (wait_for_failure o)
            (wait_for_durability o) (wait_for_lock_attributes o) (wait_for_load_attribute_maps o)
            (wait_for_load_attribute_map_instances o) (wait_for_load_channels o)
            (wait_for_load_channel_maps o) (wait_for_load_channel_map_instances o))
  end.

End Options.
Arguments StepOptions : clear implicits.

(** ** Branch targets *)

(** [{name!r}] of a branch identifier: quoted as it is. *)
Definition quoted (name : pystr) : pystr := "'" ++ name ++ "'".

Section Branches.
Context {Target : Type}.

Definition _validate_factory (step_type : pystr) (has_input_type : bool)
    (annotations : StepAnnotations.t) (connection : ConnectionRef.t) (has_mapper : bool) : res unit :=
  raise_if (blank step_type) ValueError "stable Step type is required" ≫= λ _,
  raise_if (negb has_input_type) ValueError "Step input type is required" ≫= λ _,
  StepAnnotations.validate annotations ≫= λ _,
  ConnectionRef.validate connection ≫= λ _,
  raise_if (negb has_mapper) ValueError "map_to_operation_input is required".

(** The targets a Step keeps and its optional branches. *)
Definition _validate_branches (definitions : list BranchDefinition.t)
    (targets : dict (option Target)) : res (dict (option Target) * list pystr) :=
  raise_if (existsb (λ k, negb (bool_decide (k ∈ map BranchDefinition.id definitions))) (dkeys targets))
    ValueError "branch target is not declared by the operation" ≫= λ _,
  for_each (λ kv, raise_if (negb (is_some (snd kv)))
              ValueError ("branch target " ++ quoted (fst kv) ++ " must name a Step")) targets ≫= λ _,
  for_each (λ b, raise_if (negb (BranchDefinition.optional b) && negb (dhas (BranchDefinition.id b) targets))
              ValueError ("branch target " ++ quoted (BranchDefinition.id b) ++ " is required"))
    definitions ≫= λ _,
  Ok (targets, map BranchDefinition.id (List.filter BranchDefinition.optional definitions)).

(** ** Routing *)

Context {V : Type}.

Inductive StepDecision :=
  | GoTo (target : Target) (result : Result V)
  | ForceFail (reason : pystr).

(** [text.encode("utf-8")[:n].decode("utf-8", errors="ignore")]: the code points whose whole
    encoding fits, the split last one being ignored. *)
Fixpoint utf8_prefix (n : nat) (s : pystr) : pystr :=
  match s with
  | [] => []
  | c :: s' =>
      match utf8_char c with
      | Some b => if (length b <=? n)%nat then c :: utf8_prefix (n - length b) s' else []
      | None => []
      end
  end.

Definition failure_text (failure : Failure.t) : res pystr :=
  bytes ← CallID.encode (Failure.message failure);
  Ok (": " ++ kind_value (Failure.kind failure) ++ ": " ++ utf8_prefix 1024 (Failure.message failure)
        ++ (if (1024 <? length bytes)%nat then " (truncated)" else [])).

Definition _route_branch (branches : dict (option Target)) (optional : list pystr) (branch : pystr)
    (result : Result V) (failure : option Failure.t) (call : Call.t) (kind : pystr)
    : res StepDecision :=
  match dget branch branches with
  | Some (Some target) => Ok (GoTo target result)
  | _ =>
      if bool_decide (branch ∈ optional) then
        let reason := OperationRef.connector_id (Call.operation call) ++ " "
          ++ OperationRef.operation_id (Call.operation call) ++ " (connection "
          ++ ConnectionRef.name (Call.connection call) ++ ") selected branch " ++ branch
          ++ " with no target" in
        more ← match failure with Some f => failure_text f | None => Ok [] end;
        Ok (ForceFail (reason ++ more))
      else raise ValueError (kind ++ " result selected unconfigured branch " ++ quoted branch)
  end.

End Branches.
Arguments StepDecision : clear implicits.

(** ** One Execute attempt *)

(** What the attempt's Dex context provides. *)
Record StepContext := mkStepContext { flow_id : pystr; step_execution_id : pystr; ctx_attempt : Z }.

Definition _call (context : StepContext) (operation : OperationRef.t) (connection : ConnectionRef.t)
    (has_progress_stream has_text_stream : bool) : res Call.t :=
  raise_if (negb (truthy (flow_id context)) || negb (truthy (step_execution_id context)))
    ValueError "connector operations require a Dex Flow and Step execution" ≫= λ _,
  call_id ← CallID.derive_call_id (flow_id context) (step_execution_id context) operation;
  Ok (Call.mk call_id connection operation []
        (if has_progress_stream then Some (ProgressReporter.init (ctx_attempt context) call_id) else None)
        (if has_text_stream then Some [] else None)).

(** What an Execute attempt raises: Dex's delayed retry, the retry itself, or an exception. *)
Inductive step_error :=
  | RetryAfter (seconds : Z) (cause : RetryError)
  | Retry (cause : RetryError)
  | Raised (e : exn).

Definition _raise_dex_retry (error : RetryError) : step_error :=
  match retry_after_whole_seconds error with
  | Ok seconds => if (0 <? seconds)%Z then RetryAfter seconds error else Retry error
  | Err e => Raised e
  end.

Section Execute.
Context {StepInput Input V Target : Type} {Policy : Type} `{EqDecision Policy} (FAIL_FLOW : Policy)
  {Load : Type}.

(** [QueryStepConfig] and [MutationStepConfig]; [operation] is the protocol object. *)
Record StepConfig (Op : Type) := mkConfig {
  step_type : pystr;
  has_input_type : bool;
  annotations : StepAnnotations.t;
  operation : option Op;
  connection : ConnectionRef.t;
  map_to_operation_input : option (StepInput → opres Input);
  branches : dict (option Target);
  configuration_ui : ConnectorConfigurationUI.t;
  (** [result_attribute.set(context, result)]. *)
  result_attribute : option (Result V → opres unit);
  progress_stream : bool;
  text_stream : bool;
  step_options_override : option (StepOptions Policy Load)
}.
Arguments mkConfig {Op}.
Arguments step_type {Op}.
Arguments has_input_type {Op}.
Arguments annotations {Op}.
Arguments operation {Op}.
Arguments connection {Op}.
Arguments map_to_operation_input {Op}.
Arguments branches {Op}.
Arguments configuration_ui {Op}.
Arguments result_attribute {Op}.
Arguments progress_stream {Op}.
Arguments text_stream {Op}.
Arguments step_options_override {Op}.

(** A constructed Step. *)
Record Step (Op : Type) := mkStep {
  _branches : dict (option Target);
  _optional_branches : list pystr;
  _operation : Op;
  _mapper : StepInput → opres Input;
  _config : StepConfig Op;
  _operation_ref : OperationRef.t;
  _options : StepOptions Policy Load
}.
Arguments mkStep {Op}.
Arguments _branches {Op}.
Arguments _optional_branches {Op}.
Arguments _operation {Op}.
Arguments _mapper {Op}.
Arguments _config {Op}.
Arguments _operation_ref {Op}.
Arguments _options {Op}.

(** The constructors of both Steps; they differ in the definition's [validate] and in the text
    of the first error. *)
Definition build_step {Op} (definition : Op → QueryDefinition.t)
    (validate : QueryDefinition.t → res unit) (missing : string) (config : StepConfig Op)
    : res (Step Op) :=
  match operation config with
  | None => raise ValueError missing
  | Some op =>
      let definition := definition op in
      validate definition ≫= λ _,
      _validate_factory (step_type config) (has_input_type config) (annotations config)
        (connection config) (is_some (map_to_operation_input config)) ≫= λ _,
      ConnectorConfigurationUI.validate (configuration_ui config) ≫= λ _,
      '(targets, optional) ← _validate_branches (default [] (QueryDefinition.branches definition))
                               (branches config);
      options ← _step_options FAIL_FLOW (QueryDefinition.step_defaults definition)
                  (step_options_override config);
      match map_to_operation_input config with
      | Some mapper =>
          Ok (mkStep targets optional op mapper config (QueryDefinition.operation definition) options)
      | None => raise ValueError "map_to_operation_input is required"
      end
  end.

Definition QueryStep : StepConfig (Query Input V) → res (Step (Query Input V)) :=
  build_step q_definition QueryDefinition.validate "query operation is required".

Definition MutationStep : StepConfig (Mutation Input V) → res (Step (Mutation Input V)) :=
  build_step m_definition MutationDefinition.validate "mutation operation is required".

(** [execute]: [run] is [run_query] or [run_mutation] on the step's operation. *)
Definition execute {Op} (run : Op → Call.t → Input → opres (Result V)) (kind : pystr)
    (step : Step Op) (context : StepContext) (input : StepInput)
    : result step_error (StepDecision Target V) :=
  match _call context (_operation_ref step) (connection (_config step))
          (progress_stream (_config step)) (text_stream (_config step)) with
  | Err e => Err (Raised e)
  | Ok call =>
      match _mapper step input ≫= run (_operation step) call with
      | Err (ERetry e) => Err (_raise_dex_retry e)
      | Err (EExn e) => Err (Raised e)
      | Ok result =>
          match match result_attribute (_config step) with
                | Some set => set result
                | None => Ok ()
                end with
          | Err (ERetry e) => Err (Retry e)
          | Err (EExn e) => Err (Raised e)
          | Ok _ =>
              match _route_branch (_branches step) (_optional_branches step) (r_branch result)
                      result (r_failure result) call kind with
              | Ok d => Ok d
              | Err e => Err (Raised e)
              end
          end
      end
  end.

Definition execute_query (now : GoTime.datetime) : Step (Query Input V) → StepContext → StepInput →
    result step_error (StepDecision Target V) := execute (run_query now) "query".
Definition execute_mutation (now : GoTime.datetime) : Step (Mutation Input V) → StepContext → StepInput →
    result step_error (StepDecision Target V) := execute (run_mutation now) "mutation".

End Execute.

(** ** Theorems *)

Module StepFacts.

Section OptionFacts.
Context {Policy : Type} `{EqDecision Policy} (FAIL_FLOW : Policy) {Load : Type}.

(** The options a Step registers never contain a wait-for option, always carry an Execute
    retry policy, and an override decides every Execute option it sets. *)
Theorem step_options_execute_only defaults (override : option (StepOptions Policy Load)) o :
  _step_options FAIL_FLOW defaults override = Ok o →
  has_wait_for FAIL_FLOW o = false ∧ execute_retry o ≠ None ∧
  (∀ v, override = Some v →
     (execute_retry v ≠ None → execute_retry o = execute_retry v) ∧
     (execute_durability v ≠ DEFAULT → execute_durability o = execute_durability v) ∧
     (∀ us, execute_method_timeout v = Some us → us ≠ 0%Z → execute_method_timeout o = Some us) ∧
     (∀ us, heartbeat_timeout v = Some us → us ≠ 0%Z → heartbeat_timeout o = Some us)).
Proof.
  unfold _step_options. intros (_ & Hw%raise_if_Ok & (d & _ & H)%bind_Ok)%bind_Ok.
  destruct override as [v|]; apply Ok_inj in H as <-.
  - split_and!; [exact Hw|by destruct (execute_retry v)|]. intros ? [= <-]. cbn. split_and!.
    + by destruct (execute_retry v).
    + intros Hd. by rewrite bool_decide_false.
    + intros us -> Hus. cbn. by rewrite (proj2 (Z.eqb_neq us 0)).
    + intros us -> Hus. cbn. by rewrite (proj2 (Z.eqb_neq us 0)).
  - split_and!; [|done|done]. unfold has_wait_for. cbn. by rewrite bool_decide_true.
Qed.

End OptionFacts.

Lemma step_options_execute_only_witness :
  ∃ o, _step_options tt (QueryDefinition.step_defaults DefinitionFacts.sample_definition)
         (None : option (StepOptions unit unit)) = Ok o ∧ has_wait_for tt o = false.
Proof.
  eexists. split; [vm_compute; reflexivity|].
  apply (step_options_execute_only tt (QueryDefinition.step_defaults DefinitionFacts.sample_definition)
    (None : option (StepOptions unit unit))). vm_compute. reflexivity.
Defined.

(** ** Branch configuration *)

Lemma validate_branches_inv {Target} definitions (targets : dict (option Target)) branches optional :
  _validate_branches definitions targets = Ok (branches, optional) →
  branches = targets ∧
  optional = map BranchDefinition.id (List.filter BranchDefinition.optional definitions) ∧
  (∀ k t, dget k targets = Some t → t ≠ None) ∧
  (∀ b, b ∈ definitions → BranchDefinition.optional b = false →
        dhas (BranchDefinition.id b) targets = true).
Proof.
  unfold _validate_branches. intros (_ & _ & (_ & Ht%for_each_Ok & H)%bind_Ok)%bind_Ok.
  apply bind_Ok in H as (_ & Hd%for_each_Ok & [= <- <-]). split_and!; [done|done| |].
  - intros k t Hk%dget_elem ->. rewrite Forall_forall in Ht. by specialize (Ht _ Hk).
  - intros b Hb Ho. rewrite Forall_forall in Hd. specialize (Hd b Hb).
    apply raise_if_Ok in Hd. rewrite Ho in Hd. cbn [negb andb] in Hd. by apply negb_false_iff in Hd.
Qed.

Lemma dhas_dget {A} k (d : dict A) : dhas k d = true → ∃ v, dget k d = Some v.
Proof.
  unfold dhas. intros H%bool_decide_eq_true. destruct (dget k d) eqn:E; [by eexists|].
  by apply dget_None in E.
Qed.

Section RouteFacts.
Context {Target V : Type}.

(** Without definitions there are no targets. *)
Lemma validate_branches_empty (targets branches : dict (option Target)) optional :
  _validate_branches [] targets = Ok (branches, optional) → branches = [] ∧ optional = [].
Proof.
  unfold _validate_branches. intros (u & Hk%raise_if_Ok & H)%bind_Ok. apply bind_Ok in H as (u1 & _ & H).
  apply bind_Ok in H as (u2 & _ & H). apply Ok_inj in H. injection H as <- <-. split; [|done].
  by destruct targets as [|[k t] targets].
Qed.

(** The route a result takes when its branch is declared. *)
Lemma route_declared (d : QueryDefinition.t) (targets branches : dict (option Target)) optional
    (r : Result V) call kind :
  _validate_branches (default [] (QueryDefinition.branches d)) targets = Ok (branches, optional) →
  r_branch r ∈ map BranchDefinition.id (default [] (QueryDefinition.branches d)) →
  (∃ t, dget (r_branch r) targets = Some (Some t) ∧
        _route_branch branches optional (r_branch r) r (r_failure r) call kind = Ok (GoTo t r)) ∨
  (dget (r_branch r) targets = None ∧
   (∃ b, b ∈ default [] (QueryDefinition.branches d) ∧ BranchDefinition.id b = r_branch r ∧ BranchDefinition.optional b = true) ∧
   let more := match r_failure r with Some f => failure_text f | None => Ok [] end in
   (∀ text, more = Ok text → ∃ reason, _route_branch branches optional (r_branch r) r (r_failure r) call kind
      = Ok (ForceFail reason)) ∧
   (∀ e, more = Err e → _route_branch branches optional (r_branch r) r (r_failure r) call kind = Err e)).
Proof.
  intros (-> & -> & Hsome & Hreq)%validate_branches_inv Hdec.
  apply list_elem_of_fmap in Hdec as (b & Hb & Hin). unfold _route_branch.
  destruct (dget (r_branch r) targets) as [[t|]|] eqn:Ht.
  - left. by exists t.
  - by destruct (Hsome _ _ Ht).
  - right. assert (Hopt : BranchDefinition.optional b = true).
    { destruct (BranchDefinition.optional b) eqn:Ho; [done|].
      destruct (dhas_dget _ _ (Hreq b Hin Ho)) as [v Hv]. rewrite Hb in Ht. congruence. }
    assert (Hel : r_branch r ∈ map BranchDefinition.id
        (List.filter BranchDefinition.optional (default [] (QueryDefinition.branches d)))).
    { rewrite Hb. apply list_elem_of_fmap. exists b. split; [done|].
      apply list_elem_of_In, filter_In. by rewrite <- list_elem_of_In. }
    split; [done|]. split; [by exists b|]. cbv zeta. rewrite bool_decide_true by done. split.
    + intros text ->. by eexists.
    + by intros e ->.
Qed.

End RouteFacts.

(** C18: what a constructed Step does with a result of its operation, for every declared branch and for the
    defect branch that the runner selects by itself.  A branch with a configured target goes there, with
    the result unchanged.  Otherwise the branch is one the definition declares optional, and the Flow is
    failed, or, if the failure's message has no UTF-8 encoding, UnicodeEncodeError is raised; so no declared
    branch is left unconfigured.  The one exception is a definition without branches, which validates: a
    defect result then raises the ValueError of an unconfigured branch. *)
Theorem step_routes_results {StepInput Input V Target Policy Load : Type} `{EqDecision Policy}
    (FAIL_FLOW : Policy) {Op} (definition : Op → QueryDefinition.t) u msg missing
    (config : StepConfig (StepInput:=StepInput) (Input:=Input) (V:=V) (Target:=Target)
       (Policy:=Policy) (Load:=Load) Op) step call (r : Result V) kind :
  build_step FAIL_FLOW definition (QueryDefinition.validate_with u msg) missing config = Ok step →
  r_branch r ∈ QueryDefinition.branch_ids (definition (_operation Op step)) ∨ r_branch r = DEFECT_BRANCH_ID →
  let route := _route_branch (_branches Op step) (_optional_branches Op step) (r_branch r) r (r_failure r) call kind in
  (∃ t, dget (r_branch r) (branches Op config) = Some (Some t) ∧ route = Ok (GoTo t r)) ∨
  (dget (r_branch r) (branches Op config) = None ∧
   (∃ b, b ∈ default [] (QueryDefinition.branches (definition (_operation Op step))) ∧
      BranchDefinition.id b = r_branch r ∧ BranchDefinition.optional b = true) ∧
   match r_failure r with
   | Some f => if utf8 (Failure.message f) then ∃ reason, route = Ok (ForceFail reason)
               else ∃ text, route = raise UnicodeEncodeError text
   | None => ∃ reason, route = Ok (ForceFail reason)
   end) ∨
  (default [] (QueryDefinition.branches (definition (_operation Op step))) = [] ∧
   route = raise ValueError (kind ++ " result selected unconfigured branch " ++ quoted (r_branch r))).
Proof.
  unfold build_step. destruct (operation Op config) as [op|]; [|done].
  intros ([] & Hv & (u1 & _ & (u2 & _ & ([bs opt] & Hb & (o & _ & H)%bind_Ok)%bind_Ok)%bind_Ok)%bind_Ok)%bind_Ok.
  destruct (map_to_operation_input Op config); [|done]. apply Ok_inj in H as <-.
  cbn [_operation _branches _optional_branches]. intros Hdec. cbv zeta.
  destruct (default [] (QueryDefinition.branches (definition op))) as [|b0 l] eqn:Hbr.
  { right; right. split; [done|]. apply validate_branches_empty in Hb as [-> ->]. done. }
  assert (Hd : r_branch r ∈ QueryDefinition.branch_ids (definition op)).
  { destruct Hdec as [?| ->]; [done|]. unfold QueryDefinition.branch_ids.
    apply bind_Ok in Hv as (u3 & _ & Hv). destruct (QueryDefinition.branches (definition op)) as [[|b l']|]; [done| |done].
    apply bind_Ok in Hv as (u4 & Hv%raise_if_Ok & _). by bool_inv. }
  unfold QueryDefinition.branch_ids in Hd. rewrite Hbr in Hd. rewrite <- Hbr in Hb, Hd |- *.
  destruct (route_declared _ _ _ _ r call kind Hb Hd) as [(t & Ht & Hroute)|(Hn & Hopt & Hroute)]; [left; by exists t|].
  right; left. split_and!; [done|done|]. cbv zeta in Hroute. destruct Hroute as [Hgo Hstop]. destruct (r_failure r) as [f|]; [|by apply (Hgo [])].
  unfold failure_text, CallID.encode in Hgo, Hstop. destruct (utf8 (Failure.message f)); [by eapply Hgo|].
  exists (lit "surrogates not allowed"). by apply Hstop.
Qed.

(** A Query Step whose optional defect route has no target. *)
Definition sample_config : StepConfig (StepInput:=unit) (Input:=unit) (V:=json) (Target:=nat)
    (Policy:=unit) (Load:=unit) (Query unit json) :=
  mkConfig _ "create" true (StepAnnotations.mk "items" "Items" "Creates an item")
    (Some (RunFacts.sample_query (GoTime.TDate RunFacts.clock))) (ConnectionRef.mk "sample" "main")
    (Some (λ i, Ok i)) [(lit "created", Some 7)] (ConnectorConfigurationUI.mk []) None true false None.

Lemma step_routes_results_witness :
  ∃ step d, QueryStep tt sample_config = Ok step ∧
    _route_branch (_branches _ step) (_optional_branches _ step) DEFECT_BRANCH_ID
      (RunFacts.defect_result (V:=json) RunFacts.clock Call.sample_call "bad attempt")
      (Some (_failure Call.sample_call "bad attempt")) Call.sample_call "query" = Ok d.
Proof.
  destruct (QueryStep tt sample_config) as [step|e] eqn:Hs; [|vm_compute in Hs; discriminate Hs].
  assert (Hop : _operation _ step = RunFacts.sample_query (GoTime.TDate RunFacts.clock))
    by (vm_compute in Hs; injection Hs as <-; reflexivity).
  destruct (step_routes_results tt q_definition false "invalid Query branches" "query operation is required"
    sample_config step Call.sample_call
    (RunFacts.defect_result (V:=json) RunFacts.clock Call.sample_call "bad attempt") "query") as [(t & Ht & _)|[(_ & _ & Hd)|(Hd & _)]].
  - exact Hs.
  - by right.
  - vm_compute in Ht. discriminate Ht.
  - cbn in Hd. destruct Hd as [reason Hd]. exists step, (ForceFail reason). split; [reflexivity|exact Hd].
  - rewrite Hop in Hd. discriminate Hd.
Defined.

(** ** The persisted failure text *)

Lemma utf8_prefix_fits n s :
  ∃ b rest, utf8 (utf8_prefix n s) = Some b ∧ length b <= n ∧ s = utf8_prefix n s ++ rest.
Proof.
  revert n. induction s as [|c s IH]; intros n; cbn [utf8_prefix]; [exists [], []; split_and!; [done|simpl; lia|done]|].
  destruct (utf8_char c) as [b|] eqn:Hc; [|exists [], (c :: s); split_and!; [done|simpl; lia|done]].
  destruct (Nat.leb_spec (length b) n); [|exists [], (c :: s); split_and!; [done|simpl; lia|done]].
  destruct (IH (n - length b)) as (bs & rest & Hb & Hl & Hs). exists (b ++ bs), rest.
  cbn [utf8]. rewrite Hc, Hb. cbn [mbind option_bind]. split_and!; [done| |].
  - rewrite length_app. lia.
  - rewrite <- app_comm_cons. by f_equal.
Qed.

(** The part of a provider's failure message that a forced Flow failure records is a
    prefix of whole characters whose UTF-8 encoding has at most 1024 bytes; a message within
    the bound is kept whole. *)
Theorem failure_text_bounded n message b :
  CallID.encode message = Ok b →
  (∃ bytes rest, CallID.encode (utf8_prefix n message) = Ok bytes ∧ length bytes <= n ∧
                 message = utf8_prefix n message ++ rest) ∧
  (length b <= n → utf8_prefix n message = message).
Proof.
  intros Hb. split.
  - destruct (utf8_prefix_fits n message) as (bs & rest & Hbs & Hl & Hs). exists bs, rest.
    split; [|done]. unfold CallID.encode. by rewrite Hbs.
  - unfold CallID.encode in Hb. destruct (utf8 message) as [b'|] eqn:Hu; [|done]. injection Hb as ->.
    revert n b Hu. induction message as [|c s IH]; intros n b; [done|]. cbn [utf8 utf8_prefix].
    destruct (utf8_char c) as [bc|]; [|done]. cbn [mbind option_bind].
    destruct (utf8 s) as [bs|]; [|done]. intros [= <-]. rewrite length_app. intros Hl.
    destruct (Nat.leb_spec (length bc) n); [|lia]. f_equal. apply (IH _ bs); [done|lia].
Qed.

Lemma failure_text_bounded_witness :
  CallID.encode (lit "ab") = Ok [97; 98]%N ∧ utf8_prefix 1024 (lit "ab") = lit "ab".
Proof.
  split; [reflexivity|].
  apply (failure_text_bounded 1024 (lit "ab") [97; 98]%N ltac:(reflexivity)). cbn [length]. lia.
Defined.

End StepFacts.
