(* ===== verification/AddressPolicy.v ===== *)
(** * Provider address policy

    sdkpython/src/dex_connectors/sdk/providerhttp/address_policy.py: which resolved addresses a
    restricted client may dial, and the network backend that resolves, checks and then dials.
    The standard library's [ipaddress] is modelled by its parsing rules on integers; DNS and the
    underlying TCP connector are parameters. *)

From S2P Require Import Prelude.

#[local] Open Scope Z_scope.

(** ** ipaddress *)

Inductive ip :=
  | V4 (n : Z)
  | V6 (n : Z) (scope : option pystr).

#[global] Instance ip_eq_dec : EqDecision ip.
Proof. solve_decision. Defined.

Definition octet (s : pystr) : option Z :=
  if truthy s && forallb is_digit s && (length s <=? 3)%nat
     && negb ((1 <? length s)%nat && starts_with "0" s) && (digits_value s <=? 255)
  then Some (digits_value s) else None.

(** [IPv4Address(text)._ip]. *)
Definition parse_v4 (s : pystr) : option Z :=
  match split_char 46 s with
  | [a; b; c; d] =>
      a ← octet a; b ← octet b; c ← octet c; d ← octet d;
      Some (((a * 256 + b) * 256 + c) * 256 + d)
  | _ => None
  end.

Definition hex_value (c : N) : Z :=
  if is_digit c then Z.of_N c - 48
  else if in_range 97 102 c then Z.of_N c - 87 else Z.of_N c - 55.

Definition hextet (s : pystr) : option Z :=
  if truthy s && forallb is_hex s && (length s <=? 4)%nat
  then Some (fold_left (λ acc c, acc * 16 + hex_value c) s 0) else None.

(** Fold the hextets into an integer. *)
Fixpoint hextets (acc : Z) (parts : list pystr) : option Z :=
  match parts with
  | [] => Some acc
  | p :: parts' => h ← hextet p; hextets (acc * 65536 + h) parts'
  end.

(** Indices [1 .. len-2] of the empty parts. *)
Definition inner_empty (parts : list pystr) : list nat :=
  List.filter (λ i, match nth i parts [] with [] => true | _ => false end)
    (seq 1 (length parts - 2)).

Definition hex_text (n : Z) : pystr :=
  let d k := (n / 16 ^ k) mod 16 in
  let c x := Z.to_N (if x <? 10 then 48 + x else 87 + x) in
  match List.find (λ k, negb (d k =? 0)) [3; 2; 1] with
  | Some k => map (λ i, c (d (k - Z.of_nat i))) (seq 0 (S (Z.to_nat k)))
  | None => [c (d 0)]
  end.

(** A dotted last part is replaced by its two hextets. *)
Definition expand_v4 (parts : list pystr) : option (list pystr) :=
  match rev parts with
  | l :: r =>
      if has_char 46 l then
        n ← parse_v4 l; Some (rev r ++ [hex_text (n / 65536); hex_text (n mod 65536)])
      else Some parts
  | [] => Some parts
  end.

(** [IPv6Address._ip_int_from_string]. *)
Definition parse_v6_int (s : pystr) : option Z :=
  let parts := split_char 58 s in
  if (length parts <? 3)%nat then None else
  parts ← expand_v4 parts;
  if (9 <? length parts)%nat then None else
  match inner_empty parts with
  | [] =>
      if (length parts =? 8)%nat then hextets 0 parts else None
  | [k] =>
      let first_empty := match parts with [] :: _ => true | _ => false end in
      let last_empty := match rev parts with [] :: _ => true | _ => false end in
      let hi := (if first_empty then k - 1 else k)%nat in
      let lo := (if last_empty then length parts - k - 2 else length parts - k - 1)%nat in
      if (first_empty && negb (hi =? 0)%nat) || (last_empty && negb (lo =? 0)%nat) then None
      else if (8 <=? hi + lo)%nat then None
      else
        high ← hextets 0 (take hi parts);
        low ← hextets 0 (drop (length parts - lo) parts);
        Some (high * 65536 ^ (8 - Z.of_nat hi) + low)
  | _ => None
  end.

(** [text.partition("%")]: the address part and the scope after the first percent sign. *)
Fixpoint partition_percent (s : pystr) : pystr * option pystr :=
  match s with
  | [] => ([], None)
  | c :: s' =>
      if (c =? 37)%N then ([], Some s')
      else let '(a, p) := partition_percent s' in (c :: a, p)
  end.

Definition parse_v6 (s : pystr) : option ip :=
  let '(addr, scope) := partition_percent s in
  match scope with
  | Some z =>
      if negb (truthy z) || has_char 37 z || has_char 47 s then None
      else n ← parse_v6_int addr; Some (V6 n (Some z))
  | None => n ← parse_v6_int addr; Some (V6 n None)
  end.

(** [ipaddress.ip_address(text)]. *)
Definition ip_address (s : pystr) : option ip :=
  match parse_v4 s with Some n => Some (V4 n) | None => parse_v6 s end.

(** [str(address)]. *)
Definition v4_text (n : Z) : pystr :=
  join "." (map (λ k, str_of_Z ((n / 256 ^ k) mod 256)) [3; 2; 1; 0]).

(** The longest run of zero hextets, as (start, length). *)
Fixpoint best_run (i : nat) (hs : list Z) (cur : nat * nat) (best : nat * nat) : nat * nat :=
  match hs with
  | [] => best
  | h :: hs' =>
      if h =? 0 then
        let cur := if (snd cur =? 0)%nat then (i, 1%nat) else (fst cur, S (snd cur)) in
        best_run (S i) hs' cur (if (snd best <? snd cur)%nat then cur else best)
      else best_run (S i) hs' (0, 0)%nat best
  end.

Definition v6_text (n : Z) : pystr :=
  let hs := map (λ k, (n / 65536 ^ k) mod 65536) [7; 6; 5; 4; 3; 2; 1; 0] in
  let '(start, len) := best_run 0 hs (0, 0)%nat (0, 0)%nat in
  let texts := map hex_text hs in
  if (1 <? len)%nat then
    let before := take start texts in
    let after := drop (start + len) texts in
    join ":" ((if (start =? 0)%nat then [[]] else before) ++ [[]]
              ++ (if (start + len =? 8)%nat then [[]] else after))
  else join ":" texts.

Definition ip_text (a : ip) : pystr :=
  match a with
  | V4 n => v4_text n
  | V6 n None => v6_text n
  | V6 n (Some z) => v6_text n ++ "%" ++ z
  end.

(** [address in network] for a network of [bits] prefix bits starting at [base]. *)
Definition in_v4 (base bits : Z) (a : ip) : bool :=
  match a with V4 n => n / 2 ^ (32 - bits) =? base / 2 ^ (32 - bits) | _ => false end.
Definition in_v6 (base bits : Z) (a : ip) : bool :=
  match a with V6 n _ => n / 2 ^ (128 - bits) =? base / 2 ^ (128 - bits) | _ => false end.

Definition is_loopback (a : ip) : bool :=
  match a with V4 _ => in_v4 0x7F000000 8 a | V6 n _ => n =? 1 end.
Definition is_link_local (a : ip) : bool :=
  in_v4 0xA9FE0000 16 a || in_v6 (0xFE80 * 2 ^ 112) 10 a.
Definition is_unspecified (a : ip) : bool := match a with V4 n | V6 n _ => n =? 0 end.
Definition is_multicast (a : ip) : bool := in_v4 0xE0000000 4 a || in_v6 (0xFF00 * 2 ^ 112) 8 a.

(** ** The policy *)

Inductive AddressPolicy := publicHTTPS | privateNetworkHTTP | unrestricted.

#[global] Instance AddressPolicy_eq_dec : EqDecision AddressPolicy.
Proof. solve_decision. Defined.

Definition in_private_networks (a : ip) : bool :=
  in_v4 0x0A000000 8 a || in_v4 0xAC100000 12 a || in_v4 0xC0A80000 16 a
  || in_v6 (0xFC00 * 2 ^ 112) 7 a.
Definition in_shared_network (a : ip) : bool := in_v4 0x64400000 10 a.
Definition _METADATA_IPV6 : ip := V6 0xFD000EC2000000000000000000000254 None.
Definition _BROADCAST_IPV4 : ip := V4 0xFFFFFFFF.

Definition _checked_ip (address : pystr) : option ip :=
  a ← ip_address address;
  Some (match a with
        | V6 n _ => if n / 2 ^ 32 =? 0xFFFF then V4 (n mod 2 ^ 32) else a
        | V4 _ => a
        end).

Definition is_private (a : ip) : bool := is_loopback a || in_private_networks a.

Definition _refusal_reason (address scheme : pystr) (policy : AddressPolicy) : pystr :=
  match _checked_ip address with
  | None => "resolved address is invalid"
  | Some parsed =>
      if is_link_local parsed || bool_decide (parsed = _METADATA_IPV6) then
        "link-local addresses, which include the cloud metadata address, are never allowed"
      else if is_unspecified parsed || is_multicast parsed || bool_decide (parsed = _BROADCAST_IPV4)
      then "only unicast addresses are allowed"
      else if bool_decide (policy = publicHTTPS) && negb (bool_decide (scheme = lit "https")) then
        "plain http is not allowed; use https"
      else if bool_decide (policy = publicHTTPS) && (is_private parsed || in_shared_network parsed)
      then "only public addresses are allowed"
      else if bool_decide (policy = privateNetworkHTTP) && bool_decide (scheme = lit "http")
              && negb (is_private parsed) then
        "plain http is allowed only when every resolved address is loopback or private; use https"
      else []
  end.

(** ** The network backend *)

(** What dialing one address does. *)
Inductive dial_result := Connected | DialError | DialTimeout.

(** How [connect_tcp] ends. *)
Inductive connect_result :=
  | Stream (address : pystr)
  | Refused (reason : pystr)
  | ConnectError
  | ConnectTimeout.

Section Backend.
(** [getaddrinfo]: an error or the answers; the TCP connector; and whether the deadline has
    passed after a number of awaits. *)
Context (getaddrinfo : pystr → Z → option (list pystr)) (dial : pystr → dial_result)
  (expired : nat → bool).

(** [_resolve_addresses]: an IP literal is its own answer. *)
Definition _resolve_addresses (host : pystr) (port : Z) : option (list pystr) :=
  match _checked_ip host with
  | Some a => Some [ip_text a]
  | None => match getaddrinfo host port with
            | None | Some [] => None
            | Some addresses => Some addresses
            end
  end.

(** Every answer is checked before the first is dialed. *)
Fixpoint check_all (scheme : pystr) (policy : AddressPolicy) (addresses : list pystr)
    : result pystr (list pystr) :=
  match addresses with
  | [] => Ok []
  | address :: rest =>
      let reason := _refusal_reason address scheme policy in
      if truthy reason then Err reason
      else checked ← check_all scheme policy rest;
           Ok (match _checked_ip address with Some a => ip_text a | None => [] end :: checked)
  end.

(** Dial in order; the dialed addresses are collected. *)
Fixpoint dial_all (awaits : nat) (addresses : list pystr) (last : connect_result)
    : connect_result * list pystr :=
  match addresses with
  | [] => (last, [])
  | a :: rest =>
      if expired awaits then (ConnectTimeout, [])
      else match dial a with
           | Connected => (Stream a, [a])
           | DialError => let '(r, log) := dial_all (S awaits) rest ConnectError in (r, a :: log)
           | DialTimeout => let '(r, log) := dial_all (S awaits) rest ConnectTimeout in (r, a :: log)
           end
  end.

(** [connect_tcp]: the outcome and the addresses it dialed, [scheme] being the request's. *)
Definition connect_tcp (policy : AddressPolicy) (scheme : option pystr) (host : pystr) (port : Z)
    : connect_result * list pystr :=
  match scheme with
  | Some s =>
      if bool_decide (s = lit "http") || bool_decide (s = lit "https") then
        if expired 0 then (ConnectTimeout, []) else
        match _resolve_addresses host port with
        | None => (ConnectError, [])
        | Some addresses =>
            match check_all s policy addresses with
            | Err reason => (Refused reason, [])
            | Ok checked => dial_all 1 checked ConnectError
            end
        end
      else (Refused "URL scheme is not allowed", [])
  | None => (Refused "URL scheme is not allowed", [])
  end.

(** [connect_unix_socket]. *)
Definition connect_unix_socket : connect_result := Refused "Unix sockets are not allowed".

(** [_AddressPolicyTransport.handle_async_request]: the scheme a dial of the request sees. *)
Definition handle_async_request (policy : AddressPolicy) (url_scheme host : pystr) (port : Z)
    : connect_result * list pystr :=
  if bool_decide (url_scheme = lit "http") || bool_decide (url_scheme = lit "https")
  then connect_tcp policy (Some url_scheme) host port
  else (Refused "URL scheme is not allowed", []).

End Backend.

(** [_AddressPolicyBackend.__init__]. *)
Definition backend_policy (policy : AddressPolicy) : res AddressPolicy :=
  match policy with
  | unrestricted => raise ValueError "address policy is invalid"
  | p => Ok p
  end.

(** ** Theorems *)

Module PolicyFacts.

(** An address block: [size] addresses from [base]. *)
Definition within (n base size : Z) : Prop := base <= n < base + size.

(** 127.0.0.0/8 and the private networks. *)
Definition private_v4 (n : Z) : Prop :=
  within n 0x7F000000 (2 ^ 24) ∨ within n 0x0A000000 (2 ^ 24) ∨ within n 0xAC100000 (2 ^ 20) ∨ within n 0xC0A80000 (2 ^ 16).

(** What a permitted address of a policy and scheme is. *)
Definition permitted (policy : AddressPolicy) (scheme : pystr) (a : ip) : Prop :=
  match a with
  | V4 n =>
      ¬ within n 0xA9FE0000 (2 ^ 16) ∧ n ≠ 0 ∧ ¬ within n 0xE0000000 (2 ^ 28) ∧ n ≠ 0xFFFFFFFF ∧
      (policy = publicHTTPS → scheme = lit "https" ∧ ¬ private_v4 n ∧ ¬ within n 0x64400000 (2 ^ 22)) ∧
      (policy = privateNetworkHTTP → scheme = lit "http" → private_v4 n)
  | V6 n scope =>
      ¬ within n (0xFFFF * 2 ^ 32) (2 ^ 32) ∧
      ¬ within n (0xFE80 * 2 ^ 112) (2 ^ 118) ∧ n ≠ 0 ∧ ¬ within n (0xFF00 * 2 ^ 112) (2 ^ 120) ∧
      (scope = None → n ≠ 0xFD000EC2000000000000000000000254) ∧
      (policy = publicHTTPS → scheme = lit "https" ∧ n ≠ 1 ∧ ¬ within n (0xFC00 * 2 ^ 112) (2 ^ 121)) ∧
      (policy = privateNetworkHTTP → scheme = lit "http" → n = 1 ∨ within n (0xFC00 * 2 ^ 112) (2 ^ 121))
  end.

Lemma block_spec n base size : 0 < size → base mod size = 0 → (n / size =? base / size) = true ↔ within n base size.
Proof.
  intros Hs Hb. unfold within. rewrite Z.eqb_eq. pose proof (Z.div_mod base size ltac:(lia)) as Hd.
  pose proof (Z.div_mod n size ltac:(lia)). pose proof (Z.mod_pos_bound n size Hs). split; [nia|].
  intros [H1 H2]. symmetry. apply (Z.div_unique n size (base / size) (n - base)); lia.
Qed.

(** Membership in a network is membership in its block. *)
Ltac by_block := match goal with
  | |- in_v4 ?base ?bits (V4 ?n) = true ↔ _ => exact (block_spec n base (2 ^ (32 - bits)) eq_refl eq_refl)
  | |- in_v6 ?base ?bits (V6 ?n _) = true ↔ _ => exact (block_spec n base (2 ^ (128 - bits)) eq_refl eq_refl)
  end.

Lemma link_local_v4 n : is_link_local (V4 n) = true ↔ within n 0xA9FE0000 (2 ^ 16).
Proof. unfold is_link_local. rewrite orb_true_iff. cbn [in_v6]. transitivity (in_v4 0xA9FE0000 16 (V4 n) = true); [by intuition|by_block]. Qed.

Lemma link_local_v6 n s : is_link_local (V6 n s) = true ↔ within n (0xFE80 * 2 ^ 112) (2 ^ 118).
Proof. unfold is_link_local. cbn [in_v4 orb]. by_block. Qed.

Lemma multicast_v4 n : is_multicast (V4 n) = true ↔ within n 0xE0000000 (2 ^ 28).
Proof. unfold is_multicast. rewrite orb_true_iff. cbn [in_v6]. transitivity (in_v4 0xE0000000 4 (V4 n) = true); [by intuition|by_block]. Qed.

Lemma multicast_v6 n s : is_multicast (V6 n s) = true ↔ within n (0xFF00 * 2 ^ 112) (2 ^ 120).
Proof. unfold is_multicast. cbn [in_v4 orb]. by_block. Qed.

Lemma shared_v4 n : in_shared_network (V4 n) = true ↔ within n 0x64400000 (2 ^ 22).
Proof. unfold in_shared_network. by_block. Qed.

Lemma private_v4_spec n : is_private (V4 n) = true ↔ private_v4 n.
Proof.
  unfold is_private, is_loopback, in_private_networks, private_v4. rewrite !orb_true_iff. cbn [in_v6].
  assert (H1 : in_v4 0x7F000000 8 (V4 n) = true ↔ within n 0x7F000000 (2 ^ 24)) by by_block.
  assert (H2 : in_v4 0x0A000000 8 (V4 n) = true ↔ within n 0x0A000000 (2 ^ 24)) by by_block.
  assert (H3 : in_v4 0xAC100000 12 (V4 n) = true ↔ within n 0xAC100000 (2 ^ 20)) by by_block.
  assert (H4 : in_v4 0xC0A80000 16 (V4 n) = true ↔ within n 0xC0A80000 (2 ^ 16)) by by_block.
  rewrite H1, H2, H3, H4. clear. intuition discriminate.
Qed.

Lemma private_v6_spec n s : is_private (V6 n s) = true ↔ n = 1 ∨ within n (0xFC00 * 2 ^ 112) (2 ^ 121).
Proof.
  unfold is_private, is_loopback, in_private_networks. cbn [in_v4 orb].
  rewrite orb_true_iff, Z.eqb_eq. apply or_iff_compat_l. by_block.
Qed.

Lemma mapped_spec n : (n / 2 ^ 32 =? 0xFFFF) = true ↔ within n (0xFFFF * 2 ^ 32) (2 ^ 32).
Proof. exact (block_spec n (0xFFFF * 2 ^ 32) (2 ^ 32) eq_refl eq_refl). Qed.

(** What the policy reads an answer as: no mapped address is left. *)
Lemma checked_unmapped address n s : _checked_ip address = Some (V6 n s) → ¬ within n (0xFFFF * 2 ^ 32) (2 ^ 32).
Proof.
  unfold _checked_ip. destruct (ip_address address) as [[m|m s']|]; [done| |done]. cbn [mbind option_bind].
  destruct (m / 2 ^ 32 =? 0xFFFF) eqn:E; [done|]. intros [= -> ->] Hw%mapped_spec. congruence.
Qed.

Lemma false_not_true (b : bool) (P : Prop) : (b = true ↔ P) → b = false ↔ ¬ P.
Proof. intros H. rewrite <- H. destruct b; intuition discriminate. Qed.

(** The conditions of [_refusal_reason], as one. *)
Definition allowed (policy : AddressPolicy) (scheme : pystr) (a : ip) : Prop :=
  is_link_local a = false ∧ a ≠ _METADATA_IPV6 ∧ is_unspecified a = false ∧ is_multicast a = false ∧
  a ≠ _BROADCAST_IPV4 ∧
  (policy = publicHTTPS → scheme = lit "https" ∧ is_private a = false ∧ in_shared_network a = false) ∧
  (policy = privateNetworkHTTP → scheme = lit "http" → is_private a = true).

Lemma refusal_allowed address scheme policy :
  _refusal_reason address scheme policy = [] ↔ ∃ a, _checked_ip address = Some a ∧ allowed policy scheme a.
Proof.
  unfold _refusal_reason, allowed. destruct (_checked_ip address) as [a|]; [|split; [discriminate|by intros (? & ? & _)]].
  transitivity (allowed policy scheme a); [|split; [by exists a|by intros (? & [= <-] & ?)]]. unfold allowed.
  destruct (is_link_local a) eqn:H1; [split; [discriminate|by intros (? & _)]|].
  destruct (decide (a = _METADATA_IPV6)) as [Hm|Hm];
    [rewrite (bool_decide_eq_true_2 (a = _METADATA_IPV6)) by done; split; [discriminate|tauto]|].
  rewrite (bool_decide_eq_false_2 (a = _METADATA_IPV6)) by done. cbn [orb].
  destruct (is_unspecified a) eqn:H2; [split; [discriminate|by intros (_ & _ & ? & _)]|].
  destruct (is_multicast a) eqn:H3; [split; [discriminate|by intros (_ & _ & _ & ? & _)]|].
  destruct (decide (a = _BROADCAST_IPV4)) as [Hb|Hb];
    [rewrite (bool_decide_eq_true_2 (a = _BROADCAST_IPV4)) by done; split; [discriminate|tauto]|].
  rewrite (bool_decide_eq_false_2 (a = _BROADCAST_IPV4)) by done. cbn [orb].
  destruct policy; cbn [andb]; rewrite ?(bool_decide_eq_true_2 (publicHTTPS = publicHTTPS)),
    ?(bool_decide_eq_true_2 (privateNetworkHTTP = privateNetworkHTTP)) by done; cbn [andb].
  - rewrite (bool_decide_eq_false_2 (publicHTTPS = privateNetworkHTTP)) by done. cbn [andb].
    destruct (decide (scheme = lit "https")) as [Hs|Hs];
      [rewrite (bool_decide_eq_true_2 (scheme = lit "https")) by done; cbn [negb]
      |rewrite (bool_decide_eq_false_2 (scheme = lit "https")) by done; cbn [negb]; split; [discriminate|]].
    + destruct (is_private a), (in_shared_network a); cbn [orb]; (split; [try discriminate; intros _|]); try done.
      all: try (by intros (_ & _ & _ & _ & _ & H & _); destruct (H eq_refl) as (_ & ? & ?)). all: by split_and!.
    + intros (_ & _ & _ & _ & _ & H & _). by destruct (H eq_refl) as [? _].
  - rewrite (bool_decide_eq_false_2 (privateNetworkHTTP = publicHTTPS)) by done. cbn [andb].
    destruct (decide (scheme = lit "http")) as [Hs|Hs];
      [rewrite (bool_decide_eq_true_2 (scheme = lit "http")) by done
      |rewrite (bool_decide_eq_false_2 (scheme = lit "http")) by done]; cbn [andb].
    + destruct (is_private a); cbn [negb]; (split; [try discriminate; intros _|]); [by split_and!|done|].
      intros (_ & _ & _ & _ & _ & _ & H). discriminate (H eq_refl Hs).
    + split; [intros _; by split_and!|done].
  - rewrite (bool_decide_eq_false_2 (unrestricted = publicHTTPS)), (bool_decide_eq_false_2 (unrestricted = privateNetworkHTTP)) by done.
    split; [intros _; by split_and!|done].
Qed.

Lemma allowed_permitted address policy scheme a : _checked_ip address = Some a →
  allowed policy scheme a ↔ permitted policy scheme a.
Proof.
  intros Ha. unfold allowed, permitted. destruct a as [n|n s].
  - rewrite (false_not_true _ _ (link_local_v4 n)), (false_not_true _ _ (multicast_v4 n)), (false_not_true _ _ (private_v4_spec n)),
      (false_not_true _ _ (shared_v4 n)), private_v4_spec. unfold is_unspecified. rewrite Z.eqb_neq.
    unfold _METADATA_IPV6, _BROADCAST_IPV4.
    assert (V4 n ≠ V4 0xFFFFFFFF ↔ n ≠ 0xFFFFFFFF) by (split; [by intros Hn ->|by intros Hn [= Hn']]).
    assert (V4 n ≠ V6 0xFD000EC2000000000000000000000254 None) by done. tauto.
  - rewrite (false_not_true _ _ (link_local_v6 n s)), (false_not_true _ _ (multicast_v6 n s)), (false_not_true _ _ (private_v6_spec n s)),
      private_v6_spec. unfold is_unspecified. rewrite Z.eqb_neq. apply checked_unmapped in Ha.
    unfold _METADATA_IPV6, _BROADCAST_IPV4. assert (V6 n s ≠ V4 0xFFFFFFFF) by done.
    assert (in_shared_network (V6 n s) = false) by done.
    assert (V6 n s ≠ V6 0xFD000EC2000000000000000000000254 None ↔ (s = None → n ≠ 0xFD000EC2000000000000000000000254)).
    { split; [by intros Hn -> ->|]. intros Hn [= Hn1 Hn2]. by apply Hn. }
    tauto.
Qed.

(** An answer is accepted as an address text: it is an IP address that is permitted, and the text is its. *)
Definition accepted (policy : AddressPolicy) (scheme address text : pystr) : Prop :=
  ∃ a, _checked_ip address = Some a ∧ permitted policy scheme a ∧ text = ip_text a.

Lemma refusal_accepted address scheme policy :
  _refusal_reason address scheme policy = [] ↔ ∃ t, accepted policy scheme address t.
Proof.
  rewrite refusal_allowed. unfold accepted. split.
  - intros (a & Ha & Hp%(allowed_permitted address)); [|done]. by exists (ip_text a), a.
  - intros (t & a & Ha & Hp & _). exists a. split; [done|]. by apply (allowed_permitted address).
Qed.

Lemma check_all_accepted scheme policy addresses checked :
  check_all scheme policy addresses = Ok checked → Forall2 (accepted policy scheme) addresses checked.
Proof.
  revert checked. induction addresses as [|address rest IH]; intros checked; cbn [check_all].
  { intros [= <-]. constructor. }
  destruct (truthy _) eqn:Hr; [done|]. apply truthy_false, refusal_accepted in Hr as (t & a & Ha & Hp & _).
  intros (cs & Hcs & [= <-])%bind_Ok. rewrite Ha. constructor; [by exists a|by apply IH].
Qed.

Lemma dial_all_log dial expired n addresses last r log :
  dial_all dial expired n addresses last = (r, log) →
  log `prefix_of` addresses ∧
  (∀ t, r = Stream t → last ≠ Stream t → dial t = Connected ∧ list.last log = Some t).
Proof.
  revert n last r log. induction addresses as [|a rest IH]; intros n last r log; cbn [dial_all].
  { intros [= <- <-]. split; [apply prefix_nil|done]. }
  destruct (expired n). { intros [= <- <-]. split; [apply prefix_nil|done]. }
  assert (Hcons : ∀ last' r' log', (∀ t, last' ≠ Stream t) → dial_all dial expired (S n) rest last' = (r', log') →
    a :: log' `prefix_of` a :: rest ∧
    (∀ t, r' = Stream t → last ≠ Stream t → dial t = Connected ∧ list.last (a :: log') = Some t)).
  { intros last' r' log' Hl H. destruct (IH _ _ _ _ H) as [H1 H2]. split; [by apply prefix_cons|].
    intros t -> _. destruct (H2 t eq_refl (Hl t)) as [Hd Hlast]. split; [done|].
    destruct log' as [|x log']; [discriminate Hlast|exact Hlast]. }
  destruct (dial a) eqn:Hd.
  - intros [= <- <-]. split; [apply prefix_cons, prefix_nil|]. by intros t [= <-] _.
  - destruct (dial_all _ _ _ _ ConnectError) as [r' log'] eqn:Hrest. intros [= <- <-]. by apply (Hcons ConnectError).
  - destruct (dial_all _ _ _ _ ConnectTimeout) as [r' log'] eqn:Hrest. intros [= <- <-]. by apply (Hcons ConnectTimeout).
Qed.

(** The answers for a host: an IP literal is its own, in its normal text; a name has what DNS answers. *)
Definition answers (getaddrinfo : pystr → Z → option (list pystr)) (host : pystr) (port : Z) (addresses : list pystr) : Prop :=
  (∃ a, _checked_ip host = Some a ∧ addresses = [ip_text a]) ∨
  (_checked_ip host = None ∧ getaddrinfo host port = Some addresses ∧ addresses ≠ []).

Lemma answers_iff getaddrinfo host port addresses :
  answers getaddrinfo host port addresses ↔ _resolve_addresses getaddrinfo host port = Some addresses.
Proof.
  unfold answers, _resolve_addresses. destruct (_checked_ip host) as [a|].
  - split; [by intros [(? & [= <-] & ->)|(? & _)]|]. intros [= <-]. left. by exists a.
  - destruct (getaddrinfo host port) as [[|x l]|]; (split; [|try done]).
    all: try (by intros [(? & ? & _)|(_ & [= <-] & ?)]). intros [= <-]. by right.
Qed.

(** C31: a restricted client dials only addresses that its policy permits, and nothing when one answer is
    refused.  Whatever DNS answers and however dialing fails: if anything is dialed, every answer for the
    host was accepted, and the dialed texts are those of the answers, in order, up to where dialing
    stopped; if one answer is not accepted (it is no IP address, or not a permitted one), nothing is
    dialed, and the connection is refused unless the deadline has passed before; a stream it returns is
    to the address dialed last, which answered.  Permitted addresses are unicast, not link-local and,
    under publicHTTPS, not loopback, private or shared; plain HTTP needs a loopback or private address.
    The metadata address fd00:ec2::254 is excluded only without a scope: with one it is private and is
    dialed under privateNetworkHTTP. *)
Theorem dials_only_permitted getaddrinfo dial expired policy scheme host port r log :
  handle_async_request getaddrinfo dial expired policy scheme host port = (r, log) →
  (log ≠ [] → ∃ addresses texts, answers getaddrinfo host port addresses ∧
     Forall2 (accepted policy scheme) addresses texts ∧ log `prefix_of` texts) ∧
  (∀ addresses address, answers getaddrinfo host port addresses → address ∈ addresses →
     (∀ text, ¬ accepted policy scheme address text) →
     log = [] ∧ (expired 0%nat = false → ∃ reason, r = Refused reason)) ∧
  (∀ text, r = Stream text → dial text = Connected ∧ list.last log = Some text).
Proof.
  unfold handle_async_request, connect_tcp.
  destruct (_ || _); [|intros [= <- <-]; split_and!; [done|by eauto|done]].
  destruct (expired 0%nat); [intros [= <- <-]; split_and!; [done..|]; done|].
  destruct (_resolve_addresses _ _ _) as [addresses|] eqn:Hr;
    [|intros [= <- <-]; split_and!; [done| |done]; intros l x ?%answers_iff; congruence].
  destruct (check_all _ _ _) as [checked|reason] eqn:Hc;
    [|intros [= <- <-]; split_and!; [done|by eauto|done]].
  intros H. apply check_all_accepted in Hc. destruct (dial_all_log _ _ _ _ _ _ _ H) as [Hpre Hst]. split_and!.
  - intros _. exists addresses, checked. split_and!; [by apply answers_iff|done..].
  - intros l address Hl%answers_iff Hin Hno. exfalso. assert (l = addresses) as -> by congruence.
    apply list_elem_of_lookup in Hin as [k Hk]. destruct (Forall2_lookup_l _ _ _ _ _ Hc Hk) as (t & _ & Ht). by apply (Hno t).
  - intros t Ht. by apply Hst.
Qed.

(** The scope suffix of an IPv6 literal hides the cloud metadata address from the policy:
    the plain address is refused, the same address with a scope is permitted. *)
Theorem scoped_metadata_address_permitted :
  truthy (_refusal_reason "fd00:ec2::254" "https" privateNetworkHTTP) = true ∧
  _refusal_reason "fd00:ec2::254%eth0" "https" privateNetworkHTTP = [].
Proof. split; vm_compute; reflexivity. Qed.

Lemma dials_only_permitted_witness :
  let dns hosts := handle_async_request (λ _ _, Some hosts) (λ _, Connected) (λ _, false) publicHTTPS "https" "example.com" 443 in
  dns [lit "93.184.216.34"] = (Stream "93.184.216.34", [lit "93.184.216.34"]) ∧
  list.last (snd (dns [lit "93.184.216.34"])) = Some (lit "93.184.216.34") ∧
  snd (dns [lit "93.184.216.34"; lit "10.0.0.1"]) = [].
Proof.
  cbv zeta. split; [vm_compute; reflexivity|]. split.
  - destruct (dials_only_permitted (λ _ _, Some [lit "93.184.216.34"]) (λ _, Connected) (λ _, false)
      publicHTTPS "https" "example.com" 443 (Stream "93.184.216.34") [lit "93.184.216.34"]
      ltac:(vm_compute; reflexivity)) as (_ & _ & H).
    etransitivity; [|exact (proj2 (H _ eq_refl))]. vm_compute. reflexivity.
  - destruct (dials_only_permitted (λ _ _, Some [lit "93.184.216.34"; lit "10.0.0.1"]) (λ _, Connected) (λ _, false)
      publicHTTPS "https" "example.com" 443 _ _ (surjective_pairing _)) as (_ & H & _).
    apply (H [lit "93.184.216.34"; lit "10.0.0.1"] (lit "10.0.0.1")).
    + right. split; [vm_compute; reflexivity|done].
    + right. left.
    + intros t (a & Ha & Hp & _). assert (E : _checked_ip (lit "10.0.0.1") = Some (V4 0x0A000001)) by (vm_compute; reflexivity).
      rewrite E in Ha. injection Ha as <-. destruct Hp as (_ & _ & _ & _ & Hp & _). destruct (Hp eq_refl) as (_ & Hno & _).
      apply Hno. right. left. unfold within. lia.
Defined.

End PolicyFacts.
