(* ===== verification/Url.v ===== *)
(** * URL splitting and query encoding

    The functions of [urllib.parse] the SDK calls: [urlsplit] with [hostname], [port] and the
    user information of its result, and [quote_plus].  The Unicode normalisation test of a
    non-ASCII network location is an argument. *)

From S2P Require Import Prelude AddressPolicy.

Record split_url := mkUrl {
  scheme : pystr;
  netloc : pystr;
  path : pystr;
  query : pystr;
  fragment : pystr
}.

Definition scheme_char (c : N) : bool := is_alnum c || (c =? 43)%N || (c =? 45)%N || (c =? 46)%N.

(** [text.partition(sep)] for one character: what precedes it and what follows, if present. *)
Fixpoint partition_char (sep : N) (s : pystr) : pystr * option pystr :=
  match s with
  | [] => ([], None)
  | c :: s' =>
      if (c =? sep)%N then ([], Some s')
      else let '(a, p) := partition_char sep s' in (c :: a, p)
  end.

(** [text.rpartition(sep)] for one character: the part after the last separator, and the part
    before it if there is one. *)
Definition rpartition_char (sep : N) (s : pystr) : option pystr * pystr :=
  match partition_char sep (rev s) with
  | (last, Some before) => (Some (rev before), rev last)
  | (all, None) => (None, rev all)
  end.

Definition split_scheme (url : pystr) : pystr * pystr :=
  match partition_char 58 url with
  | (c :: s, Some rest) =>
      if is_alpha c && forallb scheme_char (c :: s) then (ascii_lower (c :: s), rest) else ([], url)
  | _ => ([], url)
  end.

Fixpoint span_netloc (s : pystr) : pystr * pystr :=
  match s with
  | [] => ([], [])
  | c :: s' =>
      if (c =? 47)%N || (c =? 63)%N || (c =? 35)%N then ([], s)
      else let '(a, r) := span_netloc s' in (c :: a, r)
  end.

(** [_check_bracketed_host]. *)
Definition bracketed_host_ok (h : pystr) : bool :=
  match h with
  | c :: h' =>
      if (c =? 118)%N then
        match partition_char 46 h' with
        | (hex, Some rest) => truthy hex && forallb is_hex hex && truthy rest && negb (has_char 10 rest)
        | (_, None) => false
        end
      else match ip_address h with Some (V6 _ _) => true | _ => false end
  | [] => false
  end.

Definition brackets_ok (n : pystr) : bool :=
  Bool.eqb (has_char 91 n) (has_char 93 n)
  && (negb (has_char 91 n)
      || match partition_char 91 n with
         | (_, Some rest) => bracketed_host_ok (fst (partition_char 93 rest))
         | (_, None) => true
         end).

Section Split.
Context (netloc_ok : pystr → bool).

(** [urlsplit(url)]. *)
Definition urlsplit (url : pystr) : res split_url :=
  let url := drop_while (λ c, (c <=? 32)%N) url in
  let url := List.filter (λ c, negb ((c =? 9)%N || (c =? 10)%N || (c =? 13)%N)) url in
  let '(scheme, url) := split_scheme url in
  let '(netloc, url) := if starts_with "//" url then span_netloc (drop 2 url) else ([], url) in
  raise_if (negb (brackets_ok netloc)) ValueError "Invalid IPv6 URL" ≫= λ _,
  let '(url, fragment) := partition_char 35 url in
  let '(path, query) := partition_char 63 url in
  raise_if (negb (forallb (λ c, (c <? 128)%N) netloc) && negb (netloc_ok netloc))
    ValueError "netloc contains invalid characters under NFKC normalization" ≫= λ _,
  Ok (mkUrl scheme netloc path (default [] query) (default [] fragment)).

End Split.

(** The host part and the port text of a network location. *)
Definition _hostinfo (u : split_url) : pystr * option pystr :=
  let hostinfo := snd (rpartition_char 64 (netloc u)) in
  let '(host, port) :=
    match partition_char 91 hostinfo with
    | (_, Some bracketed) =>
        let '(h, rest) := partition_char 93 bracketed in
        (h, snd (partition_char 58 (default [] rest)))
    | (_, None) => partition_char 58 hostinfo
    end in
  (host, match port with Some [] => None | p => p end).

(** [result.hostname]; lower-casing is by ASCII letters. *)
Definition hostname (u : split_url) : option pystr :=
  let '(host, _) := _hostinfo u in
  match host with
  | [] => None
  | _ => match partition_char 37 host with
         | (h, Some zone) => Some (ascii_lower h ++ "%" ++ zone)
         | (h, None) => Some (ascii_lower h)
         end
  end.

(** [result.port]. *)
Definition port (u : split_url) : res (option Z) :=
  match snd (_hostinfo u) with
  | None => Ok None
  | Some p =>
      if forallb is_digit p then
        if (65535 <? digits_value p)%Z then raise ValueError "Port out of range 0-65535"
        else Ok (Some (digits_value p))
      else raise ValueError "Port could not be cast to integer value"
  end.

(** [result.username] and [result.password]. *)
Definition username (u : split_url) : option pystr :=
  match fst (rpartition_char 64 (netloc u)) with
  | Some userinfo => Some (fst (partition_char 58 userinfo))
  | None => None
  end.
Definition password (u : split_url) : option pystr :=
  match fst (rpartition_char 64 (netloc u)) with
  | Some userinfo => snd (partition_char 58 userinfo)
  | None => None
  end.

(** [urlunsplit((scheme, netloc, path, "", ""))] for a nonempty network location. *)
Definition urlunsplit (scheme netloc path : pystr) : pystr :=
  let url := "//" ++ netloc ++ (if truthy path && negb (starts_with "/" path) then "/" ++ path else path) in
  if truthy scheme then scheme ++ ":" ++ url else url.

(** ** quote_plus *)

Definition unreserved (c : N) : bool :=
  is_alnum c || (c =? 95)%N || (c =? 46)%N || (c =? 45)%N || (c =? 126)%N.

Definition upper_hex_digit (n : N) : N := if (n <? 10)%N then (48 + n)%N else (55 + n)%N.

Definition quote_byte (b : N) : pystr :=
  if unreserved b then [b]
  else if (b =? 32)%N then [43]%N
  else [37; upper_hex_digit (b / 16); upper_hex_digit (b mod 16)]%N.

(** [quote_plus(text)]: UTF-8, space as a plus sign. *)
Definition quote_plus (s : pystr) : res pystr :=
  match utf8 s with
  | Some bytes => Ok (flat_map quote_byte bytes)
  | None => raise UnicodeEncodeError "surrogates not allowed"
  end.

(** Lexicographic order of byte strings, as [sorted] with an encoding key uses it. *)
Fixpoint bytes_leb (a b : list N) : bool :=
  match a, b with
  | [], _ => true
  | _ :: _, [] => false
  | x :: a', y :: b' => if (x <? y)%N then true else if (y <? x)%N then false else bytes_leb a' b'
  end.

Fixpoint insert_by {A} (key : A → list N) (x : A) (l : list A) : list A :=
  match l with
  | [] => [x]
  | y :: l' => if bytes_leb (key x) (key y) then x :: l else y :: insert_by key x l'
  end.

(** [sorted(items, key=key)]. *)
Definition sort_by {A} (key : A → list N) (l : list A) : list A := fold_right (insert_by key) [] l.

Lemma insert_by_perm {A} (key : A → list N) x l : Permutation (insert_by key x l) (x :: l).
Proof.
  induction l as [|y l IH]; cbn [insert_by]; [done|]. destruct (bytes_leb _ _); [done|].
  rewrite IH. apply perm_swap.
Qed.

Lemma sort_by_perm {A} (key : A → list N) l : Permutation (sort_by key l) l.
Proof. induction l as [|x l IH]; [done|]. cbn [sort_by fold_right]. by rewrite insert_by_perm, IH. Qed.
