(* ===== verification/ProviderHttp.v ===== *)
(** * Bounded provider HTTP helpers

    sdkpython/src/dex_connectors/sdk/providerhttp/__init__.py.  The HTTP client is not part of
    the repository: a response body is the sequence of chunks and errors it yields.  Decoding
    of a JSON document and of an HTTP date are arguments of the functions that use them. *)

From S2P Require Import Prelude Json Timestamps AddressPolicy Url.

Definition MAX_ERROR_BODY_BYTES : Z := 65536.
Definition MAX_RETRY_AFTER_DELAY_SECONDS : Z := 3600.

(** ** Request traces *)

Record RequestTrace := mkTrace {
  connection_failed_before_send : bool;
  request_headers_started : bool
}.

Definition new_trace : RequestTrace := mkTrace false false.

Definition connect_failed_event (event : pystr) : bool :=
  ends_with "connect_tcp.failed" event || ends_with "connect_unix_socket.failed" event
  || ends_with "start_tls.failed" event.

Definition headers_event (event : pystr) : bool := ends_with "send_request_headers.started" event.

(** [RequestTrace.observe]. *)
Definition observe (t : RequestTrace) (event : pystr) : RequestTrace :=
  let t := if headers_event event then mkTrace (connection_failed_before_send t) true else t in
  if connect_failed_event event && negb (request_headers_started t)
  then mkTrace true (request_headers_started t) else t.

Definition provably_not_sent (t : RequestTrace) : bool :=
  connection_failed_before_send t && negb (request_headers_started t).

(** [send_traced]: the trace events of the send and whether the client raised a transport error. *)
Definition send_traced {Response} (events : list pystr) (sent : option Response)
    : result bool (Response * RequestTrace) :=
  let trace := fold_left observe events new_trace in
  match sent with
  | Some response => Ok (response, trace)
  | None => Err (provably_not_sent trace)
  end.

(** ** Query strings *)

(** [encode_query_values]. *)
Definition encode_query_values (values : dict (list pystr)) : res pystr :=
  raise_if (existsb (λ kv, match utf8 (fst kv) with None => true | _ => false end) values)
    UnicodeEncodeError "surrogates not allowed" ≫= λ _,
  let ordered := sort_by (λ kv, default [] (utf8 (fst kv))) values in
  encoded ← mapR (λ kv, mapR (λ value, k ← quote_plus (fst kv); v ← quote_plus value;
                                      Ok (k ++ "=" ++ v)) (snd kv)) ordered;
  Ok (join "&" (List.concat encoded)).

(** ** Bodies *)

(** What iterating the response body yields: a chunk, or an error of the HTTP client. *)
Inductive body_event := Chunk (bytes : list N) | HttpFailure.

Inductive body_error := BodyTooLarge | TransportFailed.

(** The loop of [read_bounded_body] with the bytes read so far. *)
Fixpoint read_chunks (maximum : Z) (count : Z) (acc : list (list N)) (events : list body_event)
    : result body_error (list N) :=
  match events with
  | [] => Ok (List.concat (rev acc))
  | HttpFailure :: _ => Err TransportFailed
  | Chunk bytes :: rest =>
      let count := (count + Z.of_nat (length bytes))%Z in
      if (maximum <? count)%Z then Err BodyTooLarge
      else read_chunks maximum count (bytes :: acc) rest
  end.

(** [read_bounded_body]: the outcome and that the response was closed. *)
Definition read_bounded_body (events : list body_event) (maximum_bytes : Z)
    : result body_error (list N) * bool :=
  let maximum := if (maximum_bytes <? 0)%Z then 0%Z else maximum_bytes in
  (read_chunks maximum 0 [] events, true).

(** ** Error tokens *)

Definition token_char (c : N) : bool :=
  is_alnum c || (c =? 95)%N || (c =? 46)%N || (c =? 58)%N || (c =? 45)%N.

(** [_ERROR_TOKEN.fullmatch]. *)
Definition error_token (s : pystr) : bool :=
  (1 <=? length s)%nat && (length s <=? 64)%nat && forallb token_char s.

(** [escaped.replace("~1", "/").replace("~0", "~")]. *)
Fixpoint replace_pair (fuel : nat) (second : N) (by_ : N) (s : pystr) : pystr :=
  match fuel, s with
  | S n, a :: b :: s' =>
      if (a =? 126)%N && (b =? second)%N then by_ :: replace_pair n second by_ s'
      else a :: replace_pair n second by_ (b :: s')
  | _, _ => s
  end.
Definition unescape_segment (s : pystr) : pystr :=
  let s := replace_pair (length s) 49 47 s in replace_pair (length s) 48 126 s.

(** A segment that is the canonical decimal text of an index. *)
Definition index_segment (s : pystr) : option nat :=
  if truthy s && forallb is_digit s && bool_decide (str_of_Z (digits_value s) = s)
  then Some (Z.to_nat (digits_value s)) else None.

Fixpoint walk (current : json) (segments : list pystr) : json :=
  match segments with
  | [] => current
  | escaped :: rest =>
      let segment := unescape_segment escaped in
      match current with
      | JObj d => walk (get_or segment JNull d) rest
      | JArr l =>
          match index_segment segment with
          | Some i => if (i <? length l)%nat then walk (nth i l JNull) rest else JNull
          | None => JNull
          end
      | _ => JNull
      end
  end.

(** The value a pointer selects; [None] when the pointer itself is skipped. *)
Definition at_pointer (document : json) (pointer : pystr) : option json :=
  match pointer with
  | [] => Some document
  | c :: p => if (c =? 47)%N then Some (walk document (split_char 47 p)) else None
  end.

(** [read_error_tokens]; [document] is the decoded body with numbers kept as text, [None] when
    the body is not JSON. *)
Definition read_error_tokens (document : option json) (pointers : list pystr) : list pystr :=
  match document with
  | None => []
  | Some d =>
      flat_map (λ pointer, match at_pointer d pointer with
                           | Some (JStr token) => if error_token token then [token] else []
                           | _ => []
                           end) pointers
  end.

(** ** Retry-After *)

(** [int(text)] of ASCII digits: more than 4300 of them are refused. *)
Definition int_of_digits (s : pystr) : res Z :=
  if (4300 <? length s)%nat then raise ValueError "Exceeds the limit (4300 digits) for integer string conversion"
  else Ok (digits_value s).

Section RetryAfter.
(** [email.utils.parsedate_to_datetime]. *)
Context (parsedate_to_datetime : pystr → res GoTime.datetime).

(** [retry_at - current]. *)
Definition datetime_sub (a b : GoTime.datetime) : res Z :=
  match GoTime.dt_offset a, GoTime.dt_offset b with
  | Some _, Some _ | None, None => Ok (GoTime.instant a - GoTime.instant b)%Z
  | _, _ => raise TypeError "can't subtract offset-naive and offset-aware datetimes"
  end.

Definition with_utc (t : GoTime.datetime) : GoTime.datetime :=
  GoTime.DT (GoTime.dt_year t) (GoTime.dt_month t) (GoTime.dt_day t) (GoTime.dt_hour t)
    (GoTime.dt_minute t) (GoTime.dt_second t) (GoTime.dt_micro t) (Some 0%Z).

Definition parse_retry_after (value : pystr) (now : GoTime.datetime) : res pyfloat :=
  let value := py_strip value in
  if truthy value && forallb is_digit value then
    n ← int_of_digits value; Ok (f_of_Z (Z.min n MAX_RETRY_AFTER_DELAY_SECONDS))
  else
    match parsedate_to_datetime value with
    | Err e =>
        if isinst e ValueError || isinst e TypeError || isinst e IndexError
        then Ok (FFin 0 0) else Err e
    | Ok retry_at =>
        let current := match GoTime.dt_offset now with Some _ => now | None => with_utc now end in
        us ← datetime_sub retry_at current;
        let delay := total_seconds us in
        let capped := if flt (f_of_Z MAX_RETRY_AFTER_DELAY_SECONDS) delay
                      then f_of_Z MAX_RETRY_AFTER_DELAY_SECONDS else delay in
        Ok (if flt (FFin 0 0) capped then capped else FFin 0 0)
    end.

End RetryAfter.

(** ** Base URLs and credentials *)

Definition printable (c : N) : bool := in_range 33 126 c.

(** [parsed.path.rstrip("/")]. *)
Definition rstrip_slashes (s : pystr) : pystr := drop_while_end (λ c, (c =? 47)%N) s.

Definition loopback_host (host : pystr) : bool :=
  bool_decide (ascii_lower host = lit "localhost")
  || match ip_address host with Some a => is_loopback a | None => false end.

Definition validate_base_url (value : pystr) : res pystr :=
  raise_if (negb (truthy value) || negb (forallb printable value))
    ValueError "base URL must be printable ASCII without spaces" ≫= λ _,
  parsed ← urlsplit (λ _, true) value;
  match hostname parsed with
  | Some host =>
      raise_if (has_char 64 (netloc parsed) || has_char 63 value || has_char 35 value
                || truthy (query parsed) || truthy (fragment parsed))
        ValueError "base URL must be absolute without user information, query, or fragment" ≫= λ _,
      match port parsed with
      | Ok p =>
          raise_if (bool_decide (p = Some 0%Z)) ValueError "base URL port is invalid" ≫= λ _,
          raise_if (negb (bool_decide (scheme parsed = lit "https"))
                    && negb (bool_decide (scheme parsed = lit "http") && loopback_host host))
            ValueError "base URL must use HTTPS unless its host is loopback" ≫= λ _,
          Ok (urlunsplit (scheme parsed) (netloc parsed) (rstrip_slashes (path parsed)))
      | Err _ => raise ValueError "base URL port is invalid"
      end
  | None =>
      raise ValueError "base URL must be absolute without user information, query, or fragment"
  end.

Definition is_header_safe_credential (value : pystr) : bool := truthy value && forallb printable value.

(** ** The client factory *)

Definition _RESTRICTED_CLIENT_OPTIONS : list pystr :=
  [lit "headers"; lit "auth"; lit "params"; lit "cookies"; lit "base_url"; lit "event_hooks";
   lit "max_redirects"; lit "default_encoding"; lit "verify"; lit "cert"; lit "limits";
   lit "http1"; lit "http2"; lit "trust_env"].

(** An option value: [True], or anything else. *)
Inductive option_value := OTrue | OOther.

(** The arguments [httpx.AsyncClient] receives; [transport] is the restricted transport's policy. *)
Record client_config := mkClient {
  follow_redirects : bool;
  timeout : pyfloat;
  transport : option AddressPolicy;
  trust_env : option bool;
  transport_options : dict option_value;
  client_options : dict option_value
}.

Definition transport_option_names : list pystr :=
  [lit "verify"; lit "cert"; lit "limits"; lit "http1"; lit "http2"].

Definition new_provider_http_client (request_timeout_seconds : pyfloat) (policy : AddressPolicy)
    (options : dict option_value) : res client_config :=
  raise_if (fle request_timeout_seconds (FFin 0 0))
    ValueError "provider request timeout must be positive" ≫= λ _,
  raise_if (dhas "follow_redirects" options || dhas "timeout" options)
    ValueError "redirect and timeout policy are owned by providerhttp" ≫= λ _,
  match policy with
  | unrestricted => Ok (mkClient false request_timeout_seconds None None [] options)
  | _ =>
      raise_if (existsb (λ k, negb (bool_decide (k ∈ _RESTRICTED_CLIENT_OPTIONS))) (dkeys options))
        ValueError "restricted address policy received an unsupported client option" ≫= λ _,
      raise_if (match dget (lit "trust_env") options with Some OTrue => true | _ => false end)
        ValueError "restricted address policy cannot use environment proxies" ≫= λ _,
      let kept (names : list pystr) (inside : bool) :=
        List.filter (λ kv, Bool.eqb inside (bool_decide (fst kv ∈ names))) in
      let options := kept [lit "trust_env"] false options in
      Ok (mkClient false request_timeout_seconds (Some policy) (Some false)
            (kept transport_option_names true options) (kept transport_option_names false options))
  end.

(** ** Theorems *)

Module HttpFacts.

Lemma observe_spec t e :
  request_headers_started (observe t e) = request_headers_started t || headers_event e ∧
  (request_headers_started (observe t e) = false →
   connection_failed_before_send (observe t e) = connection_failed_before_send t || connect_failed_event e).
Proof.
  unfold observe. destruct (headers_event e); cbn [request_headers_started].
  - rewrite orb_true_r, andb_false_r. by split.
  - rewrite orb_false_r. destruct (connect_failed_event e), (request_headers_started t) eqn:H;
      cbn; rewrite ?H, ?orb_true_r, ?orb_false_r; by split.
Qed.

Lemma observe_all events t :
  request_headers_started (fold_left observe events t)
    = request_headers_started t || existsb headers_event events ∧
  (request_headers_started (fold_left observe events t) = false →
   connection_failed_before_send (fold_left observe events t)
     = connection_failed_before_send t || existsb connect_failed_event events).
Proof.
  revert t. induction events as [|e events IH]; intros t; cbn [fold_left existsb].
  - by rewrite !orb_false_r.
  - destruct (IH (observe t e)) as [H1 H2], (observe_spec t e) as [H3 H4]. split.
    + by rewrite H1, H3, orb_assoc.
    + intros H. rewrite (H2 H). rewrite H1 in H. apply orb_false_elim in H as [Hs _].
      by rewrite (H4 Hs), orb_assoc.
Qed.

(** A traced request counts as provably not sent exactly when some DNS, connect or TLS
    failure was observed and no event reports that sending request headers began, in whatever
    order the events came. *)
Theorem provably_not_sent_iff events :
  provably_not_sent (fold_left observe events new_trace) = true ↔
  (∃ e, e ∈ events ∧ connect_failed_event e = true) ∧
  (∀ e, e ∈ events → headers_event e = false).
Proof.
  destruct (observe_all events new_trace) as [H1 H2]. cbn [new_trace request_headers_started
    connection_failed_before_send orb] in *. unfold provably_not_sent.
  assert (Hex : ∀ p : pystr → bool, existsb p events = true ↔ ∃ e, e ∈ events ∧ p e = true).
  { intros p. rewrite existsb_exists. by setoid_rewrite list_elem_of_In. }
  rewrite andb_true_iff, negb_true_iff, <- Hex. split.
  - intros [Hf Hs]. split; [by rewrite <- (H2 Hs)|]. intros e He.
    destruct (headers_event e) eqn:Hh; [|done]. rewrite H1 in Hs.
    exfalso. apply not_true_iff_false in Hs. apply Hs, Hex. by exists e.
  - intros [Hf Hs]. assert (Hno : existsb headers_event events = false).
    { apply not_true_iff_false. rewrite Hex. intros (e & He & Ht). by rewrite Hs in Ht. }
    rewrite Hno in H1. split; [by rewrite (H2 H1)|done].
Qed.

Definition chunk_bytes (e : body_event) : list N := match e with Chunk b => b | HttpFailure => [] end.
Definition is_chunk (e : body_event) : bool := match e with Chunk _ => true | _ => false end.

(** A bounded read that succeeds returns every byte of the response, at most
    [maximum_bytes] of them, and the response is closed on every path. *)
Theorem read_bounded_body_bound events maximum_bytes body closed :
  read_bounded_body events maximum_bytes = (Ok body, closed) →
  body = flat_map chunk_bytes events ∧ (Z.of_nat (length body) <= Z.max 0 maximum_bytes)%Z ∧
  forallb is_chunk events = true ∧ closed = true.
Proof.
  unfold read_bounded_body. intros [= H <-].
  assert (Hgen : ∀ m evs acc count, (0 <= m)%Z → count = Z.of_nat (length (List.concat (rev acc))) →
    (count <= m)%Z → read_chunks m count acc evs = Ok body →
    body = List.concat (rev acc) ++ flat_map chunk_bytes evs ∧ (Z.of_nat (length body) <= m)%Z
    ∧ forallb is_chunk evs = true).
  { intros m evs. induction evs as [|[b|] evs IH]; intros acc count Hm Hc Hle; cbn [read_chunks]; [| |done].
    - intros [= <-]. cbn. by rewrite app_nil_r, <- Hc.
    - destruct (Z.ltb_spec m (count + Z.of_nat (length b))); [done|]. intros Hr.
      assert (Hcat : List.concat (rev (b :: acc)) = List.concat (rev acc) ++ b).
      { cbn [rev]. rewrite concat_app. cbn [List.concat]. by rewrite app_nil_r. }
      apply IH in Hr as (-> & Hl & Hch); [|done| |done]; rewrite Hcat in *.
      + split_and!; [by rewrite <- app_assoc|done|done].
      + rewrite length_app. lia. }
  destruct (Z.ltb_spec maximum_bytes 0).
  - apply Hgen in H as (-> & Hl & Hch); [|lia|done|lia]. cbn [app rev List.concat] in *.
    split_and!; [done|lia|done|done].
  - apply Hgen in H as (-> & Hl & Hch); [|lia|done|cbn; lia]. cbn [app rev List.concat] in *.
    split_and!; [done|lia|done|done].
Qed.

Lemma read_bounded_body_bound_witness :
  read_bounded_body [Chunk [1; 2]; Chunk []; Chunk [3]]%N 3 = (Ok [1; 2; 3]%N, true) ∧ 3 <= 3.
Proof.
  split; [reflexivity|].
  destruct (read_bounded_body_bound [Chunk [1; 2]; Chunk []; Chunk [3]]%N 3 [1; 2; 3]%N true eq_refl)
    as (_ & H & _). cbn in H. lia.
Defined.

(** The tokens taken from a provider's error body are never free text: at most one per
    pointer, each a nonempty string of at most 64 characters out of letters, digits and
    underscore, dot, colon and hyphen, found verbatim at a pointer of the document. *)
Theorem error_tokens_safe document pointers :
  length (read_error_tokens document pointers) <= length pointers ∧
  ∀ token, token ∈ read_error_tokens document pointers →
    1 <= length token <= 64 ∧ forallb token_char token = true ∧
    ∃ d pointer, document = Some d ∧ pointer ∈ pointers ∧ at_pointer d pointer = Some (JStr token).
Proof.
  unfold read_error_tokens. destruct document as [d|]; [|split; [simpl; lia|by intros ? ?%elem_of_nil]].
  split.
  - induction pointers as [|p ps IH]; [done|]. cbn [flat_map]. rewrite length_app. cbn [length].
    assert (length (match at_pointer d p with Some (JStr token) => if error_token token then [token] else []
      | _ => [] end) <= 1); [|lia].
    destruct (at_pointer d p) as [[]|]; cbn; try lia. destruct (error_token _); cbn; lia.
  - intros token Hin%list_elem_of_In%in_flat_map. destruct Hin as (p & Hp & Ht).
    destruct (at_pointer d p) as [[]|] eqn:Ha; try done.
    destruct (error_token s) eqn:He; [|done]. destruct Ht as [<-|[]].
    unfold error_token in He. bool_inv.
    repeat match goal with H : (_ <=? _) = true |- _ => apply Nat.leb_le in H end.
    split_and!; [lia|lia|done|]. exists d, p. split_and!; [done|by apply list_elem_of_In|done].
Qed.

Lemma error_tokens_safe_witness :
  let document := Some (JObj [(lit "error", JObj [(lit "code", JStr "rate_limited"); (lit "message", JStr "slow down")])]) in
  let tokens := read_error_tokens document [lit "/error/code"; lit "/error/message"] in
  tokens = [lit "rate_limited"] ∧ forallb token_char "rate_limited" = true.
Proof.
  cbv zeta. split; [vm_compute; reflexivity|].
  apply (error_tokens_safe (Some (JObj [(lit "error", JObj [(lit "code", JStr "rate_limited");
                                                            (lit "message", JStr "slow down")])]))
           [lit "/error/code"; lit "/error/message"]).
  vm_compute. left.
Defined.

(** ** Retry-After *)

Lemma fle_refl_fin m e : fle (FFin m e) (FFin m e) = true.
Proof. unfold fle, fcmp. by rewrite Z.compare_refl. Qed.

Lemma flt_fle m e m' e' : flt (FFin m e) (FFin m' e') = false → fle (FFin m' e') (FFin m e) = true.
Proof.
  unfold flt, fle, fcmp. rewrite (Z.min_comm e' e).
  rewrite (Z.compare_antisym (m * _) (m' * _)). by destruct (m * _ ?= _)%Z.
Qed.

Lemma flt_fle_lt m e m' e' : flt (FFin m e) (FFin m' e') = true → fle (FFin m e) (FFin m' e') = true.
Proof. unfold flt, fle. by destruct (fcmp _ _) as [[]|]. Qed.

Lemma round_ratio_fin n d : ∃ m e, round_ratio n d = FFin m e.
Proof.
  unfold round_ratio. destruct (n =? 0)%Z; [by eexists _, _|].
  repeat (destruct (_ : bool) || cbn zeta); repeat case_match; by eexists _, _.
Qed.

Section RetryAfterFacts.
Context (parsedate_to_datetime : pystr → res GoTime.datetime) (now : GoTime.datetime).

(** The header values for which the function does not raise. *)
Definition retry_after_readable (value : pystr) : Prop :=
  let v := py_strip value in
  if truthy v && forallb is_digit v then length v <= 4300
  else match parsedate_to_datetime v with
       | Ok t => GoTime.dt_offset t ≠ None
       | Err e => isinst e ValueError || isinst e TypeError || isinst e IndexError = true
       end.

(** For a readable header the delay is a number of seconds between zero and one hour. *)
Theorem parse_retry_after_bounded value :
  retry_after_readable value →
  ∃ f, parse_retry_after parsedate_to_datetime value now = Ok f ∧
       fle (FFin 0 0) f = true ∧ fle f (f_of_Z MAX_RETRY_AFTER_DELAY_SECONDS) = true.
Proof.
  unfold retry_after_readable, parse_retry_after. cbv zeta.
  destruct (truthy _ && forallb _ _) eqn:Hd.
  - intros Hl. unfold int_of_digits. destruct (Nat.ltb_spec 4300 (length (py_strip value))); [lia|].
    cbn [mbind result_bind]. eexists. split; [done|].
    assert (Hv : ∀ s acc, forallb is_digit s = true → (0 <= acc)%Z →
      (0 <= fold_left (λ acc c, acc * 10 + (Z.of_N c - 48))%Z s acc)%Z).
    { intros s. induction s as [|c s IH]; intros acc Hs Ha; cbn [fold_left]; [done|].
      cbn [forallb] in Hs. apply andb_prop in Hs as [Hc Hs]. apply IH; [done|].
      unfold is_digit, in_range in Hc. apply andb_prop in Hc as [Hc _]. apply N.leb_le in Hc. lia. }
    apply andb_prop in Hd as [_ Hd]. specialize (Hv _ 0%Z Hd ltac:(lia)).
    fold (digits_value (py_strip value)) in Hv. unfold f_of_Z, fle, fcmp.
    rewrite Z.min_id, Z.sub_diag, Z.pow_0_r, !Z.mul_1_r. unfold MAX_RETRY_AFTER_DELAY_SECONDS.
    split.
    + destruct (Z.compare_spec 0 (Z.min (digits_value (py_strip value)) 3600)); [done|done|lia].
    + destruct (Z.compare_spec (Z.min (digits_value (py_strip value)) 3600) 3600); [done|done|lia].
  - destruct (parsedate_to_datetime (py_strip value)) as [t|e].
    + intros Ho. assert (Hsub : ∃ us, datetime_sub t
        (match GoTime.dt_offset now with Some _ => now | None => with_utc now end) = Ok us).
      { unfold datetime_sub. destruct (GoTime.dt_offset t); [|done].
        destruct (GoTime.dt_offset now) eqn:En; [rewrite En|]; by eexists. }
      destruct Hsub as [us ->]. cbn [mbind result_bind]. eexists. split; [done|].
      unfold total_seconds. destruct (round_ratio_fin us 1000000) as (m & e & ->).
      unfold f_of_Z. destruct (flt (FFin MAX_RETRY_AFTER_DELAY_SECONDS 0) (FFin m e)) eqn:Hc.
      * destruct (flt (FFin 0 0) _); by split.
      * destruct (flt (FFin 0 0) (FFin m e)) eqn:Hz; [|by split].
        split; [by apply flt_fle_lt|by apply flt_fle].
    + intros He. rewrite He. eexists. split; [done|]. by split.
Qed.

End RetryAfterFacts.

Lemma parse_retry_after_bounded_witness :
  ∃ f, parse_retry_after (λ _, raise ValueError []) " 7200 " (GoTime.DT 2026 1 1 0 0 0 0 (Some 0%Z)) = Ok f
       ∧ fle f (f_of_Z 3600) = true.
Proof.
  destruct (parse_retry_after_bounded (λ _, raise ValueError []) (GoTime.DT 2026 1 1 0 0 0 0 (Some 0%Z))
    " 7200 ") as (f & Hf & _ & H); [vm_compute; lia|]. exists f. split; [exact Hf|exact H].
Defined.

Lemma digit_not_space c : is_digit c = true → py_isspace c = false.
Proof.
  unfold is_digit, in_range. intros [H1%N.leb_le H2%N.leb_le]%andb_prop.
  assert (H : c ∈ map N.of_nat (seq 48 10)).
  { apply list_elem_of_fmap. exists (N.to_nat c). split; [lia|]. apply elem_of_seq. lia. }
  cbn in H. clear H1 H2. set_unfold in H. destruct_or?; by subst.
Qed.

(** Two header values a provider can send escape the rule that invalid values give zero:
    more than 4300 digits raise [ValueError], and a date with the "-0000" zone, which parses
    to a naive datetime, raises [TypeError]. *)
Theorem retry_after_raises parse now t v :
  length v = 4301 → forallb is_digit v = true → GoTime.dt_offset t = None →
  parse (lit "Wed, 21 Oct 2026 07:28:00 -0000") = Ok t →
  (∃ e, parse_retry_after parse v now = Err e ∧ exn_cls e = ValueError) ∧
  (∃ e, parse_retry_after parse "Wed, 21 Oct 2026 07:28:00 -0000" now = Err e ∧ exn_cls e = TypeError).
Proof.
  intros Hl Hd Ht Hp. split.
  - assert (Hs : py_strip v = v).
    { unfold py_strip, trim, drop_while_end.
      assert (Hid : ∀ l, forallb is_digit l = true → drop_while py_isspace l = l).
      { intros l Hdl. apply drop_while_id. intros c l' ->. cbn [forallb] in Hdl.
        apply andb_prop in Hdl as [Hc _]. by apply digit_not_space. }
      rewrite (Hid v Hd), Hid, rev_involutive; [done|].
      apply forallb_forall. intros c Hc%in_rev. by eapply forallb_forall in Hd. }
    unfold parse_retry_after. rewrite Hs. destruct v as [|c v]; [done|]. cbn [truthy andb]. rewrite Hd.
    unfold int_of_digits. rewrite Hl. eexists. split; [reflexivity|done].
  - unfold parse_retry_after. change (py_strip (lit "Wed, 21 Oct 2026 07:28:00 -0000"))
      with (lit "Wed, 21 Oct 2026 07:28:00 -0000").
    change (truthy _ && forallb _ _) with false. cbn iota. rewrite Hp. unfold datetime_sub. rewrite Ht.
    destruct (GoTime.dt_offset now) eqn:En; [rewrite En|]; (eexists; split; [reflexivity|done]).
Qed.

Lemma retry_after_raises_witness :
  ∃ e, parse_retry_after (λ _, Ok (GoTime.DT 2026 10 21 7 28 0 0 None)) (repeat 49%N 4301)
         (GoTime.DT 2026 1 1 0 0 0 0 (Some 0%Z)) = Err e ∧ exn_cls e = ValueError.
Proof.
  apply (retry_after_raises (λ _, Ok (GoTime.DT 2026 10 21 7 28 0 0 None))
    (GoTime.DT 2026 1 1 0 0 0 0 (Some 0%Z)) (GoTime.DT 2026 10 21 7 28 0 0 None) (repeat 49%N 4301));
    vm_compute; reflexivity.
Defined.

End HttpFacts.
