(* ===== verification/Base64.v ===== *)
(** * URL-safe base64

    [base64.urlsafe_b64encode] without its padding and [urlsafe_b64decode] of unpadded text, as
    sdkpython/src/dex_connectors/sdk/oauthtoken/ writes and reads the segments of a JWT. *)

From Stdlib Require Import ZifyBool.
From S2P Require Import Prelude.

#[local] Open Scope N_scope.

Definition encode_digit (n : N) : N :=
  if n <? 26 then 65 + n
  else if n <? 52 then 71 + n
  else if n <? 62 then n - 4
  else if n =? 62 then 45 else 95.

Definition decode_digit (c : N) : option N :=
  if is_upper c then Some (c - 65)
  else if is_lower c then Some (c - 71)
  else if is_digit c then Some (c + 4)
  else if c =? 45 then Some 62
  else if c =? 95 then Some 63
  else None.

(** [urlsafe_b64encode(data).rstrip(b"=")]. *)
Fixpoint urlsafe_b64encode (data : list N) : pystr :=
  match data with
  | a :: b :: c :: r =>
      let n := (a * 65536 + b * 256 + c) in
      encode_digit (n / 262144) :: encode_digit (n / 4096 mod 64) :: encode_digit (n / 64 mod 64)
        :: encode_digit (n mod 64) :: urlsafe_b64encode r
  | [a; b] =>
      let n := (a * 1024 + b * 4) in
      [encode_digit (n / 4096); encode_digit (n / 64 mod 64); encode_digit (n mod 64)]
  | [a] => [encode_digit (a / 4); encode_digit (a mod 4 * 16)]
  | [] => []
  end.

(** [urlsafe_b64decode] of unpadded text, padded to a multiple of four; surplus bits are dropped. *)
Fixpoint urlsafe_b64decode (text : pystr) : option (list N) :=
  match text with
  | [] => Some []
  | [_] => None
  | [p; q] =>
      p ← decode_digit p; q ← decode_digit q; Some [p * 4 + q / 16]
  | [p; q; r] =>
      p ← decode_digit p; q ← decode_digit q; r ← decode_digit r;
      let n := (p * 4096 + q * 64 + r) in Some [n / 1024; n / 4 mod 256]
  | p :: q :: r :: s :: rest =>
      p ← decode_digit p; q ← decode_digit q; r ← decode_digit r; s ← decode_digit s;
      rest ← urlsafe_b64decode rest;
      let n := (p * 262144 + q * 4096 + r * 64 + s) in
      Some (n / 65536 :: n / 256 mod 256 :: n mod 256 :: rest)
  end.

(** ** What is encoded is decoded *)

Module Base64Facts.

Lemma below_64 (P : N → bool) n : n < 64 → forallb P (map N.of_nat (seq 0 64)) = true → P n = true.
Proof.
  intros Hn Hp. rewrite forallb_forall in Hp. apply Hp, in_map_iff. exists (N.to_nat n). split; [lia|].
  apply in_seq. lia.
Qed.

Lemma decode_encode_digit n : n < 64 → decode_digit (encode_digit n) = Some n.
Proof.
  intros Hn. apply (bool_decide_eq_true_1 _).
  apply (below_64 (λ n, bool_decide (decode_digit (encode_digit n) = Some n)) n Hn). vm_compute. reflexivity.
Qed.

(** The characters of encoded text. *)
Definition b64_char (c : N) : bool := is_alnum c || (c =? 45) || (c =? 95).

Lemma encode_digit_char n : n < 64 → b64_char (encode_digit n) = true.
Proof. intros Hn. apply (below_64 (λ n, b64_char (encode_digit n)) n Hn). vm_compute. reflexivity. Qed.

Lemma split_byte k n : k ≠ 0 → n = k * (n / k) + n mod k ∧ n mod k < k.
Proof. intros Hk. split; [by apply N.div_mod|by apply N.mod_lt]. Qed.

(** A number under [k * q] has the quotient [q] bounds. *)
Lemma quotient k a r : r < k → (a * k + r) / k = a ∧ (a * k + r) mod k = r.
Proof.
  intros Hr. rewrite (N.add_comm _ r), N.div_add, N.Div0.mod_add, N.div_small, N.mod_small by lia. split; lia.
Qed.

Lemma decode_encode data : Forall (λ b, b < 256) data → urlsafe_b64decode (urlsafe_b64encode data) = Some data.
Proof.
  assert (H : ∀ n data, (length data < n)%nat → Forall (λ b, b < 256) data →
            urlsafe_b64decode (urlsafe_b64encode data) = Some data); [|intros; by eapply (H (S (length data))); [lia|]].
  clear data. intros n. induction n as [|n IH]; intros data Hl Hd; [lia|].
  destruct data as [|a [|b [|c r]]]; [done| | |].
  - apply Forall_cons in Hd as [Ha _]. cbn [urlsafe_b64encode urlsafe_b64decode].
    pose proof (split_byte 4 a ltac:(done)). pose proof (N.Div0.div_lt_upper_bound a 4 64 ltac:(lia)).
    rewrite !decode_encode_digit by lia. cbn [mbind option_bind]. rewrite N.div_mul by done. do 2 f_equal. lia.
  - apply Forall_cons in Hd as [Ha [Hb _]%Forall_cons]. cbn [urlsafe_b64encode urlsafe_b64decode]. cbv zeta.
    set (m := a * 1024 + b * 4). assert (Hm : m < 262144) by (unfold m; lia).
    pose proof (split_byte 64 m ltac:(done)) as [H1 H2]. pose proof (split_byte 64 (m / 64) ltac:(done)) as [H3 H4].
    rewrite N.Div0.div_div in H3. change (64 * 64) with 4096 in H3.
    pose proof (N.Div0.div_lt_upper_bound m 4096 64 ltac:(lia)).
    rewrite !decode_encode_digit by lia. cbn [mbind option_bind].
    replace (m / 4096 * 4096 + m / 64 mod 64 * 64 + m mod 64) with m by lia.
    unfold m. replace (a * 1024 + b * 4) with (a * 1024 + (b * 4)) by lia.
    rewrite (proj1 (quotient 1024 a (b * 4) ltac:(lia))).
    replace (a * 1024 + b * 4) with ((a * 256 + b) * 4) by lia. rewrite N.div_mul by done.
    by rewrite (proj2 (quotient 256 a b ltac:(lia))).
  - apply Forall_cons in Hd as [Ha [Hb [Hc Hr]%Forall_cons]%Forall_cons].
    cbn [urlsafe_b64encode urlsafe_b64decode]. cbv zeta.
    set (m := a * 65536 + b * 256 + c). assert (Hm : m < 16777216) by (unfold m; lia).
    pose proof (split_byte 64 m ltac:(done)) as [H1 H2]. pose proof (split_byte 64 (m / 64) ltac:(done)) as [H3 H4].
    pose proof (split_byte 64 (m / 64 / 64) ltac:(done)) as [H5 H6].
    rewrite !N.Div0.div_div in *. change (64 * 64) with 4096 in *. change (4096 * 64) with 262144 in *.
    pose proof (N.Div0.div_lt_upper_bound m 262144 64 ltac:(lia)).
    rewrite !decode_encode_digit by lia. cbn [length] in Hl. rewrite (IH r ltac:(lia) Hr). cbn [mbind option_bind].
    replace (m / 262144 * 262144 + m / 4096 mod 64 * 4096 + m / 64 mod 64 * 64 + m mod 64) with m by lia.
    unfold m. replace (a * 65536 + b * 256 + c) with (a * 65536 + (b * 256 + c)) at 1 by lia.
    rewrite (proj1 (quotient 65536 a (b * 256 + c) ltac:(lia))).
    replace (a * 65536 + b * 256 + c) with ((a * 256 + b) * 256 + c) by lia.
    rewrite (proj1 (quotient 256 (a * 256 + b) c Hc)), (proj2 (quotient 256 (a * 256 + b) c Hc)).
    by rewrite (proj2 (quotient 256 a b Hb)).
Qed.

(** Whatever the numbers, every character of encoded text is one of the alphabet's. *)
Lemma encode_digit_total n : b64_char (encode_digit n) = true.
Proof.
  destruct (N.ltb_spec n 64) as [H|H]; [by apply encode_digit_char|]. unfold encode_digit.
  destruct (N.ltb_spec n 26); [lia|]. destruct (N.ltb_spec n 52); [lia|]. destruct (N.ltb_spec n 62); [lia|].
  by destruct (N.eqb_spec n 62).
Qed.

Lemma encode_ind (P : list N → Prop) : P [] → (∀ a, P [a]) → (∀ a b, P [a; b]) →
  (∀ a b c r, P r → P (a :: b :: c :: r)) → ∀ data, P data.
Proof.
  intros H0 H1 H2 H3. fix go 1. intros [|a [|b [|c r]]]; [exact H0|apply H1|apply H2|apply H3, go].
Qed.

Lemma encode_chars data : forallb b64_char (urlsafe_b64encode data) = true.
Proof.
  induction data as [| | |a b c r IH] using encode_ind; cbn [urlsafe_b64encode forallb]; cbv zeta;
    rewrite ?encode_digit_total; done.
Qed.

Lemma encode_longer data : (length data <= length (urlsafe_b64encode data))%nat.
Proof.
  induction data as [| | |a b c r IH] using encode_ind; cbn [urlsafe_b64encode length]; cbv zeta; cbn [length]; lia.
Qed.

End Base64Facts.
