(* ===== verification/OAuth.v ===== *)
(** * OAuth token exchanges and refresh decisions

    sdkpython/src/dex_connectors/sdk/oauthtoken/__init__.py and
    sdkpython/src/dex_connectors/sdk/credentials.py.  Times are instants in microseconds; a
    secret is the text [reveal] returns.  The HTTP client, JSON decoding, [str.lower] and the
    Unicode test of [urlsplit] are parameters. *)

From S2P Require Import Prelude Json Identity Calls Url ProviderHttp.

#[local] Open Scope Z_scope.

(** ** Refresh decisions *)

Definition REFRESH_SKEW : Z := 300000000.
Definition one_minute : Z := 60000000.

Inductive MissingExpiryRule := REFRESH_WHEN_EXPIRY_MISSING | KEEP_WHEN_EXPIRY_MISSING.

#[global] Instance MissingExpiryRule_eq_dec : EqDecision MissingExpiryRule.
Proof. solve_decision. Defined.

Definition proportional_refresh_skew (issued_at expires_at : option Z) : Z :=
  match issued_at, expires_at with
  | Some i, Some e => if e <=? i then REFRESH_SKEW else Z.min REFRESH_SKEW (timedelta_div (e - i) 4)
  | _, _ => REFRESH_SKEW
  end.

Definition forced_refresh_floor (issued_at expires_at : option Z) : Z :=
  match issued_at, expires_at with
  | Some i, Some e => if e <=? i then one_minute else Z.min one_minute (timedelta_div (e - i) 4)
  | _, _ => one_minute
  end.

(** [is_refresh_required]; the subtraction is that of unbounded instants: in Python it raises OverflowError
    for an expiry less than the skew, at most five minutes, after [datetime.min]. *)
Definition is_refresh_required (has_access_token : bool) (expires_at : option Z) (now : Z)
    (rule : MissingExpiryRule) (issued_at : option Z) : bool :=
  if negb has_access_token then true
  else match expires_at with
       | None => negb (bool_decide (rule = KEEP_WHEN_EXPIRY_MISSING))
       | Some e => (e - proportional_refresh_skew issued_at expires_at) <=? now
       end.

(** ** Scopes *)

Definition scope_separator (c : N) : bool := (c =? 32)%N || (c =? 44)%N.

(** [filter(None, re.split(r"[ ,]+", text))], with the word being read. *)
Fixpoint scope_words (word : pystr) (s : pystr) : list pystr :=
  match s with
  | [] => if truthy word then [word] else []
  | c :: s' =>
      if scope_separator c then (if truthy word then [word] else []) ++ scope_words [] s'
      else scope_words (word ++ [c]) s'
  end.

Definition subset (a b : list pystr) : bool := forallb (λ x, bool_decide (x ∈ b)) a.

Definition has_all_scopes (returned_scope : pystr) (required_scopes : list pystr) : bool :=
  subset required_scopes (scope_words [] returned_scope).

Definition has_exact_scopes (returned_scope : pystr) (required_scopes : list pystr) : bool :=
  subset required_scopes (scope_words [] returned_scope)
  && subset (scope_words [] returned_scope) required_scopes.

(** ** Token endpoints *)

Inductive ClientAuthenticationMethod := CLIENT_SECRET_POST | CLIENT_SECRET_BASIC | PUBLIC_CLIENT.

Record ClientCredentials := mkClient {
  client_id : pystr;
  client_secret : pystr;
  authentication_method : ClientAuthenticationMethod
}.

Record TokenResponse := mkToken {
  access_token : pystr;
  refresh_token : pystr;
  expires_in : Z;
  refresh_token_expires_in : Z;
  scope : pystr;
  token_type : pystr;
  retained_fields : dict json;
  _response_fields : dict pystr
}.

Definition next_refresh_token (t : TokenResponse) (prior : pystr) : pystr :=
  if truthy (refresh_token t) then refresh_token t else prior.

Definition mapped_response_string (t : TokenResponse) (path : pystr) : option pystr :=
  dget path (_response_fields t).

Record TokenEndpoint := mkEndpoint {
  provider_name : pystr;
  url : pystr;
  terminal_error_codes : list pystr;
  accepted_token_types : list pystr;
  accepts_missing_token_type : bool;
  accepts_missing_expires_in : bool;
  retained_response_fields : list pystr;
  uses_json_request_body : bool;
  allows_plain_http : bool;
  additional_request_parameters : dict pystr
}.

Definition MAX_TOKEN_RESPONSE_BYTES : Z := 1048576.

Definition _STANDARD_RESPONSE_FIELDS : list pystr :=
  [lit "access_token"; lit "refresh_token"; lit "expires_in"; lit "refresh_token_expires_in";
   lit "scope"; lit "token_type"; lit "error"; lit "error_description"; lit "error_uri";
   lit "id_token"].
Definition _GRANT_REQUEST_FIELDS : list pystr :=
  [lit "grant_type"; lit "refresh_token"; lit "client_id"; lit "client_secret"; lit "assertion";
   lit "client_assertion"; lit "client_assertion_type"].

(** The request body: a JSON object or a form. *)
Inductive request_body :=
  | JsonBody (parameters : dict pystr)
  | FormBody (text : pystr).

Record token_request := mkRequest {
  r_url : pystr;
  r_body : request_body;
  r_basic : option (pystr * pystr)
}.

(** What building and sending one request does: [httpx.InvalidURL] from [build_request], a refused address, a
    failure of the transport, the cancellation of a caller's [asyncio.timeout], or a response. *)
Inductive send_result :=
  | UrlRefused
  | AddressRefused (e : exn)
  | SendFailed
  | TimedOut
  | Responded (status : Z) (events : list body_event).

Definition reauthorize {A} : res A :=
  raise ReauthorizationRequiredError "connector reauthorization is required".

(** [_apply_client_authentication]: the parameters afterwards and the basic client. *)
Definition _apply_client_authentication (parameters : dict pystr) (client : ClientCredentials)
    (allow_public : bool) : res (dict pystr * option ClientCredentials) :=
  match authentication_method client with
  | PUBLIC_CLIENT =>
      if allow_public then Ok (dset "client_id" (client_id client) parameters, None)
      else raise ValueError "OAuth client authentication method is not supported"
  | m =>
      if negb (truthy (client_secret client)) then reauthorize
      else match m with
           | CLIENT_SECRET_POST =>
               Ok (dset "client_secret" (client_secret client)
                     (dset "client_id" (client_id client) parameters), None)
           | _ => Ok (parameters, Some client)
           end
  end.

(** [urlencode(sorted(parameters.items()))]. *)
Definition urlencode_sorted (parameters : dict pystr) : res pystr :=
  encoded ← mapR (λ kv, k ← quote_plus (fst kv); v ← quote_plus (snd kv); Ok (k ++ "=" ++ v))
              (sort_by fst parameters);
  Ok (join "&" encoded).

(** [timedelta(seconds=n)]. *)
Definition timedelta_seconds (n : Z) : res Z :=
  let us := (n * 1000000)%Z in
  if ((-999999999 * 86400000000 <=? us) && (us <? 1000000000 * 86400000000))%Z then Ok us
  else raise OverflowError "days out of range".

(** [isinstance(value, int)] as a number: booleans are integers. *)
Definition int_or_bool (j : json) : option Z :=
  match j with JInt z => Some z | JBool b => Some (if b then 1 else 0)%Z | _ => None end.

(** ** Redacted response strings *)

Definition child_path (path member : pystr) : pystr :=
  if truthy path then path ++ "." ++ member else member.

(** The loop of [_redact_response_strings]; the head of the list is the top of the stack. *)
Fixpoint redact_loop (fuel : nat) (pending : list (pystr * json)) (redacted : dict pystr) : dict pystr :=
  match fuel, pending with
  | S n, (path, value) :: rest =>
      match value with
      | JStr s => redact_loop n rest (dset path s redacted)
      | JObj d => redact_loop n (rev (map (λ kv, (child_path path (fst kv), snd kv)) d) ++ rest) redacted
      | _ => redact_loop n rest redacted
      end
  | _, _ => redacted
  end.

Fixpoint node_count (j : json) : nat :=
  match j with
  | JObj d => S ((fix go (d : list (pystr * json)) : nat :=
                   match d with [] => O | kv :: d' => node_count (snd kv) + go d' end) d)%nat
  | _ => 1%nat
  end.

Definition _redact_response_strings (response : dict json) : dict pystr :=
  redact_loop (node_count (JObj response)) [([], JObj response)] [].

(** The same by recursion on the document: members from last to first. *)
Fixpoint redact_walk (path : pystr) (j : json) (redacted : dict pystr) : dict pystr :=
  match j with
  | JStr s => dset path s redacted
  | JObj d =>
      (fix go (d : list (pystr * json)) (redacted : dict pystr) : dict pystr :=
         match d with
         | [] => redacted
         | kv :: d' => redact_walk (child_path path (fst kv)) (snd kv) (go d' redacted)
         end) d redacted
  | _ => redacted
  end.

Section Exchange.
Context (lower : pystr → pystr) (netloc_ok : pystr → bool) (loads : list N → option json)
  (send : token_request → send_result).

Definition url_invalid (e : TokenEndpoint) (parsed : split_url) : bool :=
  negb (bool_decide (lower (take 8 (url e)) = lit "https://")
        || (allows_plain_http e && bool_decide (lower (take 7 (url e)) = lit "http://")))
  || negb (bool_decide (Url.scheme parsed = lit "https")
           || (allows_plain_http e && bool_decide (Url.scheme parsed = lit "http")))
  || match hostname parsed with None => true | Some _ => false end
  || match username parsed with Some _ => true | None => false end
  || match password parsed with Some _ => true | None => false end.

Definition omitted (e : TokenEndpoint) : pystr :=
  provider_name e ++ " token response omitted required fields".
Definition invalid (e : TokenEndpoint) : pystr := provider_name e ++ " token response is invalid".

(** The fields of a successful response object. *)
Definition token_of (e : TokenEndpoint) (d : dict json) : res TokenResponse :=
  let accepted := match accepted_token_types e with [] => [lit "Bearer"] | l => l end in
  match get "access_token" d, get_or "expires_in" (JInt 0) d, get_or "token_type" (JStr []) d with
  | JStr access, JInt expires, JStr token_type =>
      if negb (truthy access)
         || ((expires <=? 0)%Z && negb ((expires =? 0)%Z && accepts_missing_expires_in e))
         || (negb (truthy token_type) && negb (accepts_missing_token_type e))
         || (truthy token_type && negb (bool_decide (lower token_type ∈ map lower accepted)))
      then raise ValueError (omitted e)
      else
        match get_or "refresh_token" (JStr []) d,
              int_or_bool (get_or "refresh_token_expires_in" (JInt 0) d),
              get_or "scope" (JStr []) d with
        | JStr refresh, Some refresh_expiry, JStr scope =>
            expires_in ← timedelta_seconds expires;
            refresh_expires_in ← timedelta_seconds (Z.max 0 refresh_expiry);
            Ok (mkToken access refresh expires_in refresh_expires_in scope token_type
                  (fold_left (λ acc name, match dget name d with Some v => dset name v acc | None => acc end)
                     (retained_response_fields e) [])
                  (_redact_response_strings d))
        | _, _, _ => raise ValueError (invalid e)
        end
  | _, _, _ => raise ValueError (omitted e)
  end.

(** The response handling of [_exchange]. *)
Definition handle_response (e : TokenEndpoint) (status : Z) (contents : list N) : res TokenResponse :=
  let http_error := provider_name e ++ " token endpoint returned HTTP " ++ str_of_Z status in
  let success := ((200 <=? status) && (status <? 300))%Z in
  if negb success && match contents with [] => true | _ => false end then raise OSError http_error
  else match loads contents with
       | Some (JObj d) =>
           let error_code := match get "error" d with JStr c => c | _ => [] end in
           if negb success || truthy error_code then
             if (status <? 500)%Z && bool_decide (error_code ∈ terminal_error_codes e)
             then reauthorize else raise OSError http_error
           else token_of e d
       | _ => raise ValueError (invalid e)
       end.

Definition _exchange (e : TokenEndpoint) (parameters : dict pystr)
    (basic_client : option ClientCredentials) : res TokenResponse :=
  parsed ← urlsplit netloc_ok (url e);
  raise_if (url_invalid e parsed) ValueError "OAuth token endpoint URL is invalid" ≫= λ _,
  raise_if (existsb (λ n, bool_decide (n ∈ _STANDARD_RESPONSE_FIELDS)) (retained_response_fields e))
    ValueError "OAuth token endpoint cannot retain standard token fields" ≫= λ _,
  raise_if (existsb (λ n, bool_decide (n ∈ _GRANT_REQUEST_FIELDS)) (dkeys (additional_request_parameters e)))
    ValueError "OAuth token endpoint cannot replace grant parameters" ≫= λ _,
  let parameters := fold_left (λ p kv, dset (fst kv) (snd kv) p) (additional_request_parameters e) parameters in
  body ← (if uses_json_request_body e then Ok (JsonBody parameters)
          else t ← urlencode_sorted parameters; Ok (FormBody t));
  let basic := match basic_client with Some c => Some (client_id c, client_secret c) | None => None end in
  let unavailable := raise OSError (provider_name e ++ " token endpoint is unavailable") in
  match send (mkRequest (url e) body basic) with
  | UrlRefused => raise InvalidURL "invalid URL"
  | AddressRefused error => Err error
  | SendFailed => unavailable
  | TimedOut => raise TimeoutError []
  | Responded status events =>
      match fst (read_bounded_body events MAX_TOKEN_RESPONSE_BYTES) with
      | Err _ => unavailable
      | Ok contents => handle_response e status contents
      end
  end.

Definition exchange_refresh_token (e : TokenEndpoint) (client : ClientCredentials)
    (refresh_token : pystr) : res TokenResponse :=
  if negb (truthy (client_id client)) || negb (truthy refresh_token) then reauthorize
  else
    let parameters := [(lit "grant_type", lit "refresh_token"); (lit "refresh_token", refresh_token)] in
    '(parameters, basic) ← _apply_client_authentication parameters client true;
    _exchange e parameters basic.

Definition exchange_client_credentials (e : TokenEndpoint) (client : ClientCredentials)
    (scopes : list pystr) : res TokenResponse :=
  if negb (truthy (client_id client)) || negb (truthy (client_secret client)) then reauthorize
  else
    let parameters := (lit "grant_type", lit "client_credentials")
      :: match scopes with [] => [] | _ => [(lit "scope", join " " scopes)] end in
    '(parameters, basic) ← _apply_client_authentication parameters client false;
    _exchange e parameters basic.

Definition exchange_jwt_bearer_assertion (e : TokenEndpoint) (assertion : pystr) : res TokenResponse :=
  if negb (truthy assertion) then reauthorize
  else _exchange e [(lit "grant_type", lit "urn:ietf:params:oauth:grant-type:jwt-bearer");
                    (lit "assertion", assertion)] None.

End Exchange.

(** ** Credential lookup *)

Section Credentials.
Context {C Driver : Type}.

(** A provider object: the methods it has. *)
Record CredentialProvider := mkProvider {
  resolve : Call.t → res C;
  resolve_with_refresh : option (Call.t → Driver → res C);
  resolve_after_rejection : option (Call.t → Driver → res C)
}.

Definition resolve_credential (provider : option CredentialProvider) (call : Call.t)
    (driver : option Driver) : res C :=
  match provider, driver with
  | Some p, Some d =>
      match resolve_with_refresh p with Some f => f call d | None => resolve p call end
  | _, _ => raise ValueError "credential provider and refresh driver are required"
  end.

Definition resolve_credential_after_rejection (provider : option CredentialProvider) (call : Call.t)
    (driver : option Driver) : res C :=
  match provider, driver with
  | Some p, Some d =>
      match resolve_after_rejection p with
      | Some f => f call d
      | None => raise ValueError "credential provider does not support refresh after rejection"
      end
  | _, _ => raise ValueError "credential provider and refresh driver are required"
  end.

(** [StaticCredentialProvider]: the copied mapping by connection. *)
Definition static_resolve (credentials : list (ConnectionRef.t * C)) (call : Call.t) : res C :=
  match List.find (λ kv, bool_decide (fst kv = Call.connection call)) credentials with
  | Some (_, c) => Ok c
  | None => raise ValueError "connection is not configured"
  end.

Definition StaticCredentialProvider (credentials : list (ConnectionRef.t * C)) : CredentialProvider :=
  mkProvider (static_resolve credentials) (Some (λ call _, static_resolve credentials call)) None.

End Credentials.

(** ** Theorems *)

Module OAuthFacts.

Lemma skew_bounds issued expires :
  0 <= proportional_refresh_skew issued expires <= REFRESH_SKEW.
Proof.
  unfold proportional_refresh_skew, REFRESH_SKEW. destruct issued as [i|], expires as [e|]; try lia.
  destruct (Z.leb_spec e i); [lia|]. pose proof (half_even_nonneg (e - i) 4 ltac:(lia) ltac:(lia)).
  unfold timedelta_div. lia.
Qed.

Lemma skew_quarter i e : i < e → 8 * proportional_refresh_skew (Some i) (Some e) <= 2 * (e - i) + 4.
Proof.
  intros H. unfold proportional_refresh_skew. destruct (Z.leb_spec e i); [lia|].
  pose proof (half_even_bounds (e - i) 4 ltac:(lia)). unfold timedelta_div. lia.
Qed.

(** A token that is kept is present and unexpired, or has no expiry under the keep rule;
    once a refresh is due it stays due; and a token just issued with a lifetime is never due at
    once, however short it lives. *)
Theorem refresh_decision has expires now rule issued :
  (is_refresh_required has expires now rule issued = false →
     has = true ∧ match expires with Some e => now < e | None => rule = KEEP_WHEN_EXPIRY_MISSING end) ∧
  (∀ later, now <= later → is_refresh_required has expires now rule issued = true →
     is_refresh_required has expires later rule issued = true) ∧
  (∀ i e, i < e → is_refresh_required true (Some e) i rule (Some i) = false).
Proof.
  pose proof (skew_bounds issued expires) as Hs. split_and!.
  - unfold is_refresh_required. destruct has; [|done]. cbn [negb]. intros H. split; [done|].
    destruct expires as [e|].
    + apply Z.leb_gt in H. lia.
    + apply negb_false_iff in H. by apply bool_decide_eq_true in H.
  - intros later Hle. unfold is_refresh_required. destruct has; [|done]. cbn [negb].
    destruct expires as [e|]; [|done]. rewrite !Z.leb_le. lia.
  - intros i e Hie. unfold is_refresh_required. cbn [negb]. apply Z.leb_gt.
    pose proof (skew_quarter i e Hie). lia.
Qed.

Lemma refresh_decision_witness :
  is_refresh_required true (Some 3600000000) 0 KEEP_WHEN_EXPIRY_MISSING (Some 0) = false ∧ 0 < 3600000000.
Proof.
  destruct (refresh_decision true (Some 3600000000) 0 KEEP_WHEN_EXPIRY_MISSING (Some 0)) as (H & _ & H3).
  split; [exact (H3 0 3600000000 ltac:(lia))|]. apply H. vm_compute. reflexivity.
Defined.

(** ** Scopes *)

Lemma scope_words_app word s :
  forallb (λ c, negb (scope_separator c)) s = true →
  scope_words word s = if truthy (word ++ s) then [word ++ s] else [].
Proof.
  revert word. induction s as [|c s IH]; intros word; cbn [scope_words forallb]; [by rewrite app_nil_r|].
  intros [Hc Hs]%andb_prop. apply negb_true_iff in Hc. rewrite Hc, IH by done.
  by rewrite <- app_assoc.
Qed.

Lemma scope_words_sep word s c rest :
  forallb (λ c, negb (scope_separator c)) s = true → scope_separator c = true →
  scope_words word (s ++ c :: rest)
  = (if truthy (word ++ s) then [word ++ s] else []) ++ scope_words [] rest.
Proof.
  revert word. induction s as [|d s IH]; intros word Hs Hc; cbn [app scope_words].
  - by rewrite Hc, app_nil_r.
  - cbn [forallb] in Hs. apply andb_prop in Hs as [Hd Hs]. apply negb_true_iff in Hd.
    rewrite Hd, IH by done. by rewrite <- app_assoc.
Qed.

(** A scope name: nonempty, without separators. *)
Definition scope_name (s : pystr) : Prop :=
  s ≠ [] ∧ forallb (λ c, negb (scope_separator c)) s = true.

Lemma scope_words_join scopes : Forall scope_name scopes → scope_words [] (join " " scopes) = scopes.
Proof.
  induction 1 as [|s scopes [Hne Hs] Hf IH]; [done|]. cbn [join].
  destruct scopes as [|s' scopes].
  - rewrite scope_words_app by done. cbn [app]. by destruct s.
  - unfold lit in *. cbn [codes app] in *. rewrite scope_words_sep by done. cbn [app].
    rewrite IH. by destruct s.
Qed.

Lemma subset_refl a : subset a a = true.
Proof. apply forallb_forall. intros x Hx. by apply bool_decide_eq_true, list_elem_of_In. Qed.

(** The scopes sent space-separated in a grant are recognised exactly in a response that
    echoes them, in any order; a response is complete when it has every required scope. *)
Theorem scopes_echoed scopes returned :
  Forall scope_name scopes → Permutation scopes returned →
  has_exact_scopes (join " " returned) scopes = true ∧
  ∀ required, has_all_scopes (join " " returned) required = true ↔ (∀ s, s ∈ required → s ∈ scopes).
Proof.
  intros Hf Hp. assert (Hr : Forall scope_name returned) by (by rewrite <- Hp).
  unfold has_exact_scopes, has_all_scopes. rewrite scope_words_join by done.
  assert (Hsub : ∀ a b, subset a b = true ↔ ∀ s, s ∈ a → s ∈ b).
  { intros a b. unfold subset. rewrite forallb_forall. setoid_rewrite <- list_elem_of_In.
    by setoid_rewrite bool_decide_eq_true. }
  split.
  - apply andb_true_intro. split; apply Hsub; intros s; by rewrite Hp.
  - intros required. rewrite Hsub. by setoid_rewrite Hp.
Qed.

Lemma scopes_echoed_witness :
  has_exact_scopes "write read" [lit "read"; lit "write"] = true.
Proof.
  apply (scopes_echoed [lit "read"; lit "write"] [lit "write"; lit "read"]).
  - repeat constructor; discriminate.
  - apply perm_swap.
Defined.

(** ** Response handling *)

Lemma timedelta_seconds_Ok n us : timedelta_seconds n = Ok us → us = n * 1000000.
Proof. unfold timedelta_seconds. destruct (_ && _); [by intros [= <-]|done]. Qed.

(** A token response is accepted only from an HTTP success whose object has a nonempty
    access token, an accepted token type, and a positive lifetime unless a missing one is
    allowed; its lifetimes are never negative. *)
Theorem accepted_token lower loads e status contents t :
  handle_response lower loads e status contents = Ok t →
  200 <= status < 300 ∧ access_token t ≠ [] ∧
  0 <= expires_in t ∧ (accepts_missing_expires_in e = false → 0 < expires_in t) ∧
  0 <= refresh_token_expires_in t ∧
  (token_type t = [] → accepts_missing_token_type e = true) ∧
  (token_type t ≠ [] → lower (token_type t) ∈
     map lower (match accepted_token_types e with [] => [lit "Bearer"] | l => l end)).
Proof.
  unfold handle_response. cbv zeta.
  destruct (negb _ && _); [done|]. destruct (loads contents) as [[| | | | | |d]|]; try done.
  destruct (negb ((200 <=? status) && (status <? 300)) || _) eqn:Hok; [by repeat case_match|].
  apply orb_false_elim in Hok as [Hst _]. apply negb_false_iff, andb_prop in Hst as [H1 H2].
  apply Z.leb_le in H1. apply Z.ltb_lt in H2. unfold token_of. cbv zeta.
  destruct (get "access_token" d) as [| | | |access| |]; try done.
  destruct (get_or "expires_in" _ d) as [| |expires| | | |]; try done.
  destruct (get_or "token_type" _ d) as [| | | |ty| |]; try done.
  destruct (_ || _) eqn:Hg; [done|].
  apply orb_false_elim in Hg as [[[Ha He]%orb_false_elim Hm]%orb_false_elim Ht].
  destruct (get_or "refresh_token" _ d) as [| | | |refresh| |]; try done.
  destruct (int_or_bool _) as [rexp|]; [|done].
  destruct (get_or "scope" _ d) as [| | | |sc| |]; try done.
  intros (ex & Hex%timedelta_seconds_Ok & (rx & Hrx%timedelta_seconds_Ok & H)%bind_Ok)%bind_Ok.
  apply Ok_inj in H as <-. cbn. subst ex rx. apply negb_false_iff, truthy_true in Ha.
  assert (Hexp : 0 <= expires ∧ (accepts_missing_expires_in e = false → 0 < expires)).
  { destruct (Z.leb_spec expires 0); [|split; intros; lia]. cbn [andb] in He. apply negb_false_iff, andb_prop in He as [Hz Hacc].
    apply Z.eqb_eq in Hz as ->. rewrite Hacc. by split. }
  destruct Hexp as [Hx1 Hx2].
  split_and!; [done|done|done|lia|intros Hm'; specialize (Hx2 Hm'); lia|lia| |].
  - intros ->. cbn [truthy negb andb] in Hm. by apply negb_false_iff in Hm.
  - intros Hne%truthy_true. rewrite Hne in Ht. cbn [andb] in Ht.
    by apply negb_false_iff, bool_decide_eq_true in Ht.
Qed.

Definition sample_endpoint : TokenEndpoint :=
  mkEndpoint "sample" "https://auth.example.com/token" [lit "invalid_grant"] [] false false [] false false [].

(** [str.lower] on the ASCII texts of the witness, and a decoder of one response. *)
Definition sample_loads (contents : list N) : option json :=
  match contents with
  | [] => None
  | _ => Some (JObj [(lit "access_token", JStr "tok"); (lit "expires_in", JInt 3600);
                     (lit "token_type", JStr "bearer")])
  end.

Lemma accepted_token_witness :
  ∃ t, handle_response ascii_lower sample_loads sample_endpoint 200 [123%N] = Ok t ∧ 0 < expires_in t.
Proof.
  eexists. split; [vm_compute; reflexivity|].
  apply (accepted_token ascii_lower sample_loads sample_endpoint 200 [123%N]
    (mkToken "tok" [] 3600000000 0 [] "bearer" [] [(lit "token_type", lit "bearer"); (lit "access_token", lit "tok")]));
    vm_compute; reflexivity.
Defined.

(** ** Redaction *)

Definition counts (pending : list (pystr * json)) : nat := list_sum (map (λ pv, node_count (snd pv)) pending).

Lemma node_count_obj d : node_count (JObj d) = S (list_sum (map (λ kv, node_count (snd kv)) d)).
Proof. cbn. f_equal. induction d as [|kv d IH]; [done|]. cbn. by rewrite IH. Qed.

Lemma redact_walk_obj path d r :
  redact_walk path (JObj d) r
  = fold_left (λ r pv, redact_walk (fst pv) (snd pv) r)
      (rev (map (λ kv, (child_path path (fst kv), snd kv)) d)) r.
Proof.
  revert r. induction d as [|kv d IH]; intros r; [done|]. cbn [map rev].
  rewrite fold_left_app. cbn [fold_left fst snd]. rewrite <- IH. done.
Qed.

Lemma counts_cons x a : counts (x :: a) = (node_count (snd x) + counts a)%nat.
Proof. done. Qed.

Lemma counts_app a b : counts (a ++ b) = (counts a + counts b)%nat.
Proof. unfold counts. by rewrite map_app, list_sum_app. Qed.

Lemma counts_rev a : counts (rev a) = counts a.
Proof.
  induction a as [|x a IH]; [done|]. cbn [rev]. rewrite counts_app, IH, !counts_cons.
  change (counts []) with 0%nat. lia.
Qed.

Lemma redact_loop_walk fuel pending r : (counts pending <= fuel)%nat →
  redact_loop fuel pending r = fold_left (λ r pv, redact_walk (fst pv) (snd pv) r) pending r.
Proof.
  revert pending r. induction fuel as [|n IH]; intros [|[path v] rest] r Hf; cbn [redact_loop fold_left fst snd];
    try done.
  - rewrite counts_cons in Hf. cbn [snd] in Hf. destruct v; cbn in Hf; lia.
  - rewrite counts_cons in Hf. cbn [snd] in Hf. destruct v as [| | | | | |d].
    1-6: apply IH; cbn [node_count] in Hf; lia.
    rewrite IH, fold_left_app, redact_walk_obj; [done|].
    rewrite counts_app, counts_rev. rewrite node_count_obj in Hf.
    unfold counts at 1. rewrite map_map. cbn [snd]. lia.
Qed.

(** The loop that redacts a token response terminates with every pending value visited: as many
    turns as the document has nodes are enough, and it maps the same paths to the same strings as
    recursion over the document. *)
Theorem redaction_traversal response :
  _redact_response_strings response = redact_walk [] (JObj response) [].
Proof.
  unfold _redact_response_strings. rewrite redact_loop_walk; [done|].
  unfold counts. cbn [map list_sum snd fold_right]. lia.
Qed.

End OAuthFacts.
