(* ===== verification/TextGen.v ===== *)
(** * Text generation attempts

    sdkpython/src/dex_connectors/sdk/textgen/contracts.py and query.py: the portable values, the
    checks of a wire format and of a Query's configuration, the local validation of a request,
    the limits on a streamed body, the classification of provider errors and the completion of a
    decoded response.  The provider's dialect (encoder, decoders, rules), the schema functions
    of structured_output.py and the HTTP exchange are parameters of the sections that use them. *)

From S2P Require Import Prelude Json Timestamps Errors Identity Calls Definitions.
From S2P Require Import Results Url ProviderHttp AddressPolicy.

Definition TEXT_GENERATION_OPERATION_ID : pystr := "generateText".
Definition GENERATED_BRANCH_ID : pystr := "generated".
Definition TRUNCATED_BRANCH_ID : pystr := "truncated".
Definition BLOCKED_BRANCH_ID : pystr := "blocked".
Definition PROVIDER_REJECTED_BRANCH_ID : pystr := "providerRejected".
Definition INVALID_RESPONSE_BRANCH_ID : pystr := "invalidResponse".

(** ** Portable values *)

Inductive MessageRole := USER | ASSISTANT.
Record Message := mkMessage { role : MessageRole; m_text : pystr }.
Record StructuredOutput := mkStructured { so_name : pystr; so_schema : json; so_description : pystr }.

Record TextGenerationRequest := mkRequest {
  messages : list Message;
  model : pystr;
  instructions : pystr;
  structured_output : option StructuredOutput;
  max_output_tokens : Z;
  temperature : option pyfloat;
  reasoning_effort : pystr
}.

Inductive FinishReason := STOP | LENGTH | CONTENT_POLICY | REFUSAL.

#[global] Instance FinishReason_eq_dec : EqDecision FinishReason.
Proof. solve_decision. Defined.

Record Usage := mkUsage {
  input_tokens : Z;
  cached_input_tokens : Z;
  output_tokens : Z;
  reasoning_tokens : Z;
  total_tokens : Z
}.

Record TextGenerationResponse := mkResponse {
  text : pystr;
  requested_model : pystr;
  served_model : pystr;
  response_id : pystr;
  finish_reason : option FinishReason;
  provider_finish_reason : pystr;
  usage : Usage
}.

Definition empty_response : TextGenerationResponse :=
  mkResponse [] [] [] [] None [] (mkUsage 0 0 0 0 0).

Inductive ModelIDRule := BODY | PATH_SEGMENT.

Definition model_segment_char (c : N) : bool :=
  is_alnum c || (c =? 46)%N || (c =? 95)%N || (c =? 45)%N.

(** [ModelIDRule.validate_model_id]. *)
Definition validate_model_id (rule : ModelIDRule) (value : pystr) : res pystr :=
  let model := py_strip value in
  match rule with
  | BODY =>
      bytes ← CallID.encode model;
      raise_if (negb ((1 <=? length bytes)%nat && (length bytes <=? 256)%nat)
                || negb (forallb printable model))
        ValueError "model ID must be 1 to 256 printable ASCII characters without spaces" ≫= λ _,
      Ok model
  | PATH_SEGMENT =>
      let model := if starts_with "models/" model then drop 7 model else model in
      match model with
      | c :: rest =>
          if is_alnum c && forallb model_segment_char rest && (length rest <=? 127)%nat then Ok model
          else raise ValueError "model ID must start with a letter or digit"
      | [] => raise ValueError "model ID must start with a letter or digit"
      end
  end.

Definition resolve_model (request_model connection_model : pystr) : pystr :=
  let m := py_strip request_model in if truthy m then m else connection_model.

Record RequestFeatures := mkFeatures {
  supports_instructions : bool;
  supports_structured_output : bool;
  supports_max_output_tokens : bool;
  supports_temperature : bool;
  supports_reasoning_effort : bool
}.

Record TemperaturePolicy := mkTemperature {
  accepted : bool;
  minimum : option pyfloat;
  maximum : option pyfloat
}.
Definition temperature_accepted : TemperaturePolicy := mkTemperature true None None.
Definition temperature_range (minimum maximum : pyfloat) : TemperaturePolicy :=
  mkTemperature true (Some minimum) (Some maximum).
Definition temperature_not_accepted : TemperaturePolicy := mkTemperature false None None.

Inductive StructuredOutputMode := MODE_NONE | JSON_SCHEMA | JSON_OBJECT_WITH_INSTRUCTION.

#[global] Instance StructuredOutputMode_eq_dec : EqDecision StructuredOutputMode.
Proof. solve_decision. Defined.

Record StructuredOutputRules := mkRules {
  mode : StructuredOutputMode;
  keywords_moved_to_description : list pystr;
  keywords_removed : list pystr
}.

Definition movable : list pystr :=
  [lit "minimum"; lit "maximum"; lit "minLength"; lit "maxLength"; lit "minItems"; lit "maxItems";
   lit "format"].

(** [StructuredOutputRules.validate]. *)
Definition validate_rules (r : StructuredOutputRules) : res unit :=
  raise_if (existsb (λ k, negb (bool_decide (k ∈ movable))) (keywords_moved_to_description r))
    ValueError "schema keyword cannot be moved to a description" ≫= λ _,
  raise_if (existsb (λ k, negb (bool_decide (k ∈ movable ++ [lit "title"; lit "additionalProperties"])))
              (keywords_removed r))
    ValueError "schema keyword cannot be removed".

Record ModelRequestRules := mkModelRules {
  mr_temperature : TemperaturePolicy;
  mr_reasoning_efforts : dict pystr;
  mr_structured_output : StructuredOutputRules
}.

Record EncodedRequest := mkEncoded {
  e_path : pystr;
  e_body : list N;
  e_headers : dict pystr;
  is_streaming : bool
}.

Record ResponsePart := mkPart { part_text : pystr; is_reasoning : bool }.

Record DecodedResponse := mkDecoded {
  parts : list ResponsePart;
  d_served_model : pystr;
  d_response_id : pystr;
  d_provider_finish_reason : pystr;
  is_refusal : bool;
  d_usage : Usage
}.

Record ErrorOutcome := mkOutcome { disposition : pystr; outcome_kind : FailureKind }.
Definition retry_outcome (kind : FailureKind) : ErrorOutcome := mkOutcome "retry" kind.
Definition provider_rejected_outcome (kind : FailureKind) : ErrorOutcome :=
  mkOutcome "providerRejected" kind.
Definition quota_exhausted_outcome : ErrorOutcome := provider_rejected_outcome QUOTA_EXHAUSTED.
Definition blocked_outcome : ErrorOutcome := mkOutcome "blocked" PROVIDER_REJECTION.
Definition invalid_response_outcome : ErrorOutcome := mkOutcome "invalidResponse" PROTOCOL.

Record ErrorRule := mkRule { status_code : Z; rule_token : pystr; outcome : ErrorOutcome }.

(** The data of a [WireFormat]; its callbacks are parameters, their presence is recorded. *)
Record WireFormat := mkWire {
  provider_name : pystr;
  model_id_rule : ModelIDRule;
  features : RequestFeatures;
  credential_header_name : pystr;
  credential_header_prefix : pystr;
  has_rules_for_model : bool;
  has_encode_request : bool;
  has_decode_response : bool;
  has_decode_stream : bool;
  finish_reasons : dict FinishReason;
  error_rules : list ErrorRule;
  error_token_pointers : list pystr;
  request_id_headers : list pystr;
  rate_limit_headers : list pystr;
  stall_timeout_seconds : pyfloat
}.

(** [_HEADER.fullmatch]. *)
Definition header_char (c : N) : bool :=
  is_alnum c || existsb (N.eqb c) (lit "!#$%&'*+.^_`|~-").
Definition header_match (s : pystr) : bool :=
  (1 <=? length s)%nat && (length s <=? 128)%nat && forallb header_char s.

Definition dispositions : list pystr :=
  [lit "retry"; lit "providerRejected"; lit "blocked"; lit "invalidResponse"].

(** The checks of one error rule; the index only appears in the text. *)
Definition validate_error_rule (r : ErrorRule) : res unit :=
  raise_if (negb (status_code r =? 0)%Z && negb ((300 <=? status_code r)%Z && (status_code r <=? 599)%Z))
    ValueError "error rule status must be zero or 300 through 599" ≫= λ _,
  raise_if (truthy (rule_token r) && negb (error_token (rule_token r)))
    ValueError "error rule token is invalid" ≫= λ _,
  raise_if (negb (bool_decide (disposition (outcome r) ∈ dispositions)))
    ValueError "error rule outcome is invalid".

Definition _validate_wire_format (w : WireFormat) : res unit :=
  raise_if (negb (truthy (provider_name w))) ValueError "wire format provider name is required" ≫= λ _,
  raise_if (negb (has_rules_for_model w) || negb (has_encode_request w))
    ValueError "wire format RulesForModel and EncodeRequest are required" ≫= λ _,
  raise_if (negb (has_decode_response w) && negb (has_decode_stream w))
    ValueError "wire format requires DecodeResponse, DecodeStream, or both" ≫= λ _,
  raise_if (negb (header_match (credential_header_name w)))
    ValueError "wire format credential header name is invalid" ≫= λ _,
  raise_if (negb (forallb (in_range 32 126) (credential_header_prefix w)))
    ValueError "wire format credential header prefix must be printable ASCII" ≫= λ _,
  raise_if (existsb (λ kv, negb (error_token (fst kv))) (finish_reasons w))
    ValueError "wire format finish token or reason is invalid" ≫= λ _,
  for_each validate_error_rule (error_rules w) ≫= λ _,
  raise_if (existsb (λ p, truthy p && negb (starts_with "/" p)) (error_token_pointers w))
    ValueError "wire format error-token pointer must be empty or start with /" ≫= λ _,
  raise_if (existsb (λ n, negb (header_match n)) (request_id_headers w ++ rate_limit_headers w))
    ValueError "wire format response header name is invalid" ≫= λ _,
  raise_if (flt (stall_timeout_seconds w) (FFin 0 0))
    ValueError "wire format stall timeout cannot be negative".

(** ** The Query's configuration *)

Definition text_generation_branch_definitions : list BranchDefinition.t :=
  [ BranchDefinition.mk GENERATED_BRANCH_ID "The model finished normally and returned text." false;
    BranchDefinition.mk TRUNCATED_BRANCH_ID
      "The model stopped at the output token limit and returned any partial text." true;
    BranchDefinition.mk BLOCKED_BRANCH_ID
      "The provider stopped the response for a content policy, or the model refused." true;
    BranchDefinition.mk PROVIDER_REJECTED_BRANCH_ID
      "The provider conclusively rejected the request." true;
    BranchDefinition.mk INVALID_RESPONSE_BRANCH_ID
      "The provider returned a malformed, oversized, or unusable response." true;
    BranchDefinition.mk DEFECT_BRANCH_ID
      "Local input, connection configuration, or connector definition is invalid." true ].

Record TextGenerationQueryConfig := mkConfig {
  definition : QueryDefinition.t;
  wire_format : WireFormat;
  base_url : pystr;
  connection_model : pystr;
  request_timeout_seconds : pyfloat;
  has_resolver : bool;
  max_response_bytes : Z;
  max_stream_event_bytes : Z;
  has_http_client : bool;
  address_policy : AddressPolicy
}.

(** [{branch.id: branch.optional}] as a set of pairs. *)
Definition branch_pairs (bs : list BranchDefinition.t) : list (pystr * bool) :=
  map (λ b, (BranchDefinition.id b, BranchDefinition.optional b)) bs.

Definition same_branches (a b : list (pystr * bool)) : bool :=
  forallb (λ x, bool_decide (x ∈ b)) a && forallb (λ x, bool_decide (x ∈ a)) b.

(** [TextGenerationQuery.__init__]: the base URL and connection model it keeps. *)
Definition new_query (c : TextGenerationQueryConfig) : res (pystr * pystr) :=
  let d := definition c in
  let branches := default [] (QueryDefinition.branches d) in
  QueryDefinition.validate d ≫= λ _,
  raise_if (negb (bool_decide (OperationRef.operation_id (QueryDefinition.operation d)
                               = TEXT_GENERATION_OPERATION_ID)))
    ValueError "text generation query definition must use operation ID generateText" ≫= λ _,
  raise_if (negb (length branches =? length text_generation_branch_definitions)%nat
            || negb (same_branches (branch_pairs branches)
                       (branch_pairs text_generation_branch_definitions)))
    ValueError "generateText must declare exactly the six text generation branches and optionality" ≫= λ _,
  let s := QueryDefinition.step_defaults d in
  raise_if (negb (StepDefaults.execute_durability s =? 1)%Z)
    ValueError "generateText must use sync Execute durability" ≫= λ _,
  raise_if ((0 <? StepDefaults.heartbeat_timeout s)%Z && (StepDefaults.heartbeat_timeout s <? 10000000)%Z)
    ValueError "generateText heartbeat timeout must be zero or at least 10 seconds" ≫= λ _,
  raise_if (negb (StepDefaults.execute_method_timeout s =? 0)%Z
            && fle (total_seconds (StepDefaults.execute_method_timeout s)) (request_timeout_seconds c))
    ValueError "generateText Execute timeout must exceed the request timeout" ≫= λ _,
  _validate_wire_format (wire_format c) ≫= λ _,
  url ← validate_base_url (base_url c);
  let model := py_strip (connection_model c) in
  model ← (if truthy model then validate_model_id (model_id_rule (wire_format c)) model else Ok model);
  raise_if (fle (request_timeout_seconds c) (FFin 0 0) || negb (isfinite (request_timeout_seconds c)))
    ValueError "text generation query request timeout must be positive" ≫= λ _,
  raise_if (negb (has_resolver c)) ValueError "text generation query credential resolver is required" ≫= λ _,
  raise_if (max_response_bytes c <? 1)%Z
    ValueError "text generation query maxResponseBytes must be positive" ≫= λ _,
  raise_if (negb (bool_decide (address_policy c = unrestricted)) && has_http_client c)
    ValueError "restricted address policy requires a query-owned HTTP client" ≫= λ _,
  raise_if (has_decode_stream (wire_format c) && (max_stream_event_bytes c <? 1)%Z)
    ValueError "text generation query maxStreamEventBytes must be positive for a streaming wire format" ≫= λ _,
  Ok (url, model).

(** ** Body limits *)

(** What waiting for the next chunk of a response yields: bytes, an exception of the HTTP client,
    no byte within the stall timeout, or the deadline of the whole attempt. *)
Inductive wire_event := WChunk (bytes : list N) | WRaised (e : exn) | WStall | WDeadline.

(** The end of a loop over chunks; the deadline cancels it. *)
Inductive stop := Finished | Raised (e : exn) | Cancelled.

Definition too_large : exn := Exn BodyTooLargeError "response body is too large".
Definition stalled : exn := Exn ProviderStalledError "provider stalled".

(** The counters of [_bounded_chunks]: bytes so far, bytes of the current event, partial line. *)
Record stream_state := mkStream { count : Z; event_bytes : Z; pending_line : list N }.
Definition stream_start : stream_state := mkStream 0 0 [].

Definition line_length (l : list N) : Z := Z.of_nat (length l).

(** [line.removesuffix(b"\r")]. *)
Definition strip_cr (line : list N) : list N :=
  match rev line with c :: r => if (c =? 13)%N then rev r else line | [] => line end.

(** The lines that end within [pending], in order, and the event size after them. *)
Fixpoint check_lines (max_event : Z) (event : Z) (lines : list (list N)) : result exn Z :=
  match lines with
  | [] => Ok event
  | raw :: rest =>
      let line := strip_cr raw in
      if (max_event <? line_length line)%Z then Err too_large
      else match line with
           | [] => check_lines max_event 0 rest
           | c :: _ =>
               if (c =? 58)%N then check_lines max_event event rest
               else
                 let event := (event + line_length line)%Z in
                 if (max_event <? event)%Z then Err too_large
                 else check_lines max_event event rest
           end
  end.

(** [pending_line.split(b"\n")]: the complete lines and the unfinished one. *)
Definition split_lines (pending : list N) : list (list N) * list N :=
  let segments := split_char 10 pending in
  (removelast segments, List.last segments []).

(** One chunk of [_bounded_chunks]. *)
Definition accept_chunk (max_response max_event : Z) (s : stream_state) (chunk : list N)
    : result exn stream_state :=
  let count := (count s + line_length chunk)%Z in
  if (max_response <? count)%Z then Err too_large
  else
    let '(lines, rest) := split_lines (pending_line s ++ chunk) in
    event ← check_lines max_event (event_bytes s) lines;
    if (max_event <? line_length rest)%Z then Err too_large
    else Ok (mkStream count event rest).

(** [_bounded_chunks]: the chunks it yields, and how it ends. *)
Fixpoint _bounded_chunks (max_response max_event : Z) (s : stream_state) (events : list wire_event)
    : list (list N) * stop :=
  match events with
  | [] => ([], Finished)
  | WRaised e :: _ => ([], Raised e)
  | WStall :: _ => ([], Raised stalled)
  | WDeadline :: _ => ([], Cancelled)
  | WChunk chunk :: rest =>
      match accept_chunk max_response max_event s chunk with
      | Err e => ([], Raised e)
      | Ok s' => let '(yielded, e) := _bounded_chunks max_response max_event s' rest in
                 (chunk :: yielded, e)
      end
  end.

(** [_read_body]: the loop over the chunks with the bytes read so far, and the joined body. *)
Fixpoint read_loop (limit count : Z) (events : list wire_event) : list (list N) * stop :=
  match events with
  | [] => ([], Finished)
  | WRaised e :: _ => ([], Raised e)
  | WStall :: _ => ([], Raised stalled)
  | WDeadline :: _ => ([], Cancelled)
  | WChunk chunk :: rest =>
      let count := (count + line_length chunk)%Z in
      if (limit <? count)%Z then ([], Raised too_large)
      else let '(chunks, e) := read_loop limit count rest in (chunk :: chunks, e)
  end.

Definition _read_body (events : list wire_event) (limit : Z) : list N * stop :=
  let '(chunks, e) := read_loop limit 0 events in (List.concat chunks, e).

(** ** Theorems *)

Module StreamFacts.

(** A run of non-comment lines without a blank line between them: one event so far. *)
Definition counted (line : list N) : bool := match line with [] => false | c :: _ => negb (c =? 58)%N end.

(** The bytes of the event the lines leave open. *)
Fixpoint open_event (event : Z) (lines : list (list N)) : Z :=
  match lines with
  | [] => event
  | raw :: rest =>
      let line := strip_cr raw in
      open_event (match line with
                  | [] => 0%Z
                  | _ => if counted line then (event + line_length line)%Z else event
                  end) rest
  end.

Lemma check_lines_spec max_event lines event event' :
  check_lines max_event event lines = Ok event' →
  event' = open_event event lines ∧
  Forall (λ raw, (line_length (strip_cr raw) <= max_event)%Z) lines ∧
  ∀ n, (event <= max_event)%Z → (0 <= max_event)%Z → (open_event event (take n lines) <= max_event)%Z.
Proof.
  revert event. induction lines as [|raw rest IH]; intros event H; cbn [check_lines] in H.
  - injection H as <-. split; [done|]. split; [constructor|]. intros n ? ?. by rewrite take_nil.
  - destruct (Z.ltb_spec max_event (line_length (strip_cr raw))); [done|].
    assert (Hn : ∀ e', check_lines max_event e' rest = Ok event' →
      (match strip_cr raw with [] => 0%Z | _ => if counted (strip_cr raw)
         then (event + line_length (strip_cr raw))%Z else event end = e') →
      ((event <= max_event)%Z → (0 <= max_event)%Z → (e' <= max_event)%Z) →
      event' = open_event event (raw :: rest) ∧
      Forall (λ raw, (line_length (strip_cr raw) <= max_event)%Z) (raw :: rest) ∧
      ∀ n, (event <= max_event)%Z → (0 <= max_event)%Z →
        (open_event event (take n (raw :: rest)) <= max_event)%Z).
    { intros e' He' Heq Hle. destruct (IH _ He') as (-> & Hf & Ht). cbn [open_event]. rewrite Heq.
      split; [done|]. split; [by constructor|]. intros [|n] ? ?; [done|]. cbn [take open_event].
      rewrite Heq. by apply Ht; [apply Hle|]. }
    destruct (strip_cr raw) as [|c line] eqn:E.
    + by apply (Hn 0%Z).
    + unfold counted in Hn. destruct (c =? 58)%N eqn:Ec; cbn [negb] in Hn.
      * by apply (Hn event).
      * destruct (Z.ltb_spec max_event (event + line_length (c :: line))); [done|].
        by apply (Hn (event + line_length (c :: line))%Z).
Qed.

Lemma line_length_app a b : line_length (a ++ b) = (line_length a + line_length b)%Z.
Proof. unfold line_length. rewrite length_app. lia. Qed.

Lemma split_char_nonempty sep s : split_char sep s ≠ [].
Proof. induction s as [|c s IH]; cbn [split_char]; [done|]. destruct (_ =? _)%N, (split_char sep s); done. Qed.

Lemma split_char_app sep a b :
  split_char sep (a ++ b) = removelast (split_char sep a) ++ split_char sep (List.last (split_char sep a) [] ++ b).
Proof.
  induction a as [|c a IH]; [done|]. cbn [app split_char].
  pose proof (split_char_nonempty sep a) as Hne. rewrite IH. destruct (split_char sep a) as [|x xs] eqn:E; [done|].
  destruct (c =? sep)%N eqn:Ec; [done|]. destruct xs as [|y ys]; cbn [removelast List.last app split_char].
  - by rewrite Ec.
  - done.
Qed.

Lemma last_app_ne {A} (l m : list A) d : m ≠ [] → List.last (l ++ m) d = List.last m d.
Proof.
  intros Hm. induction l as [|x l IH]; [done|]. cbn [app List.last].
  destruct (l ++ m) eqn:E; [by apply app_nil in E as [_ ->]|done].
Qed.

Lemma split_lines_app a b :
  split_lines (a ++ b) =
  (fst (split_lines a) ++ fst (split_lines (snd (split_lines a) ++ b)), snd (split_lines (snd (split_lines a) ++ b))).
Proof.
  unfold split_lines. cbn [fst snd]. rewrite split_char_app.
  pose proof (split_char_nonempty 10 (List.last (split_char 10 a) [] ++ b)) as Hne.
  rewrite removelast_app by done. f_equal. by apply last_app_ne.
Qed.

Lemma open_event_app e a b : open_event e (a ++ b) = open_event (open_event e a) b.
Proof. revert e. induction a as [|x a IH]; intros e; cbn [app open_event]; [done|]. by rewrite IH. Qed.

(** What [_bounded_chunks] has established about the bytes it let through. *)
Record accepted_bytes (max_response max_event : Z) (all : list N) : Prop := {
  ab_total : (line_length all <= max_response)%Z;
  ab_lines : Forall (λ raw, (line_length (strip_cr raw) <= max_event)%Z) (fst (split_lines all));
  ab_rest : (line_length (snd (split_lines all)) <= max_event)%Z;
  ab_events n : (open_event 0 (take n (fst (split_lines all))) <= max_event)%Z
}.

Definition tracks (s : stream_state) (all : list N) : Prop :=
  count s = line_length all ∧ event_bytes s = open_event 0 (fst (split_lines all)) ∧
  pending_line s = snd (split_lines all).

Lemma accept_chunk_spec max_response max_event s all chunk s' : (0 <= max_event)%Z →
  tracks s all → accepted_bytes max_response max_event all →
  accept_chunk max_response max_event s chunk = Ok s' →
  tracks s' (all ++ chunk) ∧ accepted_bytes max_response max_event (all ++ chunk).
Proof.
  intros Hm (Hc & He & Hp) [Ht Hl Hr Hev] H. unfold accept_chunk in H.
  destruct (Z.ltb_spec max_response (count s + line_length chunk)) as [|Hle]; [done|].
  destruct (split_lines (pending_line s ++ chunk)) as [lines rest] eqn:Es.
  apply bind_Ok in H as (event & Hcheck & H).
  destruct (Z.ltb_spec max_event (line_length rest)) as [|Hrest]; [done|]. injection H as <-.
  apply check_lines_spec in Hcheck as (-> & Hlines & Hopen).
  pose proof (split_lines_app all chunk) as Happ. rewrite <- Hp, Es in Happ. cbn [fst snd] in Happ.
  assert (He0 : (event_bytes s <= max_event)%Z).
  { rewrite He. specialize (Hev (length (fst (split_lines all)))). by rewrite firstn_all in Hev. }
  unfold tracks. rewrite Happ. cbn [fst snd count event_bytes pending_line]. split.
  - rewrite line_length_app, open_event_app, Hc, <- He. done.
  - split; rewrite ?Happ; cbn [fst snd]; [rewrite line_length_app; lia|by apply Forall_app|done|].
    intros n. rewrite take_app, open_event_app.
    destruct (decide (n <= length (fst (split_lines all)))%nat) as [Hn|Hn].
    + replace (n - length (fst (split_lines all)))%nat with 0%nat by lia. rewrite take_0. apply Hev.
    + rewrite (take_ge (fst (split_lines all))) by lia. rewrite <- He. by apply Hopen.
Qed.

Lemma bounded_chunks_spec max_response max_event events : (0 <= max_event)%Z → ∀ s all chunks e,
  tracks s all → accepted_bytes max_response max_event all →
  _bounded_chunks max_response max_event s events = (chunks, e) →
  accepted_bytes max_response max_event (all ++ List.concat chunks).
Proof.
  intros Hm. induction events as [|ev events IH]; intros s all chunks e Ht Ha H; cbn [_bounded_chunks] in H.
  - injection H as <- _. by rewrite app_nil_r.
  - destruct ev as [chunk|x| |]; try (injection H as <- _; by rewrite app_nil_r).
    destruct (accept_chunk _ _ s chunk) as [s'|x] eqn:Es; [|injection H as <- _; by rewrite app_nil_r].
    destruct (_bounded_chunks _ _ s' events) as [yielded e'] eqn:Er. injection H as <- <-.
    destruct (accept_chunk_spec _ _ _ _ _ _ Hm Ht Ha Es) as [Ht' Ha'].
    cbn [List.concat]. rewrite app_assoc. by apply (IH s' _ yielded e').
Qed.

(** C38: whatever the boundaries of the chunks and however the stream ends, the bytes a stream decoder
    receives are within both limits: their total within the response limit, every complete line
    (without its carriage return) and the unfinished one within the event limit, and so is, after
    every line, the event that line leaves open. *)
Theorem stream_within_limits max_response max_event events chunks e :
  (0 <= max_response)%Z → (0 <= max_event)%Z →
  _bounded_chunks max_response max_event stream_start events = (chunks, e) →
  accepted_bytes max_response max_event (List.concat chunks).
Proof.
  intros Hr Hm H. apply (bounded_chunks_spec _ _ _ Hm stream_start [] _ _) in H; [done|done|].
  split; cbn; try done. intros n. by rewrite take_nil.
Qed.

(** The limit on the unfinished line counts the carriage return that the limit on a line does not: a line of
    exactly the event limit that ends in CR LF is let through when both arrive in one chunk, and refused
    when the chunk ends between them. *)
Theorem limit_depends_on_chunks max_response max_event line : line ≠ [] →
  line_length line = max_event → (max_event + 2 <= max_response)%Z → 10%N ∉ line →
  _bounded_chunks max_response max_event stream_start [WChunk (line ++ [13; 10]%N)] = ([line ++ [13; 10]%N], Finished) ∧
  _bounded_chunks max_response max_event stream_start [WChunk (line ++ [13]%N); WChunk [10]%N] = ([], Raised too_large).
Proof.
  intros Hne Hl Hr Hn.
  assert (Hno : 10%N ∉ line ++ [13]%N) by (rewrite elem_of_app; intros [?|[= ?]%list_elem_of_singleton]; done).
  assert (Hs1 : split_lines (line ++ [13; 10]%N) = ([line ++ [13]%N], [])).
  { unfold split_lines. change (line ++ [13; 10]%N) with (line ++ ([13] ++ [10])%N).
    by rewrite app_assoc, split_char_at. }
  assert (Hs2 : split_lines (line ++ [13]%N) = ([], line ++ [13]%N)) by (unfold split_lines; by rewrite split_char_none).
  assert (Hcr : strip_cr (line ++ [13]%N) = line) by (unfold strip_cr; rewrite rev_app_distr; cbn; by rewrite rev_involutive).
  cbn [_bounded_chunks]. unfold accept_chunk, stream_start. cbn [count pending_line event_bytes app].
  rewrite Hs1, Hs2, !line_length_app. cbn [check_lines]. rewrite Hcr, Hl. change (line_length [13; 10]%N) with 2%Z.
  change (line_length [13]%N) with 1%Z. change (line_length []) with 0%Z. assert (0 < max_event)%Z.
  { rewrite <- Hl. destruct line; [done|]. unfold line_length. cbn [length]. lia. }
  destruct (Z.ltb_spec max_response (0 + (max_event + 2))); [lia|]. destruct (Z.ltb_spec max_event max_event); [lia|].
  destruct (Z.ltb_spec max_response (0 + (max_event + 1))); [lia|]. split.
  - destruct line as [|c line]; [done|]. destruct (c =? 58)%N; cbn [mbind result_bind Z.add].
    + by destruct (Z.ltb_spec max_event 0); [lia|].
    + rewrite Z.add_0_l, Z.ltb_irrefl. cbn [mbind result_bind]. by destruct (Z.ltb_spec max_event 0); [lia|].
  - cbn [mbind result_bind]. by destruct (Z.ltb_spec max_event (max_event + 1)); [|lia].
Qed.

Lemma limit_depends_on_chunks_witness : line_length (lit "data: 12") = 8%Z ∧
  snd (_bounded_chunks 100 8 stream_start [WChunk (lit "data: 12" ++ [13]%N); WChunk [10]%N]) = Raised too_large.
Proof.
  split; [reflexivity|].
  assert (Hn : 10%N ∉ lit "data: 12") by (apply (bool_decide_eq_true_1 _); vm_compute; reflexivity).
  rewrite (proj2 (limit_depends_on_chunks 100 8 (lit "data: 12") ltac:(discriminate) eq_refl ltac:(done) Hn)). reflexivity.
Defined.

Definition sample_events : list wire_event :=
  [WChunk (lit "data: 12"); WChunk (lit "34" ++ [13; 10; 10]%N ++ lit "data: 5678"); WChunk [10; 10]%N;
   WChunk (lit "data: much longer")].

Lemma stream_within_limits_witness :
  let r := _bounded_chunks 100 12 stream_start sample_events in
  snd r = Raised too_large ∧ length (fst r) = 3%nat ∧ accepted_bytes 100 12 (List.concat (fst r)).
Proof.
  cbv zeta. split; [vm_compute; reflexivity|]. split; [vm_compute; reflexivity|].
  apply (stream_within_limits 100 12 sample_events _ (Raised too_large)); [lia|lia|vm_compute; reflexivity].
Defined.

End StreamFacts.
