(* ===== verification/StructuredOutput.v ===== *)
(** * Structured output: the portable JSON Schema subset

    sdkpython/src/dex_connectors/sdk/textgen/structured_output.py: the Go-compatible JSON text,
    the check of a schema, its adjustment for a provider, and the exact local validation of a
    generated answer.  [json.loads] and [JSONDecoder.raw_decode] are parameters of the sections
    that use them; answers carry the [Decimal] numbers that decoder builds. *)

From Stdlib Require Import QArith Qpower.
From S2P Require Import Prelude Json Timestamps Errors Url TextGen.

#[local] Set Warnings "-register-all".

(** ** Decimal text *)

(** The shortest decimal digits that read back as a float ([repr]), as an integer coefficient and
    a power of ten. *)
Definition float_ratio (m e : Z) : Z * Z :=
  if (0 <=? e)%Z then (Z.abs m * 2 ^ e, 1)%Z else (Z.abs m, 2 ^ (- e))%Z.

Definition scale10 (n d k : Z) : Z * Z :=
  if (0 <=? k)%Z then (n, d * 10 ^ k)%Z else (n * 10 ^ (- k), d)%Z.

(** The power of ten of the leading digit of [n / d]. *)
Definition floor_log10 (n d : Z) : Z :=
  let p := ((Z.log2 n - Z.log2 d) * 30103 / 100000)%Z in
  let reaches p := let '(a, b) := scale10 n d p in (b <=? a)%Z in
  if reaches (p + 1)%Z then (p + 1)%Z else if reaches p then p else (p - 1)%Z.

(** [digits] more digits are tried until one of the two neighbours reads back as the float. *)
Fixpoint shortest (more : nat) (digits : Z) (m e : Z) : Z * Z :=
  let '(n, d) := float_ratio m e in
  let k := (floor_log10 n d - (digits - 1))%Z in
  let '(a, b) := scale10 n d k in
  let q := (a / b)%Z in
  let reads_back c :=
    feq (if (0 <=? k)%Z then round_ratio (c * 10 ^ k) 1 else round_ratio c (10 ^ (- k)))
        (FFin (Z.abs m) e) in
  let near := half_even a b in
  let far := if (near =? q)%Z then (q + 1)%Z else q in
  if reads_back near then (near, k)
  else if reads_back far then (far, k)
  else match more with O => (near, k) | S more => shortest more (digits + 1) m e end.

Definition float_digits (m e : Z) : Z * Z := if (m =? 0)%Z then (0, 0)%Z else shortest 16 1 m e.

(** Digits without trailing zeros, and the place of the decimal point from their left. *)
Definition float_point (m e : Z) : pystr * Z :=
  let '(c, k) := float_digits m e in
  let s := str_of_Z c in
  let stripped := GoTime.rstrip_zeros s in
  ((if truthy stripped then stripped else "0"), k + Z.of_nat (length s))%Z.

Definition zeros (n : Z) : pystr := repeat 48%N (Z.to_nat n).

(** Digits with a decimal point after [point] of them. *)
Definition plain_digits (digits : pystr) (point : Z) : pystr :=
  let n := Z.of_nat (length digits) in
  if (point <=? 0)%Z then "0." ++ zeros (- point) ++ digits
  else if (n <=? point)%Z then digits ++ zeros (point - n)
  else take (Z.to_nat point) digits ++ "." ++ drop (Z.to_nat point) digits.

Definition signed (z : Z) : pystr := if (z <? 0)%Z then str_of_Z z else "+" ++ str_of_Z z.

Definition scientific (digits : pystr) : pystr :=
  match digits with
  | c :: ((_ :: _) as rest) => c :: "." ++ rest
  | _ => digits
  end.

Definition minus (negative : bool) : pystr := if negative then "-" else [].

(** The float branch of [_go_json]; the model has one zero, which [json.loads] reads from both
    ["0"] and ["-0"]. *)
Definition go_float (f : pyfloat) : res pystr :=
  match f with
  | FFin m e =>
      if (m =? 0)%Z then Ok (lit "0")
      else
        let '(digits, point) := float_point m e in
        let '(n, d) := float_ratio m e in
        let sign := minus (m <? 0)%Z in
        if (d <=? n * 10 ^ 6)%Z && (n <? d * 10 ^ 21)%Z
        then Ok (sign ++ plain_digits digits point)
        else Ok (sign ++ scientific digits ++ "e" ++ signed (point - 1))
  | _ => raise ValueError "JSON number must be finite"
  end.

Definition hex4 (c : N) : pystr :=
  map (λ n, if (n <? 10)%N then (48 + n)%N else (87 + n)%N)
    [c / 4096; (c / 256) mod 16; (c / 16) mod 16; c mod 16]%N.

(** One character of [json.dumps(text, ensure_ascii=False)] with the HTML-safe replacements. *)
Definition go_char (c : N) : pystr :=
  if (c =? 34)%N then [92; 34]%N
  else if (c =? 92)%N then [92; 92]%N
  else if (c =? 10)%N then "\n"
  else if (c =? 13)%N then "\r"
  else if (c =? 9)%N then "\t"
  else if (c =? 12)%N then "\f"
  else if (c =? 8)%N then "\b"
  else if (c <? 32)%N || existsb (N.eqb c) [60; 62; 38; 8232; 8233]%N then "\u" ++ hex4 c
  else [c].

Definition go_string (s : pystr) : pystr :=
  let safe := map (λ c, if in_range 0xD800 0xDFFF c then 0xFFFD%N else c) s in
  [34%N] ++ flat_map go_char safe ++ [34%N].

(** [_go_json]: members are encoded, then put in the order of their keys. *)
Fixpoint _go_json (value : json) : res pystr :=
  match value with
  | JNull => Ok (lit "null")
  | JBool b => Ok (if b then lit "true" else lit "false")
  | JInt z =>
      raise_if (4300 <? length (str_of_Z (Z.abs z)))%nat
        ValueError "Exceeds the limit (4300 digits) for integer string conversion" ≫= λ _,
      Ok (str_of_Z z)
  | JFloat f => go_float f
  | JStr s => Ok (go_string s)
  | JArr l =>
      items ← (fix go l := match l with
                           | [] => Ok []
                           | x :: l' => s ← _go_json x; r ← go l'; Ok (s :: r)
                           end) l;
      Ok ("[" ++ join "," items ++ "]")
  | JObj d =>
      members ← (fix go (d : list (pystr * json)) : res (list (pystr * pystr)) :=
                   match d with
                   | [] => Ok []
                   | (k, x) :: d' => s ← _go_json x; r ← go d'; Ok ((k, s) :: r)
                   end) d;
      Ok ("{" ++ join "," (map (λ kv, go_string (fst kv) ++ ":" ++ snd kv)
                             (sort_by fst members)) ++ "}")
  end.

(** ** Exact decimal numbers *)

Record Decimal := mkDecimal { d_negative : bool; d_coefficient : Z; d_exponent : Z }.

Definition signed_coefficient (d : Decimal) : Z :=
  if d_negative d then (- d_coefficient d)%Z else d_coefficient d.

(** Comparison of two decimals by value. *)
Definition dcompare (x y : Decimal) : comparison :=
  let e := Z.min (d_exponent x) (d_exponent y) in
  (signed_coefficient x * 10 ^ (d_exponent x - e) ?= signed_coefficient y * 10 ^ (d_exponent y - e))%Z.
Definition dlt (x y : Decimal) : bool := match dcompare x y with Lt => true | _ => false end.
Definition deq (x y : Decimal) : bool := match dcompare x y with Eq => true | _ => false end.

(** [number == number.to_integral_value()]. *)
Definition dintegral (d : Decimal) : bool :=
  (0 <=? d_exponent d)%Z || (d_coefficient d mod 10 ^ (- d_exponent d) =? 0)%Z.

(** [str(d)] is in scientific notation exactly when [dscientific d]. *)
Definition dpoint (d : Decimal) : Z :=
  (d_exponent d + Z.of_nat (length (str_of_Z (d_coefficient d))))%Z.
Definition dscientific (d : Decimal) : bool := negb ((d_exponent d <=? 0)%Z && (-6 <? dpoint d)%Z).
Definition decimal_str (d : Decimal) : pystr :=
  let digits := str_of_Z (d_coefficient d) in
  minus (d_negative d)
    ++ (if dscientific d then
          scientific digits ++ (if (dpoint d =? 1)%Z then [] else "E" ++ signed (dpoint d - 1))
        else plain_digits digits (dpoint d)).

Definition decimal_of_Z (z : Z) : Decimal := mkDecimal (z <? 0)%Z (Z.abs z) 0.
(** [Decimal(str(f))]. *)
Definition decimal_of_float (m e : Z) : Decimal :=
  let '(c, k) := float_digits m e in mkDecimal (m <? 0)%Z c k.

(** [_bounded_number] of a schema number, and of a number of an answer; [str] of a float has at
    most 24 characters and an exponent of at most 324. *)
Definition bounded_json (value : json) : option Decimal :=
  match value with
  | JInt z => if (256 <? length (str_of_Z z))%nat then None else Some (decimal_of_Z z)
  | JFloat (FFin m e) => Some (decimal_of_float m e)
  | _ => None
  end.

Definition bounded_decimal (d : Decimal) : option Decimal :=
  if (256 <? length (decimal_str d))%nat then None
  else if dscientific d && (400 <? Z.abs (dpoint d - 1))%Z then None
  else Some d.

(** ** Portable schemas *)

Definition _KEYWORDS : list pystr :=
  [lit "type"; lit "properties"; lit "required"; lit "additionalProperties"; lit "items"; lit "enum";
   lit "const"; lit "description"; lit "title"; lit "minimum"; lit "maximum"; lit "minLength";
   lit "maxLength"; lit "minItems"; lit "maxItems"; lit "format"].
Definition _TYPES : list pystr :=
  [lit "object"; lit "array"; lit "string"; lit "number"; lit "integer"; lit "boolean"; lit "null"].
Definition _FORMATS : list pystr := [lit "date-time"; lit "date"; lit "time"; lit "uuid"].

(** [_at]: the text of a [_LocationError]. *)
Definition _at {A} (pointer reason : pystr) : res A :=
  raise LocationError ("at " ++ (if truthy pointer then pointer else "the root") ++ ": " ++ reason).
Definition at_if (b : bool) (pointer reason : pystr) : res unit :=
  if b then _at pointer reason else Ok ().

Definition _pointer (segment : pystr) : pystr :=
  replace_char 47 (lit "~1") (replace_char 126 (lit "~0") segment).

Definition bad_type {A} (pointer : pystr) : res A :=
  _at pointer (34%N :: "type" ++ 34%N :: " must be one JSON type or a pair of one type and "
               ++ 34%N :: "null" ++ [34%N]).

Definition _schema_type (node : dict json) (pointer : pystr) : res (pystr * bool) :=
  match get "type" node with
  | JStr s => if bool_decide (s ∈ _TYPES) then Ok (s, false) else bad_type pointer
  | JArr [JStr a; JStr b] =>
      if (bool_decide (a = lit "null") || bool_decide (b = lit "null")) && negb (bool_decide (a = b)) then
        let primary := if bool_decide (b = lit "null") then a else b in
        if bool_decide (primary ∈ _TYPES) then Ok (primary, true) else bad_type pointer
      else bad_type pointer
  | _ => bad_type pointer
  end.

Definition quoted (s : pystr) : pystr := 34%N :: s ++ [34%N].

(** One bound of [_count_bound]; an explicit null counts as absent here. *)
Definition count_bound_value (value : json) : option (option Z) :=
  let bounded z := if ((0 <=? z) && (z <? 2 ^ 63))%Z then Some (Some z) else None in
  match value with
  | JNull => Some None
  | JInt z => bounded z
  | JFloat (FFin m e) =>
      let z := trunc_dyadic m e in if feq (FFin m e) (f_of_Z z) then bounded z else None
  | _ => None
  end.

Definition _count_bound (node : dict json) (pointer minimum maximum : pystr) : res unit :=
  match count_bound_value (get minimum node) with
  | None => _at pointer (quoted minimum ++ " must be a non-negative integer")
  | Some low =>
      match count_bound_value (get maximum node) with
      | None => _at pointer (quoted maximum ++ " must be a non-negative integer")
      | Some high =>
          match low, high with
          | Some l, Some h => at_if (h <? l)%Z pointer (quoted minimum ++ " exceeds " ++ quoted maximum)
          | _, _ => Ok ()
          end
      end
  end.

Definition _number_like (value : json) : bool :=
  match value with JInt _ | JFloat _ => true | _ => false end.
Definition _scalar (value : json) : bool :=
  match value with JNull | JStr _ | JBool _ => true | _ => _number_like value end.
Definition unbounded_number (value : json) : bool :=
  _number_like value && match bounded_json value with None => true | Some _ => false end.

(** The [typed] table: the type a keyword applies to. *)
Definition typed : dict pystr :=
  [(lit "properties", lit "object"); (lit "required", lit "object");
   (lit "additionalProperties", lit "object"); (lit "items", lit "array");
   (lit "minItems", lit "array"); (lit "maxItems", lit "array");
   (lit "minLength", lit "string"); (lit "maxLength", lit "string"); (lit "format", lit "string")].

Definition shortened (keyword : pystr) : pystr :=
  take 64 keyword ++ (if (64 <? length keyword)%nat then "..." else []).

Definition numeric (primary : pystr) : bool :=
  bool_decide (primary = lit "number") || bool_decide (primary = lit "integer").

(** The two keyword loops of [_check_node]. *)
Definition check_keyword (pointer keyword : pystr) : res unit :=
  at_if (negb (bool_decide (keyword ∈ _KEYWORDS))) pointer
    ("keyword " ++ quoted (shortened keyword) ++ " is outside the portable subset").

Definition check_keyword_type (pointer primary keyword : pystr) : res unit :=
  match dget keyword typed with
  | Some expected =>
      at_if (negb (bool_decide (expected = primary))) pointer
        ("keyword " ++ quoted keyword ++ " applies only to type " ++ quoted expected)
  | None => Ok ()
  end ≫= λ _,
  at_if ((bool_decide (keyword = lit "minimum") || bool_decide (keyword = lit "maximum"))
         && negb (numeric primary)) pointer
    ("keyword " ++ quoted keyword ++ " applies only to number and integer types").

Definition check_text_keyword (node : dict json) (pointer keyword : pystr) : res unit :=
  match dget keyword node with
  | Some v => at_if (negb (is_str v)) pointer (quoted keyword ++ " must be a string")
  | None => Ok ()
  end.

Definition check_enum (node : dict json) (pointer : pystr) : res unit :=
  match dget "enum" node with
  | None => Ok ()
  | Some (JArr ((_ :: _) as values)) =>
      at_if (existsb (λ v, negb (_scalar v)) values) pointer
        (quoted "enum" ++ " values must be strings, numbers, booleans, or null") ≫= λ _,
      at_if (existsb unbounded_number values) pointer (quoted "enum" ++ " has a number that is out of range")
  | Some _ => _at pointer (quoted "enum" ++ " must be a non-empty array")
  end.

Definition check_const (node : dict json) (pointer : pystr) : res unit :=
  match dget "const" node with
  | None => Ok ()
  | Some value =>
      at_if (negb (_scalar value)) pointer
        (quoted "const" ++ " must be a string, number, boolean, or null") ≫= λ _,
      at_if (unbounded_number value) pointer (quoted "const" ++ " is a number that is out of range")
  end.

Definition names_of (items : list json) : option (list pystr) :=
  mapM (λ v, match v with JStr s => Some s | _ => None end) items.

(** The checks of an object's properties against its required names. *)
Definition check_required (node : dict json) (pointer : pystr) : res (dict json) :=
  match get "properties" node with
  | JObj properties =>
      at_if (match get "additionalProperties" node with JBool false => false | _ => true end) pointer
        ("an object must set " ++ quoted "additionalProperties" ++ " to false") ≫= λ _,
      match get "required" node with
      | JArr items =>
          match names_of items with
          | Some required =>
              at_if (negb (bool_decide (NoDup required))) pointer
                (quoted "required" ++ " must list property names once each") ≫= λ _,
              at_if (existsb (λ n, negb (dhas n properties)) required) pointer
                (quoted "required" ++ " lists a property that " ++ quoted "properties" ++ " does not declare")
                ≫= λ _,
              at_if (negb (forallb (λ n, bool_decide (n ∈ required)) (dkeys properties))) pointer
                ("an object must list every property in " ++ quoted "required" ++ "; use type [T, "
                 ++ quoted "null" ++ "] for an optional value") ≫= λ _,
              Ok properties
          | None => _at pointer (quoted "required" ++ " must list property names once each")
          end
      | _ => _at pointer ("an object must list every property in " ++ quoted "required")
      end
  | _ => _at pointer ("an object requires a " ++ quoted "properties" ++ " object")
  end.

(** One numeric bound; [Some None] when the keyword is absent. *)
Definition numeric_bound (node : dict json) (pointer keyword : pystr) : res (option Decimal) :=
  match dget keyword node with
  | None => Ok None
  | Some v =>
      match bounded_json v with
      | Some d => Ok (Some d)
      | None => _at pointer (quoted keyword ++ " is a number that is out of range")
      end
  end.

Definition check_numeric (node : dict json) (pointer : pystr) : res unit :=
  low ← numeric_bound node pointer "minimum";
  high ← numeric_bound node pointer "maximum";
  match low, high with
  | Some l, Some h => at_if (dlt h l) pointer (quoted "minimum" ++ " exceeds " ++ quoted "maximum")
  | _, _ => Ok ()
  end.

Definition check_string (node : dict json) (pointer : pystr) : res unit :=
  match dget "format" node with
  | Some (JStr f) => at_if (negb (bool_decide (f ∈ _FORMATS))) pointer
                       (quoted "format" ++ " must be date-time, date, time, or uuid")
  | Some _ => _at pointer (quoted "format" ++ " must be date-time, date, time, or uuid")
  | None => Ok ()
  end ≫= λ _,
  _count_bound node pointer "minLength" "maxLength".

(** [sorted(d.items())]. *)
Definition sorted_members {A} (d : dict A) : list (pystr * A) := sort_by fst d.

(** The checks of [_check_node] before it looks at its children: the primary type. *)
Definition check_here (node : dict json) (pointer : pystr) : res pystr :=
  for_each (check_keyword pointer) (sort_by id (dkeys node)) ≫= λ _,
  '(primary, _) ← _schema_type node pointer;
  for_each (check_keyword_type pointer primary) (sort_by id (dkeys node)) ≫= λ _,
  for_each (check_text_keyword node pointer) [lit "description"; lit "title"] ≫= λ _,
  check_enum node pointer ≫= λ _,
  check_const node pointer ≫= λ _,
  Ok primary.

(** [_check_node] at depth [11 - levels]. *)
Fixpoint _check_node (levels : nat) (node : dict json) (pointer : pystr) : res unit :=
  match levels with
  | O => _at pointer "the schema is nested deeper than 10 levels"
  | S levels =>
      primary ← check_here node pointer;
      if bool_decide (primary = lit "object") then
        properties ← check_required node pointer;
        for_each (λ kv,
          let location := pointer ++ "/properties/" ++ _pointer (fst kv) in
          match snd kv with
          | JObj child => _check_node levels child location
          | _ => _at location "a property schema must be an object"
          end) (sorted_members properties)
      else if bool_decide (primary = lit "array") then
        _count_bound node pointer "minItems" "maxItems" ≫= λ _,
        match get "items" node with
        | JObj child => _check_node levels child (pointer ++ "/items")
        | _ => _at pointer ("an array requires an " ++ quoted "items" ++ " schema object")
        end
      else if bool_decide (primary = lit "string") then check_string node pointer
      else if numeric primary then check_numeric node pointer
      else Ok ()
  end.

Definition SCHEMA_LEVELS : nat := 10.

Definition name_char (c : N) : bool := is_alnum c || (c =? 95)%N || (c =? 45)%N.
(** [_NAME.fullmatch]. *)
Definition name_match (s : pystr) : bool :=
  (1 <=? length s)%nat && (length s <=? 64)%nat && forallb name_char s.

Section Canonical.
(** [json.loads] of the text [_go_json] produces. *)
Context (json_loads : pystr → res json).

Definition canonical_schema (output : StructuredOutput) : res (dict json) :=
  raise_if (negb (name_match (so_name output)))
    ValueError "structured output name must match ^[A-Za-z0-9_-]{1,64}$" ≫= λ _,
  raise_if (match so_schema output with JNull => true | _ => false end)
    ValueError "structured output schema is required" ≫= λ _,
  canonical ← match _go_json (so_schema output) ≫= json_loads with
              | Ok v => Ok v
              | Err e =>
                  if isinst e TypeError || isinst e ValueError || isinst e OverflowError
                  then raise ValueError "structured output schema must be JSON serializable"
                  else Err e
              end;
  match canonical with
  | JObj node =>
      '(primary, nullable) ← _schema_type node [];
      at_if (negb (bool_decide (primary = lit "object")) || nullable) []
        ("the root must have type " ++ quoted "object") ≫= λ _,
      _check_node SCHEMA_LEVELS node [] ≫= λ _, Ok node
  | _ => raise ValueError "structured output schema must be a JSON object"
  end.

(** The message of [_check_portable_request] before structured output is checked. *)
Definition portable_message (request : TextGenerationRequest) : pystr :=
  match messages request with
  | [] => "at least one message is required"
  | ms => if existsb (λ m, negb (truthy (m_text m))) ms then "every message requires text"
          else if (max_output_tokens request <? 0)%Z then "maxOutputTokens cannot be negative" else []
  end.

(** [_check_portable_request]: the retained schema and the message of the failure. *)
Definition _check_portable_request (request : TextGenerationRequest)
    : res (option (dict json) * option Failure.t) :=
  let failed message := Some (Failure.mk VALIDATION [] [] message) in
  let message := portable_message request in
  if truthy message then Ok (None, failed message)
  else
    match structured_output request with
    | None => Ok (None, None)
    | Some output =>
        match canonical_schema output with
        | Ok node => Ok (Some node, None)
        | Err e =>
            if isinst e LocationError
            then Ok (None, failed ("structured output schema is not portable " ++ exn_msg e))
            else if isinst e ValueError
            then Ok (None, if truthy (exn_msg e) then failed (exn_msg e) else None)
            else Err e
        end
    end.

Definition validate_portable_request (request : TextGenerationRequest) : res (option Failure.t) :=
  '(_, failure) ← _check_portable_request request; Ok failure.
End Canonical.

(** ** Provider-facing schemas *)

(** [visit] on one node whose children are already adjusted: moved keywords become constraints in
    the description, removed keywords go. *)
Definition move_keyword (acc : dict json * list pystr) (keyword : pystr) : res (dict json * list pystr) :=
  let '(node, constraints) := acc in
  match dget keyword node with
  | Some v => s ← _go_json v; Ok (ddel keyword node, constraints ++ [keyword ++ ": " ++ s])
  | None => Ok (node, constraints)
  end.

Fixpoint fold_res {A B} (f : A → B → res A) (a : A) (bs : list B) : res A :=
  match bs with
  | [] => Ok a
  | b :: bs' => a' ← f a b; fold_res f a' bs'
  end.

(** [sorted(set(keys))]. *)
Definition sorted_set (keys : list pystr) : list pystr := sort_by id (remove_dups keys).

(** [str(node.get("description", ""))] of a checked node. *)
Definition description_of (node : dict json) : pystr :=
  match get "description" node with JStr s => s | _ => [] end.

Definition adjust (rules : StructuredOutputRules) (node : dict json) : res (dict json) :=
  '(node, constraints) ← fold_res move_keyword (node, []) (sorted_set (keywords_moved_to_description rules));
  let node := match constraints with
              | [] => node
              | _ => dset "description"
                       (JStr (py_strip (description_of node ++ " (" ++ join ", " constraints ++ ")"))) node
              end in
  Ok (fold_left (λ n k, ddel k n) (keywords_removed rules) node).

(** [visit]: the property schemas and the item schema are visited too. *)
Fixpoint visit (rules : StructuredOutputRules) (schema : json) : res json :=
  match schema with
  | JObj d =>
      d ← (fix members (d : list (pystr * json)) : res (list (pystr * json)) :=
             match d with
             | [] => Ok []
             | (k, v) :: d' =>
                 v ← (if bool_decide (k = lit "properties") then
                        match v with
                        | JObj ps =>
                            ps ← (fix children (ps : list (pystr * json)) : res (list (pystr * json)) :=
                                    match ps with
                                    | [] => Ok []
                                    | (n, c) :: ps' => c ← visit rules c; r ← children ps'; Ok ((n, c) :: r)
                                    end) ps;
                            Ok (JObj ps)
                        | _ => raise AttributeError "'values'"
                        end
                      else if bool_decide (k = lit "items") then visit rules v
                      else Ok v);
                 r ← members d'; Ok ((k, v) :: r)
             end) d;
      d ← adjust rules d;
      Ok (JObj d)
  | _ => raise AttributeError "'pop'"
  end.

Definition transform_schema_for_provider (schema : dict json) (rules : StructuredOutputRules) : res json :=
  visit rules (JObj schema).

Definition json_object_instruction (output : StructuredOutput) (schema : json) : res pystr :=
  let name := go_string (so_name output) in
  text ← _go_json schema;
  Ok ("Respond with only one JSON object, without Markdown code fences, that matches the JSON Schema named "
      ++ name
      ++ (if truthy (so_description output) then " (" ++ so_description output ++ ")" else [])
      ++ [58; 10]%N ++ text).

(** ** Answers *)

(** A JSON value as the decoder builds it, with every number a [Decimal]. *)
Inductive answer :=
  | ANull
  | ABool (b : bool)
  | ANum (d : Decimal)
  | AStr (s : pystr)
  | AArr (items : list answer)
  | AObj (members : list (pystr * answer)).

Definition anumber (v : answer) : option Decimal := match v with ANum d => bounded_decimal d | _ => None end.

(** [_same_scalar] for an expected scalar, which every checked [enum] and [const] holds. *)
Definition _same_scalar (expected : json) (actual : answer) : bool :=
  match expected, actual with
  | JNull, ANull => true
  | JBool a, ABool b => Bool.eqb a b
  | JStr a, AStr b => bool_decide (a = b)
  | (JInt _ | JFloat _), ANum d =>
      match bounded_json expected, bounded_decimal d with
      | Some x, Some y => deq x y
      | None, None => true
      | _, _ => false
      end
  | _, _ => false
  end.

Definition type_matches (primary : pystr) (value : answer) : bool :=
  if bool_decide (primary = lit "object") then match value with AObj _ => true | _ => false end
  else if bool_decide (primary = lit "array") then match value with AArr _ => true | _ => false end
  else if bool_decide (primary = lit "string") then match value with AStr _ => true | _ => false end
  else if bool_decide (primary = lit "boolean") then match value with ABool _ => true | _ => false end
  else if bool_decide (primary = lit "number") then
    match anumber value with Some _ => true | None => false end
  else if bool_decide (primary = lit "integer") then
    match anumber value with Some d => dintegral d | None => false end
  else false.

Definition check_type (primary : pystr) (nullable : bool) (value : answer) (pointer : pystr) : res unit :=
  match value with
  | ANull => at_if (negb nullable && negb (bool_decide (primary = lit "null"))) pointer
               ("expected type " ++ primary ++ ", found null")
  | _ =>
      at_if (match value with ANum d => match bounded_decimal d with None => true | _ => false end | _ => false end)
        pointer "the number is out of range" ≫= λ _,
      at_if (negb (type_matches primary value)) pointer ("expected type " ++ primary)
  end.

Definition check_answer_enum (value : answer) (schema : dict json) (pointer : pystr) : res unit :=
  match dget "enum" schema with
  | None => Ok ()
  | Some (JArr items) =>
      at_if (negb (existsb (λ i, _same_scalar i value) items)) pointer "the value is not one of the enum values"
  | Some _ => raise TypeError "is not iterable"
  end.

Definition check_answer_const (value : answer) (schema : dict json) (pointer : pystr) : res unit :=
  match dget "const" schema with
  | None => Ok ()
  | Some c => at_if (negb (_same_scalar c value)) pointer "the value does not equal const"
  end.

(** [count < schema[key]] and [count > schema[key]]: an int compares with numbers only. *)
Definition compare_count (count : Z) (bound : json) : res (option comparison) :=
  match num_value bound with
  | Some f => Ok (fcmp (f_of_Z count) f)
  | None => raise TypeError "'<' not supported between instances"
  end.

Definition check_bound (count : Z) (schema : dict json) (pointer key : pystr) (bad : comparison)
    (reason : pystr) : res unit :=
  match dget key schema with
  | None => Ok ()
  | Some bound =>
      c ← compare_count count bound;
      at_if (bool_decide (c = Some bad)) pointer reason
  end.

Definition _validate_count (count : Z) (schema : dict json) (pointer minimum maximum unit_ : pystr)
    : res unit :=
  check_bound count schema pointer minimum Lt ("the value has fewer " ++ unit_ ++ " than " ++ minimum) ≫= λ _,
  check_bound count schema pointer maximum Gt ("the value has more " ++ unit_ ++ " than " ++ maximum).

(** ** Formats *)

Definition match_date (s : pystr) : bool :=
  match (y ← GoTime.take_digits 4 s; s ← GoTime.expect 45 (snd y);
         m ← GoTime.take_digits 2 s; s ← GoTime.expect 45 (snd m);
         d ← GoTime.take_digits 2 s; Some (fst y, fst m, fst d, snd d)) with
  | Some (y, m, d, []) => GoTime.date_valid (digits_value y) (digits_value m) (digits_value d)
  | _ => false
  end.

(** The offset [fromisoformat] accepts: strictly less than a day.  Digits are ASCII here; the
    library also skips other Unicode digits after the sixth of a fraction. *)
Definition match_time (s : pystr) : bool :=
  match (h ← GoTime.take_digits 2 s; s ← GoTime.expect 58 (snd h);
         m ← GoTime.take_digits 2 s; s ← GoTime.expect 58 (snd m);
         x ← GoTime.take_digits 2 s; f ← GoTime.match_fraction (snd x);
         o ← GoTime.match_offset (snd f); Some (fst h, fst m, fst x, o)) with
  | Some (h, m, x, o) =>
      (digits_value h <=? 23)%Z && (digits_value m <=? 59)%Z && (digits_value x <=? 59)%Z
      && (Z.abs (GoTime.offset_micros o) <? 86400000000)%Z
  | None => false
  end.

Definition uuid_shape : list nat := [8; 4; 4; 4; 12].
(** [_UUID.fullmatch]. *)
Definition uuid_match (s : pystr) : bool :=
  let groups := split_char 45 s in
  bool_decide (map (@length N) groups = uuid_shape) && forallb (forallb is_hex) groups.

Definition _matches_format (value format_name : pystr) : bool :=
  if bool_decide (format_name = lit "uuid") then uuid_match value
  else if bool_decide (format_name = lit "date-time") then
    match_date (take 10 value) && bool_decide (GoTime.expect 84 (drop 10 value) ≠ None)
    && match_time (drop 11 value)
  else if bool_decide (format_name = lit "date") then match_date value
  else if bool_decide (format_name = lit "time") then match_time value
  else false.

(** ** Validation of an answer *)

Definition check_answer_string (s : pystr) (schema : dict json) (pointer : pystr) : res unit :=
  _validate_count (Z.of_nat (length s)) schema pointer "minLength" "maxLength" "characters" ≫= λ _,
  match dget "format" schema with
  | None => Ok ()
  | Some (JStr f) => at_if (negb (_matches_format s f)) pointer ("the string does not match format " ++ f)
  | Some _ => raise TypeError "can only concatenate str"
  end.

Definition below (keyword : pystr) (number bound : Decimal) : bool :=
  if bool_decide (keyword = lit "minimum") then dlt number bound else dlt bound number.

Definition check_answer_bound (d : Decimal) (schema : dict json) (pointer keyword reason : pystr) : res unit :=
  match dget keyword schema with
  | None => Ok ()
  | Some v =>
      match bounded_json v, bounded_decimal d with
      | Some bound, Some number => at_if (below keyword number bound) pointer reason
      | _, _ => Ok ()
      end
  end.

(** [value[name]] for the members of an answer; the decoder keeps the last duplicate. *)
Definition declared (properties : dict json) (pointer name : pystr) : res unit :=
  at_if (negb (dhas name properties)) pointer "the object has a property the schema does not declare".

(** [for index, item in enumerate(value)]. *)
Fixpoint each_index {A} (f : nat → A → res unit) (index : nat) (xs : list A) : res unit :=
  match xs with
  | [] => Ok ()
  | x :: xs' => f index x ≫= λ _, each_index f (S index) xs'
  end.

(** [_validate_instance]; a checked schema has at most [SCHEMA_LEVELS] levels. *)
Fixpoint _validate_instance (levels : nat) (value : answer) (schema : json) (pointer : pystr) : res unit :=
  match levels, schema with
  | S levels, JObj schema =>
      '(primary, nullable) ← _schema_type schema pointer;
      check_type primary nullable value pointer ≫= λ _,
      check_answer_enum value schema pointer ≫= λ _,
      check_answer_const value schema pointer ≫= λ _,
      match value with
      | ANull | ABool _ => Ok ()
      | AObj members =>
          properties ← item "properties" schema;
          match properties with
          | JObj properties =>
              for_each (declared properties pointer) (sort_by id (dkeys members)) ≫= λ _,
              for_each (λ kv,
                let location := pointer ++ "/" ++ _pointer (fst kv) in
                match dget (fst kv) members with
                | None => _at location "a required property is missing"
                | Some v => _validate_instance levels v (snd kv) location
                end) (sorted_members properties)
          | _ => raise TypeError "argument is not iterable"
          end
      | AArr items =>
          _validate_count (Z.of_nat (length items)) schema pointer "minItems" "maxItems" "items" ≫= λ _,
          each_index (λ index v,
            child ← item "items" schema;
            _validate_instance levels v child (pointer ++ "/" ++ str_of_Z (Z.of_nat index))) 0 items
      | AStr s => check_answer_string s schema pointer
      | ANum d =>
          check_answer_bound d schema pointer "minimum" "the value is below minimum" ≫= λ _,
          check_answer_bound d schema pointer "maximum" "the value is above maximum"
      end
  | S _, _ => raise AttributeError "'get'"
  | O, _ => raise RuntimeError "maximum recursion depth exceeded"
  end.

(** The text between one pair of JSON code fences. *)
Definition fence : pystr := "```".
Definition unfenced (generated_text : pystr) : pystr :=
  let text := py_strip generated_text in
  if starts_with fence text && ends_with fence text then
    let inside := drop 3 (take (length text - 3) text) in
    match partition_char 10 inside with
    | (info, Some contents) =>
        let info := ascii_lower (py_strip info) in
        if negb (truthy info) || bool_decide (info = lit "json") then py_strip contents else text
    | _ => text
    end
  else text.

Section Answer.
(** [decoder.raw_decode]: the value and the end of it; a [ValueError] stands for the decoder's
    [JSONDecodeError] and [InvalidOperation]. *)
Context (raw_decode : pystr → res (answer * nat)).

Definition decode_answer (text : pystr) : res answer :=
  match raw_decode text with
  | Ok (value, stop) =>
      at_if (truthy (py_strip (drop stop text))) [] "the text has data after the JSON value" ≫= λ _, Ok value
  | Err e => if bool_decide (exn_cls e = ValueError) then _at [] "the text is not one JSON value" else Err e
  end.

Definition _extract_structured_answer_from_schema (schema : dict json) (generated_text : pystr) : res pystr :=
  let text := unfenced generated_text in
  value ← decode_answer text;
  _validate_instance SCHEMA_LEVELS value (JObj schema) [] ≫= λ _, Ok text.

Definition extract_structured_answer (json_loads : pystr → res json) (request : TextGenerationRequest)
    (generated_text : pystr) : res pystr :=
  match structured_output request with
  | None => Ok generated_text
  | Some output =>
      schema ← canonical_schema json_loads output;
      _extract_structured_answer_from_schema schema generated_text
  end.
End Answer.

(** ** What types, values and formats mean

    Stated without the checks of the program: numbers by their rational values, dates by the calendar,
    texts by their shape. *)

Module Leaves.

Definition value_of (d : Decimal) : Q := inject_Z (signed_coefficient d) * Qmake 10 1 ^ d_exponent d.

Lemma ten_pos e : (0 < Qmake 10 1 ^ e)%Q.
Proof. by apply Qpower_0_lt. Qed.

Lemma ten_nonzero e : ¬ (Qmake 10 1 ^ e == 0)%Q.
Proof. intros H. pose proof (ten_pos e) as Hp. rewrite H in Hp. by apply Qlt_irrefl in Hp. Qed.

Lemma ten_power n : (0 <= n)%Z → (inject_Z (10 ^ n) == Qmake 10 1 ^ n)%Q.
Proof. intros Hn. by rewrite Zpower_Qpower. Qed.

(** A decimal as an integer at a smaller exponent. *)
Lemma value_at d e : (e <= d_exponent d)%Z →
  (value_of d == inject_Z (signed_coefficient d * 10 ^ (d_exponent d - e)) * Qmake 10 1 ^ e)%Q.
Proof.
  intros He. unfold value_of. rewrite inject_Z_mult, ten_power by lia. rewrite <- Qmult_assoc, <- Qpower_plus by done.
  by replace (d_exponent d - e + e)%Z with (d_exponent d) by lia.
Qed.

Lemma scaled_lt a b e : (inject_Z a * Qmake 10 1 ^ e < inject_Z b * Qmake 10 1 ^ e)%Q ↔ (a < b)%Z.
Proof. rewrite Qmult_lt_r by apply ten_pos. by rewrite <- Zlt_Qlt. Qed.

Lemma scaled_eq a b e : (inject_Z a * Qmake 10 1 ^ e == inject_Z b * Qmake 10 1 ^ e)%Q ↔ a = b.
Proof. rewrite Qmult_inj_r by apply ten_nonzero. apply inject_Z_injective. Qed.

Lemma dlt_value x y : dlt x y = true ↔ (value_of x < value_of y)%Q.
Proof.
  unfold dlt, dcompare. set (e := Z.min _ _). rewrite (value_at x e), (value_at y e), scaled_lt by (subst e; lia).
  destruct (Z.compare_spec (signed_coefficient x * 10 ^ (d_exponent x - e)) (signed_coefficient y * 10 ^ (d_exponent y - e)));
    split; (done || lia).
Qed.

Lemma deq_value x y : deq x y = true ↔ (value_of x == value_of y)%Q.
Proof.
  unfold deq, dcompare. set (e := Z.min _ _). rewrite (value_at x e), (value_at y e), scaled_eq by (subst e; lia).
  destruct (Z.compare_spec (signed_coefficient x * 10 ^ (d_exponent x - e)) (signed_coefficient y * 10 ^ (d_exponent y - e)));
    split; (done || lia).
Qed.

Lemma dintegral_value d : dintegral d = true ↔ ∃ z, (value_of d == inject_Z z)%Q.
Proof.
  unfold dintegral. destruct (Z.leb_spec 0 (d_exponent d)) as [He|He]; cbn [orb].
  - split; [intros _|done]. exists (signed_coefficient d * 10 ^ d_exponent d)%Z.
    by rewrite inject_Z_mult, ten_power.
  - set (p := (10 ^ (- d_exponent d))%Z). assert (Hp : (0 < p)%Z) by (apply Z.pow_pos_nonneg; lia).
    assert (Hz : ∀ z, (value_of d == inject_Z z)%Q ↔ signed_coefficient d = (z * p)%Z).
    { intros z. unfold value_of. rewrite <- (scaled_eq _ (z * p) (d_exponent d)).
      assert (inject_Z (z * p) * Qmake 10 1 ^ d_exponent d == inject_Z z)%Q as ->; [|done].
      unfold p. rewrite inject_Z_mult, ten_power by lia. rewrite <- Qmult_assoc, <- Qpower_plus by done.
      replace (- d_exponent d + d_exponent d)%Z with 0%Z by lia. change (Qmake 10 1 ^ 0)%Q with 1%Q. apply Qmult_1_r. }
    rewrite Z.eqb_eq. unfold signed_coefficient in Hz. split.
    + intros Hm%Z.mod_divide; [|lia]. destruct Hm as [q Hq].
      exists (if d_negative d then (- q)%Z else q). apply Hz. destruct (d_negative d); lia.
    + intros [z H%Hz]. apply Z.mod_divide; [lia|].
      destruct (d_negative d); [exists (- z)%Z|exists z]; lia.
Qed.

(** The rational value of a JSON number: a float counts as its [repr], the shortest decimal that reads
    back as it. *)
Definition number_value (v : json) : option Q :=
  match v with
  | JInt z => Some (inject_Z z)
  | JFloat (FFin m e) => Some (value_of (decimal_of_float m e))
  | _ => None
  end.

Lemma bounded_value v b : bounded_json v = Some b → ∃ q, number_value v = Some q ∧ (q == value_of b)%Q.
Proof.
  destruct v as [| |z|[m e| |]| | |]; cbn [bounded_json number_value]; try done.
  - destruct (_ <? _)%nat; [done|]. intros [= <-]. eexists. split; [done|]. unfold value_of, decimal_of_Z, signed_coefficient.
    cbn [d_negative d_coefficient d_exponent]. change (Qmake 10 1 ^ 0)%Q with 1%Q. rewrite Qmult_1_r.
    apply inject_Z_injective. destruct (Z.ltb_spec z 0); lia.
  - intros [= <-]. by eexists.
Qed.

(** A number that is not too long and whose exponent, if it is written with one, is not too large. *)
Definition moderate (d : Decimal) : Prop :=
  (length (decimal_str d) <= 256)%nat ∧ (dscientific d = true → (Z.abs (dpoint d - 1) <= 400)%Z).

Lemma bounded_cases d : (moderate d ∧ bounded_decimal d = Some d) ∨ (¬ moderate d ∧ bounded_decimal d = None).
Proof.
  unfold bounded_decimal, moderate. destruct (Nat.ltb_spec 256 (length (decimal_str d))) as [H|H]; [right; split; [lia|done]|].
  destruct (dscientific d); cbn [andb]; [|left; by split_and!].
  destruct (Z.ltb_spec 400 (Z.abs (dpoint d - 1))) as [Hl|Hl]; [right; split; [|done]|left; split_and!; [lia|intros _; lia|done]].
  intros [_ Hc]. specialize (Hc eq_refl). lia.
Qed.

Lemma bounded_moderate d : bounded_decimal d = Some d ↔ moderate d.
Proof. destruct (bounded_cases d) as [[H ->]|[H ->]]; by split. Qed.

(** The type of a value other than null. *)
Inductive has_type : pystr → answer → Prop :=
  | has_object members : has_type "object" (AObj members)
  | has_array items : has_type "array" (AArr items)
  | has_string s : has_type "string" (AStr s)
  | has_boolean b : has_type "boolean" (ABool b)
  | has_number d : moderate d → has_type "number" (ANum d)
  | has_integer d z : moderate d → (value_of d == inject_Z z)%Q → has_type "integer" (ANum d).

Lemma has_type_iff primary value : has_type primary value ↔ type_matches primary value = true.
Proof.
  unfold type_matches. split.
  - intros H. destruct H as [members|items|s|b|d Hd|d z Hd Hz]; try reflexivity;
      unfold anumber; apply bounded_moderate in Hd; cbn -[bounded_decimal dintegral]; rewrite Hd; [done|].
    apply dintegral_value. by exists z.
  - repeat case_bool_decide; subst; try discriminate; destruct value as [|b|d|s|l|m]; try discriminate; intros Hm; try constructor;
      unfold anumber in Hm.
    + destruct (bounded_cases d) as [[Hd _]|[_ E]]; [done|by rewrite E in Hm].
    + destruct (bounded_cases d) as [[Hd E]|[_ E]]; rewrite E in Hm; [|done].
      apply dintegral_value in Hm as [z Hz]. by apply (has_integer d z).
Qed.

(** An enumerated or constant scalar and an equal value. *)
Inductive same_scalar : json → answer → Prop :=
  | same_null : same_scalar JNull ANull
  | same_bool b : same_scalar (JBool b) (ABool b)
  | same_string s : same_scalar (JStr s) (AStr s)
  | same_number v d q : number_value v = Some q → (q == value_of d)%Q → same_scalar v (ANum d).

Lemma same_scalar_iff expected value : unbounded_number expected = false →
  match value with ANum d => moderate d | _ => True end →
  same_scalar expected value ↔ _same_scalar expected value = true.
Proof.
  intros Hu Hv. split.
  - intros H. destruct H as [|b|s|v d q Hq He]; [done|by destruct b|by apply bool_decide_eq_true_2|].
    apply bounded_moderate in Hv. unfold unbounded_number in Hu. destruct v as [| |z|f| | |]; try discriminate Hq;
      cbn [_number_like andb _same_scalar] in *; rewrite Hv;
      (destruct (bounded_json _) as [b|] eqn:Eb; [|done]); apply bounded_value in Eb as (q' & Hq' & Hb);
      apply deq_value; rewrite Hq in Hq'; injection Hq' as <-; by rewrite <- Hb, He.
  - destruct expected as [|b|z|f|s|l|m], value as [|b'|d|s'|l'|m']; cbn [_same_scalar]; try discriminate;
      try (intros _; constructor); try (apply bounded_moderate in Hv; rewrite Hv);
      unfold unbounded_number in Hu; cbn [_number_like andb] in Hu.
    + intros H%eqb_prop. subst b'. constructor.
    + destruct (bounded_json (JInt z)) as [b|] eqn:Eb; [|done]. apply bounded_value in Eb as (q & Hq & Hb).
      intros H%deq_value. apply (same_number _ d q Hq). by rewrite Hb.
    + destruct (bounded_json (JFloat f)) as [b|] eqn:Eb; [|done]. apply bounded_value in Eb as (q & Hq & Hb).
      intros H%deq_value. apply (same_number _ d q Hq). by rewrite Hb.
    + intros H%bool_decide_eq_true. subst s'. constructor.
Qed.

(** *** Formats *)

Definition leap_year (y : Z) : Prop := ((4 | y) ∧ ¬ (100 | y) ∨ (400 | y))%Z.

(** A day of the Gregorian calendar, in the years that dates have. *)
Definition calendar_day (y m d : Z) : Prop :=
  (1 <= y <= 9999 ∧ 1 <= m <= 12 ∧ 1 <= d <= 31 ∧
   (m = 4 ∨ m = 6 ∨ m = 9 ∨ m = 11 → d <= 30) ∧ (m = 2 → d <= 29 ∧ (d = 29 → leap_year y)))%Z.

Lemma leap_year_iff y : GoTime.is_leap y = true ↔ leap_year y.
Proof.
  unfold GoTime.is_leap, leap_year. rewrite andb_true_iff, orb_true_iff, negb_true_iff, !Z.eqb_eq, Z.eqb_neq.
  rewrite <- !Z.mod_divide by lia. split; [tauto|]. intros [?|H]; [tauto|].
  split; [|tauto]. apply Z.mod_divide in H; [|lia]. destruct H as [k ->]. apply Z.mod_divide; [lia|]. exists (k * 100)%Z. lia.
Qed.

Lemma calendar_day_iff y m d : GoTime.date_valid y m d = true ↔ calendar_day y m d.
Proof.
  unfold GoTime.date_valid, calendar_day. rewrite !andb_true_iff, !Z.leb_le. rewrite <- leap_year_iff.
  unfold GoTime.days_in_month.
  destruct (Z.eqb_spec m 2) as [->|H2]; [destruct (GoTime.is_leap y); intuition (try discriminate; lia)|].
  destruct (Z.eqb_spec m 4), (Z.eqb_spec m 6), (Z.eqb_spec m 9), (Z.eqb_spec m 11); cbn [orb]; intuition lia.
Qed.

Notation digits := GoTime.digits_of.

(** [YYYY-MM-DD], a day of the calendar. *)
Definition is_date (s : pystr) : Prop :=
  ∃ y m d, s = y ++ 45%N :: m ++ 45%N :: d ∧ digits 4 y ∧ digits 2 m ∧ digits 2 d ∧
    calendar_day (digits_value y) (digits_value m) (digits_value d).

(** [Z], or a sign, hours and minutes that are less than a day. *)
Definition is_offset (s : pystr) : Prop :=
  s = lit "Z" ∨
  ∃ sign h m, s = sign :: h ++ 58%N :: m ∧ (sign = 43%N ∨ sign = 45%N) ∧ digits 2 h ∧ digits 2 m ∧
    (digits_value h * 60 + digits_value m < 1440)%Z.

(** [HH:MM:SS], a fraction after a point or comma, and an offset. *)
Definition is_time (s : pystr) : Prop :=
  ∃ h m x fraction offset, s = h ++ 58%N :: m ++ 58%N :: x ++ fraction ++ offset ∧
    digits 2 h ∧ digits 2 m ∧ digits 2 x ∧
    (digits_value h <= 23)%Z ∧ (digits_value m <= 59)%Z ∧ (digits_value x <= 59)%Z ∧
    (fraction = [] ∨ ∃ sep ds, (sep = 46%N ∨ sep = 44%N) ∧ ds ≠ [] ∧ forallb is_digit ds = true ∧ fraction = sep :: ds) ∧
    is_offset offset.

Definition hex_digit (c : N) : Prop := (48 <= c <= 57 ∨ 65 <= c <= 70 ∨ 97 <= c <= 102)%N.
Definition hex_group (n : nat) (s : pystr) : Prop := length s = n ∧ Forall hex_digit s.

Definition is_uuid (s : pystr) : Prop :=
  ∃ a b c d e, s = a ++ 45%N :: b ++ 45%N :: c ++ 45%N :: d ++ 45%N :: e ∧
    hex_group 8 a ∧ hex_group 4 b ∧ hex_group 4 c ∧ hex_group 4 d ∧ hex_group 12 e.

(** What a string of a format is. *)
Inductive has_format : pystr → pystr → Prop :=
  | format_uuid s : is_uuid s → has_format "uuid" s
  | format_date s : is_date s → has_format "date" s
  | format_time s : is_time s → has_format "time" s
  | format_date_time d t : is_date d → is_time t → has_format "date-time" (d ++ 84%N :: t).

Lemma match_date_iff s : match_date s = true ↔ is_date s.
Proof.
  unfold match_date, is_date. split.
  - destruct (_ ≫= _) as [[[[y m] d] rest]|] eqn:E; [|done]. destruct rest; [|done]. intros Hv%calendar_day_iff.
    apply bind_Some in E as ([y' s1] & [Hy ->]%GoTime.take_digits_Some & E). cbn [snd] in E.
    apply bind_Some in E as (s2 & ->%GoTime.expect_Some & E).
    apply bind_Some in E as ([m' s3] & [Hm ->]%GoTime.take_digits_Some & E). cbn [snd] in E.
    apply bind_Some in E as (s4 & ->%GoTime.expect_Some & E).
    apply bind_Some in E as ([d' s5] & [Hd ->]%GoTime.take_digits_Some & E). cbn [fst snd] in E.
    injection E as -> -> -> ->. exists y, m, d. rewrite app_nil_r. by split_and!.
  - intros (y & m & d & -> & Hy & Hm & Hd & Hv%calendar_day_iff).
    rewrite (GoTime.take_digits_app 4) by done. cbn [mbind option_bind snd]. rewrite GoTime.expect_cons. cbn [mbind option_bind].
    rewrite (GoTime.take_digits_app 2) by done. cbn [mbind option_bind snd]. rewrite GoTime.expect_cons. cbn [mbind option_bind].
    rewrite <- (app_nil_r d), (GoTime.take_digits_app 2) by done. cbn [mbind option_bind fst snd]. exact Hv.
Qed.

Lemma offset_iff s : (∃ o, GoTime.match_offset s = Some o ∧ (Z.abs (GoTime.offset_micros o) <? 86400000000)%Z = true) ↔ is_offset s.
Proof.
  assert (Hform : ∀ sign h m, (sign = 43%N ∨ sign = 45%N) → digits 2 h → digits 2 m →
    Z.abs (GoTime.offset_micros (sign :: h ++ 58%N :: m)) = ((digits_value h * 60 + digits_value m) * 60000000)%Z).
  { intros sign h m Hs Hh Hm. pose proof (GoTime.hour_value h (or_intror Hh)). pose proof (GoTime.hour_value m (or_intror Hm)).
    destruct Hh as [Hh1 _], Hm as [Hm1 _]. destruct h as [|h1 [|h2 [|]]]; try discriminate Hh1. destruct m as [|m1 [|m2 [|]]]; try discriminate Hm1.
    unfold GoTime.offset_micros, GoTime.is_zulu, GoTime.offset_hours, GoTime.offset_minutes.
    rewrite bool_decide_eq_false_2 by (by destruct Hs as [-> | ->]). cbn [app take drop].
    destruct (starts_with _ _); lia. }
  unfold is_offset. split.
  - intros (o & Ho & Hb%Z.ltb_lt). apply GoTime.match_offset_Some in Ho as [[->|(sign & h & m & Hs & Hh & Hm & ->)] ->]; [by left|right].
    exists sign, h, m. rewrite (Hform _ _ _ Hs Hh Hm) in Hb. split_and!; try done. lia.
  - intros [->|(sign & h & m & -> & Hs & Hh & Hm & Hb)]; [by exists (lit "Z")|].
    eexists. split; [apply GoTime.match_offset_form; right; exists sign, h, m; by split_and!|].
    apply Z.ltb_lt. rewrite (Hform _ _ _ Hs Hh Hm). lia.
Qed.

Lemma is_offset_head s : is_offset s → ∃ c r, s = c :: r ∧ is_digit c = false ∧ c ≠ 46%N ∧ c ≠ 44%N.
Proof. intros [->|(sign & h & m & -> & [-> | ->] & _)]; by eexists _, _. Qed.

Lemma fraction_iff s f rest : GoTime.match_fraction s = Some (f, rest) → ∃ fraction, s = fraction ++ rest ∧
  (fraction = [] ∨ ∃ sep ds, (sep = 46%N ∨ sep = 44%N) ∧ ds ≠ [] ∧ forallb is_digit ds = true ∧ fraction = sep :: ds).
Proof.
  unfold GoTime.match_fraction. destruct s as [|c s]; [intros [= <- <-]; exists []; auto|].
  destruct ((c =? 46)%N || (c =? 44)%N) eqn:Hc; [|intros [= <- <-]; exists []; auto].
  destruct (GoTime.span_digits s) as [ds r] eqn:Hs. apply GoTime.span_digits_eq in Hs as [-> Hd].
  destruct ds as [|x ds]; [done|]. intros [= <- <-]. exists (c :: x :: ds). split; [done|]. right. exists c, (x :: ds).
  split_and!; try done. apply orb_prop in Hc as [?%N.eqb_eq|?%N.eqb_eq]; auto.
Qed.

Lemma fraction_match fraction offset : is_offset offset →
  (fraction = [] ∨ ∃ sep ds, (sep = 46%N ∨ sep = 44%N) ∧ ds ≠ [] ∧ forallb is_digit ds = true ∧ fraction = sep :: ds) →
  ∃ f, GoTime.match_fraction (fraction ++ offset) = Some (f, offset).
Proof.
  intros (c & r & -> & Hc & H46 & H44)%is_offset_head [->|(sep & ds & Hs & Hne & Hd & ->)]; unfold GoTime.match_fraction; cbn [app].
  - exists None. by rewrite (proj2 (N.eqb_neq c 46)), (proj2 (N.eqb_neq c 44)) by done.
  - exists (Some ds). replace ((sep =? 46)%N || (sep =? 44)%N) with true by (by destruct Hs as [-> | ->]).
    rewrite GoTime.span_digits_app; [by destruct ds|done|]. by intros ? ? [= <- <-].
Qed.

Lemma match_time_iff s : match_time s = true ↔ is_time s.
Proof.
  unfold match_time, is_time. split.
  - destruct (_ ≫= _) as [[[[h m] x] o]|] eqn:E; [|done]. rewrite !andb_true_iff, !Z.leb_le. intros [[[Hh Hm] Hx] Ho].
    apply bind_Some in E as ([h' s1] & [Hh' ->]%GoTime.take_digits_Some & E). cbn [snd] in E.
    apply bind_Some in E as (s2 & ->%GoTime.expect_Some & E).
    apply bind_Some in E as ([m' s3] & [Hm' ->]%GoTime.take_digits_Some & E). cbn [snd] in E.
    apply bind_Some in E as (s4 & ->%GoTime.expect_Some & E).
    apply bind_Some in E as ([x' s5] & [Hx' ->]%GoTime.take_digits_Some & E). cbn [fst snd] in E.
    apply bind_Some in E as ([f s6] & (fraction & -> & Hf)%fraction_iff & E). cbn [snd] in E.
    apply bind_Some in E as (o' & Eo & [= -> -> -> ->]).
    exists h, m, x, fraction, s6. split_and!; try done. apply offset_iff. by exists o.
  - intros (h & m & x & fraction & offset & -> & Hh & Hm & Hx & H1 & H2 & H3 & Hf & Ho).
    destruct (fraction_match fraction offset Ho Hf) as [f Ef]. apply offset_iff in Ho as (o & Eo & Hb).
    rewrite (GoTime.take_digits_app 2) by done. cbn [mbind option_bind snd]. rewrite GoTime.expect_cons. cbn [mbind option_bind].
    rewrite (GoTime.take_digits_app 2) by done. cbn [mbind option_bind snd]. rewrite GoTime.expect_cons. cbn [mbind option_bind].
    rewrite (GoTime.take_digits_app 2) by done. cbn [mbind option_bind fst snd]. rewrite Ef. cbn [mbind option_bind fst snd].
    rewrite Eo. cbn [mbind option_bind]. rewrite !andb_true_iff, !Z.leb_le. auto.
Qed.

Lemma hex_iff s : forallb is_hex s = true ↔ Forall hex_digit s.
Proof.
  rewrite forallb_forall, Forall_forall. assert (Hc : ∀ c, is_hex c = true ↔ hex_digit c).
  { intros c. unfold is_hex, is_lower_hex, is_digit, in_range, hex_digit. rewrite !orb_true_iff, !andb_true_iff, !N.leb_le. tauto. }
  split; intros H c Hin; apply Hc, H; by apply list_elem_of_In.
Qed.

Lemma hex_no_dash n s : hex_group n s → 45%N ∉ s.
Proof. intros [_ Hh] Hin. rewrite Forall_forall in Hh. specialize (Hh _ Hin). unfold hex_digit in Hh. lia. Qed.

Lemma split_parts sep s : split_char sep s = [s] ∨ ∃ a r, s = a ++ sep :: r ∧ split_char sep s = a :: split_char sep r.
Proof.
  induction s as [|c s IH]; [by left|]. cbn [split_char]. destruct (N.eqb_spec c sep) as [->|Hc]; [right; by exists [], s|].
  destruct IH as [->|(a & r & -> & ->)]; [by left|right]. by exists (c :: a), r.
Qed.

Lemma split_one sep s x : split_char sep s = [x] → s = x.
Proof.
  destruct (split_parts sep s) as [->|(a & r & -> & ->)]; [by intros [= ->]|]. intros [= _ H].
  by destruct (split_parts sep r) as [E|(? & ? & _ & E)]; rewrite E in H.
Qed.

Lemma split_more sep s x y l : split_char sep s = x :: y :: l → ∃ r, s = x ++ sep :: r ∧ split_char sep r = y :: l.
Proof. destruct (split_parts sep s) as [->|(a & r & -> & ->)]; [done|]. intros [= -> H]. by exists r. Qed.

Lemma uuid_match_iff s : uuid_match s = true ↔ is_uuid s.
Proof.
  unfold uuid_match, is_uuid. rewrite andb_true_iff, bool_decide_eq_true. split.
  - destruct (split_char 45 s) as [|a [|b [|c [|d [|e [|]]]]]] eqn:E; intros [Hl Hh]; try discriminate Hl.
    injection Hl as Ha Hb Hc Hd He. cbn [forallb] in Hh. rewrite !andb_true_iff, !hex_iff in Hh. destruct Hh as (? & ? & ? & ? & ? & _).
    apply split_more in E as (r & -> & E). apply split_more in E as (r2 & -> & E). apply split_more in E as (r3 & -> & E).
    apply split_more in E as (r4 & -> & ->%split_one). exists a, b, c, d, e. by split_and!.
  - intros (a & b & c & d & e & -> & Ha & Hb & Hc & Hd & He).
    rewrite (split_char_at 45 a), (split_char_at 45 b), (split_char_at 45 c), (split_char_at 45 d), split_char_none by (by eapply hex_no_dash).
    destruct Ha as [Ha ?], Hb as [Hb ?], Hc as [Hc ?], Hd as [Hd ?], He as [He ?].
    cbn [map forallb]. rewrite Ha, Hb, Hc, Hd, He, !andb_true_iff, !hex_iff. by split_and!.
Qed.

Lemma date_length s : is_date s → length s = 10%nat.
Proof.
  intros (y & m & d & -> & [Hy _] & [Hm _] & [Hd _] & _). rewrite length_app. cbn [length]. rewrite length_app. cbn [length]. lia.
Qed.

Lemma has_format_iff name s : has_format name s ↔ _matches_format s name = true.
Proof.
  unfold _matches_format. split.
  - intros H. destruct H as [s H|s H|s H|d t Hd Ht].
    + by apply uuid_match_iff.
    + by apply match_date_iff.
    + by apply match_time_iff.
    + pose proof (date_length d Hd) as Hl.
      change (bool_decide (lit "date-time" = lit "uuid")) with false. change (bool_decide (lit "date-time" = lit "date-time")) with true. cbv iota.
      replace (take 10 (d ++ 84%N :: t)) with d by (rewrite <- Hl; by rewrite take_app_length).
      replace (drop 10 (d ++ 84%N :: t)) with (84%N :: t) by (rewrite <- Hl; by rewrite drop_app_length).
      replace (drop 11 (d ++ 84%N :: t)) with t by (rewrite <- (drop_drop _ 1 10), <- Hl; by rewrite drop_app_length).
      rewrite GoTime.expect_cons, (proj2 (match_date_iff d) Hd), (proj2 (match_time_iff t) Ht). reflexivity.
  - case_bool_decide as H1; [subst; intros H; by apply format_uuid, uuid_match_iff|].
    case_bool_decide as H2; [subst|].
    { rewrite !andb_true_iff, bool_decide_eq_true. intros [[Hd%match_date_iff Hx] Ht%match_time_iff].
      destruct (GoTime.expect 84 (drop 10 s)) as [r|] eqn:E; [|done]. apply GoTime.expect_Some in E.
      replace (drop 11 s) with r in Ht by (rewrite <- (drop_drop _ 1 10), E; reflexivity).
      rewrite <- (take_drop 10 s), E. by apply format_date_time. }
    case_bool_decide as H3; [subst; intros H; by apply format_date, match_date_iff|].
    case_bool_decide as H4; [subst; intros H; by apply format_time, match_time_iff|done].
Qed.

End Leaves.

(** ** What the validation promises *)

Module AnswerFacts.
Import Leaves.

(** A check that decides [P]: it succeeds exactly when [P] holds, and otherwise fails with the
    located error the callers turn into a route. *)
Definition decides (m : res unit) (P : Prop) : Prop :=
  (m = Ok () ∧ P) ∨ (∃ e, m = Err e ∧ exn_cls e = LocationError ∧ ¬ P).

Lemma decides_iff m P Q : decides m P → (P ↔ Q) → decides m Q.
Proof. unfold decides. intros [[? ?]|(e & ? & ? & ?)] HPQ; [left; tauto|right; exists e; tauto]. Qed.

(** Equivalent propositions may be exchanged under [decides]. *)
#[export] Instance decides_proper m : Proper (iff ==> iff) (decides m).
Proof. intros P Q HPQ. split; intros H; by eapply decides_iff. Qed.

Lemma decides_Ok (P : Prop) : P → decides (Ok ()) P.
Proof. by left. Qed.

Lemma decides_at_if b pointer reason : decides (at_if b pointer reason) (b = false).
Proof. destruct b; [right; by eexists|by left]. Qed.

Lemma decides_bind m f P Q : decides m P → (P → decides (f ()) Q) → decides (m ≫= f) (P ∧ Q).
Proof.
  intros [[-> HP]|(e & -> & He & HP)] Hf; [|right; exists e; cbn; tauto].
  destruct (Hf HP) as [[? ?]|(e & ? & ? & ?)]; [left; cbn; tauto|right; exists e; cbn; tauto].
Qed.

Lemma decides_for_each {A} (f : A → res unit) (P : A → Prop) xs :
  (∀ x, x ∈ xs → decides (f x) (P x)) → decides (for_each f xs) (∀ x, x ∈ xs → P x).
Proof.
  induction xs as [|x xs IH]; intros Hf; cbn [for_each].
  - apply decides_Ok. by intros x ?%elem_of_nil.
  - eapply decides_iff.
    + apply decides_bind; [apply Hf; left|intros _; apply IH; intros y Hy; apply Hf; by right].
    + split; [intros [Hx Hxs] y [->|Hy]%elem_of_cons; auto|].
      intros Hall. split; [apply Hall; left|intros y Hy; apply Hall; by right].
Qed.

Lemma decides_each_index {A} (f : nat → A → res unit) (P : A → Prop) xs i :
  (∀ i x, x ∈ xs → decides (f i x) (P x)) → decides (each_index f i xs) (∀ x, x ∈ xs → P x).
Proof.
  revert i. induction xs as [|x xs IH]; intros i Hf; cbn [each_index].
  - apply decides_Ok. by intros x ?%elem_of_nil.
  - eapply decides_iff.
    + apply decides_bind; [apply Hf; left|intros _; apply IH; intros j y Hy; apply Hf; by right].
    + split; [intros [Hx Hxs] y [->|Hy]%elem_of_cons; auto|].
      intros Hall. split; [apply Hall; left|intros y Hy; apply Hall; by right].
Qed.

(** *** The specification *)

Definition within (count : Z) (node : dict json) (minimum maximum : pystr) : Prop :=
  (∀ l, count_bound_value (get minimum node) = Some (Some l) → (l <= count)%Z) ∧
  (∀ h, count_bound_value (get maximum node) = Some (Some h) → (count <= h)%Z).

(** What the "type" keyword of a node says: one type, or a type and null. *)
Inductive declares (node : dict json) : pystr → bool → Prop :=
  | declares_one p : get "type" node = JStr p → declares node p false
  | declares_nullable p : p ≠ lit "null" →
      get "type" node = JArr [JStr p; JStr "null"] ∨ get "type" node = JArr [JStr "null"; JStr p] → declares node p true.

Definition typed_value (value : answer) (node : dict json) : Prop :=
  ∃ primary nullable, declares node primary nullable ∧
    match value with
    | ANull => nullable = true ∨ primary = lit "null"
    | _ => has_type primary value
    end.

Definition listed (value : answer) (node : dict json) : Prop :=
  (∀ items, dget "enum" node = Some (JArr items) → ∃ i, i ∈ items ∧ same_scalar i value) ∧
  (∀ c, dget "const" node = Some c → same_scalar c value).

Definition in_bounds (d : Decimal) (node : dict json) : Prop :=
  (∀ v q, dget "minimum" node = Some v → number_value v = Some q → (q <= value_of d)%Q) ∧
  (∀ v q, dget "maximum" node = Some v → number_value v = Some q → (value_of d <= q)%Q).

(** [conforms levels value node]: the answer is an instance of the schema. *)
Fixpoint conforms (levels : nat) (value : answer) (node : dict json) : Prop :=
  match levels with
  | O => False
  | S levels =>
      typed_value value node ∧ listed value node ∧
      match value with
      | ANull | ABool _ => True
      | ANum d => in_bounds d node
      | AStr s =>
          within (Z.of_nat (length s)) node "minLength" "maxLength" ∧
          ∀ f, dget "format" node = Some (JStr f) → has_format f s
      | AArr items =>
          within (Z.of_nat (length items)) node "minItems" "maxItems" ∧
          ∀ v, v ∈ items → ∃ child, get "items" node = JObj child ∧ conforms levels v child
      | AObj members =>
          ∃ properties, get "properties" node = JObj properties ∧
            (∀ k, k ∈ dkeys members → k ∈ dkeys properties) ∧
            ∀ k child, (k, JObj child) ∈ properties →
              ∃ v, dget k members = Some v ∧ conforms levels v child
      end
  end.

(** No count keyword of the schema, at any level, is an explicit null. *)
Definition count_keys : list pystr := [lit "minLength"; lit "maxLength"; lit "minItems"; lit "maxItems"].
Definition is_null (j : json) : bool := match j with JNull => true | _ => false end.

Fixpoint bounds_present (schema : json) : bool :=
  match schema with
  | JObj d =>
      (fix go (d : list (pystr * json)) : bool :=
         match d with
         | [] => true
         | (k, v) :: d' => negb (bool_decide (k ∈ count_keys) && is_null v) && bounds_present v && go d'
         end) d
  | _ => true
  end.

Lemma bounds_present_member d k v : bounds_present (JObj d) = true → (k, v) ∈ d →
  bounds_present v = true ∧ (k ∈ count_keys → is_null v = false).
Proof.
  cbn [bounds_present]. induction d as [|[k' v'] d IH]; intros Hd Hin; [by apply elem_of_nil in Hin|].
  apply andb_prop in Hd as [[Hn Hv]%andb_prop Hd].
  apply elem_of_cons in Hin as [[= -> ->]|Hin]; [|auto].
  split; [done|]. intros Hk. rewrite bool_decide_eq_true_2 in Hn by done. by apply negb_true_iff in Hn.
Qed.

(** *** Counts *)

Lemma fcmp_int n z : fcmp (f_of_Z n) (FFin z 0) = Some (n ?= z)%Z.
Proof. unfold fcmp, f_of_Z. rewrite Z.min_id, !Z.sub_diag, !Z.mul_1_r. done. Qed.

Lemma fcmp_integral n m e : feq (FFin m e) (f_of_Z (trunc_dyadic m e)) = true →
  fcmp (f_of_Z n) (FFin m e) = Some (n ?= trunc_dyadic m e)%Z.
Proof.
  unfold feq, f_of_Z, fcmp, trunc_dyadic. destruct (Z.leb_spec 0 e) as [He|He].
  - intros _. replace (Z.min 0 e) with 0%Z by lia. rewrite !Z.sub_0_r. change (2 ^ 0)%Z with 1%Z. by rewrite Z.mul_1_r.
  - rewrite (Z.min_l e 0), (Z.min_r 0 e) by lia.
    rewrite (Z.sub_diag e), (Z.sub_0_l e). change (2 ^ 0)%Z with 1%Z. rewrite !Z.mul_1_r.
    assert (0 < 2 ^ (- e))%Z by (apply Z.pow_pos_nonneg; lia).
    destruct (Z.compare_spec m (Z.quot m (2 ^ (- e)) * 2 ^ (- e))) as [Hm| |]; try done.
    intros _. f_equal. set (q := Z.quot m (2 ^ (- e))) in *. clearbody q. subst m.
    symmetry. apply Zmult_compare_compat_r. lia.
Qed.

Lemma compare_count_bound n v z : count_bound_value v = Some (Some z) →
  compare_count n v = Ok (Some (n ?= z)%Z).
Proof.
  unfold compare_count. destruct v as [| | |[m e| |]| | |]; cbn [count_bound_value num_value]; try done.
  - destruct (_ && _) eqn:?; [|done]. intros [= <-]. by rewrite fcmp_int.
  - destruct (feq _ _) eqn:Hf; [|done]. destruct (_ && _) eqn:?; [|done]. intros [= <-].
    by rewrite fcmp_integral.
Qed.

(** A count keyword is absent or a number that passed [_count_bound]. *)
Definition good_bound (node : dict json) (key : pystr) : Prop :=
  match dget key node with
  | None => True
  | Some v => ∃ z, count_bound_value v = Some (Some z)
  end.

Lemma count_bound_set node key v r : key ∈ count_keys → bounds_present (JObj node) = true →
  dget key node = Some v → count_bound_value v = Some r → ∃ z, count_bound_value v = Some (Some z).
Proof.
  intros Hk Hb Hv Hr. destruct (bounds_present_member node key v Hb) as [_ Hn]; [by apply dget_elem|].
  specialize (Hn Hk). rewrite Hr. destruct r as [z|]; [by eexists|exfalso].
  destruct v as [| |z|[m e| |]| | |]; try done; cbn [count_bound_value] in Hr; [by destruct (_ && _)|].
  destruct (feq (FFin m e) _); [|done]. by destruct (_ && _).
Qed.

Lemma count_bound_good node pointer lo hi :
  lo ∈ count_keys → hi ∈ count_keys → bounds_present (JObj node) = true →
  _count_bound node pointer lo hi = Ok () → good_bound node lo ∧ good_bound node hi.
Proof.
  intros Hlo Hhi Hb H. unfold _count_bound, get, get_or, good_bound in *.
  destruct (dget lo node) as [v|] eqn:Ev, (dget hi node) as [w|] eqn:Ew;
    repeat match type of H with
    | match count_bound_value ?j with _ => _ end = _ => destruct (count_bound_value j) eqn:?; [|discriminate H]
    end; split; try done;
    match goal with E : count_bound_value ?v = Some ?o |- ∃ z, Some ?o = _ => rewrite <- E end;
    (eapply count_bound_set; [| |eassumption|eassumption]; done).
Qed.

Lemma decides_check_bound count node pointer key bad reason : good_bound node key →
  decides (check_bound count node pointer key bad reason)
    (∀ z, count_bound_value (get key node) = Some (Some z) → (count ?= z)%Z ≠ bad).
Proof.
  unfold good_bound, check_bound, get, get_or. destruct (dget key node) as [v|].
  - intros [z Hz]. rewrite (compare_count_bound count v z Hz). cbn [mbind result_bind].
    eapply decides_iff; [apply decides_at_if|]. rewrite bool_decide_eq_false. split.
    + intros Hne z' Hz' <-. rewrite Hz in Hz'. by injection Hz' as <-.
    + intros Hall [= Heq]. by apply (Hall z).
  - intros _. apply decides_Ok. by intros z [=].
Qed.

Lemma decides_validate_count count node pointer lo hi unit_ : good_bound node lo → good_bound node hi →
  decides (_validate_count count node pointer lo hi unit_) (within count node lo hi).
Proof.
  intros Hlo Hhi. unfold _validate_count. eapply decides_iff.
  - apply decides_bind; [by apply decides_check_bound|intros _; by apply decides_check_bound].
  - unfold within. split; intros [Hl Hh]; (split; intros z Hz; [specialize (Hl z Hz)|specialize (Hh z Hz)]).
    all: destruct (Z.compare_spec count z); first [lia|done].
Qed.

(** *** What a checked node guarantees *)

Lemma schema_type_pointer node p q r : _schema_type node p = Ok r → _schema_type node q = Ok r.
Proof.
  unfold _schema_type, bad_type, _at. destruct (get "type" node) as [| | | |s|[|a [|b [|]]]|]; try done.
  - by destruct (bool_decide _).
  - by destruct a.
  - destruct a, b; try done. destruct (_ && _); [|done]. by destruct (bool_decide (_ ∈ _)).
  - by destruct a, b.
Qed.

Lemma at_if_Ok b pointer reason u : at_if b pointer reason = Ok u ↔ b = false.
Proof. destruct b, u; split; done. Qed.

Record node_facts (levels : nat) (node : dict json) (primary : pystr) : Prop := {
  nf_enum v : dget "enum" node = Some v → ∃ items, v = JArr items ∧ ∀ i, i ∈ items → unbounded_number i = false;
  nf_const c : dget "const" node = Some c → unbounded_number c = false;
  nf_number : numeric primary = true → ∀ keyword v, keyword ∈ [lit "minimum"; lit "maximum"] →
    dget keyword node = Some v → ∃ b, bounded_json v = Some b;
  nf_object : primary = lit "object" → ∃ properties, get "properties" node = JObj properties ∧
    ∀ k v, (k, v) ∈ properties → ∃ child pointer, v = JObj child ∧ _check_node levels child pointer = Ok ();
  nf_array : primary = lit "array" →
    (∃ pointer, _count_bound node pointer "minItems" "maxItems" = Ok ()) ∧
    ∃ child pointer, get "items" node = JObj child ∧ _check_node levels child pointer = Ok ();
  nf_string : primary = lit "string" →
    (∃ pointer, _count_bound node pointer "minLength" "maxLength" = Ok ()) ∧
    ∀ v, dget "format" node = Some v → ∃ f, v = JStr f
}.

Lemma check_enum_Ok node pointer v : check_enum node pointer = Ok () → dget "enum" node = Some v →
  ∃ items, v = JArr items ∧ ∀ i, i ∈ items → unbounded_number i = false.
Proof.
  unfold check_enum. intros H Hv. rewrite Hv in H. destruct v as [| | | | |[|x items]|]; try done. exists (x :: items). split; [done|].
  apply bind_Ok in H as (u & _ & H%at_if_Ok). intros i Hi. destruct (unbounded_number i) eqn:E; [|done].
  rewrite (proj2 (existsb_exists _ _)) in H; [done|]. exists i. by rewrite <- list_elem_of_In.
Qed.

Lemma check_const_Ok node pointer c : check_const node pointer = Ok () → dget "const" node = Some c → unbounded_number c = false.
Proof. unfold check_const. intros H Hv. rewrite Hv in H. by apply bind_Ok in H as (u & _ & H%at_if_Ok). Qed.

Lemma check_numeric_Ok node pointer keyword v : check_numeric node pointer = Ok () → keyword ∈ [lit "minimum"; lit "maximum"] →
  dget keyword node = Some v → ∃ b, bounded_json v = Some b.
Proof.
  unfold check_numeric, numeric_bound. intros (low & Hl & H)%bind_Ok Hk Hv. apply bind_Ok in H as (high & Hh & _).
  apply elem_of_cons in Hk as [->|[->|[]%elem_of_nil]%elem_of_cons]; [rewrite Hv in Hl|rewrite Hv in Hh];
    destruct (bounded_json v) as [b|]; try done; by exists b.
Qed.

Lemma check_required_Ok node pointer properties : check_required node pointer = Ok properties →
  get "properties" node = JObj properties.
Proof.
  unfold check_required. destruct (get "properties" node); try done. intros H.
  apply bind_Ok in H as (_ & _ & H). destruct (get "required" node); try done.
  destruct (names_of _); [|done]. by res_inv.
Qed.

Lemma check_string_Ok node pointer : check_string node pointer = Ok () →
  _count_bound node pointer "minLength" "maxLength" = Ok () ∧
  ∀ v, dget "format" node = Some v → ∃ f, v = JStr f.
Proof.
  unfold check_string. intros (u & Hf & Hc)%bind_Ok. split; [done|]. intros v Hv. rewrite Hv in Hf.
  destruct v as [| | | |f| |]; try done. by exists f.
Qed.

Lemma check_node_facts levels node pointer : _check_node (S levels) node pointer = Ok () →
  ∃ primary nullable, _schema_type node [] = Ok (primary, nullable) ∧ node_facts levels node primary.
Proof.
  cbn [_check_node]. intros (primary & Hhere & H)%bind_Ok. unfold check_here in Hhere.
  apply bind_Ok in Hhere as (_ & _ & Hhere). apply bind_Ok in Hhere as ([p nullable] & Ht & Hhere).
  apply bind_Ok in Hhere as (_ & _ & Hhere). apply bind_Ok in Hhere as (_ & _ & Hhere).
  apply bind_Ok in Hhere as ([] & He & Hhere). apply bind_Ok in Hhere as ([] & Hconst & Hhere).
  apply Ok_inj in Hhere as ->. exists primary, nullable.
  split; [by eapply schema_type_pointer|]. split.
  - intros v. by apply (check_enum_Ok node pointer).
  - intros c. by apply (check_const_Ok node pointer).
  - intros Hn. unfold numeric in Hn. apply orb_true_iff in Hn. rewrite !bool_decide_eq_true in Hn.
    rewrite !bool_decide_eq_false_2 in H by (by destruct Hn as [-> | ->]).
    unfold numeric in H. rewrite (proj2 (orb_true_iff _ _)) in H by (rewrite !bool_decide_eq_true; exact Hn).
    intros keyword v. by apply (check_numeric_Ok node pointer).
  - intros ->. rewrite bool_decide_eq_true_2 in H by done.
    apply bind_Ok in H as (ps & Hps & H). exists ps. split; [by eapply check_required_Ok|].
    intros k v Hin. rewrite for_each_Ok in H. rewrite Forall_forall in H. specialize (H (k, v)).
    cbn [fst snd] in H. destruct v as [| | | | | |child];
      try (discriminate H; unfold sorted_members; by rewrite sort_by_perm).
    eexists child, _. split; [done|]. apply H. unfold sorted_members. by rewrite sort_by_perm.
  - intros ->. rewrite bool_decide_eq_false_2, bool_decide_eq_true_2 in H by done.
    apply bind_Ok in H as ([] & Hc & H). split; [by eexists|].
    destruct (get "items" node) as [| | | | | |child]; try done. by eexists child, _.
  - intros ->. rewrite !bool_decide_eq_false_2, bool_decide_eq_true_2 in H by done.
    apply check_string_Ok in H as [? ?]. split; [by eexists|done].
Qed.

(** *** The checks of one answer *)

Lemma schema_type_declares node pointer primary nullable : _schema_type node pointer = Ok (primary, nullable) →
  ∀ p n, declares node p n ↔ p = primary ∧ n = nullable.
Proof.
  unfold _schema_type, bad_type, _at. intros H p n. split.
  - intros Hd. destruct Hd as [p Hg|p Hne [Hg|Hg]]; rewrite Hg in H.
    + destruct (bool_decide _); [|done]. by injection H as -> <-.
    + rewrite (bool_decide_eq_false_2 (p = lit "null")), (bool_decide_eq_true_2 (lit "null" = lit "null")) in H by done. cbn [orb andb negb] in H.
      destruct (bool_decide _); [|done]. by injection H as -> <-.
    + rewrite (bool_decide_eq_true_2 (lit "null" = lit "null")), (bool_decide_eq_false_2 (lit "null" = p)),
        (bool_decide_eq_false_2 (p = lit "null")) in H by congruence. cbn [orb andb negb] in H.
      destruct (bool_decide _); [|done]. by injection H as -> <-.
  - intros [-> ->]. destruct (get "type" node) as [| | | |s|[|a [|b [|x l]]]|] eqn:Hg; try done; try (by destruct a); try (by destruct a, b).
    + destruct (bool_decide _); [|done]. injection H as -> <-. by constructor.
    + destruct a as [| | | |a| |]; try done. destruct b as [| | | |b| |]; try done.
      destruct (bool_decide (a = lit "null") || bool_decide (b = lit "null")) eqn:Hor; [|done]. cbn [andb] in H.
      destruct (bool_decide (a = b)) eqn:Hab; [done|]. cbn [negb] in H. apply bool_decide_eq_false in Hab.
      destruct (decide (b = lit "null")) as [->|Hb].
      * rewrite (bool_decide_eq_true_2 (lit "null" = lit "null")) in H by done. destruct (bool_decide _); [|done]. injection H as -> <-. constructor; [done|by left].
      * rewrite (bool_decide_eq_false_2 (b = lit "null")) in H, Hor by done. rewrite orb_false_r, bool_decide_eq_true in Hor. subst a.
        destruct (bool_decide _); [|done]. injection H as -> <-. constructor; [done|by right].
Qed.

Lemma typed_declared value node pointer primary nullable : _schema_type node pointer = Ok (primary, nullable) →
  typed_value value node ↔ match value with ANull => nullable = true ∨ primary = lit "null" | _ => has_type primary value end.
Proof.
  intros Ht. unfold typed_value. split.
  - intros (p & n & Hd & Hv). apply (schema_type_declares _ _ _ _ Ht) in Hd as [-> ->]. exact Hv.
  - intros Hv. exists primary, nullable. split; [|exact Hv]. by apply (schema_type_declares _ _ _ _ Ht).
Qed.

Lemma decides_check_type primary nullable value node pointer : _schema_type node [] = Ok (primary, nullable) →
  decides (check_type primary nullable value pointer) (typed_value value node).
Proof.
  intros Ht. eapply decides_iff; [|symmetry; by eapply typed_declared]. unfold check_type.
  destruct value as [|b|d|s|l|m].
  { eapply decides_iff; [apply decides_at_if|].
    rewrite andb_false_iff, !negb_false_iff, bool_decide_eq_true. done. }
  all: eapply decides_iff; [apply decides_bind; [apply decides_at_if|intros _; apply decides_at_if]|].
  all: rewrite negb_false_iff, has_type_iff; try tauto.
  split; [tauto|]. intros Hm. split; [|done]. apply has_type_iff in Hm.
  destruct (bounded_cases d) as [[_ ->]|[Hn _]]; [done|]. inversion Hm; tauto.
Qed.

Lemma typed_moderate value node : typed_value value node → match value with ANum d => moderate d | _ => True end.
Proof. intros (p & n & _ & H). destruct value; try done. by inversion H. Qed.

Lemma decides_listed levels value node pointer primary : node_facts levels node primary →
  match value with ANum d => moderate d | _ => True end →
  decides (check_answer_enum value node pointer ≫= λ _, check_answer_const value node pointer)
    (listed value node).
Proof.
  intros [He Hc _ _ _ _] Hm. unfold listed. apply decides_bind.
  - unfold check_answer_enum. destruct (dget "enum" node) as [v|]; [|by apply decides_Ok].
    destruct (He v eq_refl) as (items & -> & Hitems).
    eapply decides_iff; [apply decides_at_if|]. rewrite negb_false_iff, existsb_exists. split.
    + intros (i & Hi & Hs) items' [= <-]. exists i. apply list_elem_of_In in Hi. split; [done|].
      apply same_scalar_iff; auto.
    + intros Hall. destruct (Hall items eq_refl) as (i & Hi & Hs). exists i. split; [by apply list_elem_of_In|].
      apply same_scalar_iff; auto.
  - intros _. unfold check_answer_const. destruct (dget "const" node) as [c|]; [|by apply decides_Ok].
    eapply decides_iff; [apply decides_at_if|]. rewrite negb_false_iff, <- same_scalar_iff by auto. split.
    + by intros ? ? [= <-].
    + intros Hall. by apply Hall.
Qed.

Lemma decides_answer_string s node pointer :
  good_bound node "minLength" → good_bound node "maxLength" →
  (∀ v, dget "format" node = Some v → ∃ f, v = JStr f) →
  decides (check_answer_string s node pointer)
    (within (Z.of_nat (length s)) node "minLength" "maxLength" ∧
     ∀ f, dget "format" node = Some (JStr f) → has_format f s).
Proof.
  intros Hlo Hhi Hf. unfold check_answer_string. apply decides_bind; [by apply decides_validate_count|].
  intros _. destruct (dget "format" node) as [v|]; [|by apply decides_Ok].
  destruct (Hf v eq_refl) as [f ->]. eapply decides_iff; [apply decides_at_if|]. rewrite negb_false_iff, <- has_format_iff.
  split; [by intros ? ? [= <-]|auto].
Qed.

Lemma decides_answer_bound d node pointer keyword reason (P : Q → Prop) : moderate d →
  (∀ v, dget keyword node = Some v → ∃ b, bounded_json v = Some b) →
  (∀ b q, (q == value_of b)%Q → below keyword d b = false ↔ P q) →
  decides (check_answer_bound d node pointer keyword reason)
    (∀ v q, dget keyword node = Some v → number_value v = Some q → P q).
Proof.
  intros Hd Hb HP. unfold check_answer_bound. destruct (dget keyword node) as [v|]; [|by apply decides_Ok].
  destruct (Hb v eq_refl) as [b Eb]. rewrite Eb. apply bounded_moderate in Hd. rewrite Hd.
  destruct (bounded_value _ _ Eb) as (q & Hq & Hv).
  eapply decides_iff; [apply decides_at_if|]. rewrite (HP b q Hv). split.
  - intros Hp v' q' [= <-]. rewrite Hq. by intros [= <-].
  - intros Hall. by apply (Hall v q).
Qed.

Lemma not_below a b : dlt a b = false ↔ (value_of b <= value_of a)%Q.
Proof.
  rewrite <- not_true_iff_false, dlt_value. split; [by apply Qnot_lt_le|]. intros H. by apply Qle_not_lt.
Qed.

Lemma decides_in_bounds levels d node primary pointer r1 r2 : moderate d → node_facts levels node primary → numeric primary = true →
  decides (check_answer_bound d node pointer "minimum" r1 ≫= λ _, check_answer_bound d node pointer "maximum" r2)
    (in_bounds d node).
Proof.
  intros Hd Hf Hn. pose proof (nf_number _ _ _ Hf Hn) as Hb. apply decides_bind.
  - apply (decides_answer_bound d _ _ (lit "minimum") r1 (λ q, (q <= value_of d)%Q)); [done|intros v; apply Hb; left|].
    intros b q ->. by apply not_below.
  - intros _. apply (decides_answer_bound d _ _ (lit "maximum") r2 (λ q, (value_of d <= q)%Q)); [done|intros v; apply Hb; right; left|].
    intros b q ->. by apply not_below.
Qed.

Lemma typed_primary value node pointer primary nullable : _schema_type node pointer = Ok (primary, nullable) →
  typed_value value node → match value with
  | ANum d => moderate d ∧ numeric primary = true
  | AObj _ => primary = lit "object" | AArr _ => primary = lit "array" | AStr _ => primary = lit "string"
  | _ => True
  end.
Proof. intros Ht Hv%(typed_declared _ _ _ _ _ Ht). destruct value; try done; by inversion Hv. Qed.

Lemma bounds_child node key child : get key node = JObj child → bounds_present (JObj node) = true →
  bounds_present (JObj child) = true.
Proof.
  unfold get, get_or. destruct (dget key node) as [v|] eqn:Ev; [|done]. intros -> Hb.
  by apply (bounds_present_member node key _ Hb), dget_elem.
Qed.

Lemma sorted_members_elem {A} (d : dict A) kv : kv ∈ sorted_members d ↔ kv ∈ d.
Proof. unfold sorted_members. by rewrite sort_by_perm. Qed.

Lemma get_item key node child : get key node = JObj child → item key node = Ok (JObj child).
Proof. unfold get, get_or, item. destruct (dget key node); [by intros ->|done]. Qed.

(** The members of an object answer, given that the children's validations decide conformance. *)
Lemma decides_members levels properties members pointer :
  (∀ k v, (k, v) ∈ properties → ∃ child, v = JObj child ∧
    ∀ value location, decides (_validate_instance levels value v location) (conforms levels value child)) →
  decides
    (for_each (declared properties pointer) (sort_by id (dkeys members)) ≫= λ _,
     for_each (λ kv,
       let location := pointer ++ "/" ++ _pointer (fst kv) in
       match dget (fst kv) members with
       | None => _at location "a required property is missing"
       | Some v => _validate_instance levels v (snd kv) location
       end) (sorted_members properties))
    ((∀ k, k ∈ dkeys members → k ∈ dkeys properties) ∧
     ∀ k child, (k, JObj child) ∈ properties → ∃ v, dget k members = Some v ∧ conforms levels v child).
Proof.
  intros Hc. apply decides_bind.
  - eapply decides_iff; [apply (decides_for_each _ (λ k, dhas k properties = true))|].
    + intros k _. eapply decides_iff; [apply decides_at_if|]. by rewrite negb_false_iff.
    + split; intros Hall k Hk; specialize (Hall k).
      * unfold dhas in Hall. apply bool_decide_eq_true in Hall; [done|]. by rewrite sort_by_perm.
      * apply bool_decide_eq_true, Hall. by rewrite sort_by_perm in Hk.
  - intros _. eapply decides_iff; [apply (decides_for_each _ (λ kv, ∃ v child,
      snd kv = JObj child ∧ dget (fst kv) members = Some v ∧ conforms levels v child))|].
    + intros [k v] Hin. apply (proj1 (sorted_members_elem properties (k, v))) in Hin. destruct (Hc k v Hin) as (child & -> & Hd). cbn [fst snd].
      destruct (dget k members) as [w|] eqn:Ew.
      * eapply decides_iff; [apply Hd|]. split; [intros ?; by exists w, child|].
        by intros (w' & child' & [= <-] & [= <-] & ?).
      * right. eexists. split; [done|]. split; [done|]. by intros (? & ? & _ & ? & _).
    + split.
      * intros Hall k child Hin. destruct (Hall (k, JObj child)) as (v & c & [= <-] & Hv & Hconf);
          [by apply sorted_members_elem|by exists v].
      * intros Hall [k v] Hin. apply (proj1 (sorted_members_elem properties (k, v))) in Hin. destruct (Hc k v Hin) as (child & -> & _).
        destruct (Hall k child Hin) as (w & ? & ?). by exists w, child.
Qed.

Lemma validate_decides levels : ∀ node pointer value location,
  _check_node levels node pointer = Ok () → bounds_present (JObj node) = true →
  decides (_validate_instance levels value (JObj node) location) (conforms levels value node).
Proof.
  induction levels as [|levels IH]; intros node pointer value location Hcheck Hb; [done|].
  destruct (check_node_facts _ _ _ Hcheck) as (primary & nullable & Ht & Hfacts).
  destruct Hfacts as [He Hco Hnu Ho Ha Hs] eqn:Efacts.
  cbn [_validate_instance conforms]. rewrite (schema_type_pointer _ _ location _ Ht).
  cbn [mbind result_bind].
  apply decides_bind; [by apply decides_check_type|]. intros Htyped. pose proof (typed_primary _ _ _ _ _ Ht Htyped) as Hprim.
  assert (Hassoc : ∀ (m1 m2 : res unit) m3, (m1 ≫= λ _, m2 ≫= λ _, m3) = ((m1 ≫= λ _, m2) ≫= λ (_ : unit), m3 : res unit)).
  { by intros [?|?] [?|?] ?. }
  rewrite Hassoc. apply decides_bind; [eapply decides_listed; [exact Hfacts|by eapply typed_moderate]|intros _].
  destruct value as [|b|d|s|items|members]; [by apply decides_Ok..| | | |].
  - destruct Hprim as [Hd Hn]. by eapply decides_in_bounds.
  - destruct (Hs Hprim) as [[ptr Hcount] Hf].
    apply count_bound_good in Hcount as [? ?]; [|set_solver..|done]. by apply decides_answer_string.
  - destruct (Ha Hprim) as [[ptr Hcount] (child & cptr & Hitems & Hchild)].
    apply count_bound_good in Hcount as [? ?]; [|set_solver..|done].
    apply decides_bind; [by apply decides_validate_count|intros _].
    rewrite (get_item _ _ _ Hitems), Hitems. cbn [mbind result_bind].
    apply decides_each_index. intros i v _.
    eapply decides_iff; [eapply IH; [done|by eapply bounds_child]|].
    split; [intros ?; by exists child|by intros (? & [= <-] & ?)].
  - destruct (Ho Hprim) as (properties & Hp & Hchildren).
    rewrite (get_item _ _ _ Hp), Hp. cbn [mbind result_bind].
    eapply decides_iff; [apply decides_members|].
    + intros k v Hin. destruct (Hchildren k v Hin) as (child & cptr & -> & Hchild).
      exists child. split; [done|]. intros value l. eapply IH; [done|].
      eapply bounds_present_member; [|done]. by eapply bounds_child.
    + split; [intros ?; by exists properties|by intros (? & [= <-] & ?)].
Qed.

Lemma canonical_schema_checked json_loads output node : canonical_schema json_loads output = Ok node →
  _check_node SCHEMA_LEVELS node [] = Ok () ∧ ∃ nullable, _schema_type node [] = Ok (lit "object", nullable).
Proof.
  unfold canonical_schema. intros (_ & _ & H)%bind_Ok. apply bind_Ok in H as (_ & _ & H).
  apply bind_Ok in H as (v & _ & H). destruct v as [| | | | | |d]; try done.
  apply bind_Ok in H as ([primary nullable] & Ht & H). apply bind_Ok in H as ([] & Hr & H).
  apply bind_Ok in H as ([] & Hc & H). apply Ok_inj in H as ->. split; [done|].
  apply at_if_Ok, orb_false_iff in Hr as [Hp%negb_false_iff%bool_decide_eq_true _]. subst primary.
  by exists nullable.
Qed.

Lemma extract_decoded raw_decode node generated value stop :
  raw_decode (unfenced generated) = Ok (value, stop) → blank (drop stop (unfenced generated)) = true →
  _extract_structured_answer_from_schema raw_decode node generated =
  (_validate_instance SCHEMA_LEVELS value (JObj node) [] ≫= λ _, Ok (unfenced generated)).
Proof.
  intros Hd Hb. unfold _extract_structured_answer_from_schema, decode_answer, blank in *. rewrite Hd.
  apply negb_true_iff in Hb. rewrite Hb. done.
Qed.

(** C37: for a request whose schema passed the portable check (and gives no count bound as null), the
    local validation of a decoded answer accepts exactly the answers that conform to the schema,
    returning the unfenced text, and refuses every other with a located error and no other
    exception.  Conforming is stated without the program's checks: a value has a declared type (an
    integer's rational value is an integer), equals a listed scalar (numbers by their rational value),
    keeps the bounds and the counts, and a string has the shape of its format (dates of the calendar,
    times with an offset of less than a day, five groups of hexadecimal digits); digits are ASCII, and a
    number's text has at most 256 characters and an exponent of at most 400. *)
Theorem answer_check_exact json_loads raw_decode output node generated value stop :
  canonical_schema json_loads output = Ok node → bounds_present (JObj node) = true →
  raw_decode (unfenced generated) = Ok (value, stop) → blank (drop stop (unfenced generated)) = true →
  (_extract_structured_answer_from_schema raw_decode node generated = Ok (unfenced generated) ∧
   conforms SCHEMA_LEVELS value node) ∨
  (∃ e, _extract_structured_answer_from_schema raw_decode node generated = Err e ∧
   exn_cls e = LocationError ∧ ¬ conforms SCHEMA_LEVELS value node).
Proof.
  intros [Hc _]%canonical_schema_checked Hb Hd Hs. rewrite (extract_decoded _ _ _ _ _ Hd Hs).
  destruct (validate_decides SCHEMA_LEVELS node [] value [] Hc Hb) as [[-> ?]|(e & -> & ? & ?)].
  - by left.
  - right. by exists e.
Qed.

Definition sample_node : dict json :=
  [(lit "type", JStr "object");
   (lit "properties", JObj
      [(lit "name", JObj [(lit "type", JArr [JStr "string"; JStr "null"]); (lit "maxLength", JInt 3)]);
       (lit "sizes", JObj [(lit "type", JStr "array");
                           (lit "items", JObj [(lit "type", JStr "integer"); (lit "maximum", JInt 10)])])]);
   (lit "required", JArr [JStr "sizes"; JStr "name"]); (lit "additionalProperties", JBool false)].

Definition sample_answer : answer :=
  AObj [(lit "name", ANull); (lit "sizes", AArr [ANum (mkDecimal false 1 1); ANum (mkDecimal false 50 (-1))])].

Lemma answer_check_exact_witness :
  let output := mkStructured "answer" (JObj sample_node) [] in
  let decode (s : pystr) : res (answer * nat) := Ok (sample_answer, length s) in
  _extract_structured_answer_from_schema decode sample_node "{}" = Ok (lit "{}") ∧
  conforms SCHEMA_LEVELS sample_answer sample_node.
Proof.
  cbv zeta.
  destruct (answer_check_exact (λ _, Ok (JObj sample_node))
              (λ s, Ok (sample_answer, length s)) (mkStructured "answer" (JObj sample_node) [])
              sample_node "{}" sample_answer 2
              ltac:(vm_compute; reflexivity) ltac:(vm_compute; reflexivity)
              ltac:(vm_compute; reflexivity) ltac:(vm_compute; reflexivity)) as [[H Hc]|(e & H & _)].
  - split; [vm_compute; reflexivity|exact Hc].
  - exfalso. revert H. vm_compute. discriminate.
Defined.

(** A schema whose only peculiarity is an explicit null bound. *)
Definition null_bound_node : dict json :=
  [(lit "type", JStr "object");
   (lit "properties", JObj [(lit "a", JObj [(lit "type", JStr "string"); (lit "minLength", JNull)])]);
   (lit "required", JArr [JStr "a"]); (lit "additionalProperties", JBool false)].

(** The portable check accepts a schema with a null count bound, and then every answer with the
    declared string fails with a [TypeError] instead of being accepted or located. *)
Theorem null_bound_accepted_then_raises :
  _check_node SCHEMA_LEVELS null_bound_node [] = Ok () ∧
  ∀ s, ∃ e, _validate_instance SCHEMA_LEVELS (AObj [(lit "a", AStr s)]) (JObj null_bound_node) [] = Err e ∧
            exn_cls e = TypeError.
Proof. split; [vm_compute; reflexivity|]. intros s. eexists. split; [reflexivity|done]. Qed.

End AnswerFacts.
