(* ===== verification/TextGenAttempt.v ===== *)
(** * One text generation attempt

    sdkpython/src/dex_connectors/sdk/textgen/query.py, [_TextGenerationAttempt]: the validation of
    a request before anything is sent, the checks of the encoded request, the dispatch and its
    outcomes, the classification of provider errors and the completion of a decoded response.

    What the Query is configured with (the dialect's callbacks, the credential resolver, the text
    writer) and the HTTP client are parameters; a response is the sequence of events the reading
    loops of TextGen.v wait for. *)

From S2P Require Import Prelude Json Timestamps Errors Identity Calls Definitions.
From S2P Require Import Results Url ProviderHttp AddressPolicy TextGen StructuredOutput.

(** [_go_temperature_bound]. *)
Definition zfill2 (s : pystr) : pystr := zeros (2 - Z.of_nat (length s)) ++ s.
Definition _go_temperature_bound (value : pyfloat) : pystr :=
  match value with
  | FInf negative => if negative then "-Inf" else "+Inf"
  | FNan => "NaN"
  | FFin m e =>
      let '(digits, point) := if (m =? 0)%Z then (lit "0", 1%Z) else float_point m e in
      let adjusted := (point - 1)%Z in
      minus (m <? 0)%Z
        ++ (if (adjusted <? -4)%Z || (6 <=? adjusted)%Z
            then scientific digits ++ "e" ++ (if (adjusted <? 0)%Z then "-" else "+")
                   ++ zfill2 (str_of_Z (Z.abs adjusted))
            else plain_digits digits point)
  end.

(** What a decoder of the dialect does with a body: a response, the provider's own error, an
    exception, or the attempt's deadline while it waits for a chunk. *)
Inductive decode_result :=
  | DecodedAs (d : DecodedResponse)
  | ReportedError (error_tokens : list pystr)
  | DecodeRaised (e : exn)
  | DecodeCancelled.

(** How waiting for the response headers ends; the stall timeout raises [TimeoutError]. *)
Record http_response := mkHttp { status_code : Z; headers : dict pystr; body : list wire_event }.
Inductive sending :=
  | Responded (response : http_response)
  | SendRaised (e : exn)
  | SendDeadline.

(** The request the client is asked to build. *)
Record provider_request := mkProviderRequest { p_url : pystr; p_headers : dict pystr; p_content : list N }.

(** [headers.get(name, "")]; the client looks names up without case. *)
Definition header_get (headers : dict pystr) (name : pystr) : pystr :=
  default [] (dget (ascii_lower name) headers).

Definition reserved_headers (w : WireFormat) : list pystr :=
  [ascii_lower (credential_header_name w); lit "content-type"; lit "content-length"; lit "accept"; lit "host"].

(** [_validate_encoded]. *)
Definition _validate_encoded (w : WireFormat) (encoded : EncodedRequest) : res unit :=
  raise_if (negb (starts_with "/" (e_path encoded))
            || existsb (λ c, (c <=? 32)%N || (126 <? c)%N || (c =? 35)%N) (e_path encoded))
    ValueError "encoded request path must start with / and contain printable ASCII without spaces or fragments"
    ≫= λ _,
  for_each (λ kv,
    raise_if (negb (header_match (fst kv)) || bool_decide (ascii_lower (fst kv) ∈ reserved_headers w))
      ValueError "encoded request header name is invalid or reserved" ≫= λ _,
    raise_if (existsb (λ c, (c <? 32)%N || (126 <? c)%N) (snd kv))
      ValueError "encoded request header value must be printable ASCII") (e_headers encoded).

(** [_identifier]. *)
Definition _identifier (value : pystr) : res bool :=
  if truthy value then
    bytes ← CallID.encode value;
    Ok ((length bytes <=? 256)%nat && is_header_safe_credential value)
  else Ok true.

(** [_match_error]: the first matching rule, then the classification by status. *)
Definition rule_matches (status : Z) (tokens : list pystr) (r : ErrorRule) : bool :=
  ((TextGen.status_code r =? 0)%Z || (negb (status =? 0)%Z && (TextGen.status_code r =? status)%Z))
  && (negb (truthy (rule_token r)) || bool_decide (rule_token r ∈ tokens)).

Definition default_outcome (status : Z) : ErrorOutcome :=
  if (status =? 0)%Z || ((300 <=? status) && (status <? 400))%Z then invalid_response_outcome
  else if (status =? 429)%Z then retry_outcome RATE_LIMIT
  else if (status =? 408)%Z || ((500 <=? status)%Z && negb (status =? 501)%Z) then retry_outcome AVAILABILITY
  else if (status =? 401)%Z then provider_rejected_outcome AUTHENTICATION
  else if (status =? 403)%Z then provider_rejected_outcome AUTHORIZATION
  else if (status =? 404)%Z then provider_rejected_outcome NOT_FOUND
  else if (status =? 409)%Z then provider_rejected_outcome CONFLICT
  else if (status =? 402)%Z then quota_exhausted_outcome
  else provider_rejected_outcome PROVIDER_REJECTION.

Definition _match_error (rules : list ErrorRule) (status : Z) (tokens : list pystr) : ErrorOutcome :=
  match List.find (rule_matches status tokens) rules with
  | Some r => outcome r
  | None => default_outcome status
  end.

(** [_safe_tokens]. *)
Definition _safe_tokens (credential : pystr) (tokens : list pystr) : list pystr :=
  filter (λ t, error_token t = true ∧ contains credential t = false) tokens.

(** [max(0, min(delay, 3600))] on floats. *)
Definition clamp_delay (delay : pyfloat) : pyfloat :=
  let capped := if flt (f_of_Z 3600) delay then f_of_Z 3600 else delay in
  if flt (FFin 0 0) capped then capped else FFin 0 0.

(** The text after a message: the tokens, each behind a space. *)
Definition token_text (tokens : list pystr) : pystr :=
  match tokens with [] => [] | _ => " " ++ join " " tokens end.

Section Attempt.
Context (config : TextGenerationQueryConfig).
(** The base URL and the connection model [TextGenerationQuery.__init__] keeps. *)
Context (q_base_url q_connection_model : pystr).
Context (call : Call.t) (has_context : bool).
(** The dialect's callbacks. *)
Context (rules_for_model : pystr → ModelRequestRules).
Context (encode_request : TextGenerationRequest → ModelRequestRules → res EncodedRequest).
Context (decode_response : list N → decode_result).
(** The decoder of a stream sees the accepted chunks and the end of their loop, and writes text
    deltas until one fails; the deltas it wrote come with its result. *)
Context (decode_stream : list (list N) → stop → (pystr → bool) → list pystr * decode_result).
Context (read_error_retry_delay : option (list N → pyfloat)).
(** The caller's side. *)
Context (resolved_credential : res pystr) (write_fails : pystr → bool).
(** Library functions, the current time, and the client: whether it can build the request. *)
Context (json_loads : pystr → res json) (raw_decode : pystr → res (answer * nat)).
Context (parse_error_body : list N → option json).
Context (parsedate_to_datetime : pystr → res GoTime.datetime) (now : GoTime.datetime).
Context (request_builds : bool) (send : provider_request → sending).

Let w := wire_format config.
Let response_t := TextGenerationResponse.
Let attempt := Attempt response_t.

(** What an invocation leaves: the text written to the stream, and its outcome or exception. *)
Definition invocation : Type := list pystr * res attempt.

Definition _failure (kind : FailureKind) (message : pystr) : Failure.t :=
  Failure.mk kind (provider_name w) (OperationRef.operation_id (QueryDefinition.operation (definition config)))
    message.

Definition _branch (response : response_t) (branch : pystr) (kind : FailureKind) (message : pystr)
    (receipt : Receipt.t) : res attempt :=
  QueryAttempt (branch_result branch response receipt (Some (_failure kind message))).

Definition provider_receipt : Receipt.t :=
  Receipt.mk [] (provider_name w) (GoTime.TDate GoTime.datetime_min_utc) [] (JStr []) (JStr []) [].

Definition _defect (response : response_t) (kind : FailureKind) (message : pystr) : res attempt :=
  _branch response DEFECT_BRANCH_ID kind message provider_receipt.

Definition _retry (kind : FailureKind) (message : pystr) (delay : pyfloat) : res attempt :=
  QueryAttempt (retry (_failure kind message) delay).

Definition no_delay : pyfloat := FFin 0 0.

(** [replace(self.response, ...)]. *)
Definition with_model (model : pystr) : response_t :=
  mkResponse [] model [] [] None [] (mkUsage 0 0 0 0 0).
Definition with_identifiers (r : response_t) (served id : pystr) : response_t :=
  mkResponse (text r) (requested_model r) served id (finish_reason r) (provider_finish_reason r) (usage r).
Definition with_usage (r : response_t) (u : Usage) : response_t :=
  mkResponse (text r) (requested_model r) (served_model r) (response_id r) (finish_reason r)
    (provider_finish_reason r) u.
Definition with_provider_reason (r : response_t) (token : pystr) : response_t :=
  mkResponse (text r) (requested_model r) (served_model r) (response_id r) (finish_reason r) token (usage r).
Definition with_reason (r : response_t) (reason : FinishReason) : response_t :=
  mkResponse (text r) (requested_model r) (served_model r) (response_id r) (Some reason)
    (provider_finish_reason r) (usage r).
Definition with_text (r : response_t) (t : pystr) : response_t :=
  mkResponse t (requested_model r) (served_model r) (response_id r) (finish_reason r)
    (provider_finish_reason r) (usage r).

(** ** Validation before dispatch *)

(** A local validation either goes on with a value or settles the attempt. *)
#[local] Abbreviation early A := (result (result exn (Attempt TextGenerationResponse)) A).
Definition settle {A} (a : res attempt) : early A := Err a.
Definition settle_if (b : bool) (a : res attempt) : early unit := if b then Err a else Ok ().
Definition lift {A} (m : res A) : early A := match m with Ok a => Ok a | Err e => Err (Err e) end.

(** The features a request uses that the dialect does not send. *)
Definition unsupported_feature (request : TextGenerationRequest) : option pystr :=
  let f := features w in
  let table :=
    [ (truthy (instructions request), supports_instructions f, lit "Instructions");
      (match structured_output request with Some _ => true | None => false end,
       supports_structured_output f, lit "StructuredOutput");
      (negb (max_output_tokens request =? 0)%Z, supports_max_output_tokens f, lit "MaxOutputTokens");
      (match temperature request with Some _ => true | None => false end,
       supports_temperature f, lit "Temperature");
      (truthy (reasoning_effort request), supports_reasoning_effort f, lit "ReasoningEffort") ] in
  option_map snd (List.find (λ x, fst (fst x) && negb (snd (fst x))) table).

Definition isnan (f : pyfloat) : bool := match f with FNan => true | _ => false end.

Definition range_invalid (p : TemperaturePolicy) : bool :=
  match minimum p, maximum p with
  | Some lo, Some hi => isnan lo || isnan hi || flt hi lo
  | None, None => false
  | _, _ => true
  end.

(** The message of the first temperature check that fails; empty when none does. *)
Definition temperature_message (p : TemperaturePolicy) (t : pyfloat) : pystr :=
  if negb (isfinite t) || flt t (FFin 0 0) then "temperature must be a finite, non-negative number"
  else if negb (accepted p) then "the model does not accept a temperature; leave Temperature nil"
  else if range_invalid p then "the wire format's temperature range is invalid"
  else match minimum p, maximum p with
       | Some lo, Some hi =>
           if flt t lo || flt hi t then
             "the model accepts a temperature from " ++ _go_temperature_bound lo ++ " through "
               ++ _go_temperature_bound hi
           else []
       | _, _ => []
       end.

Definition efforts : list pystr :=
  [lit "none"; lit "minimal"; lit "low"; lit "medium"; lit "high"; lit "xhigh"; lit "max"].

Definition effort_message (rules : ModelRequestRules) (effort : pystr) : pystr :=
  if negb (truthy effort) then []
  else if negb (bool_decide (effort ∈ efforts))
  then "reasoning effort must be none, minimal, low, medium, high, xhigh, or max"
  else if negb (dhas effort (mr_reasoning_efforts rules))
  then "the model does not accept reasoning effort " ++ quoted effort
  else [].

(** The structured output of the prepared request. *)
Definition prepare_output (response : response_t) (rules : ModelRequestRules) (canonical : option (dict json))
    (request : TextGenerationRequest) : early TextGenerationRequest :=
  match structured_output request, canonical with
  | Some output, Some canonical =>
      let so := mr_structured_output rules in
      match validate_rules so with
      | Err e => settle (_defect response LOCAL_DEFECT
                           ("the wire format's structured output rules are invalid: " ++ exn_msg e))
      | Ok _ =>
          settle_if (bool_decide (mode so = MODE_NONE))
            (_defect response VALIDATION "the model does not support structured output") ≫= λ _,
          settle_if (bool_decide (mode so = JSON_OBJECT_WITH_INSTRUCTION)
                     && negb (supports_instructions (features w)))
            (_defect response LOCAL_DEFECT "the JSON object mode requires the Instructions feature") ≫= λ _,
          transformed ← lift (transform_schema_for_provider canonical so);
          added ← (if bool_decide (mode so = JSON_OBJECT_WITH_INSTRUCTION)
                   then text ← lift (json_object_instruction output (JObj canonical));
                        Ok ((if truthy (instructions request) then [10; 10]%N else []) ++ text)
                   else Ok [] : early pystr);
          Ok (mkRequest (messages request) (model request) (instructions request ++ added)
                (Some (mkStructured (so_name output) transformed (so_description output)))
                (max_output_tokens request) (temperature request) (reasoning_effort request))
      end
  | Some _, None => lift (raise AssertionError [])
  | None, _ => Ok request
  end.

Definition with_request_model (request : TextGenerationRequest) (model : pystr) : TextGenerationRequest :=
  mkRequest (messages request) model (instructions request) (structured_output request)
    (max_output_tokens request) (temperature request) (reasoning_effort request).

(** [run] up to the dispatch: the response so far, the credential, the encoded request and the
    retained schema. *)
Definition prepare (request : TextGenerationRequest)
    : early (response_t * pystr * EncodedRequest * option (dict json)) :=
  settle_if (negb has_context) (_defect empty_response LOCAL_DEFECT "a Dex Step context is required") ≫= λ _,
  let model := resolve_model (model request) q_connection_model in
  settle_if (negb (truthy model))
    (_defect empty_response VALIDATION
       "no model is selected; set the request Model or the connection model") ≫= λ _,
  model ← match validate_model_id (model_id_rule w) model with
          | Ok m => Ok m
          | Err e => settle (if isinst e ValueError
                             then _defect empty_response VALIDATION (exn_msg e) else Err e)
          end;
  let response := with_model model in
  let refused := _defect response VALIDATION in
  '(canonical, portable_failure) ← lift (_check_portable_request json_loads request);
  match portable_failure with Some f => settle (refused (Failure.message f)) | None => Ok () end ≫= λ _,
  match unsupported_feature request with
  | Some name => settle (refused ("this connector's wire format does not send " ++ name ++ "; leave it unset"))
  | None => Ok ()
  end ≫= λ _,
  let rules := rules_for_model model in
  match temperature request with
  | Some t => let message := temperature_message (mr_temperature rules) t in
              settle_if (truthy message) (refused message)
  | None => Ok ()
  end ≫= λ _,
  let message := effort_message rules (reasoning_effort request) in
  settle_if (truthy message) (refused message) ≫= λ _,
  prepared ← prepare_output response rules canonical (with_request_model request model);
  credential ← match resolved_credential with
               | Ok c => Ok c
               | Err _ => settle (_defect response AUTHENTICATION "connection credentials are unavailable")
               end;
  settle_if (negb (is_header_safe_credential credential))
    (_defect response AUTHENTICATION "connection credentials are invalid") ≫= λ _,
  encoded ← match encode_request prepared rules with
            | Ok r => Ok r
            | Err e => settle (_defect response VALIDATION
                                 ("the request cannot be encoded for the provider: " ++ exn_msg e))
            end;
  match _validate_encoded w encoded with
  | Ok _ => Ok ()
  | Err e => settle (_defect response LOCAL_DEFECT ("the wire format built an invalid request: " ++ exn_msg e))
  end ≫= λ _,
  settle_if (if is_streaming encoded then negb (has_decode_stream w) else negb (has_decode_response w))
    (_defect response LOCAL_DEFECT "the wire format cannot decode the response form it requested") ≫= λ _,
  Ok (response, credential, encoded, canonical).

(** ** Receipts and errors *)

(** [_receipt]: the first identifier header that can be kept, and the rate limit headers. *)
Fixpoint request_id_of (credential : pystr) (headers : dict pystr) (names : list pystr) : res pystr :=
  match names with
  | [] => Ok []
  | name :: names =>
      let value := py_strip (header_get headers name) in
      if truthy value then
        ok ← _identifier value;
        if ok && negb (contains credential value) then Ok value else request_id_of credential headers names
      else request_id_of credential headers names
  end.

Definition rate_limit_kept (credential value : pystr) : bool :=
  truthy value && (length value <=? 256)%nat && forallb (in_range 32 126) value
  && negb (contains credential value).

Definition rate_limit_metadata (credential : pystr) (headers : dict pystr) : dict pystr :=
  fold_left (λ metadata name,
    let value := py_strip (header_get headers name) in
    if rate_limit_kept credential value then dset (ascii_lower name) value metadata else metadata)
    (rate_limit_headers w) [].

Definition _receipt (credential : pystr) (headers : dict pystr) : res Receipt.t :=
  request_id ← request_id_of credential headers (request_id_headers w);
  Ok (Receipt.mk (Call.id call) (provider_name w) (GoTime.TDate now) [] (JStr []) (JStr request_id)
        (rate_limit_metadata credential headers)).

(** [_error_outcome]. *)
Definition _error_outcome (response : response_t) (o : ErrorOutcome) (message : pystr) (delay : pyfloat)
    (receipt : Receipt.t) : res attempt :=
  if bool_decide (disposition o = lit "retry") then _retry (outcome_kind o) message delay
  else
    let response := if bool_decide (disposition o = lit "blocked") then with_reason response CONTENT_POLICY
                    else response in
    _branch response (disposition o) (outcome_kind o) message receipt.

(** The delay of a retry: the dialect's reader first, then the Retry-After header. *)
Definition error_delay (headers : dict pystr) (body : list N) : res pyfloat :=
  let delay := match read_error_retry_delay with Some reader => clamp_delay (reader body) | None => no_delay end in
  if feq delay (FFin 0 0) then parse_retry_after parsedate_to_datetime (header_get headers "retry-after") now
  else Ok delay.

Definition http_message (status : Z) (tokens : list pystr) : pystr :=
  "provider returned HTTP " ++ str_of_Z status ++ token_text tokens.

(** [_classify_error]. *)
Definition _classify_error (credential : pystr) (response : response_t) (status : Z) (headers : dict pystr)
    (body : list N) (receipt : Receipt.t) : res attempt :=
  let tokens := _safe_tokens credential (read_error_tokens (parse_error_body body) (error_token_pointers w)) in
  let o := _match_error (error_rules w) status tokens in
  delay ← (if bool_decide (disposition o = lit "retry") then error_delay headers body else Ok no_delay);
  _error_outcome response o (http_message status tokens) delay receipt.

(** ** Completion *)

Definition total_usage (u : Usage) : Usage :=
  mkUsage (input_tokens u) (cached_input_tokens u) (output_tokens u) (reasoning_tokens u)
    (if (total_tokens u =? 0)%Z then input_tokens u + output_tokens u else total_tokens u).

Definition usage_negative (u : Usage) : bool :=
  existsb (λ n, n <? 0)%Z [input_tokens u; cached_input_tokens u; output_tokens u; reasoning_tokens u;
                           total_tokens u].

Definition answer_text (d : DecodedResponse) : pystr :=
  List.concat (map part_text (filter (λ p, is_reasoning p = false) (parts d))).

Definition invalid_response (response : response_t) (message : pystr) (receipt : Receipt.t) : res attempt :=
  _branch response INVALID_RESPONSE_BRANCH_ID PROTOCOL message receipt.

(** The identifier check of [_complete]. *)
Definition identifiers_kept (credential : pystr) (d : DecodedResponse) : res bool :=
  served ← _identifier (d_served_model d);
  if negb served then Ok false
  else
    id ← _identifier (d_response_id d);
    Ok (id && negb (contains credential (d_served_model d)) && negb (contains credential (d_response_id d))).

(** The finish reason of a decoded response, or the message that refuses it. *)
Definition finish_of (d : DecodedResponse) (provider_reason : pystr) : result pystr FinishReason :=
  if is_refusal d then Ok REFUSAL
  else if negb (truthy provider_reason) then Err (lit "provider returned no recognizable finish reason")
  else match dget provider_reason (finish_reasons w) with
       | Some reason => Ok reason
       | None => Err ("provider stopped for an unsupported reason: " ++ d_provider_finish_reason d)
       end.

(** [_text_branch]: a response that was not streamed is written as a whole. *)
Definition _text_branch (response : response_t) (branch t : pystr) (streaming : bool)
    (failure : option Failure.t) (receipt : Receipt.t) : response_t * invocation :=
  if negb streaming && truthy t && write_fails t then
    (response, ([], _retry AVAILABILITY "the text stream could not be written" no_delay))
  else
    let response := with_text response t in
    (response, ((if negb streaming && truthy t then [t] else []),
                QueryAttempt (branch_result branch response receipt failure))).

(** The routes of a response with a known finish reason. *)
Definition finish (response : response_t) (reason : FinishReason) (t : pystr)
    (canonical : option (dict json)) (streaming : bool) (receipt : Receipt.t) : response_t * invocation :=
  match reason with
  | STOP =>
      if negb (truthy t) then
        (response, ([], invalid_response response "provider finished without text" receipt))
      else
        match match canonical with
              | Some schema => _extract_structured_answer_from_schema raw_decode schema t
              | None => Ok t
              end with
        | Ok t => _text_branch response GENERATED_BRANCH_ID t streaming None receipt
        | Err e =>
            (response, ([], if isinst e ValueError
                            then invalid_response response
                                   ("structured output does not match its schema " ++ exn_msg e) receipt
                            else Err e))
        end
  | LENGTH =>
      _text_branch response TRUNCATED_BRANCH_ID t streaming
        (Some (_failure RESPONSE_TOO_LARGE "provider stopped at the output token limit")) receipt
  | REFUSAL =>
      (response, ([], _branch response BLOCKED_BRANCH_ID PROVIDER_REJECTION "the model refused the request" receipt))
  | CONTENT_POLICY =>
      (response, ([], _branch response BLOCKED_BRANCH_ID PROVIDER_REJECTION
                        "provider stopped the response for a content policy" receipt))
  end.

(** [_complete]: the response as far as it was filled in, and the outcome. *)
Definition _complete (credential : pystr) (response : response_t) (d : DecodedResponse)
    (canonical : option (dict json)) (streaming : bool) (receipt : Receipt.t) : response_t * invocation :=
  let stop response (a : res attempt) : response_t * invocation := (response, ([], a)) in
  match identifiers_kept credential d with
  | Err e => stop response (Err e)
  | Ok false => stop response (invalid_response response "provider returned an invalid model or response identifier" receipt)
  | Ok true =>
      let receipt := Receipt.mk (Receipt.call_id receipt) (Receipt.provider receipt) (Receipt.observed_at receipt)
                       (Receipt.idempotency_key receipt) (JStr (d_response_id d))
                       (Receipt.provider_request_id receipt) (Receipt.metadata receipt) in
      let response := with_identifiers response (d_served_model d) (d_response_id d) in
      if usage_negative (d_usage d) then
        stop response (invalid_response response "provider reported negative token usage" receipt)
      else
        let response := with_usage response (total_usage (d_usage d)) in
        let token := d_provider_finish_reason d in
        if contains credential token then
          stop response (invalid_response response "provider returned an invalid finish reason" receipt)
        else
          let response := if error_token token then with_provider_reason response token else response in
          match finish_of d (provider_finish_reason response) with
          | Err message => stop response (invalid_response response message receipt)
          | Ok reason =>
              finish (with_reason response reason) reason (answer_text d) canonical streaming receipt
          end
  end.

(** ** The exchange *)

Definition malformed (response : response_t) (receipt : Receipt.t) : res attempt :=
  invalid_response response "provider response does not match its documented format" receipt.

(** [except (ValueError, TypeError, AttributeError)] around [_complete]. *)
Definition is_malformed (e : exn) : bool :=
  isinst e ValueError || isinst e TypeError || isinst e AttributeError.

Definition completed (credential : pystr) (response : response_t) (d : DecodedResponse)
    (canonical : option (dict json)) (streaming : bool) (receipt : Receipt.t) : invocation :=
  let '(response, (written, a)) := _complete credential response d canonical streaming receipt in
  (written, match a with
            | Err e => if is_malformed e then malformed response receipt else a
            | Ok _ => a
            end).

Definition deadline_retry (has_response : bool) : res attempt :=
  _retry TRANSPORT (if has_response then lit "provider response ended before it was complete"
                    else lit "provider request failed before a response was received") no_delay.

(** The [except] clauses around the decoder, in their order. *)
Definition decode_failed (response : response_t) (e : exn) (receipt : Receipt.t) : res attempt :=
  if isinst e BodyTooLargeError then
    _branch response INVALID_RESPONSE_BRANCH_ID RESPONSE_TOO_LARGE
      "provider response exceeds the configured size limit" receipt
  else if isinst e ProviderStalledError then
    _retry AVAILABILITY "provider sent no bytes within the stall timeout" no_delay
  else if isinst e HTTPError || isinst e TimeoutError || isinst e EOFError then
    _retry TRANSPORT "provider response ended before it was complete" no_delay
  else if isinst e TextStreamWriteError then
    _retry AVAILABILITY "the text stream could not be written" no_delay
  else if is_malformed e then malformed response receipt
  else Err e.

(** What follows the decoder. *)
Definition after_decode (credential : pystr) (response : response_t) (canonical : option (dict json))
    (streaming : bool) (receipt : Receipt.t) (r : decode_result) : invocation :=
  match r with
  | DecodedAs d => completed credential response d canonical streaming receipt
  | ReportedError tokens =>
      let tokens := _safe_tokens credential tokens in
      ([], _error_outcome response (_match_error (error_rules w) 0 tokens)
             ("provider reported an error inside a 2xx response" ++ token_text tokens) no_delay receipt)
  | DecodeRaised e => ([], decode_failed response e receipt)
  | DecodeCancelled => ([], deadline_retry true)
  end.

Definition event_stream (encoded : EncodedRequest) (headers : dict pystr) : bool :=
  is_streaming encoded
  && bool_decide (ascii_lower (py_strip (fst (partition_char 59 (header_get headers "content-type"))))
                  = lit "text/event-stream").

(** The body of an error response, empty when it cannot be read. *)
Definition error_body (events : list wire_event) : option (list N) :=
  match _read_body events MAX_ERROR_BODY_BYTES with
  | (body, Finished) => Some body
  | (_, Raised e) =>
      if isinst e HTTPError || isinst e BodyTooLargeError || isinst e TimeoutError then Some [] else None
  | (_, Cancelled) => None
  end.

Definition error_body_stop (events : list wire_event) : res attempt :=
  match _read_body events MAX_ERROR_BODY_BYTES with
  | (_, Raised e) => Err e
  | _ => deadline_retry true
  end.

(** The part of [dispatch] after the response headers have arrived. *)
Definition received (credential : pystr) (response : response_t) (encoded : EncodedRequest)
    (canonical : option (dict json)) (h : http_response) : invocation :=
  match _receipt credential (headers h) with
  | Err e => ([], Err e)
  | Ok receipt =>
      if negb ((200 <=? status_code h) && (status_code h <=? 299))%Z then
        ([], match error_body (body h) with
             | Some body => _classify_error credential response (status_code h) (headers h) body receipt
             | None => error_body_stop (body h)
             end)
      else
        let streaming := event_stream encoded (headers h) in
        if negb streaming && negb (has_decode_response w) then
          ([], invalid_response response "provider did not return the event stream it was asked for" receipt)
        else if streaming then
          let '(chunks, e) := _bounded_chunks (max_response_bytes config) (max_stream_event_bytes config)
                                stream_start (body h) in
          let '(deltas, r) := decode_stream chunks e write_fails in
          let '(written, a) := after_decode credential response canonical true receipt r in
          (deltas ++ written, a)
        else
          after_decode credential response canonical false receipt
            (match _read_body (body h) (max_response_bytes config) with
             | (body, Finished) => decode_response body
             | (_, Raised e) => DecodeRaised e
             | (_, Cancelled) => DecodeCancelled
             end)
  end.

(** The [except TimeoutError] around the whole exchange. *)
Definition outer (has_response : bool) (i : invocation) : invocation :=
  match i with
  | (written, Err e) => if isinst e TimeoutError then (written, deadline_retry has_response) else i
  | _ => i
  end.

(** The request [dispatch] builds: the fixed headers and the credential come last. *)
Definition dispatched (credential : pystr) (encoded : EncodedRequest) : provider_request :=
  mkProviderRequest (q_base_url ++ e_path encoded)
    (dset (credential_header_name w) (credential_header_prefix w ++ credential)
       (dset "Accept" (if is_streaming encoded then lit "text/event-stream" else lit "application/json")
          (dset "Content-Type" (lit "application/json") (e_headers encoded))))
    (e_body encoded).

(** [_exchange]. *)
Definition _exchange (credential : pystr) (response : response_t) (encoded : EncodedRequest)
    (canonical : option (dict json)) : invocation :=
  if negb request_builds then ([], _defect response LOCAL_DEFECT "the provider request could not be built")
  else
    match send (dispatched credential encoded) with
    | SendDeadline => ([], deadline_retry false)
    | SendRaised e =>
        ([], if isinst e TimeoutError
             then _retry AVAILABILITY "provider sent no bytes within the stall timeout" no_delay
             else if isinst e AddressRefusal
             then _defect response LOCAL_DEFECT "provider address is not allowed"
             else if isinst e ProviderTransportError || isinst e HTTPTimeout
             then _retry TRANSPORT "provider request failed before a response was received" no_delay
             else Err e)
    | Responded h => outer true (received credential response encoded canonical h)
    end.

(** [run]. *)
Definition run (request : TextGenerationRequest) : invocation :=
  match prepare request with
  | Err a => ([], a)
  | Ok (response, credential, encoded, canonical) => _exchange credential response encoded canonical
  end.

(** ** What every returned attempt satisfies *)

Definition declared_branches : list pystr := map BranchDefinition.id text_generation_branch_definitions.

Definition delay_ok (f : pyfloat) : Prop := isfinite f = true ∧ flt f (FFin 0 0) = false.

(** The finish reason and the failure that go with a branch. *)
Definition branch_value_ok (branch : pystr) (v : response_t) (failure : option Failure.t) : Prop :=
  branch ∈ declared_branches ∧
  (failure = None ↔ branch = GENERATED_BRANCH_ID) ∧
  (branch = GENERATED_BRANCH_ID → finish_reason v = Some STOP) ∧
  (branch = TRUNCATED_BRANCH_ID → finish_reason v = Some LENGTH) ∧
  (branch = BLOCKED_BRANCH_ID → finish_reason v = Some CONTENT_POLICY ∨ finish_reason v = Some REFUSAL).

(** No field the provider fills carries the credential. *)
Definition text_clean (c : pystr) (j : json) : Prop := ∃ s, j = JStr s ∧ contains c s = false.
Definition receipt_clean (c : pystr) (r : Receipt.t) : Prop :=
  text_clean c (Receipt.provider_object_id r) ∧ text_clean c (Receipt.provider_request_id r) ∧
  Forall (λ kv, contains c (snd kv) = false) (Receipt.metadata r).
Definition response_clean (c : pystr) (v : response_t) : Prop :=
  contains c (served_model v) = false ∧ contains c (response_id v) = false ∧
  contains c (provider_finish_reason v) = false.

Definition settled_attempt (c : pystr) (a : attempt) : Prop :=
  match a_kind a with
  | KRetry => delay_ok (a_retry_after_seconds a) ∧ a_receipt a = None ∧ a_value a = None ∧ a_failure a ≠ None
  | KBranch => ∃ v r, a_value a = Some v ∧ a_receipt a = Some r ∧
                 branch_value_ok (a_branch a) v (a_failure a) ∧ receipt_clean c r ∧ response_clean c v
  | KUncertain => False
  end.

Definition settles (c : pystr) (m : res attempt) : Prop := ∀ a, m = Ok a → settled_attempt c a.

Lemma settles_Err c e : settles c (Err e).
Proof. by intros a [=]. Qed.

Lemma query_attempt_same (a b : attempt) : QueryAttempt a = Ok b → a = b.
Proof. unfold QueryAttempt. intros H. by res_inv. Qed.

Lemma settles_retry c kind message delay : settles c (_retry kind message delay).
Proof.
  intros a H. unfold _retry in H. pose proof (query_attempt_same _ _ H) as <-.
  unfold QueryAttempt in H. cbn [a_kind retry] in H. apply bind_Ok in H as ([] & H & _).
  apply raise_if_Ok in H. unfold retry_invalid in H. bool_inv. cbn. done.
Qed.

Lemma settles_terminal c response branch receipt failure :
  branch_value_ok branch response failure → receipt_clean c receipt → response_clean c response →
  settles c (QueryAttempt (branch_result branch response receipt failure)).
Proof. intros Hb Hr Hv a <-%query_attempt_same. cbn. by exists response, receipt. Qed.

Lemma settles_branch c response branch kind message receipt :
  branch ∈ [TextGen.BLOCKED_BRANCH_ID; PROVIDER_REJECTED_BRANCH_ID; INVALID_RESPONSE_BRANCH_ID; DEFECT_BRANCH_ID] →
  (branch = BLOCKED_BRANCH_ID →
   finish_reason response = Some CONTENT_POLICY ∨ finish_reason response = Some REFUSAL) →
  receipt_clean c receipt → response_clean c response →
  settles c (_branch response branch kind message receipt).
Proof.
  intros Hin Hf Hr Hv. apply settles_terminal; [|done|done].
  repeat (apply elem_of_cons in Hin as [->|Hin]); [..|by apply elem_of_nil in Hin];
    (split; [by apply (bool_decide_eq_true_1 _); vm_compute|]); repeat split; try done; intros; discriminate || auto.
Qed.

Lemma settles_invalid c response message receipt : receipt_clean c receipt → response_clean c response →
  settles c (invalid_response response message receipt).
Proof. intros. apply settles_branch; [set_solver|done|done|done]. Qed.

Lemma contains_nil c : c ≠ [] → contains c [] = false.
Proof. by destruct c. Qed.

Lemma provider_receipt_clean c : c ≠ [] → receipt_clean c provider_receipt.
Proof.
  intros Hc. repeat split; try (eexists; split; [reflexivity|by apply contains_nil]). constructor.
Qed.

Lemma with_model_clean c model : c ≠ [] → response_clean c (with_model model).
Proof. intros Hc. by repeat split; apply contains_nil. Qed.

Lemma settles_defect c response kind message : c ≠ [] → response_clean c response →
  settles c (_defect response kind message).
Proof. intros. apply settles_branch; [set_solver|done|by apply provider_receipt_clean|done]. Qed.

(** *** Receipts *)

Lemma request_id_clean c headers names id : c ≠ [] → request_id_of c headers names = Ok id →
  contains c id = false.
Proof.
  intros Hc. induction names as [|n names IH]; cbn [request_id_of]; [by intros [= <-]; apply contains_nil|].
  cbv zeta. destruct (truthy _); [|done]. intros (ok & ? & H)%bind_Ok.
  destruct (ok && _) eqn:E; [|by apply IH]. injection H as <-. by apply andb_prop in E as [_ E%negb_true_iff].
Qed.

Lemma dset_Forall {V} (P : V → Prop) k v (d : dict V) : P v →
  Forall (λ kv, P (snd kv)) d → Forall (λ kv, P (snd kv)) (dset k v d).
Proof.
  intros Hv. induction 1 as [|[k' v'] d Hx Hd IH]; cbn [dset]; [by repeat constructor|].
  case_bool_decide || destruct (decide _); by constructor.
Qed.

Lemma metadata_clean c headers :
  Forall (λ kv, contains c (snd kv) = false) (rate_limit_metadata c headers).
Proof.
  unfold rate_limit_metadata. generalize (rate_limit_headers w). intros names.
  assert (H0 : Forall (λ kv : pystr * pystr, contains c (snd kv) = false) []) by constructor.
  revert H0. generalize (@nil (pystr * pystr)) as acc. induction names as [|n names IH]; intros acc Ha; [done|].
  cbn [fold_left]. apply IH. cbv zeta. destruct (rate_limit_kept c _) eqn:E; [|done].
  apply (dset_Forall (λ s, contains c s = false)); [|done].
  unfold rate_limit_kept in E. by apply andb_prop in E as [_ E%negb_true_iff].
Qed.

Lemma receipt_is_clean c headers r : c ≠ [] → _receipt c headers = Ok r → receipt_clean c r.
Proof.
  intros Hc. unfold _receipt. intros (id & Hid & [= <-])%bind_Ok. repeat split.
  - eexists. split; [reflexivity|by apply contains_nil].
  - eexists. split; [reflexivity|by eapply request_id_clean].
  - apply metadata_clean.
Qed.

(** *** Errors *)

Definition outcomes_ok (rules : list ErrorRule) : Prop :=
  ∀ r, r ∈ rules → disposition (outcome r) ∈ dispositions.

Lemma default_disposition status : disposition (default_outcome status) ∈ dispositions.
Proof. unfold default_outcome. repeat case_match; apply (bool_decide_eq_true_1 _); reflexivity. Qed.

Lemma match_error_disposition rules status tokens : outcomes_ok rules →
  disposition (_match_error rules status tokens) ∈ dispositions.
Proof.
  intros Hr. unfold _match_error. destruct (List.find _ rules) as [r|] eqn:E; [|apply default_disposition].
  apply find_some in E as [E _]. by apply Hr, list_elem_of_In.
Qed.

Lemma settles_error_outcome c response o message delay receipt :
  disposition o ∈ dispositions → receipt_clean c receipt → response_clean c response →
  settles c (_error_outcome response o message delay receipt).
Proof.
  intros Ho Hr Hv. unfold _error_outcome. case_bool_decide as Hretry; [apply settles_retry|].
  repeat (apply elem_of_cons in Ho as [Ho|Ho]); [done| | | |by apply elem_of_nil in Ho];
    rewrite Ho; repeat (rewrite bool_decide_eq_false_2 by discriminate || rewrite bool_decide_eq_true_2 by done);
    (apply settles_branch; [apply (bool_decide_eq_true_1 _); vm_compute; reflexivity| |done|done]).
  - intros; discriminate.
  - by left.
  - intros; discriminate.
Qed.

Lemma settles_classify c credential response status headers body receipt :
  outcomes_ok (error_rules w) → receipt_clean c receipt → response_clean c response →
  settles c (_classify_error credential response status headers body receipt).
Proof.
  intros Ho Hr Hv a H. unfold _classify_error in H. apply bind_Ok in H as (delay & _ & H). revert a H.
  apply settles_error_outcome; [by apply match_error_disposition|done|done].
Qed.

(** *** Completion *)

Definition settles_all (c : pystr) (x : response_t * invocation) : Prop :=
  response_clean c (fst x) ∧ settles c (snd (snd x)).

Lemma settles_text_branch c response branch t streaming failure receipt :
  branch_value_ok branch (with_text response t) failure → receipt_clean c receipt → response_clean c response →
  settles_all c (_text_branch response branch t streaming failure receipt).
Proof.
  intros Hb Hr Hv. unfold _text_branch. destruct (_ && _).
  - split; [done|apply settles_retry].
  - split; [done|by apply settles_terminal].
Qed.

Lemma settles_finish c response reason t canonical streaming receipt :
  finish_reason response = Some reason → receipt_clean c receipt → response_clean c response →
  settles_all c (finish response reason t canonical streaming receipt).
Proof.
  intros Hf Hr Hv. destruct reason; unfold finish.
  - destruct (negb (truthy t)); [split; [done|by apply settles_invalid]|].
    destruct (match canonical with Some _ => _ | None => _ end) as [t'|e].
    + apply settles_text_branch; [|done|done]. split; [by apply (bool_decide_eq_true_1 _); vm_compute|].
      repeat split; try done; intros; discriminate.
    + split; [done|]. cbn [snd]. destruct (isinst e ValueError); [by apply settles_invalid|apply settles_Err].
  - apply settles_text_branch; [|done|done]. split; [by apply (bool_decide_eq_true_1 _); vm_compute|].
    repeat split; try done; intros; discriminate.
  - split; [done|]. apply settles_branch; [set_solver|by left|done|done].
  - split; [done|]. apply settles_branch; [set_solver|by right|done|done].
Qed.

Lemma identifiers_kept_true c d : identifiers_kept c d = Ok true →
  contains c (d_served_model d) = false ∧ contains c (d_response_id d) = false.
Proof.
  unfold identifiers_kept. intros (s & _ & H)%bind_Ok. destruct (negb s); [done|].
  apply bind_Ok in H as (i & _ & H). apply Ok_inj in H. bool_inv. done.
Qed.

Lemma settles_complete c response d canonical streaming receipt :
  receipt_clean c receipt → response_clean c response →
  settles_all c (_complete c response d canonical streaming receipt).
Proof.
  intros Hr Hv. unfold _complete. destruct (identifiers_kept c d) as [[|]|e] eqn:Hk;
    [|split; [done|by apply settles_invalid]|split; [done|apply settles_Err]].
  apply identifiers_kept_true in Hk as [Hs Hi].
  set (receipt' := Receipt.mk _ _ _ _ (JStr (d_response_id d)) _ _).
  assert (Hr' : receipt_clean c receipt').
  { destruct Hr as (_ & ? & ?). split; [by eexists|done]. }
  assert (Hv' : ∀ r, provider_finish_reason r = provider_finish_reason response ∨
                     contains c (provider_finish_reason r) = false →
                     served_model r = d_served_model d → response_id r = d_response_id d → response_clean c r).
  { intros r [Hp|Hp] H1 H2; (split; [by rewrite H1|split; [by rewrite H2|]]); [rewrite Hp; apply Hv|done]. }
  cbv zeta. destruct (usage_negative _).
  { assert (Hc : response_clean c (with_identifiers response (d_served_model d) (d_response_id d)))
      by (apply Hv'; auto). split; [done|by apply settles_invalid]. }
  destruct (contains c (d_provider_finish_reason d)) eqn:Ht.
  { set (r := with_usage _ _). assert (Hc : response_clean c r) by (apply Hv'; auto).
    split; [done|by apply settles_invalid]. }
  set (r := if error_token _ then _ else _).
  assert (Hc : response_clean c r).
  { unfold r. destruct (error_token _); apply Hv'; auto. }
  destruct (finish_of d (provider_finish_reason r)) as [reason|message].
  - by apply settles_finish.
  - split; [done|by apply settles_invalid].
Qed.

Lemma settles_completed c response d canonical streaming receipt :
  receipt_clean c receipt → response_clean c response →
  settles c (snd (completed c response d canonical streaming receipt)).
Proof.
  intros Hr Hv. unfold completed. destruct (settles_complete c response d canonical streaming receipt Hr Hv) as [H1 H2].
  destruct (_complete _ _ _ _ _ _) as [r' [written a]]. cbn [fst snd] in *.
  destruct a as [a|e]; [done|]. destruct (is_malformed e); [by apply settles_invalid|done].
Qed.

(** *** The exchange *)

Lemma settles_decode_failed c response e receipt : receipt_clean c receipt → response_clean c response →
  settles c (decode_failed response e receipt).
Proof.
  intros Hr Hv. unfold decode_failed.
  destruct (isinst e BodyTooLargeError); [apply settles_branch; [set_solver|done|done|done]|].
  repeat match goal with |- settles _ (if ?b then _ else _) => destruct b end;
    first [apply settles_retry | by apply settles_invalid | apply settles_Err].
Qed.

Lemma settles_after_decode c response canonical streaming receipt r :
  outcomes_ok (error_rules w) → receipt_clean c receipt → response_clean c response →
  settles c (snd (after_decode c response canonical streaming receipt r)).
Proof.
  intros Ho Hr Hv. destruct r as [d|tokens|e|]; cbn [after_decode snd].
  - by apply settles_completed.
  - apply settles_error_outcome; [by apply match_error_disposition|done|done].
  - by apply settles_decode_failed.
  - apply settles_retry.
Qed.

Lemma settles_received c response encoded canonical h :
  outcomes_ok (error_rules w) → c ≠ [] → response_clean c response →
  settles c (snd (received c response encoded canonical h)).
Proof.
  intros Ho Hc Hv. unfold received. destruct (_receipt c (headers h)) as [receipt|e] eqn:Hr; [|apply settles_Err].
  apply receipt_is_clean in Hr; [|done]. destruct (negb _).
  { cbn [snd]. destruct (error_body _); [by apply settles_classify|]. unfold error_body_stop.
    destruct (_read_body _ _) as [? [| |]]; first [apply settles_Err|apply settles_retry]. }
  cbv zeta. destruct (negb (event_stream _ _) && _); [by apply settles_invalid|].
  destruct (event_stream _ _).
  - destruct (_bounded_chunks _ _ _ _) as [chunks e]. destruct (decode_stream _ _ _) as [deltas r].
    pose proof (settles_after_decode c response canonical true receipt r Ho Hr Hv) as H.
    destruct (after_decode _ _ _ _ _ _) as [written a]. exact H.
  - by apply settles_after_decode.
Qed.

Lemma settles_outer c has_response i : settles c (snd i) → settles c (snd (outer has_response i)).
Proof.
  destruct i as [written [a|e]]; [done|]. intros _. cbn [outer]. destruct (isinst e TimeoutError).
  - apply settles_retry.
  - apply settles_Err.
Qed.

Lemma settles_exchange c response encoded canonical :
  outcomes_ok (error_rules w) → c ≠ [] → response_clean c response →
  settles c (snd (_exchange c response encoded canonical)).
Proof.
  intros Ho Hc Hv. unfold _exchange. destruct (negb request_builds); [by apply settles_defect|].
  destruct (send _) as [h|e|].
  - by apply settles_outer, settles_received.
  - cbn [snd]. repeat match goal with |- settles _ (if ?b then _ else _) => destruct b end;
      first [apply settles_retry | by apply settles_defect | apply settles_Err].
  - apply settles_retry.
Qed.

(** *** Preparation *)

(** An early exit is settled, and a value satisfies [P]. *)
Definition prepares {A} (c : pystr) (P : A → Prop) (m : early A) : Prop :=
  match m with Ok a => P a | Err r => settles c r end.

Lemma prepares_bind {A B} c (P : A → Prop) (Q : B → Prop) (m : early A) (f : A → early B) :
  prepares c P m → (∀ a, P a → prepares c Q (f a)) → prepares c Q (m ≫= f).
Proof. destruct m as [a|r]; cbn; auto. Qed.

Lemma prepares_settle_if c b a : settles c a → prepares c (λ _, True) (settle_if b a).
Proof. by destruct b. Qed.

Lemma prepares_lift {A} c (m : res A) : prepares c (λ _, True) (lift m).
Proof. destruct m; [done|apply settles_Err]. Qed.

Lemma prepares_output c response rules canonical request : c ≠ [] → response_clean c response →
  prepares c (λ _, True) (prepare_output response rules canonical request).
Proof.
  intros Hc Hv. unfold prepare_output. destruct (structured_output request) as [output|]; [|done].
  destruct canonical as [canonical|]; [|apply settles_Err].
  destruct (validate_rules _); [|by apply settles_defect].
  eapply prepares_bind; [by apply prepares_settle_if, settles_defect|intros _ _].
  eapply prepares_bind; [by apply prepares_settle_if, settles_defect|intros _ _].
  eapply prepares_bind; [apply prepares_lift|intros transformed _].
  eapply (prepares_bind _ (λ _, True)); [|done].
  destruct (bool_decide _); [|done]. eapply prepares_bind; [apply prepares_lift|done].
Qed.

Lemma prepares_prepare c request : c ≠ [] →
  prepares c (λ x, response_clean c (fst (fst (fst x))) ∧ resolved_credential = Ok (snd (fst (fst x))))
    (prepare request).
Proof.
  intros Hc. assert (He : response_clean c empty_response) by (repeat split; by apply contains_nil).
  unfold prepare. cbv zeta.
  eapply prepares_bind; [by apply prepares_settle_if, settles_defect|intros _ _].
  eapply prepares_bind; [by apply prepares_settle_if, settles_defect|intros _ _].
  eapply (prepares_bind _ (λ _, True)).
  { destruct (validate_model_id _ _) as [m|e]; [done|]. cbn.
    destruct (isinst e ValueError); [by apply settles_defect|apply settles_Err]. }
  intros model _. pose proof (with_model_clean c model Hc) as Hv.
  eapply prepares_bind; [apply prepares_lift|intros [canonical failure] _].
  eapply (prepares_bind _ (λ _, True)); [destruct failure; [by apply settles_defect|done]|intros _ _].
  eapply (prepares_bind _ (λ _, True));
    [destruct (unsupported_feature request); [by apply settles_defect|done]|intros _ _].
  eapply (prepares_bind _ (λ _, True));
    [destruct (temperature request); [by apply prepares_settle_if, settles_defect|done]|intros _ _].
  eapply prepares_bind; [by apply prepares_settle_if, settles_defect|intros _ _].
  eapply prepares_bind; [by apply prepares_output|intros prepared _].
  eapply (prepares_bind _ (λ x, resolved_credential = Ok x));
    [destruct resolved_credential; [done|by apply settles_defect]|intros credential Hcred].
  eapply prepares_bind; [by apply prepares_settle_if, settles_defect|intros _ _].
  eapply (prepares_bind _ (λ _, True));
    [destruct (encode_request _ _); [done|by apply settles_defect]|intros encoded _].
  eapply (prepares_bind _ (λ _, True));
    [destruct (_validate_encoded _ _); [done|by apply settles_defect]|intros _ _].
  eapply prepares_bind; [by apply prepares_settle_if, settles_defect|intros _ _].
  by split.
Qed.

Lemma wire_outcomes_ok : _validate_wire_format w = Ok () → outcomes_ok (error_rules w).
Proof.
  intros Hw. unfold _validate_wire_format in Hw. repeat (apply bind_Ok in Hw as ([] & ? & Hw)).
  match goal with Hr : for_each _ _ = Ok () |- _ => rewrite for_each_Ok, Forall_forall in Hr; rename Hr into Hrules end.
  intros r Hr. specialize (Hrules r Hr). unfold validate_error_rule in Hrules. res_inv. bool_inv. done.
Qed.

(** C34: an attempt that a validated wire format returns is either a retry with a failure and a finite,
    nonnegative delay, or one of the six declared branches whose finish reason and failure fit it
    (only [generated] has no failure); and neither its receipt nor the identifiers and finish reason
    of its response contain the connection's credential. *)
Theorem attempt_outcomes request written a c :
  _validate_wire_format w = Ok () → resolved_credential = Ok c → c ≠ [] →
  run request = (written, Ok a) → settled_attempt c a.
Proof.
  intros Hw Hcred Hc H. pose proof (wire_outcomes_ok Hw) as Ho.
  pose proof (prepares_prepare c request Hc) as Hp. unfold run in H.
  destruct (prepare request) as [[[[response credential] encoded] canonical]|r]; cbn in Hp.
  - destruct Hp as [Hv Hcr]. rewrite Hcred in Hcr. injection Hcr as <-.
    by apply (settles_exchange c response encoded canonical Ho Hc Hv a); rewrite H.
  - injection H as _ ->. by apply Hp.
Qed.

Lemma query_attempt_branch (a b : attempt) : QueryAttempt a = Ok b → a_branch b = a_branch a.
Proof. by intros ->%query_attempt_same. Qed.

(** Completing a decoded response writes text only on its way to the [generated] or [truncated]
    branch: there the whole text of a response that was not streamed is written, once, before the
    attempt is built, and it is the answer text, or the validated structured answer when the request
    retained a schema; on every other outcome nothing is written. *)
Lemma complete_written c response d canonical streaming receipt v written a :
  _complete c response d canonical streaming receipt = (v, (written, Ok a)) →
  (a_branch a ∈ [GENERATED_BRANCH_ID; TRUNCATED_BRANCH_ID] ∧ a_value a = Some v ∧
   written = (if negb streaming && truthy (text v) then [text v] else []) ∧
   (match canonical with
    | Some node => a_branch a = GENERATED_BRANCH_ID →
        _extract_structured_answer_from_schema raw_decode node (answer_text d) = Ok (text v)
    | None => text v = answer_text d
    end)) ∨
  (written = [] ∧ a_branch a ∉ [GENERATED_BRANCH_ID; TRUNCATED_BRANCH_ID]).
Proof using config write_fails raw_decode.
  assert (Hno : ∀ r b k m rc x, b ∉ [GENERATED_BRANCH_ID; TRUNCATED_BRANCH_ID] → _branch r b k m rc = Ok x →
    a_branch x ∉ [GENERATED_BRANCH_ID; TRUNCATED_BRANCH_ID]).
  { intros r b k m rc x Hb H. apply query_attempt_branch in H. by rewrite H. }
  assert (Hinv : ∀ r m rc x, invalid_response r m rc = Ok x → a_branch x ∉ [GENERATED_BRANCH_ID; TRUNCATED_BRANCH_ID]).
  { intros r m rc x. apply Hno. apply (bool_decide_eq_true_1 _). vm_compute. reflexivity. }
  assert (Htext : ∀ r b t f rc, b ∈ [GENERATED_BRANCH_ID; TRUNCATED_BRANCH_ID] →
    _text_branch r b t streaming f rc = (v, (written, Ok a)) →
    (a_branch a = b ∧ a_value a = Some v ∧ text v = t ∧
     written = (if negb streaming && truthy (text v) then [text v] else [])) ∨
    (written = [] ∧ a_branch a ∉ [GENERATED_BRANCH_ID; TRUNCATED_BRANCH_ID])).
  { intros r b t f rc Hb. unfold _text_branch. destruct (_ && _).
    - intros [= -> <- H]. right. split; [done|]. apply query_attempt_same in H as <-.
      apply (bool_decide_eq_true_1 _). vm_compute. reflexivity.
    - intros [= <- <- H]. left. apply query_attempt_same in H as <-. done. }
  unfold _complete. destruct (identifiers_kept c d) as [[|]|e]; [|intros [= _ <- H]; right; split; [done|by eapply Hinv]|by intros [=]].
  cbv zeta. destruct (usage_negative _); [intros [= _ <- H]; right; split; [done|by eapply Hinv]|].
  destruct (contains _ _); [intros [= _ <- H]; right; split; [done|by eapply Hinv]|].
  destruct (finish_of _ _) as [reason|m]; [|intros [= _ <- H]; right; split; [done|by eapply Hinv]].
  destruct reason; unfold finish.
  - destruct (negb (truthy _)); [intros [= _ <- H]; right; split; [done|by eapply Hinv]|].
    destruct (match canonical with Some _ => _ | None => _ end) as [t|e] eqn:Et.
    + intros [(Hb & Hv & Ht & Hw)|?]%Htext; [left|by right|repeat constructor]. rewrite Hb. split; [repeat constructor|].
      split; [done|]. split; [done|]. rewrite Ht. destruct canonical; [by intros _|by injection Et as ->].
    + intros [= _ <- H]. right. split; [done|]. destruct (isinst e ValueError); [by eapply Hinv|done].
  - intros [(Hb & Hv & Ht & Hw)|?]%Htext; [left|by right|repeat constructor]. rewrite Hb. split; [repeat constructor|].
    split; [done|]. split; [done|]. destruct canonical; [discriminate|done].
  - intros [= _ <- H]. right. split; [done|]. eapply Hno; [|done]. apply (bool_decide_eq_true_1 _). vm_compute. reflexivity.
  - intros [= _ <- H]. right. split; [done|]. eapply Hno; [|done]. apply (bool_decide_eq_true_1 _). vm_compute. reflexivity.
Qed.

(** *** What an invocation writes *)

Definition text_branches : list pystr := [GENERATED_BRANCH_ID; TRUNCATED_BRANCH_ID].

(** No attempt with a text branch. *)
Definition textless (m : res attempt) : Prop := ∀ a, m = Ok a → a_branch a ∉ text_branches.

Lemma textless_Err e : textless (Err e).
Proof. by intros a [=]. Qed.

Lemma textless_retry kind message delay : textless (_retry kind message delay).
Proof.
  intros a H. apply query_attempt_branch in H. rewrite H. by apply (bool_decide_eq_true_1 _); vm_compute.
Qed.

Lemma textless_branch response branch kind message receipt : branch ∉ text_branches →
  textless (_branch response branch kind message receipt).
Proof. intros Hb a H. apply query_attempt_branch in H. by rewrite H. Qed.

Lemma textless_fixed response branch kind message receipt : bool_decide (branch ∉ text_branches) = true →
  textless (_branch response branch kind message receipt).
Proof. intros H. by apply textless_branch, (bool_decide_eq_true_1 _). Qed.

Ltac textless_tac :=
  first [ apply textless_Err | apply textless_retry
        | apply textless_fixed; vm_compute; reflexivity ].

Lemma textless_error_outcome response o message delay receipt : disposition o ∈ dispositions →
  textless (_error_outcome response o message delay receipt).
Proof.
  intros Ho. unfold _error_outcome. case_bool_decide; [apply textless_retry|]. apply textless_branch.
  repeat (apply elem_of_cons in Ho as [->|Ho]; [apply (bool_decide_eq_true_1 _); vm_compute; reflexivity|]).
  by apply elem_of_nil in Ho.
Qed.

(** A textual outcome needs a decoded response, whose text is what is written. *)
Definition writes (canonical : option (dict json)) (i : invocation) : Prop :=
  ∀ a, snd i = Ok a → a_branch a ∈ text_branches → canonical = None →
    ∃ v, a_value a = Some v ∧ List.concat (fst i) = text v.

Lemma writes_textless canonical written m : textless m → writes canonical (written, m).
Proof. intros H a Ha Hb. by destruct (H a Ha). Qed.

Lemma completed_writes c response d canonical (streaming : bool) receipt before :
  (if streaming then List.concat before = answer_text d else before = []) →
  let '(written, a) := completed c response d canonical streaming receipt in writes canonical (before ++ written, a).
Proof.
  intros Hs. unfold completed. destruct (_complete _ _ _ _ _ _) as [v [written a]] eqn:E.
  destruct a as [a|e].
  - intros a' [= <-] Hb ->. destruct (complete_written _ _ _ _ _ _ _ _ _ E) as [(_ & Hv & -> & Ht)|[_ Hn]]; [|done].
    exists v. split; [done|]. cbn [fst]. rewrite concat_app, Ht. destruct streaming; cbn [negb andb].
    + by rewrite Hs, app_nil_r.
    + subst before. destruct (truthy (answer_text d)) eqn:Et; cbn; [by rewrite app_nil_r|by apply truthy_false in Et].
  - apply writes_textless. destruct (is_malformed e); unfold malformed, invalid_response; textless_tac.
Qed.

Lemma after_decode_writes c response canonical (streaming : bool) receipt r before : outcomes_ok (error_rules w) →
  (∀ d, r = DecodedAs d → if streaming then List.concat before = answer_text d else before = []) →
  let '(written, a) := after_decode c response canonical streaming receipt r in writes canonical (before ++ written, a).
Proof.
  intros Ho Hd. destruct r as [d|tokens|e|]; cbn [after_decode].
  - by apply completed_writes, Hd.
  - apply writes_textless, textless_error_outcome. by apply match_error_disposition.
  - apply writes_textless. unfold decode_failed, malformed, invalid_response.
    repeat match goal with |- textless (if ?b then _ else _) => destruct b end; textless_tac.
  - apply writes_textless, textless_retry.
Qed.

(** The stream decoder writes the text of what it decodes. *)
Definition decoder_writes : Prop :=
  ∀ chunks e written d, decode_stream chunks e write_fails = (written, DecodedAs d) → List.concat written = answer_text d.

Lemma received_writes c response encoded canonical h : outcomes_ok (error_rules w) → decoder_writes →
  writes canonical (received c response encoded canonical h).
Proof.
  intros Ho Hd. unfold received. destruct (_receipt c (headers h)) as [receipt|e]; [|apply writes_textless; textless_tac].
  destruct (negb _).
  { apply writes_textless. destruct (error_body _).
    - intros a H. unfold _classify_error in H. apply bind_Ok in H as (delay & _ & H). revert a H.
      apply textless_error_outcome. by apply match_error_disposition.
    - unfold error_body_stop. destruct (_read_body _ _) as [? [| |]]; textless_tac. }
  cbv zeta. destruct (negb (event_stream _ _) && _); [apply writes_textless; unfold invalid_response; textless_tac|].
  destruct (event_stream _ _).
  - destruct (_bounded_chunks _ _ _ _) as [chunks e]. destruct (decode_stream _ _ _) as [deltas r] eqn:E.
    pose proof (after_decode_writes c response canonical true receipt r deltas Ho) as H.
    destruct (after_decode _ _ _ _ _ _) as [written a]. apply H. intros d ->. by eapply Hd.
  - match goal with |- writes _ (after_decode _ _ _ _ _ ?r) =>
      pose proof (after_decode_writes c response canonical false receipt r [] Ho (λ _ _, eq_refl)) as H end.
    by destruct (after_decode _ _ _ _ _ _) as [written a].
Qed.

Lemma exchange_writes c response encoded canonical : outcomes_ok (error_rules w) → decoder_writes →
  writes canonical (_exchange c response encoded canonical).
Proof.
  intros Ho Hd. unfold _exchange, _defect. destruct (negb request_builds); [apply writes_textless; textless_tac|].
  destruct (send _) as [h|e|].
  - pose proof (received_writes c response encoded canonical h Ho Hd) as H.
    destruct (received _ _ _ _ _) as [written [a|e]]; [done|]. cbn [outer]. destruct (isinst e TimeoutError); [|done].
    apply writes_textless, textless_retry.
  - apply writes_textless. repeat match goal with |- textless (if ?b then _ else _) => destruct b end; textless_tac.
  - apply writes_textless, textless_retry.
Qed.

(** An early exit has no text branch. *)
Definition exits {A} (P : A → Prop) (m : early A) : Prop := match m with Ok a => P a | Err r => textless r end.

Lemma exits_bind {A B} (P : A → Prop) (Q : B → Prop) (m : early A) (f : A → early B) :
  exits P m → (∀ a, P a → exits Q (f a)) → exits Q (m ≫= f).
Proof. destruct m as [a|r]; cbn; auto. Qed.

Lemma exits_settle_if b a : textless a → exits (λ _, True) (settle_if b a).
Proof. by destruct b. Qed.

Lemma exits_lift {A} (m : res A) : exits (λ a, m = Ok a) (lift m).
Proof. destruct m; [done|apply textless_Err]. Qed.

Lemma exits_output response rules canonical request : exits (λ _, True) (prepare_output response rules canonical request).
Proof.
  unfold prepare_output, _defect. destruct (structured_output request) as [output|]; [|done].
  destruct canonical as [canonical|]; [|apply textless_Err].
  destruct (validate_rules _); [|cbn; textless_tac].
  eapply exits_bind; [apply exits_settle_if; textless_tac|intros _ _].
  eapply exits_bind; [apply exits_settle_if; textless_tac|intros _ _].
  eapply exits_bind; [apply exits_lift|intros transformed _].
  eapply (exits_bind (λ _, True)); [|done].
  destruct (bool_decide _); [|done]. eapply exits_bind; [apply exits_lift|done].
Qed.

Lemma exits_prepare request : structured_output request = None → exits (λ x, snd x = None) (prepare request).
Proof.
  intros Hn. unfold prepare, _defect. cbv zeta.
  eapply exits_bind; [apply exits_settle_if; textless_tac|intros _ _].
  eapply exits_bind; [apply exits_settle_if; textless_tac|intros _ _].
  eapply (exits_bind (λ _, True)).
  { destruct (validate_model_id _ _) as [m|e]; [done|]. cbn. destruct (isinst e ValueError); textless_tac. }
  intros model _. eapply exits_bind; [apply exits_lift|intros [canonical failure] Hc].
  assert (Hnone : canonical = None).
  { unfold _check_portable_request in Hc. rewrite Hn in Hc. destruct (truthy (portable_message request)); by injection Hc as <- _. }
  eapply (exits_bind (λ _, True)); [destruct failure; [cbn; textless_tac|done]|intros _ _].
  eapply (exits_bind (λ _, True)); [destruct (unsupported_feature request); [cbn; textless_tac|done]|intros _ _].
  eapply (exits_bind (λ _, True)); [destruct (temperature request); [apply exits_settle_if; textless_tac|done]|intros _ _].
  eapply exits_bind; [apply exits_settle_if; textless_tac|intros _ _].
  eapply exits_bind; [apply exits_output|intros prepared _].
  eapply (exits_bind (λ _, True)); [destruct resolved_credential; [done|cbn; textless_tac]|intros credential _].
  eapply exits_bind; [apply exits_settle_if; textless_tac|intros _ _].
  eapply (exits_bind (λ _, True)); [destruct (encode_request _ _); [done|cbn; textless_tac]|intros encoded _].
  eapply (exits_bind (λ _, True)); [destruct (_validate_encoded _ _); [done|cbn; textless_tac]|intros _ _].
  by eapply exits_bind; [apply exits_settle_if; textless_tac|intros _ _].
Qed.

(** With a decoder that writes the text of what it decodes, an invocation writes its answer. *)
Lemma run_writes_answer request : _validate_wire_format w = Ok () → decoder_writes →
  structured_output request = None → writes None (run request).
Proof.
  intros Hw Hd Hn. apply wire_outcomes_ok in Hw. pose proof (exits_prepare request Hn) as Hp. unfold run.
  destruct (prepare request) as [[[[response credential] encoded] canonical]|r]; cbn in Hp.
  - subst. by apply exchange_writes.
  - by apply writes_textless.
Qed.

(** An error is classified by the first rule that matches its status and tokens; when none does,
    it is retried exactly for 408, 429 and the 5xx statuses other than 501, and treated as an invalid
    response exactly for redirects and for errors reported inside a 2xx response. *)
Theorem match_error_first rules status tokens : (0 <= status)%Z →
  (∃ before r after, rules = before ++ r :: after ∧ rule_matches status tokens r = true ∧
     (∀ r', r' ∈ before → rule_matches status tokens r' = false) ∧
     _match_error rules status tokens = outcome r) ∨
  ((∀ r, r ∈ rules → rule_matches status tokens r = false) ∧
   (disposition (_match_error rules status tokens) = lit "retry" ↔
      status = 408 ∨ status = 429 ∨ (500 <= status ∧ status ≠ 501))%Z ∧
   (disposition (_match_error rules status tokens) = lit "invalidResponse" ↔
      status = 0 ∨ (300 <= status < 400))%Z).
Proof.
  intros Hs. unfold _match_error. induction rules as [|r rules IH]; cbn [List.find].
  - right. split; [by intros r ?%elem_of_nil|]. unfold default_outcome.
    repeat match goal with |- context [(?x =? ?y)%Z] => destruct (Z.eqb_spec x y) end;
    repeat match goal with |- context [(?x <=? ?y)%Z] => destruct (Z.leb_spec x y) end;
    repeat match goal with |- context [(?x <? ?y)%Z] => destruct (Z.ltb_spec x y) end;
    subst; cbn [orb andb negb disposition invalid_response_outcome retry_outcome provider_rejected_outcome
                quota_exhausted_outcome]; split; split; intros; first [lia|done|discriminate].
  - destruct (rule_matches status tokens r) eqn:E.
    + left. exists [], r, rules. split; [done|]. split; [done|]. split; [|done]. by intros ? ?%elem_of_nil.
    + destruct IH as [(before & x & after & -> & Hx & Hb & Ho)|(Hn & H1 & H2)].
      * left. exists (r :: before), x, after. split; [done|]. split; [done|]. split; [|done].
        intros r' [->|?]%elem_of_cons; auto.
      * right. split; [|done]. intros r' [->|?]%elem_of_cons; auto.
Qed.

End Attempt.

(** ** A sample invocation *)

Definition sample_wire : WireFormat :=
  mkWire "acme" BODY (mkFeatures true true true true true) "Authorization" "Bearer " true true true true
    [(lit "stop", STOP); (lit "length", LENGTH)] [mkRule 529 [] (retry_outcome AVAILABILITY)] [lit "/error/code"]
    [lit "x-request-id"] [lit "x-ratelimit-remaining"] (FFin 0 0).

Definition sample_config : TextGenerationQueryConfig :=
  mkConfig (QueryDefinition.mk (OperationRef.mk "acme" TEXT_GENERATION_OPERATION_ID)
              (Some text_generation_branch_definitions) (StepDefaults.mk 60000000 1 0 None None))
    sample_wire "https://api.acme.example" "acme-1" (FFin 30 0) true 4096 1024 false unrestricted.

Definition sample_request : TextGenerationRequest :=
  mkRequest [mkMessage USER "hello"] [] [] None 0 None [].

Definition sample_decoded : DecodedResponse :=
  mkDecoded [mkPart "thinking" true; mkPart "hi" false] "acme-1" "resp_1" "stop" false (mkUsage 3 0 2 0 0).

Definition sample_run (send : provider_request → sending) : list pystr * res (Attempt TextGenerationResponse) :=
  run sample_config "https://api.acme.example" "acme-1" Call.sample_call true
    (λ _, mkModelRules temperature_accepted [] (mkRules MODE_NONE [] []))
    (λ _ _, Ok (mkEncoded "/v1/chat" (lit "{}") [] false)) (λ _, DecodedAs sample_decoded)
    (λ _ _ _, ([], DecodeCancelled)) None (Ok (lit "s3cret")) (λ _, false) (λ _, raise ValueError [])
    (λ _, raise ValueError []) (λ _, None) (λ _, raise ValueError []) (GoTime.DT 2026 1 1 0 0 0 0 (Some 0%Z))
    true send sample_request.

Definition sample_send (r : provider_request) : sending :=
  Responded (mkHttp 200 [(lit "content-type", lit "application/json");
                         (lit "x-request-id", default [] (dget "Authorization" (p_headers r)))]
               [WChunk (lit "{}")]).

Lemma attempt_outcomes_witness :
  match sample_run sample_send with
  | (written, Ok a) => written = [lit "hi"] ∧ settled_attempt "s3cret" a
  | (_, Err _) => False
  end.
Proof.
  destruct (sample_run sample_send) as [written [a|e]] eqn:E.
  - split; [apply (f_equal fst) in E; vm_compute in E; by rewrite <- E|].
    unfold sample_run in E. eapply attempt_outcomes; [| | |exact E]; [vm_compute; reflexivity|reflexivity|discriminate].
  - vm_compute in E. discriminate.
Defined.

Lemma match_error_first_witness : disposition (_match_error [] 503 []) = lit "retry" ∧ (0 <= 503)%Z.
Proof.
  split; [|lia].
  destruct (match_error_first [] 503 [] ltac:(lia)) as [(before & r & after & H & _)|(_ & [_ H] & _)].
  - by destruct before.
  - apply H. lia.
Defined.
