(* ===== verification/ProjectModels.v ===== *)
(** * Project configuration documents

    sdkpython/src/dex_connectors/sdk/projectconfig/models.py: scopes, snapshot and secret references,
    environment values, connections and the revisioned configuration, with their checks and wire
    forms.  [repr] of a value that is not a JSON scalar and the private ranges of the installed
    [ipaddress] are parameters. *)

From S2P Require Import Prelude Sha1 Sha256 Json Url AddressPolicy.
From S2P Require Import Identity Retry Calls Definitions TextGen StructuredOutput.

Definition CONFIGURATION_SCHEMA_VERSION : pystr := "connectors.dex.dev/project-configuration/v1alpha3".
Definition PREVIOUS_CONFIGURATION_SCHEMA_VERSION : pystr :=
  "connectors.dex.dev/project-configuration/v1alpha2".

(** ** Identifiers *)

Definition sized (low high : nat) (s : pystr) : bool := (low <=? length s)%nat && (length s <=? high)%nat.
Definition head_tail (head tail : N → bool) (s : pystr) : bool :=
  match s with c :: s' => head c && forallb tail s' | [] => false end.

(** [_SCOPE_ID], [_SHARED_ID], [_ENVIRONMENT_NAME], [_SECRET_ID] and [_DIGEST], as full matches. *)
Definition scope_id_match (s : pystr) : bool :=
  head_tail is_alnum (λ c, is_alnum c || (c =? 95)%N || (c =? 45)%N) s && sized 1 128 s.
Definition shared_id_match (s : pystr) : bool :=
  head_tail is_alnum (λ c, is_alnum c || existsb (N.eqb c) (lit "._:-")) s && sized 1 128 s.
Definition environment_name_match (s : pystr) : bool :=
  head_tail is_upper (λ c, is_upper c || is_digit c || (c =? 95)%N) s && sized 1 128 s.
Definition secret_id_match (s : pystr) : bool := forallb is_lower_hex s && (length s =? 32)%nat.
Definition digest_match (s : pystr) : bool :=
  starts_with "sha256:" s && forallb is_lower_hex (drop 7 s) && (length s =? 71)%nat.

Definition _RESERVED_NAMES : list pystr :=
  [lit "PATH"; lit "HOME"; lit "PORT"; lit "HOST"; lit "NODE_OPTIONS"; lit "SSL_CERT_FILE";
   lit "SSL_CERT_DIR"; lit "PUBLIC_BASE_URL"; lit "HTTP_PROXY"; lit "HTTPS_PROXY"; lit "ALL_PROXY";
   lit "NO_PROXY"].
Definition _RESERVED_PREFIXES : list pystr :=
  [lit "SUPERVERSE_"; lit "DEX_"; lit "AWS_"; lit "LD_"; lit "GO"; lit "GIT_"].

Definition is_application_environment_name (name : pystr) : bool :=
  environment_name_match name && negb (bool_decide (name ∈ _RESERVED_NAMES))
  && negb (existsb (λ p, starts_with p name) _RESERVED_PREFIXES).

Definition validate_environment_value (value : pystr) : res unit :=
  if has_char 0 value then raise ValueError "invalid application environment value"
  else
    bytes ← CallID.encode value;
    raise_if (32768 <? Z.of_nat (length bytes))%Z ValueError "invalid application environment value".

(** ** Digests and JSON bytes *)

Definition digest_bytes (contents : list N) : pystr := "sha256:" ++ Sha256.hexdigest contents.

(** [repr] of a float, as [json.dumps] writes it. *)
Definition float_repr (f : pyfloat) : pystr :=
  match f with
  | FNan => "NaN"
  | FInf negative => if negative then "-Infinity" else "Infinity"
  | FFin m e =>
      if (m =? 0)%Z then "0.0"
      else
        let '(digits, point) := float_point m e in
        minus (m <? 0)%Z
          ++ (if (point <=? -4)%Z || (16 <? point)%Z then
                scientific digits ++ "e" ++ (if (point - 1 <? 0)%Z then "-" else "+")
                  ++ zeros (2 - Z.of_nat (length (str_of_Z (Z.abs (point - 1)))))
                  ++ str_of_Z (Z.abs (point - 1))
              else
                let s := plain_digits digits point in
                if has_char 46 s then s else s ++ ".0")
  end.

(** [json.dumps(value, separators=(",", ":"), ensure_ascii=False)] with the five replacements, which
    only occur inside strings. *)
Definition dumps_string (s : pystr) : pystr := [34%N] ++ flat_map go_char s ++ [34%N].

Fixpoint dumps (value : json) : res pystr :=
  match value with
  | JNull => Ok (lit "null")
  | JBool b => Ok (if b then lit "true" else lit "false")
  | JInt z =>
      raise_if (4300 <? length (str_of_Z (Z.abs z)))%nat
        ValueError "Exceeds the limit (4300 digits) for integer string conversion" ≫= λ _,
      Ok (str_of_Z z)
  | JFloat f => Ok (float_repr f)
  | JStr s => Ok (dumps_string s)
  | JArr l =>
      items ← (fix go l := match l with
                           | [] => Ok []
                           | x :: l' => s ← dumps x; r ← go l'; Ok (s :: r)
                           end) l;
      Ok ("[" ++ join "," items ++ "]")
  | JObj d =>
      members ← (fix go (d : list (pystr * json)) : res (list pystr) :=
                   match d with
                   | [] => Ok []
                   | (k, x) :: d' => s ← dumps x; r ← go d'; Ok ((dumps_string k ++ ":" ++ s) :: r)
                   end) d;
      Ok ("{" ++ join "," members ++ "}")
  end.

Definition go_canonical_json_bytes (value : json) : res (list N) :=
  serialized ← dumps value; CallID.encode serialized.

Definition require_object (value : json) (label : pystr) : res (dict json) :=
  match value with
  | JObj d => Ok d
  | _ => raise ValueError (label ++ " must be a JSON object")
  end.

Definition require_fields (record : dict json) (allowed : list pystr) (label : pystr) : res unit :=
  raise_if (negb (keys_within record allowed)) ValueError (label ++ " has unknown fields").

(** ** Scopes *)

Module Scope.

Record t := mk { project_id : pystr; kind : pystr }.

#[global] Instance eq_dec : EqDecision t.
Proof. solve_decision. Defined.

Definition prefix (s : t) : res pystr :=
  raise_if (negb (scope_id_match (project_id s))
            || negb (bool_decide (kind s = lit "live") || bool_decide (kind s = lit "preview")))
    ValueError "invalid project configuration scope" ≫= λ _,
  Ok ("projects/" ++ project_id s ++ "/" ++ kind s).

Definition to_wire (s : t) : res json :=
  prefix s ≫= λ _, Ok (JObj [(lit "projectId", JStr (project_id s)); (lit "kind", JStr (kind s))]).

Definition from_wire (repr : json → pystr) (value : json) : res t :=
  record ← require_object value "scope";
  require_fields record [lit "projectId"; lit "kind"] "scope" ≫= λ _,
  let result := mk (py_str repr (get_or "projectId" (JStr []) record))
                   (py_str repr (get_or "kind" (JStr []) record)) in
  prefix result ≫= λ _, Ok result.

End Scope.

(** ** References *)

Module SnapshotRef.

Record t := mk { key : pystr; version : pystr; digest : pystr; media_type : pystr }.

Definition validate (r : t) (scope : Scope.t) : res unit :=
  prefix ← Scope.prefix scope;
  raise_if (negb (bool_decide (key r = prefix ++ "/configuration/head")) || negb (truthy (version r))
            || bool_decide (version r = lit "null") || negb (digest_match (digest r))
            || negb (bool_decide (media_type r = lit "application/json")))
    ValueError "invalid configuration snapshot reference".

Definition to_wire (r : t) : json :=
  JObj [(lit "key", JStr (key r)); (lit "version", JStr (version r)); (lit "digest", JStr (digest r));
        (lit "mediaType", JStr (media_type r))].

Definition from_wire (repr : json → pystr) (value : json) : res t :=
  record ← require_object value "snapshot";
  require_fields record [lit "key"; lit "version"; lit "digest"; lit "mediaType"] "snapshot" ≫= λ _,
  let text k := py_str repr (get_or k (JStr []) record) in
  Ok (mk (text "key") (text "version") (text "digest") (text "mediaType")).

End SnapshotRef.

Module SecretRef.

(** [ApplicationSecretRef]. *)
Record t := mk { key : pystr; version : pystr; digest : pystr }.

Definition to_wire (r : t) : json :=
  JObj [(lit "key", JStr (key r)); (lit "version", JStr (version r)); (lit "digest", JStr (digest r))].

Definition from_wire (repr : json → pystr) (value : json) : res t :=
  record ← require_object value "application secret reference";
  require_fields record [lit "key"; lit "version"; lit "digest"] "application secret reference" ≫= λ _,
  let text k := py_str repr (get_or k (JStr []) record) in
  let result := mk (text "key") (text "version") (text "digest") in
  raise_if (negb (truthy (version result)) || negb (digest_match (digest result)))
    ValueError "invalid application secret reference" ≫= λ _,
  Ok result.

End SecretRef.

(** [validate_secret_reference]. *)
Definition validate_secret_reference (r : SecretRef.t) (scope : Scope.t) (name : pystr) : res unit :=
  base ← Scope.prefix scope;
  let prefix := base ++ "/app-secrets/" ++ name ++ "/" in
  raise_if (negb (starts_with prefix (SecretRef.key r))
            || negb (secret_id_match (drop (length prefix) (SecretRef.key r)))
            || negb (truthy (SecretRef.version r)) || bool_decide (SecretRef.version r = lit "null")
            || negb (digest_match (SecretRef.digest r)))
    ValueError "application secret reference differs from scope".

(** [EnvironmentValue]: the constructor allows both members, or neither. *)
Module EnvironmentValue.

Record t := mk { value : option pystr; secret_ref : option SecretRef.t }.

Definition to_wire (e : t) : res json :=
  match value e, secret_ref e with
  | Some v, None => Ok (JObj [(lit "value", JStr v)])
  | None, Some r => Ok (JObj [(lit "secretRef", SecretRef.to_wire r)])
  | _, _ => raise ValueError "environment value requires exactly one value or secret reference"
  end.

Definition from_wire (repr : json → pystr) (j : json) : res t :=
  record ← require_object j "environment value";
  if keys_exactly record [lit "value"] && is_str (get "value" record) then
    match get "value" record with
    | JStr v => Ok (mk (Some v) None)
    | _ => raise ValueError "invalid environment selection"
    end
  else if keys_exactly record [lit "secretRef"] then
    r ← SecretRef.from_wire repr (get "secretRef" record); Ok (mk None (Some r))
  else raise ValueError "invalid environment selection".

End EnvironmentValue.

(** [ConnectionConfiguration]. *)
Module Connection.

Record t := mk {
  connector_id : pystr;
  connection_name : pystr;
  module_path : pystr;
  provider : pystr;
  configuration : dict json;
  auth_method_id : pystr;
  shared_connection_id : pystr
}.

Definition to_wire (c : t) : json :=
  JObj ([(lit "connectorId", JStr (connector_id c)); (lit "connectionName", JStr (connection_name c));
         (lit "modulePath", JStr (module_path c)); (lit "provider", JStr (provider c))]
        ++ (if truthy (auth_method_id c) then [(lit "authMethodId", JStr (auth_method_id c))] else [])
        ++ (if truthy (shared_connection_id c)
            then [(lit "sharedConnectionId", JStr (shared_connection_id c))] else [])
        ++ [(lit "configuration", JObj (configuration c))]).

Definition fields : list pystr :=
  [lit "connectorId"; lit "connectionName"; lit "modulePath"; lit "provider"; lit "configuration";
   lit "authMethodId"; lit "sharedConnectionId"].

Definition from_wire (repr : json → pystr) (value : json) : res t :=
  record ← require_object value "connection";
  require_fields record fields "connection" ≫= λ _,
  let text k := py_str repr (get_or k (JStr []) record) in
  configuration ← require_object (get "configuration" record) "connection configuration";
  Ok (mk (text "connectorId") (text "connectionName") (text "modulePath") (text "provider") configuration
        (text "authMethodId") (text "sharedConnectionId")).

End Connection.

(** [CredentialBrokerConfiguration]. *)
Module Broker.

Record t := mk { endpoint : pystr; token_secret_ref : SecretRef.t }.

Definition to_wire (b : t) : json :=
  JObj [(lit "endpoint", JStr (endpoint b)); (lit "tokenSecretRef", SecretRef.to_wire (token_secret_ref b))].

Definition from_wire (repr : json → pystr) (value : json) : res t :=
  record ← require_object value "credential broker";
  require_fields record [lit "endpoint"; lit "tokenSecretRef"] "credential broker" ≫= λ _,
  reference ← SecretRef.from_wire repr (get "tokenSecretRef" record);
  Ok (mk (py_str repr (get_or "endpoint" (JStr []) record)) reference).

End Broker.

(** ** Broker endpoints *)

Section Endpoint.
(** [urlsplit]'s Unicode test of a network location, and [address.is_private]. *)
Context (netloc_ok : pystr → bool) (stdlib_is_private : ip → bool).

Definition opt_truthy (s : option pystr) : bool := match s with Some s => truthy s | None => false end.

Definition private_host (host : pystr) : bool :=
  bool_decide (host = lit "localhost") || bool_decide (host = lit "host.docker.internal")
  || negb (has_char 46 host) || ends_with ".svc" host || ends_with ".svc.cluster.local" host
  || match ip_address host with
     | Some a => stdlib_is_private a || is_loopback a || is_link_local a
     | None => false
     end.

Definition validate_broker_endpoint (value : pystr) : res unit :=
  parsed ← urlsplit netloc_ok value;
  let host := hostname parsed in
  raise_if ((2048 <? length value)%nat
            || negb (bool_decide (scheme parsed = lit "http") || bool_decide (scheme parsed = lit "https"))
            || negb (opt_truthy host) || opt_truthy (username parsed) || opt_truthy (password parsed)
            || truthy (query parsed) || truthy (fragment parsed))
    ValueError "credential broker endpoint must be an absolute HTTP or HTTPS URL" ≫= λ _,
  raise_if (negb (bool_decide (scheme parsed = lit "https")) && negb (private_host (default [] host)))
    ValueError "credential broker HTTP endpoint must use a private host".
End Endpoint.

(** ** The configuration document *)

(** [int(value)] of a JSON value.  The digits of a text are the Unicode decimal digits, with single
    underscores between them. *)
Definition decimal_digit (c : N) : option Z :=
  match List.find (λ z, (z <=? c)%N && (c <? z + 10)%N) decimal_zeros with
  | Some z => Some (Z.of_N (c - z))
  | None => None
  end.

Definition int_of_text (s : pystr) : res Z :=
  let bad := raise ValueError "invalid literal for int() with base 10" in
  let s := trim int_space s in
  let '(negative, s) := match s with
                        | c :: s' => if (c =? 45)%N then (true, s') else if (c =? 43)%N then (false, s') else (false, s)
                        | [] => (false, s)
                        end in
  let groups := split_char 95 s in
  match mapM decimal_digit (List.concat groups) with
  | Some digits =>
      if forallb truthy groups && (length digits <=? 4300)%nat then
        let n := fold_left (λ acc d, acc * 10 + d)%Z digits 0%Z in Ok (if negative then (- n)%Z else n)
      else bad
  | None => bad
  end.

Example int_of_text_arabic : int_of_text [45; 1635; 95; 52; 32]%N = Ok (-34)%Z.
Proof. vm_compute. reflexivity. Qed.

Example int_of_text_control : is_ok (int_of_text [28; 53]%N) = false.
Proof. vm_compute. reflexivity. Qed.

Definition py_int (value : json) : res Z :=
  match value with
  | JInt z => Ok z
  | JBool b => Ok (if b then 1 else 0)%Z
  | JFloat f => int_of_float f
  | JStr s => int_of_text s
  | _ => raise TypeError "int() argument must be a string, a bytes-like object or a real number"
  end.

Module Configuration.

Record t := mk {
  scope : Scope.t;
  revision : Z;
  connections : list Connection.t;
  trigger_bindings : list (dict json);
  operation_configurations : list (dict json);
  environment : dict EnvironmentValue.t;
  credential_broker : option Broker.t;
  schema_version : pystr
}.

Section Wire.
Context (repr : json → pystr) (netloc_ok : pystr → bool) (stdlib_is_private : ip → bool).

Definition identity (c : Connection.t) : pystr * pystr := (Connection.connector_id c, Connection.connection_name c).
Definition identities (c : t) : list (pystr * pystr) := map identity (connections c).

Definition connection_invalid (c : Connection.t) : bool :=
  negb (connector_id_match (Connection.connector_id c))
  || negb (truthy (Connection.connection_name c) && truthy (Connection.module_path c)
           && truthy (Connection.provider c)).

(** [str(entry.get(key, ""))]. *)
Definition entry_text (key : pystr) (entry : dict json) : pystr := py_str repr (get_or key (JStr []) entry).

Definition binding_identity (keys : list pystr) (entry : dict json) : list pystr :=
  map (λ k, entry_text k entry) keys.

Definition trigger_keys : list pystr :=
  [lit "connectorId"; lit "connectionName"; lit "triggerName"; lit "bindingName"].
Definition operation_keys : list pystr :=
  [lit "connectorId"; lit "connectionName"; lit "operationId"; lit "flowType"; lit "stepType"].

Definition owner (i : list pystr) : pystr * pystr :=
  match i with a :: b :: _ => (a, b) | _ => ([], []) end.

(** The loops over trigger bindings and operation configurations: the identities seen so far. *)
Fixpoint check_bindings (keys : list pystr) (message : pystr) (ids : list (pystr * pystr))
    (seen : list (list pystr)) (entries : list (dict json)) : res unit :=
  match entries with
  | [] => Ok ()
  | entry :: rest =>
      let i := binding_identity keys entry in
      raise_if (negb (bool_decide (owner i ∈ ids)) || negb (forallb truthy (drop 2 i))
                || negb (is_dict (get "configuration" entry)) || bool_decide (i ∈ seen))
        ValueError message ≫= λ _,
      check_bindings keys message ids (i :: seen) rest
  end.

(** One entry of the environment. *)
Definition check_environment (s : Scope.t) (kv : pystr * EnvironmentValue.t) : res unit :=
  let '(name, entry) := kv in
  raise_if (negb (is_application_environment_name name))
    ValueError "invalid application environment name" ≫= λ _,
  EnvironmentValue.to_wire entry ≫= λ _,
  match EnvironmentValue.value entry, EnvironmentValue.secret_ref entry with
  | Some v, _ => validate_environment_value v
  | None, Some r => validate_secret_reference r s name
  | None, None => Ok ()
  end.

Definition is_shared (c : Connection.t) : bool := truthy (Connection.shared_connection_id c).
Definition is_some {A} (o : option A) : bool := match o with Some _ => true | None => false end.

Definition BROKER_TOKEN_NAME : pystr := "DEX_CREDENTIAL_BROKER_TOKEN".

Definition validate (c : t) : res unit :=
  Scope.prefix (scope c) ≫= λ _,
  raise_if (negb (bool_decide (schema_version c = CONFIGURATION_SCHEMA_VERSION)
                  || bool_decide (schema_version c = PREVIOUS_CONFIGURATION_SCHEMA_VERSION)))
    ValueError "unsupported configuration schema" ≫= λ _,
  raise_if (revision c <? 1)%Z ValueError "configuration revision is required" ≫= λ _,
  raise_if ((1000 <? Z.of_nat (length (connections c)))%Z
            || (10000 <? Z.of_nat (length (trigger_bindings c)))%Z
            || (10000 <? Z.of_nat (length (operation_configurations c)))%Z)
    ValueError "configuration document exceeds binding limits" ≫= λ _,
  raise_if (negb (bool_decide (NoDup (identities c)))) ValueError "duplicate project connection" ≫= λ _,
  raise_if (existsb connection_invalid (connections c)) ValueError "invalid project connection" ≫= λ _,
  check_bindings trigger_keys "configuration trigger is invalid or duplicated" (identities c) []
    (trigger_bindings c) ≫= λ _,
  check_bindings operation_keys "configuration operation is invalid or duplicated" (identities c) []
    (operation_configurations c) ≫= λ _,
  raise_if (existsb is_shared (connections c) && negb (is_some (credential_broker c)))
    ValueError "shared connection requires a credential broker" ≫= λ _,
  raise_if (bool_decide (schema_version c = PREVIOUS_CONFIGURATION_SCHEMA_VERSION)
            && is_some (credential_broker c))
    ValueError "previous configuration schema cannot declare a broker" ≫= λ _,
  raise_if (existsb (λ x, is_shared x && negb (shared_id_match (Connection.shared_connection_id x)))
              (connections c))
    ValueError "configuration shared connection ID is invalid" ≫= λ _,
  raise_if (128 <? length (environment c))%nat ValueError "application environment exceeds field limit" ≫= λ _,
  for_each (check_environment (scope c)) (environment c) ≫= λ _,
  match credential_broker c with
  | Some b =>
      validate_broker_endpoint netloc_ok stdlib_is_private (Broker.endpoint b) ≫= λ _,
      validate_secret_reference (Broker.token_secret_ref b) (scope c) BROKER_TOKEN_NAME
  | None => Ok ()
  end.

Definition to_wire (c : t) : res json :=
  validate c ≫= λ _,
  scope ← Scope.to_wire (scope c);
  environment ← mapR (λ kv, v ← EnvironmentValue.to_wire (snd kv); Ok (fst kv, v))
                  (sort_by fst (environment c));
  Ok (JObj ([(lit "schemaVersion", JStr (schema_version c)); (lit "scope", scope);
             (lit "revision", JInt (revision c));
             (lit "connections", JArr (map Connection.to_wire (connections c)));
             (lit "triggerBindings", JArr (map JObj (trigger_bindings c)));
             (lit "operationConfigurations", JArr (map JObj (operation_configurations c)))]
            ++ (match environment with [] => [] | _ => [(lit "environment", JObj environment)] end)
            ++ (match credential_broker c with
                | Some b => [(lit "credentialBroker", Broker.to_wire b)]
                | None => []
                end))).

Definition fields : list pystr :=
  [lit "schemaVersion"; lit "scope"; lit "revision"; lit "connections"; lit "triggerBindings";
   lit "operationConfigurations"; lit "environment"; lit "credentialBroker"].

Definition from_wire (value : json) : res t :=
  record ← require_object value "configuration";
  require_fields record fields "configuration" ≫= λ _,
  environment ← require_object (get_or "environment" (JObj []) record) "environment";
  match get "connections" record, get "triggerBindings" record, get "operationConfigurations" record with
  | JArr connections, JArr triggers, JArr operations =>
      scope ← Scope.from_wire repr (get "scope" record);
      revision ← py_int (get_or "revision" (JInt 0) record);
      connections ← mapR (Connection.from_wire repr) connections;
      triggers ← mapR (λ e, require_object e "trigger") triggers;
      operations ← mapR (λ e, require_object e "operation") operations;
      environment ← mapR (λ kv, v ← EnvironmentValue.from_wire repr (snd kv); Ok (fst kv, v)) environment;
      broker ← match get "credentialBroker" record with
               | JNull => Ok None
               | b => b ← Broker.from_wire repr b; Ok (Some b)
               end;
      let result := mk scope revision connections triggers operations environment broker
                      (entry_text "schemaVersion" record) in
      validate result ≫= λ _, Ok result
  | _, _, _ => raise ValueError "configuration arrays are required"
  end.

End Wire.
End Configuration.

(** ** Round trips *)

Module ModelFacts.
Import Configuration.

Lemma scope_roundtrip repr s w : Scope.to_wire s = Ok w → Scope.from_wire repr w = Ok s.
Proof.
  unfold Scope.to_wire. intros (p & Hp & [= <-])%bind_Ok. destruct s as [i k].
  unfold Scope.from_wire. cbn [require_object mbind result_bind].
  change (require_fields _ _ _) with (Ok (E:=exn) ()). cbn [mbind result_bind].
  change (py_str repr (get_or "projectId" _ _)) with i. change (py_str repr (get_or "kind" _ _)) with k.
  by rewrite Hp.
Qed.

Lemma secret_ref_roundtrip repr r :
  truthy (SecretRef.version r) = true → digest_match (SecretRef.digest r) = true →
  SecretRef.from_wire repr (SecretRef.to_wire r) = Ok r.
Proof.
  intros Hv Hd. destruct r as [k v d]. unfold SecretRef.from_wire, SecretRef.to_wire.
  cbn [require_object mbind result_bind SecretRef.key SecretRef.version SecretRef.digest] in *.
  change (require_fields _ _ _) with (Ok (E:=exn) ()). cbn [mbind result_bind].
  change (py_str repr (get_or "key" _ _)) with k. change (py_str repr (get_or "version" _ _)) with v.
  change (py_str repr (get_or "digest" _ _)) with d. cbn [SecretRef.version SecretRef.digest].
  by rewrite Hv, Hd.
Qed.

Lemma valid_secret_ref r s name u : validate_secret_reference r s name = Ok u →
  truthy (SecretRef.version r) = true ∧ digest_match (SecretRef.digest r) = true.
Proof. unfold validate_secret_reference. intros (p & _ & H)%bind_Ok. apply raise_if_Ok in H. bool_inv. done. Qed.

Lemma connection_entry_roundtrip repr c : Connection.from_wire repr (Connection.to_wire c) = Ok c.
Proof.
  destruct c as [i n m p cfg a s]. unfold Connection.from_wire, Connection.to_wire.
  cbn [require_object mbind result_bind Connection.connector_id Connection.connection_name
       Connection.module_path Connection.provider Connection.configuration Connection.auth_method_id
       Connection.shared_connection_id].
  destruct a as [|a0 a], s as [|s0 s]; reflexivity.
Qed.

Lemma environment_value_roundtrip repr s name e w :
  check_environment s (name, e) = Ok () → EnvironmentValue.to_wire e = Ok w →
  EnvironmentValue.from_wire repr w = Ok e.
Proof.
  unfold check_environment. intros (_ & _ & H)%bind_Ok Hw. rewrite Hw in H. cbn [mbind result_bind] in H.
  destruct e as [[v|] [r|]]; cbn [EnvironmentValue.to_wire EnvironmentValue.value EnvironmentValue.secret_ref] in *;
    try discriminate Hw; injection Hw as <-.
  - reflexivity.
  - apply valid_secret_ref in H as [Hv Hd]. unfold EnvironmentValue.from_wire.
    cbn [require_object mbind result_bind].
    change (keys_exactly _ _ && _) with false. cbn iota.
    change (keys_exactly _ _) with true. cbn iota.
    change (get "secretRef" _) with (SecretRef.to_wire r).
    by rewrite (secret_ref_roundtrip repr r Hv Hd).
Qed.

Lemma environment_roundtrip repr s env wired :
  for_each (check_environment s) env = Ok () →
  mapR (λ kv, v ← EnvironmentValue.to_wire (snd kv); Ok (fst kv, v)) env = Ok wired →
  mapR (λ kv, v ← EnvironmentValue.from_wire repr (snd kv); Ok (fst kv, v)) wired = Ok env.
Proof.
  revert wired. induction env as [|[n e] env IH]; intros wired Hc Hw; cbn [mapR for_each] in *.
  - by injection Hw as <-.
  - apply bind_Ok in Hc as ([] & Hce & Hc). apply bind_Ok in Hw as ([n' v] & Hv & Hw).
    apply bind_Ok in Hv as (v' & Hv & [= <- ->]). apply bind_Ok in Hw as (rest & Hr & [= <-]).
    cbn [mapR fst snd]. rewrite (environment_value_roundtrip _ _ _ _ _ Hce Hv). cbn [mbind result_bind].
    by rewrite (IH _ Hc Hr).
Qed.

Lemma connection_entries_roundtrip repr cs : mapR (Connection.from_wire repr) (map Connection.to_wire cs) = Ok cs.
Proof. induction cs as [|c cs IH]; [done|]. cbn [map mapR]. by rewrite connection_entry_roundtrip, IH. Qed.

Lemma objects_roundtrip label es : mapR (λ e, require_object e label) (map JObj es) = Ok es.
Proof. induction es as [|e es IH]; [done|]. cbn [map mapR require_object]. cbn [mbind result_bind]. by rewrite IH. Qed.

Section RoundTrip.
Context (repr : json → pystr) (netloc_ok : pystr → bool) (stdlib_is_private : ip → bool).

Lemma validate_parts c : validate repr netloc_ok stdlib_is_private c = Ok () →
  for_each (check_environment (scope c)) (environment c) = Ok () ∧
  (1 <= revision c)%Z ∧ NoDup (identities c) ∧
  ∀ b, credential_broker c = Some b →
    truthy (SecretRef.version (Broker.token_secret_ref b)) = true ∧
    digest_match (SecretRef.digest (Broker.token_secret_ref b)) = true.
Proof.
  unfold validate. intros (_ & _ & H)%bind_Ok.
  apply bind_Ok in H as (_ & _ & H). apply bind_Ok in H as ([] & Hrev & H).
  apply bind_Ok in H as (_ & _ & H). apply bind_Ok in H as ([] & Hnd & H).
  do 7 (apply bind_Ok in H as (_ & _ & H)). apply bind_Ok in H as ([] & He & H).
  apply raise_if_Ok in Hrev, Hnd. bool_inv. split; [done|]. split; [lia|]. split; [done|].
  intros b Hb. rewrite Hb in H. apply bind_Ok in H as (_ & _ & H). by eapply valid_secret_ref.
Qed.

Lemma broker_roundtrip b :
  truthy (SecretRef.version (Broker.token_secret_ref b)) = true →
  digest_match (SecretRef.digest (Broker.token_secret_ref b)) = true →
  Broker.from_wire repr (Broker.to_wire b) = Ok b.
Proof.
  intros Hv Hd. destruct b as [e r]. unfold Broker.from_wire, Broker.to_wire.
  cbn [require_object mbind result_bind Broker.endpoint Broker.token_secret_ref] in *.
  change (require_fields _ _ _) with (Ok (E:=exn) ()). cbn [mbind result_bind].
  change (get "tokenSecretRef" _) with (SecretRef.to_wire r). rewrite (secret_ref_roundtrip repr r Hv Hd).
  reflexivity.
Qed.

(** The document [to_wire] builds from its encoded parts. *)
Definition document (c : t) (scope : json) (environment : dict json) : dict json :=
  [(lit "schemaVersion", JStr (schema_version c)); (lit "scope", scope);
   (lit "revision", JInt (revision c));
   (lit "connections", JArr (map Connection.to_wire (connections c)));
   (lit "triggerBindings", JArr (map JObj (trigger_bindings c)));
   (lit "operationConfigurations", JArr (map JObj (operation_configurations c)))]
  ++ (match environment with [] => [] | _ => [(lit "environment", JObj environment)] end)
  ++ (match credential_broker c with
      | Some b => [(lit "credentialBroker", Broker.to_wire b)]
      | None => []
      end).

Lemma document_fields c scope env :
  let d := document c scope env in
  require_fields d fields "configuration" = Ok () ∧ get "scope" d = scope ∧
  get_or "revision" (JInt 0) d = JInt (revision c) ∧
  get "connections" d = JArr (map Connection.to_wire (connections c)) ∧
  get "triggerBindings" d = JArr (map JObj (trigger_bindings c)) ∧
  get "operationConfigurations" d = JArr (map JObj (operation_configurations c)) ∧
  get_or "environment" (JObj []) d = JObj env ∧
  get "credentialBroker" d = match credential_broker c with Some b => Broker.to_wire b | None => JNull end ∧
  entry_text repr "schemaVersion" d = schema_version c.
Proof. cbv zeta. unfold document. destruct env, (credential_broker c); repeat split. Qed.

(** A configuration document that encodes decodes to the same configuration: scope, revision,
    connections, bindings, environment (in key order) and broker. *)
Theorem configuration_roundtrip c w :
  sort_by fst (environment c) = environment c →
  to_wire repr netloc_ok stdlib_is_private c = Ok w →
  from_wire repr netloc_ok stdlib_is_private w = Ok c.
Proof.
  intros Hsort. unfold to_wire. rewrite Hsort. intros ([] & Hvalid & H)%bind_Ok.
  apply bind_Ok in H as (scope & Hs & H). apply bind_Ok in H as (env & He & H). apply Ok_inj in H as <-.
  destruct (validate_parts c Hvalid) as (Henv & _ & _ & Hbroker).
  change (JObj _) with (JObj (document c scope env)) at 1.
  destruct (document_fields c scope env) as (H1 & H2 & H3 & H4 & H5 & H6 & H7 & H8 & H9).
  unfold from_wire. cbn [require_object mbind result_bind].
  rewrite H1. cbn [mbind result_bind]. rewrite H7. cbn [require_object mbind result_bind].
  rewrite H4, H5, H6, H2, (scope_roundtrip repr _ _ Hs). cbn [mbind result_bind].
  rewrite H3. cbn [py_int mbind result_bind]. rewrite connection_entries_roundtrip. cbn [mbind result_bind].
  rewrite !objects_roundtrip. cbn [mbind result_bind].
  rewrite (environment_roundtrip repr _ _ _ Henv He). cbn [mbind result_bind]. rewrite H8, H9.
  replace (match match credential_broker c with Some b => Broker.to_wire b | None => JNull end with
           | JNull => Ok None | b => b ← Broker.from_wire repr b; Ok (Some b) end)
    with (Ok (E:=exn) (credential_broker c)).
  - cbn [mbind result_bind]. destruct c. cbn [Configuration.scope Configuration.revision
      Configuration.connections Configuration.trigger_bindings Configuration.operation_configurations
      Configuration.environment Configuration.credential_broker Configuration.schema_version] in *.
    by rewrite Hvalid.
  - destruct (credential_broker c) as [b|]; [|done]. destruct (Hbroker b eq_refl) as [Hv Hd].
    pose proof (broker_roundtrip b Hv Hd) as Hb. unfold Broker.to_wire in *. by rewrite Hb.
Qed.

End RoundTrip.

Definition sample_scope : Scope.t := Scope.mk "acme" "live".

Definition sample_configuration : Configuration.t :=
  Configuration.mk sample_scope 3
    [Connection.mk "slack" "main" "acme/slack" "slack" [(lit "team", JStr "T1")] [] "shared-1"]
    [[(lit "connectorId", JStr "slack"); (lit "connectionName", JStr "main"); (lit "triggerName", JStr "message");
      (lit "bindingName", JStr "b1"); (lit "configuration", JObj [])]] []
    [(lit "API_KEY", EnvironmentValue.mk (Some (lit "k")) None)]
    (Some (Broker.mk "https://broker.example/read"
             (SecretRef.mk ("projects/acme/live/app-secrets/DEX_CREDENTIAL_BROKER_TOKEN/" ++ repeat 97%N 32)
                "1" ("sha256:" ++ repeat 98%N 64))))
    CONFIGURATION_SCHEMA_VERSION.

Lemma configuration_roundtrip_witness :
  ∃ w, to_wire (λ _, []) (λ _, true) (λ _, false) sample_configuration = Ok w ∧
       from_wire (λ _, []) (λ _, true) (λ _, false) w = Ok sample_configuration.
Proof.
  eexists. split; [vm_compute; reflexivity|].
  apply (configuration_roundtrip (λ _, []) (λ _, true) (λ _, false)); vm_compute; reflexivity.
Defined.

End ModelFacts.
