(* ===== verification/JsonDumps.v ===== *)
(** * json.dumps

    The standard library's encoder with its default [ensure_ascii], which the SDK measures credentials
    with and encodes provider requests with: [dumps_ascii]. *)

From S2P Require Import Prelude Json Retry StructuredOutput ProjectModels.

(** [json.encoder.py_encode_basestring_ascii]: the short escapes, and a \u escape (a surrogate pair
    above U+FFFF) for everything that is not printable ASCII. *)
Definition ascii_char (c : N) : pystr :=
  if (c =? 34)%N then [92; 34]%N
  else if (c =? 92)%N then [92; 92]%N
  else if (c =? 10)%N then "\n"
  else if (c =? 13)%N then "\r"
  else if (c =? 9)%N then "\t"
  else if (c =? 12)%N then "\f"
  else if (c =? 8)%N then "\b"
  else if in_range 32 126 c then [c]
  else if (c <? 0x10000)%N then "\u" ++ hex4 c
  else
    let n := (c - 0x10000)%N in
    "\u" ++ hex4 (0xD800 + n / 1024)%N ++ "\u" ++ hex4 (0xDC00 + n mod 1024)%N.

Definition ascii_string (s : pystr) : pystr := [34%N] ++ flat_map ascii_char s ++ [34%N].

Section Dumps.
(** The separators, and [allow_nan]. *)
Context (item_separator key_separator : pystr) (allow_nan : bool).

Definition number_text (z : Z) : res pystr :=
  raise_if (4300 <? length (str_of_Z (Z.abs z)))%nat
    ValueError "Exceeds the limit (4300 digits) for integer string conversion" ≫= λ _, Ok (str_of_Z z).

Definition float_text (f : pyfloat) : res pystr :=
  raise_if (negb allow_nan && negb match f with FFin _ _ => true | _ => false end)
    ValueError "Out of range float values are not JSON compliant" ≫= λ _, Ok (float_repr f).

Fixpoint dumps_ascii (value : json) : res pystr :=
  match value with
  | JNull => Ok (lit "null")
  | JBool b => Ok (if b then lit "true" else lit "false")
  | JInt z => number_text z
  | JFloat f => float_text f
  | JStr s => Ok (ascii_string s)
  | JArr l =>
      items ← (fix go l := match l with
                           | [] => Ok []
                           | x :: l' => s ← dumps_ascii x; r ← go l'; Ok (s :: r)
                           end) l;
      Ok ("[" ++ join item_separator items ++ "]")
  | JObj d =>
      members ← (fix go (d : list (pystr * json)) : res (list pystr) :=
                   match d with
                   | [] => Ok []
                   | (k, x) :: d' =>
                       s ← dumps_ascii x; r ← go d'; Ok ((ascii_string k ++ key_separator ++ s) :: r)
                   end) d;
      Ok ("{" ++ join item_separator members ++ "}")
  end.

End Dumps.

(** The encoder writes ASCII only, so its text has one byte per character. *)
Lemma hex4_ascii c : (c < 0x10000)%N → forallb (λ x, (x <? 128)%N) (hex4 c) = true.
Proof.
  intros Hc. unfold hex4. cbn [map forallb].
  assert (H : ∀ n, (n < 16)%N → ((if (n <? 10)%N then 48 + n else 87 + n)%N <? 128)%N = true).
  { intros n Hn. apply N.ltb_lt. destruct (N.ltb_spec n 10); lia. }
  rewrite !H; [done|apply N.mod_lt; done..|]. apply N.Div0.div_lt_upper_bound. lia.
Qed.

Lemma ascii_char_ascii c : (c < 0x110000)%N → forallb (λ x, (x <? 128)%N) (ascii_char c) = true.
Proof.
  intros Hc. unfold ascii_char. repeat (case_match; [done|]).
  destruct (in_range 32 126 c) eqn:Hr; [|destruct (N.ltb_spec c 0x10000) as [Hs|Hs]].
  - cbn [forallb]. unfold in_range in Hr. apply andb_prop in Hr as [_ Hr%N.leb_le]. rewrite andb_true_r.
    apply N.ltb_lt. lia.
  - rewrite forallb_app. by rewrite hex4_ascii.
  - cbv zeta. rewrite !forallb_app, !hex4_ascii; [done| |].
    + pose proof (N.mod_lt (c - 0x10000) 1024 ltac:(done)). lia.
    + pose proof (N.Div0.div_lt_upper_bound (c - 0x10000) 1024 1024 ltac:(lia)). lia.
Qed.
