(* ===== verification/CanonicalJson.v ===== *)
(** * Stored documents read back

    [go_canonical_json_bytes] (sdkpython/src/dex_connectors/sdk/projectconfig/models.py) followed by
    [json.loads]: what the SDK writes to an object store is what it reads back. *)

From Stdlib Require Import ZifyBool.
From S2P Require Import Prelude Json JsonText Identity StructuredOutput ProjectModels JsonDumps.

(** Values whose text is read back exactly: no floats, and objects without repeated keys, as every
    Python dictionary is. *)
Fixpoint plain (value : json) : bool :=
  match value with
  | JFloat _ => false
  | JArr l => forallb plain l
  | JObj d => bool_decide (NoDup (dkeys d)) && forallb (λ kv, plain (snd kv)) d
  | _ => true
  end.

Module CanonicalFacts.

(** ** UTF-8 *)

Lemma utf8_decode_char c b r : utf8_char c = Some b → utf8_decode (b ++ r) = cons c <$> utf8_decode r.
Proof.
  intros Hc. pose proof Hc as Hs. unfold utf8_char in Hs.
  assert (Hdm : ∀ x k, k ≠ 0%N → x = (k * (x / k) + x mod k)%N ∧ (x mod k < k)%N)
    by (intros; split; [by apply N.div_mod|by apply N.mod_lt]).
  pose proof (Hdm c 64%N ltac:(done)). pose proof (Hdm (c / 64)%N 64%N ltac:(done)).
  pose proof (Hdm (c / 4096)%N 64%N ltac:(done)).
  rewrite !N.Div0.div_div in *. change (64 * 64)%N with 4096%N in *. change (4096 * 64)%N with 262144%N in *.
  clear Hdm Hc.
  destruct (N.ltb_spec c 0x80); [injection Hs as <-; cbn [app utf8_decode]; by rewrite (proj2 (N.ltb_lt _ _))|].
  set (q1 := (c / 64)%N) in *. set (r1 := (c mod 64)%N) in *. set (q2 := (c / 4096)%N) in *.
  set (r2 := (q1 mod 64)%N) in *. set (q3 := (c / 262144)%N) in *. set (r3 := (q2 mod 64)%N) in *.
  clearbody q1 r1 q2 r2 q3 r3.
  destruct (N.ltb_spec c 0x800).
  { injection Hs as <-. cbn [app utf8_decode]. unfold cont_byte, in_range.
    repeat (case_match; [|]); try lia; repeat f_equal; lia. }
  unfold in_range in Hs.
  destruct ((0xD800 <=? c)%N && (c <=? 0xDFFF)%N) eqn:Hsur; [done|].
  destruct (N.ltb_spec c 0x10000).
  { injection Hs as <-. cbn [app utf8_decode]. unfold cont_byte, in_range.
    repeat (case_match; [|]); try lia; repeat f_equal; lia. }
  destruct (N.ltb_spec c 0x110000); [|done]. injection Hs as <-. cbn [app utf8_decode].
  unfold cont_byte, in_range. repeat (case_match; [|]); try lia; repeat f_equal; lia.
Qed.

Lemma utf8_decode_utf8 s b : utf8 s = Some b → utf8_decode b = Some s.
Proof.
  revert b. induction s as [|c s IH]; intros b; cbn [utf8]; [by intros [= <-]|].
  destruct (utf8_char c) as [bc|] eqn:Hc; [|done]. cbn [mbind option_bind].
  destruct (utf8 s) as [bs|]; [|done]. intros [= <-]. by rewrite (utf8_decode_char c bc bs Hc), (IH bs).
Qed.

(** ** Strings *)

Lemma hex_value_digit n : (n < 16)%N → hex_value (if (n <? 10)%N then 48 + n else 87 + n)%N = Some n.
Proof.
  intros Hn. unfold hex_value, is_digit, in_range. destruct (N.ltb_spec n 10).
  - replace (_ && _) with true by lia. f_equal. lia.
  - replace (_ && _) with false by lia. replace (_ && _) with true by lia. f_equal. lia.
Qed.

Lemma hex4_decoded c : (c < 0x10000)%N →
  match hex4 c with [x; y; z; w] => hex4_value x y z w = Some c | _ => False end.
Proof.
  intros Hc. unfold hex4, hex4_value. cbn [map].
  assert (Hm : ∀ x, (x mod 16 < 16)%N) by (intros; by apply N.mod_lt).
  rewrite !hex_value_digit; try apply Hm; [|by apply N.Div0.div_lt_upper_bound]. cbn [mbind option_bind]. f_equal.
  pose proof (N.div_mod c 16 ltac:(done)). pose proof (N.div_mod (c / 16) 16 ltac:(done)).
  pose proof (N.div_mod (c / 256) 16 ltac:(done)).
  rewrite !N.Div0.div_div in *. change (16 * 16)%N with 256%N in *. change (256 * 16)%N with 4096%N in *. lia.
Qed.

(** ** Numbers *)

(** What may follow a value in a document. *)
Definition delimited (rest : pystr) : Prop :=
  match rest with [] => True | c :: _ => c = 44%N ∨ c = 93%N ∨ c = 125%N end.

Lemma span_digits s rest : forallb is_digit s = true → delimited rest → span is_digit (s ++ rest) = (s, rest).
Proof.
  intros Hs Hr. induction s as [|c s IH]; cbn [forallb app span] in *.
  - destruct rest as [|c rest]; [done|]. cbn [span]. by destruct Hr as [->|[->| ->]].
  - apply andb_prop in Hs as [Hc Hs]. by rewrite Hc, IH.
Qed.

Lemma scan_digits (negative : bool) digits rest :
  (digits = [48%N] ∨ ∃ c s, digits = c :: s ∧ (49 <= c <= 57)%N ∧ forallb is_digit s = true) →
  length digits <= 4300 → delimited rest →
  scan_number ((if negative then [45%N] else []) ++ digits ++ rest) =
    Ok (JInt (if negative then - digits_value digits else digits_value digits)%Z, rest).
Proof.
  intros Hd Hlen Hr. unfold scan_number.
  assert (Hn : head_is 45 ((if negative then [45%N] else []) ++ digits ++ rest) = negative).
  { destruct negative; [done|]. destruct Hd as [->|(c & s & -> & Hc & _)]; cbn [app head_is]; [done|lia]. }
  rewrite Hn. replace (if negative then tail _ else _) with (digits ++ rest) by by destruct negative.
  assert (Hs : (if head_is 48 (digits ++ rest) then ([48%N], tail (digits ++ rest))
                else span is_digit (digits ++ rest)) = (digits, rest)).
  { destruct Hd as [->|(c & s & -> & Hc & Hs)]; [done|]. cbn [app head_is].
    replace (c =? 48)%N with false by lia. apply (span_digits (c :: s)); [|done].
    cbn [forallb]. rewrite Hs, andb_true_r. unfold is_digit, in_range. lia. }
  rewrite Hs. destruct digits as [|c s]; [by destruct Hd as [|(? & ? & ? & _)]|].
  assert (Hf : scan_fraction rest = (None, rest)).
  { unfold scan_fraction. destruct rest as [|x rest]; [done|]. cbn [head_is].
    by destruct Hr as [->|[->| ->]]. }
  assert (He : scan_exponent rest = (None, rest)).
  { unfold scan_exponent. destruct rest as [|x rest]; [done|]. cbn [head_is].
    by destruct Hr as [->|[->| ->]]. }
  rewrite Hf, He. destruct (Nat.ltb_spec 4300 (length (c :: s))); [lia|done].
Qed.

Lemma str_of_Z_abs_shape z :
  str_of_Z (Z.abs z) = [48%N] ∨
  ∃ c s, str_of_Z (Z.abs z) = c :: s ∧ (49 <= c <= 57)%N ∧ forallb is_digit s = true.
Proof.
  destruct (decide (z = 0%Z)) as [->|Hz]; [by left|right].
  destruct (Z.abs z) as [|p|p] eqn:E; [lia| |lia]. by apply (str_of_N_shape (N.pos p)).
Qed.

Lemma str_of_Z_sign z : str_of_Z z = (if (z <? 0)%Z then [45%N] else []) ++ str_of_Z (Z.abs z).
Proof. by destruct z. Qed.

Lemma str_of_Z_value z : digits_value (str_of_Z (Z.abs z)) = Z.abs z.
Proof. destruct (Z.abs z) eqn:E; [done| |lia]. by apply (str_of_N_value (N.pos p)). Qed.

Lemma scan_int z rest : length (str_of_Z (Z.abs z)) <= 4300 → delimited rest →
  scan_number (str_of_Z z ++ rest) = Ok (JInt z, rest).
Proof.
  intros Hl Hr. rewrite str_of_Z_sign, <- app_assoc.
  rewrite (scan_digits (z <? 0)%Z _ _ (str_of_Z_abs_shape z) Hl Hr), str_of_Z_value.
  repeat f_equal. destruct (Z.ltb_spec z 0); lia.
Qed.

(** The first character of a number starts no literal. *)
Lemma literal_number s : match s with c :: r => is_digit c = true ∨ c = 45%N ∧ head_is 73 r = false | [] => False end →
  scan_literal s = None.
Proof.
  destruct s as [|c r]; [done|]. intros H.
  assert (Hw : ∀ w ws v, (w =? c)%N = false →
            match after (w :: ws) (c :: r) with Some x => Some (v : json, x) | None => None end = None).
  { intros w ws v Hw. unfold after. cbn [starts_with]. by rewrite Hw. }
  unfold is_digit, in_range in H. unfold scan_literal. cbv zeta.
  rewrite (Hw 110%N (lit "ull")), (Hw 116%N (lit "rue")), (Hw 102%N (lit "alse")), (Hw 78%N (lit "aN")),
    (Hw 73%N (lit "nfinity")) by lia.
  destruct H as [H|[-> H]]; [apply (Hw 45%N (lit "Infinity")); lia|].
  unfold after. cbn [starts_with lit codes]. destruct r as [|d r]; [done|]. cbn [head_is] in H.
  change (starts_with (lit "-Infinity") (45%N :: d :: r)) with ((73 =? d)%N && starts_with (lit "nfinity") r).
  by replace (73 =? d)%N with false by lia.
Qed.

(** ** Printable text *)

Definition printable (s : pystr) : bool := forallb (λ c, (32 <=? c)%N) s.

Lemma printable_app s t : printable (s ++ t) = printable s && printable t.
Proof. apply forallb_app. Qed.

Lemma printable_hex4 c : printable (hex4 c) = true.
Proof.
  unfold hex4. generalize [c / 4096; (c / 256) mod 16; (c / 16) mod 16; c mod 16]%N as l. intros l.
  induction l as [|n l IHl]; [done|]. cbn [map printable forallb]. apply andb_true_intro. split; [|done].
  destruct (n <? 10)%N; lia.
Qed.

Lemma utf8_nonzero s b : utf8 s = Some b → printable s = true → Forall (λ x, x ≠ 0%N) b.
Proof.
  revert b. induction s as [|c s IH]; intros b; cbn [utf8 printable forallb]; [by intros [= <-]|].
  destruct (utf8_char c) as [bc|] eqn:Hc; [|done]. cbn [mbind option_bind].
  destruct (utf8 s) as [bs|]; [|done]. intros [= <-] [Hp Hs]%andb_prop. apply Forall_app. split; [|by apply IH].
  assert (Hadd : ∀ k x : N, k ≠ 0%N → (k + x)%N ≠ 0%N) by lia.
  apply CallID.utf8_char_cases in Hc. destruct Hc as [[? ->]|[[? ->]|[[? ->]|[? ->]]]];
    rewrite ?Forall_cons; repeat split; try apply Forall_nil_2; try (by apply Hadd); lia.
Qed.

(** UTF-8 text that starts with an ASCII character and has no NUL is taken for UTF-8. *)
Lemma decode_text_utf8 bytes : Forall (λ x, x ≠ 0%N) bytes →
  match bytes with a :: _ => (a < 0x80)%N | [] => True end → decode_text bytes = utf8_decode bytes.
Proof.
  intros Hb Ha. unfold decode_text. destruct bytes as [|a r]; [done|]. apply Forall_cons in Hb as [Ha0 Hb].
  cbn [starts_with nth].
  replace (0 =? a)%N with false by lia. replace (255 =? a)%N with false by lia.
  replace (254 =? a)%N with false by lia. replace (239 =? a)%N with false by lia.
  replace (a =? 0)%N with false by lia. cbn [andb].
  assert ((nth 0 r 1 =? 0)%N = false) as ->.
  { destruct r as [|b r]; [done|]. apply Forall_cons in Hb as [Hb _]. cbn [nth]. lia. }
  by repeat case_match.
Qed.

(** ** Documents of any encoder

    An encoder is a text for every character and every float; the characters [good] accepts are those
    its strings read back. *)

Section Encoder.
Context (enc : N → pystr) (float_of : pyfloat → res pystr) (good : N → bool).

Definition text_string (s : pystr) : pystr := [34%N] ++ flat_map enc s ++ [34%N].

Fixpoint text_of (value : json) : res pystr :=
  match value with
  | JNull => Ok (lit "null")
  | JBool b => Ok (if b then lit "true" else lit "false")
  | JInt z =>
      raise_if (4300 <? length (str_of_Z (Z.abs z)))%nat
        ValueError "Exceeds the limit (4300 digits) for integer string conversion" ≫= λ _,
      Ok (str_of_Z z)
  | JFloat f => float_of f
  | JStr s => Ok (text_string s)
  | JArr l =>
      items ← (fix go l := match l with
                           | [] => Ok []
                           | x :: l' => s ← text_of x; r ← go l'; Ok (s :: r)
                           end) l;
      Ok ("[" ++ join "," items ++ "]")
  | JObj d =>
      members ← (fix go (d : list (pystr * json)) : res (list pystr) :=
                   match d with
                   | [] => Ok []
                   | (k, x) :: d' => s ← text_of x; r ← go d'; Ok ((text_string k ++ ":" ++ s) :: r)
                   end) d;
      Ok ("{" ++ join "," members ++ "}")
  end.

(** Values without floats, whose objects repeat no key and whose strings the encoder can write. *)
Fixpoint readable (value : json) : bool :=
  match value with
  | JFloat _ => false
  | JStr s => forallb good s
  | JArr l => forallb readable l
  | JObj d => bool_decide (NoDup (dkeys d)) && forallb (λ kv, forallb good (fst kv) && readable (snd kv)) d
  | _ => true
  end.

Context (enc_read : ∀ c s, good c = true → scan_string (enc c ++ s) = '(t, rest) ← scan_string s; Ok (c :: t, rest)).

Lemma scan_string_dumped s rest : forallb good s = true → scan_string (flat_map enc s ++ 34%N :: rest) = Ok (s, rest).
Proof using enc_read.
  induction s as [|c s IH]; [reflexivity|]. cbn [flat_map forallb]. intros [Hc Hs]%andb_prop.
  by rewrite <- app_assoc, enc_read, IH.
Qed.

(** ** Values *)

Definition text_member (kv : pystr * json) : res pystr := s ← text_of (snd kv); Ok (text_string (fst kv) ++ ":" ++ s).

Lemma text_arr l : text_of (JArr l) = items ← mapR text_of l; Ok ("[" ++ join "," items ++ "]").
Proof.
  cbn [text_of]. match goal with |- ?f l ≫= ?k = _ => enough (H : f l = mapR text_of l) by (by rewrite H) end.
  induction l as [|x l IH]; [done|]. cbn [mapR]. by rewrite IH.
Qed.

Lemma text_obj d : text_of (JObj d) = members ← mapR text_member d; Ok ("{" ++ join "," members ++ "}").
Proof.
  cbn [text_of]. match goal with |- ?f d ≫= ?k = _ => enough (H : f d = mapR text_member d) by (by rewrite H) end.
  induction d as [|[k x] d IH]; [done|]. cbn [mapR].
  change (text_member (k, x)) with (s ← text_of x; Ok (E:=exn) (text_string k ++ ":" ++ s)). rewrite IH.
  by destruct (text_of x).
Qed.

(** A character that starts a value. *)
Definition value_head (c : N) : bool :=
  is_digit c || existsb (N.eqb c) [34; 45; 91; 102; 110; 116; 123; 73; 78]%N.

Lemma text_head v t : readable v = true → text_of v = Ok t → ∃ c t', t = c :: t' ∧ value_head c = true.
Proof.
  intros Hp. destruct v as [| b|z|f|s|l|d]; [..|rewrite text_arr|rewrite text_obj].
  - intros [= <-]. by eexists _, _.
  - intros [= <-]. destruct b; by eexists _, _.
  - cbn [text_of]. intros (_ & _ & [= <-])%bind_Ok. rewrite str_of_Z_sign.
    destruct (z <? 0)%Z; [by eexists _, _|]. cbn [app].
    destruct (str_of_Z_abs_shape z) as [->|(c & s & -> & Hc & _)]; [by eexists _, _|].
    eexists _, _. split; [done|]. unfold value_head, is_digit, in_range. lia.
  - done.
  - intros [= <-]. by eexists _, _.
  - intros (items & _ & [= <-])%bind_Ok. by eexists _, _.
  - intros (items & _ & [= <-])%bind_Ok. by eexists _, _.
Qed.

Lemma value_head_space c s : value_head c = true → skip_space (c :: s) = c :: s.
Proof.
  intros H. unfold skip_space. cbn [drop_while]. replace (json_space c) with false; [done|].
  unfold value_head, is_digit, in_range in H. cbn [existsb] in H. unfold json_space. lia.
Qed.

Lemma skip_delimited rest : delimited rest → skip_space rest = rest.
Proof. destruct rest as [|c r]; [done|]. by intros [->|[->| ->]]. Qed.

(** The scanner reads the text of [v] back, with enough measure for its length. *)
Definition reads_back (v : json) : Prop :=
  ∀ t n rest, readable v = true → text_of v = Ok t → delimited rest → length t <= n →
    scan_once n (t ++ rest) = Ok (v, rest).

Lemma join_cons x xs : join "," (x :: xs) = x ++ match xs with [] => [] | _ => "," ++ join "," xs end.
Proof. destruct xs; cbn [join]; by rewrite ?app_nil_r. Qed.

Lemma scan_items_dumped l items n rest :
  Forall reads_back l → l ≠ [] → forallb readable l = true → mapR text_of l = Ok items →
  length (join "," items) < n → scan_items n (join "," items ++ 93%N :: rest) = Ok (l, rest).
Proof.
  revert items n. induction l as [|v l IH]; intros items n Hl Hne Hp Hd Hn; [done|].
  apply Forall_cons in Hl as [Hv Hl]. cbn [forallb] in Hp. apply andb_prop in Hp as [Hpv Hp].
  cbn [mapR] in Hd. apply bind_Ok in Hd as (t & Ht & Hd). apply bind_Ok in Hd as (ts & Hts & [= <-]).
  rewrite join_cons, <- app_assoc in *. rewrite length_app in Hn.
  destruct n as [|n]; [lia|]. cbn [scan_items].
  destruct l as [|v' l].
  - injection Hts as <-. cbn [app]. rewrite (Hv t n (93%N :: rest)); [done..|by right; left|lia].
  - destruct ts as [|t' ts]; [by apply bind_Ok in Hts as (? & ? & (? & ? & ?)%bind_Ok)|].
    destruct (text_head v' t') as (c & t2 & Ht' & Hc).
    { cbn [forallb] in Hp. by apply andb_prop in Hp as [? _]. }
    { cbn [mapR] in Hts. apply bind_Ok in Hts as (? & ? & (? & ? & [= <- <-])%bind_Ok). done. }
    rewrite <- app_assoc. change (lit "," ++ ?x) with (44%N :: x).
    rewrite length_app in Hn. change (length (lit ",")) with 1 in Hn.
    rewrite (Hv t n); [|done..|by left|lia]. cbn [mbind result_bind].
    change (skip_space (44%N :: ?x)) with (44%N :: x). cbn [head_is]. change (44 =? 93)%N with false.
    change (44 =? 44)%N with true. cbn iota. cbn [tail].
    assert (skip_space (join "," (t' :: ts) ++ 93%N :: rest) = join "," (t' :: ts) ++ 93%N :: rest) as ->.
    { rewrite join_cons, Ht'. cbn [app]. by apply value_head_space. }
    by rewrite (IH (t' :: ts) n) by (done || lia).
Qed.

Lemma dset_fresh (d : dict json) k v : k ∉ dkeys d → dset k v d = d ++ [(k, v)].
Proof.
  induction d as [|[k' v'] d IH]; [done|]. cbn [dkeys map fst dset app]. intros [Hne Hin]%not_elem_of_cons.
  rewrite bool_decide_eq_false_2 by done. f_equal. by apply IH.
Qed.

Lemma scan_members_dumped d members n rest done_ :
  Forall (λ kv, reads_back (snd kv)) d → d ≠ [] → NoDup (dkeys (done_ ++ d)) →
  forallb (λ kv, forallb good (fst kv) && readable (snd kv)) d = true → mapR text_member d = Ok members →
  length (join "," members) < n →
  scan_members n (join "," members ++ 125%N :: rest) done_ = Ok (done_ ++ d, rest).
Proof.
  revert members n done_. induction d as [|[k v] d IH]; intros members n acc Hl Hne Hnd Hp Hd Hn; [done|].
  apply Forall_cons in Hl as [Hv Hl]. cbn [forallb fst snd] in Hp. apply andb_prop in Hp as [[Hk0 Hpv]%andb_prop Hp].
  cbn [mapR] in Hd. apply bind_Ok in Hd as (m & Hm & Hd). apply bind_Ok in Hd as (ms & Hms & [= <-]).
  unfold text_member in Hm. apply bind_Ok in Hm as (t & Ht & Hm). apply Ok_inj in Hm as <-. cbn [fst snd] in *.
  rewrite join_cons, <- app_assoc in *. rewrite !length_app in Hn. change (length (lit ":")) with 1 in Hn.
  assert (Hk : k ∉ dkeys acc).
  { unfold dkeys in *. rewrite map_app in Hnd. cbn [map fst] in Hnd.
    apply NoDup_app in Hnd as (_ & Hnd & _). intros Hin. apply (Hnd k Hin). by left. }
  destruct n as [|n]; [lia|]. cbn [scan_members]. unfold text_string. rewrite <- !app_assoc.
  change ([34%N] ++ ?x) with (34%N :: x). cbn [head_is tail]. change (34 =? 34)%N with true. cbn [negb].
  cbn [app]. rewrite scan_string_dumped by done. cbn [mbind result_bind]. change (lit ":" ++ ?x) with (58%N :: x).
  change (skip_space (58%N :: ?x)) with (58%N :: x). cbn [head_is tail]. change (58 =? 58)%N with true. cbn [negb].
  destruct (text_head v t Hpv Ht) as (c & t' & Htc & Hc).
  assert (∀ x, skip_space (t ++ x) = t ++ x) as Hskip.
  { intros x. rewrite Htc. cbn [app]. by apply value_head_space. }
  rewrite Hskip. destruct d as [|[k' v'] d].
  - injection Hms as <-. cbn [app]. rewrite (Hv t n (125%N :: rest)); [|done..|by right; right|lia].
    cbn [mbind result_bind]. change (skip_space (125%N :: rest)) with (125%N :: rest). cbn [head_is tail].
    change (125 =? 125)%N with true. cbn iota. by rewrite dset_fresh.
  - destruct ms as [|m' ms]; [by apply bind_Ok in Hms as (? & ? & (? & ? & ?)%bind_Ok)|].
    assert (Hm' : ∃ t2, m' = 34%N :: t2).
    { cbn [mapR] in Hms. apply bind_Ok in Hms as (? & Hm & (? & ? & [= <- <-])%bind_Ok).
      unfold text_member in Hm. apply bind_Ok in Hm as (? & _ & [= <-]). by eexists. }
    destruct Hm' as [t2 Hm']. rewrite <- app_assoc. change (lit "," ++ ?x) with (44%N :: x).
    rewrite length_app in Hn. change (length (lit ",")) with 1 in Hn.
    rewrite (Hv t n); [|done..|by left|lia]. cbn [mbind result_bind].
    change (skip_space (44%N :: ?x)) with (44%N :: x). cbn [head_is tail]. change (44 =? 125)%N with false.
    change (44 =? 44)%N with true. cbn iota.
    assert (skip_space (join "," (m' :: ms) ++ 125%N :: rest) = join "," (m' :: ms) ++ 125%N :: rest) as ->.
    { rewrite join_cons, Hm'. cbn [app]. by apply value_head_space. }
    rewrite dset_fresh by done. rewrite (IH (m' :: ms) n (acc ++ [(k, v)])).
    + by rewrite <- app_assoc.
    + done.
    + done.
    + by rewrite <- app_assoc.
    + done.
    + done.
    + lia.
Qed.

Lemma scan_dumped v : reads_back v.
Proof.
  induction v as [| b|z|f|s|l IH|d IH] using json_ind'; intros t n rest Hp Hd Hr Hn.
  - injection Hd as <-. destruct n; [by apply Nat.le_0_r in Hn|done].
  - injection Hd as <-. destruct n; [by destruct b; apply Nat.le_0_r in Hn|by destruct b].
  - destruct (text_head _ _ Hp Hd) as (c & t' & Htc & Hc). cbn [text_of] in Hd.
    apply bind_Ok in Hd as ([] & Hl%raise_if_Ok & Hd). apply Nat.ltb_ge in Hl. apply Ok_inj in Hd.
    destruct n as [|n]; [by rewrite Htc in Hn; apply Nat.le_0_r in Hn|]. rewrite <- Hd.
    assert (Hlit : scan_literal (str_of_Z z ++ rest) = None ∧
              match str_of_Z z with c :: _ => is_digit c = true ∨ c = 45%N | [] => False end).
    { rewrite str_of_Z_sign. destruct (str_of_Z_abs_shape z) as [->|(x & s & -> & Hx & _)];
        destruct (z <? 0)%Z; (split; [apply literal_number|]); cbn [app]; try (by left); try (by right);
        try (right; split; [done|cbn [head_is]; lia]); left; unfold is_digit, in_range; lia. }
    destruct Hlit as [Hlit Hhead]. pose proof (scan_int z rest Hl Hr) as Hscan. rewrite Hd in *. rewrite Htc in *.
    cbn [app scan_once] in *. unfold is_digit, in_range in Hhead.
    replace (c =? 34)%N with false by lia. replace (c =? 123)%N with false by lia.
    replace (c =? 91)%N with false by lia. by rewrite Hlit.
  - done.
  - apply Ok_inj in Hd as <-. destruct n; [by apply Nat.le_0_r in Hn|]. unfold text_string. rewrite <- !app_assoc.
    cbn [app scan_once]. change (34 =? 34)%N with true. cbn iota. by rewrite scan_string_dumped.
  - rewrite text_arr in Hd. apply bind_Ok in Hd as (items & Hi & Hd). apply Ok_inj in Hd as <-.
    rewrite !length_app in Hn. change (length (lit "[")) with 1 in Hn. change (length (lit "]")) with 1 in Hn.
    destruct n as [|n]; [lia|]. rewrite <- !app_assoc. change (lit "[" ++ ?x) with (91%N :: x).
    change (lit "]" ++ ?x) with (93%N :: x). cbn [scan_once]. change (91 =? 34)%N with false.
    change (91 =? 123)%N with false. change (91 =? 91)%N with true. cbn iota.
    destruct l as [|v l]; [injection Hi as <-; done|].
    destruct items as [|t ts]; [by apply bind_Ok in Hi as (? & ? & (? & ? & ?)%bind_Ok)|].
    destruct (text_head v t) as (c & t' & Htc & Hc).
    { cbn [readable forallb] in Hp. by apply andb_prop in Hp as [? _]. }
    { cbn [mapR] in Hi. apply bind_Ok in Hi as (? & ? & (? & ? & [= <- <-])%bind_Ok). done. }
    assert (skip_space (join "," (t :: ts) ++ 93%N :: rest) = join "," (t :: ts) ++ 93%N :: rest) as ->.
    { rewrite join_cons, Htc. cbn [app]. by apply value_head_space. }
    replace (head_is 93 (join "," (t :: ts) ++ 93%N :: rest)) with false.
    2: { rewrite join_cons, Htc. cbn [app head_is]. unfold value_head, is_digit, in_range in Hc.
         cbn [existsb] in Hc. lia. }
    rewrite (scan_items_dumped (v :: l) (t :: ts) n rest); [done|done|done|done|done|lia].
  - rewrite text_obj in Hd. apply bind_Ok in Hd as (ms & Hi & Hd). apply Ok_inj in Hd as <-.
    rewrite !length_app in Hn. change (length (lit "{")) with 1 in Hn. change (length (lit "}")) with 1 in Hn.
    destruct n as [|n]; [lia|]. rewrite <- !app_assoc. change (lit "{" ++ ?x) with (123%N :: x).
    change (lit "}" ++ ?x) with (125%N :: x). cbn [scan_once]. change (123 =? 34)%N with false.
    change (123 =? 123)%N with true. cbn iota.
    destruct d as [|[k v] d]; [injection Hi as <-; done|].
    destruct ms as [|m ms]; [by apply bind_Ok in Hi as (? & ? & (? & ? & ?)%bind_Ok)|].
    assert (Hm : ∃ t2, m = 34%N :: t2).
    { cbn [mapR] in Hi. apply bind_Ok in Hi as (? & Hm & (? & ? & [= <- <-])%bind_Ok).
      unfold text_member in Hm. apply bind_Ok in Hm as (? & _ & [= <-]). by eexists. }
    destruct Hm as [t2 Hm].
    assert (skip_space (join "," (m :: ms) ++ 125%N :: rest) = join "," (m :: ms) ++ 125%N :: rest) as ->.
    { rewrite join_cons, Hm. cbn [app]. by apply value_head_space. }
    replace (head_is 125 (join "," (m :: ms) ++ 125%N :: rest)) with false
      by (rewrite join_cons, Hm; done).
    cbn [readable] in Hp. apply andb_prop in Hp as [Hnd%bool_decide_eq_true Hp].
    rewrite (scan_members_dumped ((k, v) :: d) (m :: ms) n rest []); [done|done|done|done|done|done|lia].
Qed.

(** ** Documents *)

Lemma loads_text v t : readable v = true → text_of v = Ok t → loads t = Ok v.
Proof.
  intros Hp Hd. destruct (text_head v t Hp Hd) as (c & t' & Htc & Hc). unfold loads.
  replace (head_is 65279 t) with false.
  2: { rewrite Htc. cbn [head_is]. unfold value_head, is_digit, in_range in Hc. cbn [existsb] in Hc. lia. }
  assert (Hskip : skip_space t = t) by (rewrite Htc; by apply value_head_space). rewrite Hskip.
  pose proof (scan_dumped v t (length t + 1) [] Hp Hd I ltac:(lia)) as Hs. rewrite app_nil_r in Hs.
  by rewrite Hs.
Qed.

(** A class of characters that has every printable ASCII character and what the encoder writes. *)
Context (ok : N → bool) (ok_ascii : ∀ c, in_range 32 126 c = true → ok c = true).
Context (enc_ok : ∀ c, good c = true → forallb ok (enc c) = true).

Lemma ok_lit s : forallb (in_range 32 126) s = true → forallb ok s = true.
Proof using ok_ascii. rewrite !forallb_forall. auto. Qed.

Lemma ok_digits s : forallb is_digit s = true → forallb ok s = true.
Proof using ok_ascii.
  rewrite !forallb_forall. intros H c Hc. apply ok_ascii. specialize (H c Hc). unfold is_digit, in_range in *. lia.
Qed.

Lemma ok_string s : forallb good s = true → forallb ok (flat_map enc s) = true.
Proof using enc_ok.
  induction s as [|c s IH]; [done|]. cbn [flat_map forallb]. intros [Hc Hs]%andb_prop.
  by rewrite forallb_app, enc_ok, IH.
Qed.

Lemma ok_text_string s : forallb good s = true → forallb ok (text_string s) = true.
Proof using enc_ok ok_ascii. intros Hs. unfold text_string. by rewrite !forallb_app, ok_string, ok_lit. Qed.

Lemma ok_join items : Forall (λ t, forallb ok t = true) items → forallb ok (join "," items) = true.
Proof using ok_ascii.
  induction 1 as [|t items Ht _ IH]; [done|]. rewrite join_cons, forallb_app, Ht. destruct items; [done|].
  by rewrite forallb_app, IH, ok_lit.
Qed.

Lemma ok_text v t : readable v = true → text_of v = Ok t → forallb ok t = true.
Proof using enc_ok ok_ascii.
  revert t. induction v as [| b|z|f|s|l IH|d IH] using json_ind'; intros t Hp Hd.
  - injection Hd as <-. by apply ok_lit.
  - injection Hd as <-. by apply ok_lit; destruct b.
  - cbn [text_of] in Hd. apply bind_Ok in Hd as (_ & _ & Hd). apply Ok_inj in Hd as <-.
    rewrite str_of_Z_sign, forallb_app. apply andb_true_intro. split; [by apply ok_lit; destruct (z <? 0)%Z|].
    apply ok_digits. destruct (str_of_Z_abs_shape z) as [->|(c & s & -> & Hc & Hs)]; [done|].
    cbn [forallb]. rewrite Hs, andb_true_r. unfold is_digit, in_range. lia.
  - done.
  - apply Ok_inj in Hd as <-. by apply ok_text_string.
  - rewrite text_arr in Hd. apply bind_Ok in Hd as (items & Hi & Hd). apply Ok_inj in Hd as <-.
    rewrite !forallb_app, ok_join, !ok_lit; [done..|]. cbn [readable] in Hp.
    rewrite forallb_forall in Hp. apply Forall_forall. intros t Ht.
    destruct (mapR_elem _ _ _ _ Hi Ht) as (v & Hv & Hdv). rewrite Forall_forall in IH.
    apply (IH v Hv t); [|done]. by apply Hp, list_elem_of_In.
  - rewrite text_obj in Hd. apply bind_Ok in Hd as (ms & Hi & Hd). apply Ok_inj in Hd as <-.
    rewrite !forallb_app, ok_join, !ok_lit; [done..|]. cbn [readable] in Hp.
    apply andb_prop in Hp as [_ Hp]. rewrite forallb_forall in Hp. apply Forall_forall. intros t Ht.
    destruct (mapR_elem _ _ _ _ Hi Ht) as (kv & Hv & Hdv). rewrite Forall_forall in IH.
    unfold text_member in Hdv. apply bind_Ok in Hdv as (tv & Hdv & Hm). apply Ok_inj in Hm as <-.
    assert (Hkv : kv ∈ d) by done. apply list_elem_of_In, Hp, andb_prop in Hkv as [Hk Hpv].
    by rewrite !forallb_app, ok_text_string, (IH kv Hv tv), ok_lit.
Qed.

End Encoder.

Lemma text_encoded enc float_of good value t b :
  (∀ c s, good c = true → scan_string (enc c ++ s) = '(t, rest) ← scan_string s; Ok (c :: t, rest)) →
  (∀ c, good c = true → printable (enc c) = true) →
  readable good value = true → text_of enc float_of value = Ok t → utf8 t = Some b →
  loads_bytes b = Ok value.
Proof.
  intros Hread Hprint Hp Hd Hu. unfold loads_bytes. rewrite decode_text_utf8.
  - by rewrite (utf8_decode_utf8 t b Hu), (loads_text enc float_of good Hread value t Hp Hd).
  - eapply utf8_nonzero; [done|]. eapply (ok_text enc float_of good); [|exact Hprint|done..]. intros c Hc. unfold in_range in Hc. lia.
  - destruct (text_head enc float_of good value t Hp Hd) as (c & t' & -> & Hc). cbn [utf8] in Hu.
    destruct (utf8_char c) as [bc|] eqn:Hbc; [|done]. cbn [mbind option_bind] in Hu.
    destruct (utf8 t') as [bs|]; [|done]. injection Hu as <-.
    unfold value_head, is_digit, in_range in Hc. cbn [existsb] in Hc. unfold utf8_char in Hbc.
    replace (c <? 128)%N with true in Hbc by lia. injection Hbc as <-. cbn [app]. lia.
Qed.

(** ** The canonical encoder *)

(** What [go_char] writes: a short escape, a \u escape of a character that is no surrogate, or the
    character itself. *)
Lemma go_char_cases c :
  (∃ e, go_char c = [92; e]%N ∧ (e =? 117)%N = false ∧ escape_char e = Some c) ∨
  (go_char c = [92; 117]%N ++ hex4 c ∧ (c < 0xD800)%N) ∨
  (go_char c = [c] ∧ (c =? 34)%N = false ∧ (c =? 92)%N = false ∧ (32 <= c)%N).
Proof.
  unfold go_char.
  destruct (N.eqb_spec c 34) as [->|]; [left; by eexists|].
  destruct (N.eqb_spec c 92) as [->|]; [left; by eexists|].
  destruct (N.eqb_spec c 10) as [->|]; [left; by eexists|].
  destruct (N.eqb_spec c 13) as [->|]; [left; by eexists|].
  destruct (N.eqb_spec c 9) as [->|]; [left; by eexists|].
  destruct (N.eqb_spec c 12) as [->|]; [left; by eexists|].
  destruct (N.eqb_spec c 8) as [->|]; [left; by eexists|]. right.
  cbn [existsb]. destruct (_ || _) eqn:He; [left|right].
  - split; [reflexivity|lia].
  - split; [done|]. lia.
Qed.

Lemma scan_string_char c s : scan_string (go_char c ++ s) = '(t, rest) ← scan_string s; Ok (c :: t, rest).
Proof.
  destruct (go_char_cases c) as [(e & -> & He & Hc)|[[-> Hc]|(-> & H1 & H2 & H3)]].
  - cbn [app scan_string]. change (92 =? 34)%N with false. change (92 =? 92)%N with true. cbn iota.
    by rewrite He, Hc.
  - pose proof (hex4_decoded c ltac:(lia)) as Hx. unfold hex4 in *. cbn [map app scan_string] in *.
    change (92 =? 34)%N with false. change (92 =? 92)%N with true. change (117 =? 117)%N with true. cbn iota.
    rewrite Hx. assert (is_high c = false) as -> by (unfold is_high, in_range; lia).
    by destruct s as [|? [|? [|? [|? [|? [|? ?]]]]]].
  - cbn [app scan_string]. rewrite H1, H2. by replace (c <? 32)%N with false by lia.
Qed.

Lemma go_printable c : printable (go_char c) = true.
Proof.
  destruct (go_char_cases c) as [(e & -> & He & Hc)|[[-> Hc]|(-> & _ & _ & H)]].
  - unfold escape_char in Hc. cbn [printable forallb]. repeat (case_match; [lia|]). done.
  - by rewrite printable_app, printable_hex4.
  - cbn [printable forallb]. lia.
Qed.

Lemma dumps_text : dumps = text_of go_char (λ f, Ok (float_repr f)).
Proof. reflexivity. Qed.

Lemma plain_readable value : plain value = readable (λ _, true) value.
Proof.
  assert (Ht : ∀ s : pystr, forallb (λ _, true) s = true) by (induction s; done).
  induction value as [| b|z|f|s|l IH|d IH] using json_ind'; cbn [plain readable]; [done..|by rewrite Ht| |].
  - induction IH as [|x l Hx _ IHl]; [done|]. cbn [forallb]. by rewrite Hx, IHl.
  - f_equal. induction IH as [|[k x] d Hx _ IHd]; [done|]. cbn [forallb fst snd] in *. by rewrite Hx, IHd, Ht.
Qed.

Lemma loads_encoded value t b : plain value = true → dumps value = Ok t → utf8 t = Some b → loads_bytes b = Ok value.
Proof.
  rewrite dumps_text, plain_readable. apply text_encoded; intros c *; [intros _; apply scan_string_char|intros _; apply go_printable].
Qed.

(** ** The ASCII encoder *)

(** The characters of a text: no surrogates. *)
Definition scalar (c : N) : bool := (c <? 0x110000)%N && negb (in_range 0xD800 0xDFFF c).

Lemma ascii_char_cases c : scalar c = true →
  (∃ e, ascii_char c = [92; e]%N ∧ (e =? 117)%N = false ∧ escape_char e = Some c) ∨
  (ascii_char c = [c] ∧ (c =? 34)%N = false ∧ (c =? 92)%N = false ∧ (32 <= c)%N) ∨
  (ascii_char c = [92; 117]%N ++ hex4 c ∧ (c < 0x10000)%N) ∨
  (∃ high low, ascii_char c = [92; 117]%N ++ hex4 high ++ [92; 117]%N ++ hex4 low ∧
     (0xD800 <= high < 0xDC00)%N ∧ (0xDC00 <= low < 0xE000)%N ∧ join_surrogates high low = c).
Proof.
  intros Hc. unfold scalar, in_range in Hc. unfold ascii_char.
  destruct (N.eqb_spec c 34) as [->|]; [left; by eexists|].
  destruct (N.eqb_spec c 92) as [->|]; [left; by eexists|].
  destruct (N.eqb_spec c 10) as [->|]; [left; by eexists|].
  destruct (N.eqb_spec c 13) as [->|]; [left; by eexists|].
  destruct (N.eqb_spec c 9) as [->|]; [left; by eexists|].
  destruct (N.eqb_spec c 12) as [->|]; [left; by eexists|].
  destruct (N.eqb_spec c 8) as [->|]; [left; by eexists|]. right.
  unfold in_range. destruct ((32 <=? c)%N && (c <=? 126)%N) eqn:Hp; [left; split; [done|lia]|right].
  destruct (N.ltb_spec c 0x10000); [by left|right]. cbv zeta.
  pose proof (N.div_mod (c - 0x10000) 1024 ltac:(done)). pose proof (N.mod_lt (c - 0x10000) 1024 ltac:(done)).
  assert (Hq : ((c - 0x10000) / 1024 < 1024)%N) by (apply N.Div0.div_lt_upper_bound; lia).
  set (q := ((c - 0x10000) / 1024)%N) in *. set (r := ((c - 0x10000) mod 1024)%N) in *. clearbody q r.
  exists (0xD800 + q)%N, (0xDC00 + r)%N. split; [reflexivity|]. unfold join_surrogates. split; [lia|]. split; lia.
Qed.

Lemma scan_ascii_char c s : scalar c = true →
  scan_string (ascii_char c ++ s) = '(t, rest) ← scan_string s; Ok (c :: t, rest).
Proof.
  intros Hs. destruct (ascii_char_cases c Hs) as [(e & -> & He & Hc)|[(-> & H1 & H2 & H3)|[[-> Hc]|(high & low & -> & Hh & Hl & <-)]]].
  - cbn [app scan_string]. change (92 =? 34)%N with false. change (92 =? 92)%N with true. cbn iota. by rewrite He, Hc.
  - cbn [app scan_string]. rewrite H1, H2. by replace (c <? 32)%N with false by lia.
  - pose proof (hex4_decoded c ltac:(lia)) as Hx. unfold hex4 in *. cbn [map app scan_string] in *.
    change (92 =? 34)%N with false. change (92 =? 92)%N with true. change (117 =? 117)%N with true. cbn iota.
    rewrite Hx. unfold scalar, in_range in Hs. assert (is_high c = false) as -> by (unfold is_high, in_range; lia).
    by destruct s as [|? [|? [|? [|? [|? [|? ?]]]]]].
  - pose proof (hex4_decoded high ltac:(lia)) as Hx. pose proof (hex4_decoded low ltac:(lia)) as Hy.
    destruct (hex4 high) as [|h1 [|h2 [|h3 [|h4 [|? ?]]]]]; try done.
    destruct (hex4 low) as [|l1 [|l2 [|l3 [|l4 [|? ?]]]]]; try done. cbn [app scan_string].
    change (92 =? 34)%N with false. change (92 =? 92)%N with true. change (117 =? 117)%N with true. cbn iota.
    rewrite Hx. assert (is_high high = true) as -> by (unfold is_high, in_range; lia). unfold low_escape.
    change ((92 =? 92)%N && (117 =? 117)%N) with true. cbn iota. rewrite Hy.
    by assert (is_low low = true) as -> by (unfold is_low, in_range; lia).
Qed.

Lemma ascii_printable c : scalar c = true → printable (ascii_char c) = true.
Proof.
  intros Hs. destruct (ascii_char_cases c Hs) as [(e & -> & He & Hc)|[(-> & H1 & H2 & H3)|[[-> Hc]|(high & low & -> & Hh & Hl & _)]]].
  - unfold escape_char in Hc. cbn [printable forallb]. repeat (case_match; [lia|]). done.
  - cbn [printable forallb]. lia.
  - by rewrite printable_app, printable_hex4.
  - by rewrite !printable_app, !printable_hex4.
Qed.

Lemma ascii_text allow_nan : dumps_ascii "," ":" allow_nan = text_of ascii_char (float_text allow_nan).
Proof. reflexivity. Qed.

Lemma utf8_ascii s : forallb (λ c, (c <? 128)%N) s = true → utf8 s = Some s.
Proof.
  induction s as [|c s IH]; [done|]. cbn [forallb utf8]. intros [Hc Hs]%andb_prop. unfold utf8_char. by rewrite Hc, IH.
Qed.

Lemma ascii_bytes allow_nan value t : readable scalar value = true → dumps_ascii "," ":" allow_nan value = Ok t →
  forallb (λ c, (c <? 128)%N) t = true.
Proof.
  rewrite ascii_text. intros Hp Hd. eapply (ok_text ascii_char (float_text allow_nan) scalar); [| |done..]; intros c Hc.
  - unfold in_range in Hc. lia.
  - apply ascii_char_ascii. unfold scalar in Hc. lia.
Qed.

(** The bytes of [json.dumps(value, separators=(",", ":")).encode()] are its characters, and read back. *)
Lemma loads_ascii allow_nan value t : readable scalar value = true → dumps_ascii "," ":" allow_nan value = Ok t →
  utf8 t = Some t ∧ loads_bytes t = Ok value.
Proof.
  intros Hp Hd. pose proof (utf8_ascii t (ascii_bytes _ _ _ Hp Hd)) as Hu. split; [done|]. rewrite ascii_text in Hd.
  eapply text_encoded; [intros c s; apply scan_ascii_char|intros c; apply ascii_printable|done..].
Qed.

Lemma canonical_bytes_text value bytes : go_canonical_json_bytes value = Ok bytes →
  ∃ t, dumps value = Ok t ∧ utf8 t = Some bytes.
Proof.
  intros (t & Hd & He)%bind_Ok. exists t. split; [done|]. unfold CallID.encode in He.
  destruct (utf8 t); [|done]. by injection He as ->.
Qed.

(** C39: what is stored is what is read: [json.loads] of the bytes [go_canonical_json_bytes] writes gives
    back the very value, for every value without floats: nested objects in order, every string with
    its escapes and its UTF-8 encoding, every integer within the conversion limit. *)
Theorem canonical_read_back value bytes :
  plain value = true → go_canonical_json_bytes value = Ok bytes → loads_bytes bytes = Ok value.
Proof. intros Hp (t & Hd & Hu)%canonical_bytes_text. by eapply loads_encoded. Qed.

Definition sample_document : json :=
  JObj [(lit "scope", JObj [(lit "projectId", JStr "acme"); (lit "kind", JStr "live")]);
        (lit "name", JStr [60; 8232; 233; 0x1F600; 10]%N); (lit "revision", JInt (-12)); (lit "list", JArr [JNull; JBool true])].

Lemma canonical_read_back_witness :
  ∃ bytes, go_canonical_json_bytes sample_document = Ok bytes ∧ loads_bytes bytes = Ok sample_document.
Proof.
  destruct (go_canonical_json_bytes sample_document) as [bytes|e] eqn:E.
  - exists bytes. split; [done|]. apply (canonical_read_back sample_document bytes); [vm_compute; reflexivity|exact E].
  - vm_compute in E. discriminate E.
Defined.

End CanonicalFacts.
