(* ===== verification/ManifestValues.v ===== *)
(** * Values in manifest-declared grants

    sdkpython/src/dex_connectors/sdk/oauthtoken/manifest_refresh.py, its module functions: durations,
    Go's white space and mail addresses, template value rules, JWT expiries and response URLs.

    Case mapping, the decimal values of characters outside ASCII and regular expressions are
    parameters. *)

From S2P Require Import Prelude Json JsonText Identity AddressPolicy Url Base64.

(** [bool(value)]. *)
Definition py_bool (j : json) : bool :=
  match j with
  | JNull => false
  | JBool b => b
  | JInt z => negb (z =? 0)%Z
  | JFloat f => negb (feq f (FFin 0 0))
  | JStr s => truthy s
  | JArr l => match l with [] => false | _ => true end
  | JObj d => match d with [] => false | _ => true end
  end.

(** [isinstance(value, list) and all(isinstance(x, str) for x in value)]. *)
Definition string_list (j : json) : bool := match j with JArr l => forallb is_str l | _ => false end.

(** [text.replace(old, new)] for a nonempty [old]; the fuel is the length of the text. *)
Fixpoint replace_text (fuel : nat) (old new s : pystr) : pystr :=
  match fuel, s with
  | S n, c :: s' =>
      if starts_with old s then new ++ replace_text n old new (drop (length old) s) else c :: replace_text n old new s'
  | _, _ => s
  end.

Definition py_replace (old new s : pystr) : pystr := replace_text (length s) old new s.

(** [quote(text, safe=":@&=+$")]. *)
Definition value_char (c : N) : bool := unreserved c || existsb (N.eqb c) [58; 64; 38; 61; 43; 36]%N.

Definition quote_value_byte (b : N) : pystr :=
  if value_char b then [b] else [37; upper_hex_digit (b / 16); upper_hex_digit (b mod 16)]%N.

Definition quote_value (s : pystr) : res pystr :=
  match utf8 s with
  | Some bytes => Ok (flat_map quote_value_byte bytes)
  | None => raise UnicodeEncodeError "surrogates not allowed"
  end.

(** ** Durations *)

Section Durations.
(** [unicodedata.decimal] beyond ASCII: what [\d] matches and [int] reads. *)
Context (unicode_decimal : N → option N).

Definition decimal_of (c : N) : option N :=
  if is_digit c then Some (c - 48)%N else if (c <? 128)%N then None else unicode_decimal c.
Definition decimal_char (c : N) : bool := match decimal_of c with Some _ => true | None => false end.

Definition decimal_value (s : pystr) : Z :=
  fold_left (λ n c, (n * 10 + Z.of_N (default 0%N (decimal_of c)))%Z) s 0%Z.

(** [int(text)] of decimal digits. *)
Definition int_of_decimal (s : pystr) : res Z :=
  if (4300 <? length s)%nat then raise ValueError "Exceeds the limit (4300 digits) for integer string conversion"
  else Ok (decimal_value s).

(** The nanoseconds of a unit, and what follows it; micro is spelled with either sign. *)
Definition duration_unit (s : pystr) : option (Z * pystr) :=
  match s with
  | c :: r =>
      let two n := match r with d :: r' => if (d =? 115)%N then Some (n, r') else None | [] => None end in
      if (c =? 110)%N then two 1%Z
      else if (c =? 117)%N || (c =? 181)%N || (c =? 956)%N then two 1000%Z
      else if (c =? 109)%N then match two 1000000%Z with Some x => Some x | None => Some (60000000000%Z, r) end
      else if (c =? 115)%N then Some (1000000000%Z, r)
      else if (c =? 104)%N then Some (3600000000000%Z, r)
      else None
  | [] => None
  end.

(** [_DURATION_PART] at the start of the text: whole and fraction digits, the unit, the rest. *)
Definition duration_part (s : pystr) : option (pystr * pystr * Z * pystr) :=
  let '(whole, r) := span decimal_char s in
  let '(fraction, r') := if head_is 46 r then span decimal_char (tail r) else ([], r) in
  if truthy whole || truthy fraction then
    match duration_unit r' with Some (unit, rest) => Some (whole, fraction, unit, rest) | None => None end
  else None.

Definition invalid_duration {A} : res A := raise ValueError "manifest grant duration is invalid".

(** The nanoseconds of the parts; every part consumes characters. *)
Fixpoint duration_parts (fuel : nat) (s : pystr) : res Z :=
  match fuel, s with
  | _, [] => Ok 0%Z
  | O, _ => invalid_duration
  | S n, _ =>
      match duration_part s with
      | None => invalid_duration
      | Some (whole, fraction, unit, rest) =>
          w ← (if truthy whole then int_of_decimal whole else Ok 0%Z);
          f ← (if truthy fraction then int_of_decimal fraction else Ok 0%Z);
          total ← duration_parts n rest;
          Ok (w * unit + f * unit / 10 ^ Z.of_nat (length fraction) + total)%Z
      end
  end.

(** [_parse_duration], in microseconds. *)
Definition _parse_duration (value : pystr) : res Z :=
  if negb (truthy value) || bool_decide (value ∈ [lit "0"; lit "+0"; lit "-0"]) then Ok 0%Z
  else
    let negative := starts_with "-" value in
    let value := if negative || starts_with "+" value then tail value else value in
    total ← duration_parts (length value) value;
    if ((if negative then 2 ^ 63 else 2 ^ 63 - 1) <? total)%Z then invalid_duration
    else Ok (if negative then - (total / 1000) else total / 1000)%Z.

End Durations.

(** ** Go's strings *)

(** [_trim_go_space]. *)
Definition go_space (c : N) : bool :=
  (c =? 0x20)%N || in_range 0x09 0x0D c || existsb (N.eqb c) [0x85; 0xA0; 0x1680]%N || in_range 0x2000 0x200A c
  || existsb (N.eqb c) [0x2028; 0x2029; 0x202F; 0x205F; 0x3000]%N.
Definition _trim_go_space (value : pystr) : pystr := trim go_space value.

(** [is_atom]. *)
Definition atom_char (c : N) : bool :=
  negb (in_range 0xD800 0xDFFF c)
  && ((0x80 <=? c)%N || (in_range 0x21 0x7E c && negb (existsb (N.eqb c) [40; 41; 60; 62; 91; 93; 58; 59; 64; 92; 44; 34]%N))).

Definition is_atom (s : pystr) : bool :=
  truthy s && negb (starts_with "." s) && negb (ends_with "." s) && negb (contains ".." s) && forallb atom_char s.

(** [_is_go_mail_address]. *)
Definition _is_go_mail_address (value : pystr) : bool :=
  match split_char 64 value with
  | [local; domain] =>
      if negb (is_atom local) then false
      else if starts_with "[" domain && ends_with "]" domain then
        if has_char 37 domain then false
        else match ip_address (removelast (tail domain)) with Some _ => true | None => false end
      else is_atom domain
  | _ => false
  end.

(** ** Template value rules *)

Section Rules.
(** [str.lower]; [re.compile(pattern, re.ASCII)] accepts the pattern; [re.fullmatch(pattern, value, re.ASCII)]. *)
Context (lower : pystr → pystr) (pattern_compiles : pystr → bool) (pattern_matches : pystr → pystr → bool).

Definition invalid_pattern {A} : res A := raise ValueError "manifest template value pattern is invalid".

(** The scan of [_validate_portable_template_value_pattern]. *)
Fixpoint portable_pattern (in_class : bool) (s : pystr) : bool :=
  match s with
  | [] => true
  | c :: r =>
      if (c =? 92)%N then
        match r with
        | [] => true
        | e :: r => negb (existsb (N.eqb e) (lit "123456789pPQEk")) && portable_pattern in_class r
        end
      else if (c =? 91)%N then negb (in_class && head_is 58 r) && portable_pattern true r
      else if (c =? 93)%N then portable_pattern false r
      else
        negb (negb in_class && (c =? 40)%N && head_is 63 r && negb (head_is 58 (tail r))) && portable_pattern in_class r
  end.

Definition _validate_portable_template_value_pattern (pattern : pystr) : res unit :=
  if portable_pattern false pattern && pattern_compiles pattern then Ok () else invalid_pattern.

(** [rule.get("patterns", [])] and [rule.get("reject", [])] of a checked rule. *)
Definition string_items (name : string) (rule : dict json) : list pystr :=
  match get name rule with
  | JArr l => flat_map (λ j, match j with JStr s => [s] | _ => [] end) l
  | _ => []
  end.

Definition rule_keys : list pystr :=
  [lit "trimSpace"; lit "maxBytes"; lit "patterns"; lit "reject"; lit "lowercase"].

Definition present (name : string) (rule : dict json) : bool := dhas name rule.

(** The shape of a rule. *)
Definition rule_malformed (rule : dict json) : bool :=
  let not_bool name := present name rule && negb match get name rule with JBool _ => true | _ => false end in
  existsb (λ k, negb (bool_decide (k ∈ rule_keys))) (dkeys rule)
  || not_bool "trimSpace" || not_bool "lowercase"
  || (present "maxBytes" rule && negb match get "maxBytes" rule with JInt n => (0 <=? n)%Z | _ => false end)
  || (present "reject" rule && negb (string_list (get "reject" rule)))
  || (present "patterns" rule && negb (string_list (get "patterns" rule))).

(** [_validate_template_value_rule]. *)
Definition _validate_template_value_rule (rule : json) : res unit :=
  match rule with
  | JObj rule =>
      raise_if (rule_malformed rule) ValueError "manifest template value rule is invalid" ≫= λ _,
      for_each _validate_portable_template_value_pattern (string_items "patterns" rule)
  | _ => raise ValueError "manifest template value rule is invalid"
  end.

Definition reauthorize {A} : res A := raise ReauthorizationRequiredError "connector reauthorization is required".

Definition is_true (j : json) : bool := match j with JBool true => true | _ => false end.

(** [_apply_template_value_rule]. *)
Definition _apply_template_value_rule (raw : pystr) (rule : json) : res pystr :=
  _validate_template_value_rule rule ≫= λ _,
  let rule := match rule with JObj d => d | _ => [] end in
  let value := if is_true (get "trimSpace" rule) then _trim_go_space raw else raw in
  (match get "maxBytes" rule with
   | JInt maximum => bytes ← CallID.encode value; if (maximum <? Z.of_nat (length bytes))%Z then reauthorize else Ok ()
   | _ => Ok ()
   end) ≫= λ _,
  if bool_decide (lower value ∈ map lower (string_items "reject" rule)) then reauthorize
  else
    match string_items "patterns" rule with
    | [] => Ok (if is_true (get "lowercase" rule) then lower value else value)
    | patterns => if existsb (λ p, pattern_matches p value) patterns
                  then Ok (if is_true (get "lowercase" rule) then lower value else value) else reauthorize
    end.

End Rules.

(** ** JWT expiries *)

(** One byte of [_has_bounded_json_depth]: the depth, and whether a string or an escape is open. *)
Record depth_state := mkDepth { depth : nat; in_string : bool; escaped : bool }.

Definition depth_step (s : depth_state) (byte : N) : option depth_state :=
  if in_string s then
    Some (if escaped s then mkDepth (depth s) true false
          else if (byte =? 0x5C)%N then mkDepth (depth s) true true
          else if (byte =? 0x22)%N then mkDepth (depth s) false false
          else s)
  else if (byte =? 0x22)%N then Some (mkDepth (depth s) true (escaped s))
  else if (byte =? 0x7B)%N || (byte =? 0x5B)%N then
    if (128 <? S (depth s))%nat then None else Some (mkDepth (S (depth s)) false (escaped s))
  else if (byte =? 0x7D)%N || (byte =? 0x5D)%N then
    match depth s with O => None | S n => Some (mkDepth n false (escaped s)) end
  else Some s.

Fixpoint depth_loop (s : depth_state) (payload : list N) : option depth_state :=
  match payload with
  | [] => Some s
  | byte :: payload => match depth_step s byte with Some s => depth_loop s payload | None => None end
  end.

Definition _has_bounded_json_depth (payload : list N) : bool :=
  (Z.of_nat (length payload) <=? 16384)%Z
  && match depth_loop (mkDepth 0 false false) payload with
     | Some s => (depth s =? 0)%nat && negb (in_string s)
     | None => false
     end.

(** The characters of a JWT segment before its padding. *)
Definition segment_char (c : N) : bool :=
  is_alnum c || (c =? 95)%N || (c =? 45)%N || (c =? 13)%N || (c =? 10)%N.

Definition max_expiry : Z := 0x7FFFFFFF * 4.

(** The [exp] of decoded claims. *)
Definition expiry_claim (claims : json) : option Z :=
  match claims with
  | JObj d =>
      match get "exp" d with
      | JInt n => if ((0 <? n) && (n <=? max_expiry))%Z then Some n else None
      | JFloat f =>
          if flt (FFin 0 0) f && fle f (f_of_Z max_expiry)
          then match int_of_float f with Ok n => Some n | Err _ => None end else None
      | _ => None
      end
  | _ => None
  end.

(** [_read_jwt_expiry_seconds]; measuring the token encodes it. *)
Definition _read_jwt_expiry_seconds (token : pystr) : res (option Z) :=
  if negb (truthy token) then Ok None
  else
    bytes ← CallID.encode token;
    if (16384 <? Z.of_nat (length bytes))%Z then Ok None
    else
      match split_char 46 token with
      | [_; segment; _] =>
          if negb (forallb (λ c, (c =? 61)%N) (drop_while segment_char segment)) then Ok None
          else
            let unpadded := List.filter (λ c, negb ((c =? 13)%N || (c =? 10)%N)) (drop_while_end (λ c, (c =? 61)%N) segment) in
            match urlsafe_b64decode unpadded with
            | None => Ok None
            | Some payload =>
                if negb (_has_bounded_json_depth payload) then Ok None
                else match loads_bytes payload with
                     | Ok claims => Ok (expiry_claim claims)
                     | Err e => if isinst e ValueError || isinst e TypeError then Ok None else Err e
                     end
            end
      | _ => Ok None
      end.

(** ** Response URLs *)

Definition invalid_url {A} : res A := raise ValueError "response URL is invalid".

(** [value in container] for a string. *)
Definition py_in (value : pystr) (container : json) : res bool :=
  match container with
  | JArr l => Ok (existsb (λ j, match j with JStr s => bool_decide (s = value) | _ => false end) l)
  | JStr s => Ok (contains value s)
  | JObj d => Ok (dhas value d)
  | _ => raise TypeError "argument is not iterable"
  end.

Definition is_loopback_host (host : pystr) : bool :=
  match ip_address host with Some a => is_loopback a | None => bool_decide (ascii_lower host = lit "localhost") end.

(** [netloc == suffix or netloc.endswith("." + suffix)]. *)
Definition suffix_matches (netloc : pystr) (suffix : json) : res bool :=
  if negb (py_bool suffix) then Ok false
  else match suffix with
       | JStr s => Ok (bool_decide (netloc = s) || ends_with ("." ++ s) netloc)
       | _ => raise TypeError "can only concatenate str"
       end.

(** The host rules. *)
Definition host_allowed (parsed : split_url) (loopback : bool) (rule : dict json) : res bool :=
  if (py_bool (get "allowAnyHTTPS" rule) && bool_decide (scheme parsed = lit "https"))
     || (py_bool (get "allowLoopback" rule) && loopback)
  then Ok true
  else
    listed ← py_in (netloc parsed) (get_or "allowedHosts" (JArr []) rule);
    if listed : bool then Ok true else suffix_matches (netloc parsed) (get_or "allowedHostSuffix" (JStr []) rule).

(** [_validate_response_url]; its characters are ASCII before it is split. *)
Definition _validate_response_url (value : pystr) (rule : dict json) : res pystr :=
  if negb (starts_with "https://" value || starts_with "http://" value)
     || negb (forallb (in_range 33 126) value) || has_char 63 value || has_char 35 value
  then invalid_url
  else
    match urlsplit (λ _, true) value with
    | Err _ => invalid_url
    | Ok parsed =>
        match port parsed with
        | Err _ => invalid_url
        | Ok p =>
            let host := default [] (hostname parsed) in
            let loopback := is_loopback_host host in
            if negb (truthy host)
               || match username parsed with Some _ => true | None => false end
               || match password parsed with Some _ => true | None => false end
               || negb (bool_decide (path parsed ∈ [[]; lit "/"]))
               || truthy (query parsed) || truthy (fragment parsed)
               || (negb (bool_decide (scheme parsed = lit "https"))
                   && negb (py_bool (get "allowLoopback" rule) && loopback && bool_decide (scheme parsed = lit "http")))
               || (py_bool (get "forbidPort" rule) && match p with Some _ => true | None => false end)
            then invalid_url
            else
              allowed ← host_allowed parsed loopback rule;
              if allowed : bool then Ok (drop_while_end (λ c, (c =? 47)%N) value) else invalid_url
        end
    end.

(** [_is_valid_response_url]. *)
Definition _is_valid_response_url (value : pystr) (rule : dict json) : res bool :=
  match _validate_response_url value rule with
  | Ok _ => Ok true
  | Err e => if isinst e ValueError then Ok false else Err e
  end.
