(* ===== verification/ManifestGrants.v ===== *)
(** * Grants declared in connector manifests

    sdkpython/src/dex_connectors/sdk/oauthtoken/manifest_refresh.py, [ManifestCredentialRefreshDriver]:
    the selection of an authentication method, the grants it declares, their validation, the values
    they read from credentials, settings and keys, and when a stored credential has to be refreshed.

    A manifest and a grant are JSON objects, as the code holds them; what the code would raise on a
    value of another type is an outcome here too.  Times are instants in microseconds. *)

From S2P Require Import Prelude Json Identity Url OAuth ManifestValues.

(** What a credential attribute holds. *)
Inductive cred_value := Plain (text : pystr) | Secret (text : pystr).
Definition reveal (v : cred_value) : pystr := match v with Plain s | Secret s => s end.

(** A frozen credential dataclass: its attributes. *)
Abbreviation credential := (dict cred_value).

(** ** JSON values of any type *)

(** [value.get] and [value[...]] need an object. *)
Definition mapping (j : json) : res (dict json) :=
  match j with JObj d => Ok d | _ => raise AttributeError "object has no attribute 'get'" end.
Definition subscript (key : pystr) (j : json) : res json :=
  match j with JObj d => item key d | _ => raise TypeError "object is not subscriptable" end.

(** [value or default]. *)
Definition py_or (j default : json) : json := if py_bool j then j else default.

(** Iterating a value. *)
Definition iterate (j : json) : res (list json) :=
  match j with
  | JArr l => Ok l
  | JObj d => Ok (map (λ k, JStr k) (dkeys d))
  | JStr s => Ok (map (λ c, JStr [c]) s)
  | _ => raise TypeError "object is not iterable"
  end.

Definition is_str_of (j : json) (s : string) : bool := match j with JStr t => bool_decide (t = lit s) | _ => false end.
Definition one_of (j : json) (names : list pystr) : bool :=
  match j with JStr t => bool_decide (t ∈ names) | _ => false end.

(** ** The grants of a method *)

(** [policy is not None and policy != "reject"], and the lifetime of a [missingExpiry] object. *)
Definition accepts_missing (policy : json) : bool :=
  match policy with JNull => false | _ => negb (is_str_of policy "reject") end.
Definition missing_lifetime (policy : json) : json :=
  match policy with JObj d => get_or "lifetime" (JStr []) d | _ => JStr [] end.

(** The first mapped refresh token of [credentialMappings]. *)
Fixpoint mapped_refresh (items : list json) : res json :=
  match items with
  | [] => Ok (JStr [])
  | it :: items =>
      d ← mapping it;
      if is_str_of (get "source" d) "refresh_token" then item "credential" d else mapped_refresh items
  end.

(** The grants an [oauth2] method declares; without any, the one its mappings imply. *)
Definition declared_grants (oauth refresh : dict json) : res (list json) :=
  let declared := py_or (get "grants" refresh) (JArr []) in
  if py_bool declared then iterate declared
  else
    let mappings := get_or "credentialMappings" (JArr []) oauth in
    items ← iterate mappings;
    mapped ← mapped_refresh items;
    Ok (if py_bool mapped
        then [JObj [(lit "refreshTokenCredential", mapped); (lit "credentialMappings", mappings)]] else []).

(** The fields all kinds share, of the object [source] that declares the rules. *)
Definition common_fields (source : dict json) (terminal : pystr) : dict json :=
  let policy := get "missingExpiry" source in
  [(lit "response_scopes", get_or "responseScopes" (JStr "check") source);
   (lit "declares_accepted_scope_sets", JBool (dhas "acceptedScopeSets" source));
   (lit "accepted_scope_sets", get "acceptedScopeSets" source);
   (lit "terminal_codes", py_or (get "terminalErrorCodes" source) (JArr [JStr terminal]));
   (lit "scope_separators", get_or "scopeSeparators" (JStr "whitespace") source);
   (lit "accepts_missing_expires_in", JBool (accepts_missing policy));
   (lit "missing_expiry_policy", policy);
   (lit "declares_missing_expiry", JBool (dhas "missingExpiry" source));
   (lit "stored_missing_expiry", get_or "storedMissingExpiry" (JStr "keep") source);
   (lit "missing_expiry", missing_lifetime policy)].

Definition no_scope_rules : dict json :=
  [(lit "response_scope_field", JStr "scope"); (lit "scope_resource_prefix", JStr []);
   (lit "case_insensitive_scopes", JBool false); (lit "scope_resource_prefix_case_insensitive", JBool false);
   (lit "expiry_cap", JStr []); (lit "access_token_jwt_expiry_fallback", JStr []); (lit "exact_scopes", JBool false)].

(** One refresh-token grant. *)
Definition refresh_grant (oauth refresh : dict json) (declared : json) : res (dict json) :=
  endpoint ← item "tokenEndpoint" oauth;
  client_id ← item "clientIDCredential" oauth;
  client_secret ← item "clientSecretCredential" oauth;
  refresh_field ← subscript "refreshTokenCredential" declared;
  mappings ← subscript "credentialMappings" declared;
  grant ← mapping declared;
  Ok ([(lit "kind", JStr "refresh"); (lit "endpoint", endpoint);
       (lit "token_endpoint_network_policy", get_or "tokenEndpointNetworkPolicy" (JStr []) oauth);
       (lit "authentication", get_or "tokenEndpointAuthMethod" (JStr "client_secret_post") oauth);
       (lit "encoding", get_or "tokenRequestEncoding" (JStr "form") oauth);
       (lit "client_id", client_id); (lit "trim_client_id", get_or "trimClientID" (JBool false) refresh);
       (lit "client_secret", client_secret);
       (lit "allows_public_client", get_or "allowsPublicClient" (JBool false) refresh);
       (lit "refresh_field", refresh_field); (lit "mappings", mappings);
       (lit "scopes", if is_str_of (get "grantedScopes" grant) "userScopes" then get_or "userScopes" (JArr []) oauth
                      else get_or "requiredScopes" (get_or "scopes" (JArr []) oauth) refresh);
       (lit "response_url_validation", py_or (get "responseURLValidation" refresh) (JObj []));
       (lit "response_scope_field", get_or "responseScopeField" (JStr "scope") refresh);
       (lit "scope_resource_prefix", get_or "scopeResourcePrefix" (JStr []) refresh);
       (lit "case_insensitive_scopes", get_or "caseInsensitiveScopes" (JBool false) refresh);
       (lit "scope_resource_prefix_case_insensitive", get_or "scopeResourcePrefixCaseInsensitive" (JBool false) refresh);
       (lit "refresh_when_credential_blank", get_or "refreshWhenCredentialBlank" (JStr []) refresh);
       (lit "expiry_cap", get_or "expiryCap" (JStr []) refresh);
       (lit "token_exchange_timeout", get_or "tokenExchangeTimeout" (JStr []) refresh);
       (lit "access_token_jwt_expiry_fallback", get_or "accessTokenJWTExpiryFallback" (JStr []) refresh);
       (lit "accepted_token_types",
        py_or (py_or (get "acceptedTokenTypes" grant) (get "acceptedTokenTypes" refresh)) (JArr [JStr "Bearer"]));
       (lit "exact_scopes", get_or "exactScopes" (get_or "exactScopes" (JBool false) refresh) grant);
       (lit "accepts_missing_token_type",
        get_or "acceptsMissingTokenType" (get_or "acceptsMissingTokenType" (JBool false) refresh) grant);
       (lit "additional", py_or (get "additionalParameters" refresh) (JObj []))]
      ++ common_fields refresh "invalid_grant").

(** The client-credentials grant. *)
Definition client_grant (client : dict json) : res (dict json) :=
  endpoint ← item "tokenEndpoint" client;
  client_id ← item "clientIDCredential" client;
  client_secret ← item "clientSecretCredential" client;
  mappings ← item "credentialMappings" client;
  Ok ([(lit "kind", JStr "client_credentials"); (lit "endpoint", endpoint);
       (lit "token_endpoint_network_policy", JStr []);
       (lit "authentication", get_or "tokenEndpointAuthMethod" (JStr "client_secret_post") client);
       (lit "encoding", get_or "tokenRequestEncoding" (JStr "form") client);
       (lit "client_id", client_id); (lit "trim_client_id", get_or "trimClientID" (JBool false) client);
       (lit "client_secret", client_secret); (lit "mappings", mappings);
       (lit "scopes", get_or "scopes" (JArr []) client); (lit "request_scopes", get_or "scopes" (JArr []) client);
       (lit "response_url_validation", JObj []); (lit "refresh_when_credential_blank", JStr []);
       (lit "token_exchange_timeout", get_or "tokenExchangeTimeout" (JStr []) client);
       (lit "accepted_token_types", py_or (get "acceptedTokenTypes" client) (JArr [JStr "Bearer"]));
       (lit "accepts_missing_token_type", get_or "acceptsMissingTokenType" (JBool false) client);
       (lit "additional", py_or (get "additionalParameters" client) (JObj []))]
      ++ no_scope_rules ++ common_fields client "invalid_client").

(** The JWT-bearer grant. *)
Definition bearer_grant (bearer : dict json) : res (dict json) :=
  endpoint ← item "tokenEndpoint" bearer;
  mappings ← item "credentialMappings" bearer;
  Ok ([(lit "kind", JStr "jwt_bearer"); (lit "endpoint", endpoint); (lit "token_endpoint_network_policy", JStr []);
       (lit "encoding", JStr "form"); (lit "key_credential", get_or "keyCredential" (JStr []) bearer);
       (lit "assertion", JObj bearer); (lit "mappings", mappings);
       (lit "copies", get_or "credentialCopies" (JArr []) bearer); (lit "scopes", get_or "scopes" (JArr []) bearer);
       (lit "response_url_validation", py_or (get "responseURLValidation" bearer) (JObj []));
       (lit "refresh_when_credential_blank", get_or "refreshWhenCredentialBlank" (JStr []) bearer);
       (lit "accepted_token_types", py_or (get "acceptedTokenTypes" bearer) (JArr [JStr "Bearer"]));
       (lit "accepts_missing_token_type", get_or "acceptsMissingTokenType" (JBool false) bearer);
       (lit "additional", JObj [])]
      ++ no_scope_rules ++ common_fields bearer "invalid_grant").

(** [_grants]. *)
Definition _grants (method : dict json) : res (list (dict json)) :=
  let oauth := get "oauth2" method in
  if py_bool oauth then
    oauth ← mapping oauth;
    refresh ← mapping (py_or (get "refresh" oauth) (JObj []));
    declared ← declared_grants oauth refresh;
    mapR (refresh_grant oauth refresh) declared
  else
    let client := get "clientCredentials" method in
    if py_bool client then
      client ← mapping client; grant ← client_grant client; Ok [grant]
    else
      account ← mapping (py_or (get "serviceAccount" method) (JObj []));
      let bearer := get "jwtBearer" account in
      if py_bool bearer then bearer ← mapping bearer; grant ← bearer_grant bearer; Ok [grant]
      else Ok [].

(** ** The driver *)

(** [any] and [all] stop at the first decisive element. *)
Fixpoint any_res {A} (f : A → res bool) (l : list A) : res bool :=
  match l with
  | [] => Ok false
  | x :: l => b ← f x; if b : bool then Ok true else any_res f l
  end.
Fixpoint all_res {A} (f : A → res bool) (l : list A) : res bool :=
  match l with
  | [] => Ok true
  | x :: l => b ← f x; if b : bool then all_res f l else Ok false
  end.

(** [text.split()], with the word being read. *)
Fixpoint split_space (word : pystr) (s : pystr) : list pystr :=
  match s with
  | [] => if truthy word then [word] else []
  | c :: s => if py_isspace c then (if truthy word then [word] else []) ++ split_space [] s else split_space (word ++ [c]) s
  end.

(** The names of [re.finditer(r"\{([^{}]+)\}", template)]. *)
Definition brace (c : N) : bool := (c =? 123)%N || (c =? 125)%N.
Fixpoint placeholders (s : pystr) : list pystr :=
  match s with
  | [] => []
  | c :: r =>
      if (c =? 123)%N then
        let '(name, rest) := JsonText.span (λ c, negb (brace c)) r in
        if truthy name && JsonText.head_is 125 rest then name :: placeholders r else placeholders r
      else placeholders r
  end.

(** A driver: the Unicode database, regular expressions and [str] of a value that is no string, which
    it uses, and what it was constructed with. *)
Class Driver := {
  unicode_decimal : N → option N;
  lower : pystr → pystr;
  pattern_compiles : pystr → bool;
  pattern_matches : pystr → pystr → bool;
  str_of : json → pystr;
  _provider_name : pystr;
  _auth : dict json;
  _fields : dict pystr;
  _settings : dict json
}.

Section Driver.
Context {driver : Driver}.

#[local] Abbreviation parse_duration := (_parse_duration unicode_decimal).

Definition py_str (j : json) : pystr := match j with JStr s => s | JInt z => str_of_Z z | _ => str_of j end.

(** A key of a dictionary. *)
Definition key_of (j : json) : res (option pystr) :=
  match j with
  | JStr s => Ok (Some s)
  | JArr _ | JObj _ => raise TypeError "unhashable type"
  | _ => Ok None
  end.

Definition field_of (name : json) : res pystr :=
  k ← key_of name;
  match k with
  | Some k => match dget k _fields with Some f => Ok f | None => raise KeyError k end
  | None => raise KeyError (str_of name)
  end.
Definition in_fields (name : json) : res bool :=
  k ← key_of name; Ok match k with Some k => dhas k _fields | None => false end.

(** [_credential_value]. *)
Definition _credential_value (credentials : credential) (name : json) : res pystr :=
  field ← field_of name;
  Ok match dget field credentials with Some v => reveal v | None => [] end.

(** [self._settings.get(name, default)]. *)
Definition setting (name : json) (default : json) : res json :=
  k ← key_of name;
  Ok match k with Some k => get_or k default _settings | None => default end.

Fixpoint secret_among (items : list json) (name : pystr) : res bool :=
  match items with
  | [] => Ok false
  | field :: items =>
      d ← mapping field;
      if py_eq (get "name" d) (JStr name) then Ok (is_str_of (get "type" d) "secretString") else secret_among items name
  end.

(** [_is_secret]. *)
Definition _is_secret (method : dict json) (name : pystr) : res bool :=
  items ← iterate (py_or (get "fields" method) (JArr [])); secret_among items name.

(** The method of an identifier. *)
Fixpoint find_method (methods : list json) (id : json) : res (dict json) :=
  match methods with
  | [] => reauthorize
  | m :: methods =>
      d ← mapping m;
      if py_eq (get "id" d) id then Ok d else find_method methods id
  end.

(** [_selected_method]. *)
Definition _selected_method (credentials : credential) : res (dict json) :=
  let methods := py_or (get "methods" _auth) (JArr []) in
  if negb (py_bool methods) then Ok _auth
  else
    match dget "auth_method_id" credentials with
    | None => raise ValueError "multi-method credentials require auth_method_id"
    | Some (Secret _) => reauthorize
    | Some (Plain s) =>
        items ← iterate methods;
        find_method items (if truthy s then JStr s else get_or "defaultMethod" (JStr []) _auth)
    end.

(** ** Values *)

(** One placeholder of a template. *)
Definition placeholder_value (credentials : credential) (rules : json) (name : pystr) : res pystr :=
  raw ← (if dhas name _fields then _credential_value credentials (JStr name)
         else v ← setting (JStr name) (JStr []); Ok (py_str v));
  rules ← mapping rules;
  value ← _apply_template_value_rule lower pattern_compiles pattern_matches raw (get_or name (JObj []) rules);
  quote_value value.

Definition in_braces (name : pystr) : pystr := [123%N] ++ name ++ [125%N].

Fixpoint fill_template (credentials : credential) (rules : json) (names : list pystr) (template : pystr) : res pystr :=
  match names with
  | [] => Ok template
  | name :: names =>
      value ← placeholder_value credentials rules name;
      fill_template credentials rules names (py_replace (in_braces name) value template)
  end.

(** [source["values"][value]]. *)
Definition mapped_value (values value : json) : res pystr :=
  match values with
  | JObj vs =>
      k ← key_of value;
      match k with
      | Some k => match dget k vs with Some v => Ok (py_str v) | None => reauthorize end
      | None => reauthorize
      end
  | _ =>
      present ← py_in (py_str value) values;
      if present : bool then raise TypeError "indices must be integers or slices" else reauthorize
  end.

Definition source_keys : list pystr :=
  [lit "value"; lit "fromCredential"; lit "fromSetting"; lit "fromKey"; lit "template"].

(** [_resolve_source]. *)
Definition _resolve_source (source : json) (credentials : credential) (key : dict json) : res pystr :=
  match source with
  | JStr s => Ok s
  | JObj d =>
      if dhas "value" d then v ← item "value" d; Ok (py_str v)
      else if negb (dhas "fromCredential" d) && negb (dhas "fromSetting" d) && negb (dhas "fromKey" d) then
        if dhas "template" d then
          template ← item "template" d;
          let text := py_str template in
          fill_template credentials (get_or "templateValueRules" (JObj []) d) (placeholders text) text
        else reauthorize
      else
        value ← (if dhas "fromCredential" d then s ← _credential_value credentials (get "fromCredential" d); Ok (JStr s)
                 else if dhas "fromSetting" d then v ← setting (get "fromSetting" d) (JStr []); Ok (JStr (py_str v))
                 else k ← key_of (get "fromKey" d);
                      Ok match k with Some k => get_or k (JStr []) key | None => JStr [] end);
        if dhas "values" d then mapped_value (get "values" d) value
        else if negb (py_bool value) then reauthorize else Ok (py_str value)
  | JArr l =>
      if existsb (λ j, one_of j source_keys) l then raise TypeError "list indices must be integers or slices, not str"
      else reauthorize
  | _ => raise TypeError "argument is not iterable"
  end.

(** [_resolve_assertion_source]. *)
Definition _resolve_assertion_source (source : json) (assertion : dict json) (credentials : credential) (key : dict json)
    : res pystr :=
  value ← _resolve_source source credentials key;
  match source with
  | JObj d =>
      trimmed ← match get "fromCredential" d with
                | JStr name => py_in name (get_or "trimSpaceSources" (JArr []) assertion)
                | _ => Ok false
                end;
      if trimmed : bool then
        let value := _trim_go_space value in if truthy value then Ok value else reauthorize
      else Ok value
  | _ => Ok value
  end.

(** [_scopes]. *)
Definition _scopes (source : json) : res (list pystr) :=
  match source with
  | JArr l => Ok (map py_str l)
  | JObj d =>
      if dhas "fromSetting" d
      then v ← setting (get "fromSetting" d) (JStr []); Ok (split_space [] (py_str v)) else Ok []
  | _ => Ok []
  end.

(** [_parse_duration] of a manifest value. *)
Definition duration_of (j : json) : res Z :=
  match j with
  | JStr s => parse_duration s
  | _ => if py_bool j then raise AttributeError "object has no attribute 'startswith'" else Ok 0%Z
  end.

(** [_token_exchange_timeout_seconds]. *)
Definition timeout_invalid {A} : res A :=
  raise ValueError "manifest tokenExchangeTimeout must resolve to a positive duration at most 1h".

Definition _token_exchange_timeout_seconds (declaration : json) : res (option pyfloat) :=
  if match declaration with JNull => true | JStr [] => true | _ => false end then Ok None
  else
    declaration ← match declaration with
                  | JObj [(k, name)] => if bool_decide (k = lit "fromSetting") then setting name JNull else Ok declaration
                  | _ => Ok declaration
                  end;
    seconds ← match declaration with
              | JInt n =>
                  let f := round_ratio n 1000000000 in
                  if fle (FFin (2 ^ 1024) 0) f || fle f (FFin (- 2 ^ 1024) 0)
                  then raise OverflowError "integer division result too large for a float" else Ok f
              | JStr s => us ← parse_duration s; Ok (total_seconds us)
              | _ => Ok (FFin 0 0)
              end;
    if flt (FFin 0 0) seconds && fle seconds (f_of_Z 3600) then Ok (Some seconds) else timeout_invalid.

(** ** Validation *)

(** [_validate_stored_missing_expiry]. *)
Definition stored_rules : list pystr := [lit "refresh"; lit "keep"; lit "refreshIfRefreshTokenPresent"].
Definition _validate_stored_missing_expiry (grant : dict json) : res unit :=
  rule ← item "stored_missing_expiry" grant;
  raise_if (negb (one_of rule stored_rules)) ValueError "manifest storedMissingExpiry must be refresh or keep".

Definition unmapped {A} : res A := raise ValueError "manifest credential field is not mapped".

(** [_validate_grant]. *)
Definition _validate_grant (grant : dict json) : res unit :=
  _validate_stored_missing_expiry grant ≫= λ _,
  mappings ← item "mappings" grant;
  items ← iterate mappings;
  for_each (λ it, d ← mapping it;
                  if negb (py_bool (get "source" d)) then unmapped
                  else ok ← in_fields (get "credential" d); if ok : bool then Ok () else unmapped) items ≫= λ _,
  copies ← iterate (get_or "copies" (JArr []) grant);
  for_each (λ it, d ← mapping it;
                  ok ← in_fields (get "credential" d);
                  if negb ok then unmapped
                  else ok ← in_fields (get "fromCredential" d); if ok : bool then Ok () else unmapped) copies ≫= λ _,
  let missing := get_or "missing_expiry" (JStr []) grant in
  (if py_bool missing then
     lifetime ← duration_of missing;
     raise_if (lifetime <=? 0)%Z ValueError "manifest grant duration must be positive"
   else Ok ()) ≫= λ _,
  kind ← item "kind" grant;
  if is_str_of kind "jwt_bearer" then
    assertion ← item "assertion" grant;
    lifetime ← subscript "lifetime" assertion;
    us ← duration_of lifetime;
    raise_if (us <? 1000)%Z ValueError "manifest JWT assertion lifetime must be at least one millisecond"
  else Ok ().

(** The endpoint's template value rules. *)
Definition validate_endpoint (endpoint : json) : res unit :=
  match endpoint with
  | JObj d =>
      if dhas "templateValueRules" d then
        match get "templateValueRules" d with
        | JObj rules => for_each (λ kv, _validate_template_value_rule pattern_compiles (snd kv)) rules
        | _ => raise ValueError "manifest template value rules are invalid"
        end
      else Ok ()
  | _ => Ok ()
  end.

Definition url_rule_keys : list pystr :=
  [lit "credential"; lit "allowedHosts"; lit "allowedHostSuffix"; lit "allowAnyHTTPS"; lit "allowLoopback";
   lit "forbidPort"; lit "requireResponse"; lit "refreshWhenInvalid"; lit "defaultURL"].

(** The response URL rule: its keys, and the mapped credential it names. *)
Definition validate_url_shape (rule : json) : res unit :=
  match rule with
  | JObj d => raise_if (existsb (λ k, negb (bool_decide (k ∈ url_rule_keys))) (dkeys d))
                ValueError "manifest responseURLValidation field is invalid"
  | _ => raise ValueError "manifest responseURLValidation field is invalid"
  end.

Definition url_unmapped {A} : res A := raise ValueError "manifest responseURLValidation credential is not mapped".

Definition validate_url_credential (rule mappings : json) : res unit :=
  if negb (py_bool rule) then Ok ()
  else
    d ← mapping rule;
    match get "credential" d with
    | JStr name =>
        if negb (dhas name _fields) then url_unmapped
        else
          items ← iterate mappings;
          found ← any_res (λ it, m ← mapping it; Ok (py_eq (get "credential" m) (JStr name))) items;
          if found : bool then Ok () else url_unmapped
    | _ => url_unmapped
    end.

Definition positive_duration (name : string) (message : pystr) (grant : dict json) : res unit :=
  declared ← item name grant;
  if py_bool declared then us ← duration_of declared; raise_if (us <=? 0)%Z ValueError message else Ok ().

Definition expect (name : string) (values : list pystr) (message : pystr) (grant : dict json) : res unit :=
  v ← item name grant; raise_if (negb (one_of v values)) ValueError message.

(** The [missingExpiry] policy. *)
Definition validate_missing_expiry (grant : dict json) : res unit :=
  declared ← item "declares_missing_expiry" grant;
  let policy := get "missing_expiry_policy" grant in
  if negb (py_bool declared) || one_of policy [lit "reject"; lit "keep"] then Ok ()
  else
    let bad := raise ValueError "manifest missingExpiry must be reject, keep, or a positive lifetime" in
    match policy with
    | JObj [(k, JStr lifetime)] =>
        if negb (bool_decide (k = lit "lifetime")) then bad
        else us ← parse_duration lifetime; if (0 <? us)%Z then Ok () else bad
    | _ => bad
    end.

Definition scope_sets_ok (sets : json) : bool :=
  match sets with
  | JArr (_ :: _ as l) =>
      forallb (λ set, match set with
                      | JArr (_ :: _ as scopes) => forallb (λ s, match s with JStr t => truthy t | _ => false end) scopes
                      | _ => false
                      end) l
  | _ => false
  end.

Definition validate_scope_sets (grant : dict json) : res unit :=
  kind ← item "kind" grant;
  declares ← item "declares_accepted_scope_sets" grant;
  raise_if (is_str_of kind "client_credentials" && py_bool declares)
    ValueError "manifest clientCredentials does not support acceptedScopeSets" ≫= λ _,
  raise_if (py_bool declares && negb (scope_sets_ok (get "accepted_scope_sets" grant)))
    ValueError "manifest acceptedScopeSets is invalid".

Definition validate_subject (grant : dict json) : res unit :=
  kind ← item "kind" grant;
  if is_str_of kind "jwt_bearer" then
    assertion ← item "assertion" grant;
    assertion ← mapping assertion;
    let declared := dhas "subjectValidation" assertion in
    raise_if (declared && negb (is_str_of (get "subjectValidation" assertion) "goMailAddress"))
      ValueError "manifest subjectValidation is invalid" ≫= λ _,
    raise_if (declared && negb (py_bool (get "subject" assertion)))
      ValueError "manifest subjectValidation requires a subject"
  else Ok ().

(** [_validate_new_declarations]. *)
Definition _validate_new_declarations (grant : dict json) : res unit :=
  endpoint ← item "endpoint" grant;
  validate_endpoint endpoint ≫= λ _,
  rule ← item "response_url_validation" grant;
  mappings ← item "mappings" grant;
  validate_url_shape rule ≫= λ _,
  blank ← item "refresh_when_credential_blank" grant;
  (if py_bool blank then
     ok ← in_fields blank;
     raise_if (negb ok) ValueError "manifest refreshWhenCredentialBlank field is not mapped"
   else Ok ()) ≫= λ _,
  validate_url_credential rule mappings ≫= λ _,
  expect "token_endpoint_network_policy" [[]; lit "privateNetworkHTTP"]
    "manifest tokenEndpointNetworkPolicy is invalid" grant ≫= λ _,
  expect "response_scope_field" [lit "scope"; lit "scopesArray"] "manifest responseScopeField is invalid" grant ≫= λ _,
  expect "scope_resource_prefix" [[]; lit "https://graph.microsoft.com/"] "manifest scopeResourcePrefix is invalid" grant
    ≫= λ _,
  positive_duration "access_token_jwt_expiry_fallback" "manifest accessTokenJWTExpiryFallback must be positive" grant
    ≫= λ _,
  positive_duration "expiry_cap" "manifest expiryCap must be positive" grant ≫= λ _,
  _token_exchange_timeout_seconds (get "token_exchange_timeout" grant) ≫= λ _,
  expect "response_scopes" [lit "check"; lit "ignore"] "manifest responseScopes must be check or ignore" grant ≫= λ _,
  validate_missing_expiry grant ≫= λ _,
  expect "scope_separators" [lit "whitespace"; lit "whitespaceAndComma"] "manifest scopeSeparators is invalid" grant
    ≫= λ _,
  validate_scope_sets grant ≫= λ _,
  validate_subject grant.

(** [__init__]: every grant of every method is checked. *)
Definition check_method (method : json) : res unit :=
  method ← mapping method;
  grants ← _grants method;
  for_each (λ grant, _validate_stored_missing_expiry grant ≫= λ _, _validate_new_declarations grant) grants.

Definition new_driver : res unit :=
  raise_if (negb (truthy _provider_name) || negb (py_bool (JObj _auth)) || match _fields with [] => true | _ => false end)
    ValueError "manifest refresh configuration and HTTP client are required" ≫= λ _,
  methods ← iterate (py_or (get "methods" _auth) (JArr [JObj _auth]));
  for_each check_method methods.

(** ** When a stored credential is refreshed *)

(** [str(mapping["credential"])] of the mappings whose source is the access token. *)
Fixpoint access_of (items : list json) : res (list pystr) :=
  match items with
  | [] => Ok []
  | it :: items =>
      source ← subscript "source" it;
      here ← (if py_eq source (JStr "access_token") then c ← subscript "credential" it; Ok [py_str c] else Ok []);
      rest ← access_of items; Ok (here ++ rest)
  end.
Definition access_fields (grants : list (dict json)) : res (list pystr) :=
  names ← mapR (λ grant, mappings ← item "mappings" grant; items ← iterate mappings; access_of items) grants;
  Ok (List.concat names).

Definition has_value (credentials : credential) (name : json) : res bool :=
  v ← _credential_value credentials name; Ok (truthy v).

Definition stored_rule_is (rule : string) (grant : dict json) : res bool :=
  v ← item "stored_missing_expiry" grant; Ok (py_eq v (JStr rule)).

(** A credential that must not be blank is. *)
Definition blank_credential (credentials : credential) (grant : dict json) : res bool :=
  let name := get "refresh_when_credential_blank" grant in
  if py_bool name then filled ← has_value credentials name; Ok (negb filled) else Ok false.

(** A stored response URL no longer satisfies its rule. *)
Definition invalid_stored_url (credentials : credential) (grant : dict json) : res bool :=
  rule ← item "response_url_validation" grant;
  rule ← mapping rule;
  if py_bool (get "refreshWhenInvalid" rule) then
    name ← item "credential" rule;
    value ← _credential_value credentials name;
    valid ← _is_valid_response_url value rule; Ok (negb valid)
  else Ok false.

(** A refresh token is stored beside an undated access token. *)
Definition undated_with_refresh_token (credentials : credential) (grant : dict json) : res bool :=
  listed ← stored_rule_is "refreshIfRefreshTokenPresent" grant;
  if listed : bool then has_value credentials (get_or "refresh_field" (JStr []) grant) else Ok false.

(** The expiry of the stored access token's own claims. *)
Definition claimed_expiry (credentials : credential) (grants : list (dict json)) (access : list pystr) : res (option Z) :=
  match List.find (λ grant, py_bool (get "access_token_jwt_expiry_fallback" grant)) grants, access with
  | Some _, name :: _ =>
      token ← _credential_value credentials (JStr name);
      seconds ← _read_jwt_expiry_seconds token;
      Ok (option_map (λ s, s * 1000000)%Z seconds)
  | _, _ => Ok None
  end.

(** [refresh_required]. *)
Definition refresh_required (credentials : credential) (expires_at : option Z) (now : Z) : res bool :=
  method ← _selected_method credentials;
  grants ← _grants method;
  match grants with
  | [] => Ok false
  | _ =>
      access ← access_fields grants;
      has_access ← (match access with
                    | [] => Ok false
                    | _ => all_res (λ name, has_value credentials (JStr name)) access
                    end);
      refresh ← any_res (stored_rule_is "refresh") grants;
      blank ← any_res (blank_credential credentials) grants;
      if blank : bool then Ok true
      else
        stale ← any_res (invalid_stored_url credentials) grants;
        if stale : bool then Ok true
        else
          undated ← any_res (undated_with_refresh_token credentials) grants;
          let rule := if (refresh : bool) || (undated : bool) then REFRESH_WHEN_EXPIRY_MISSING
                      else KEEP_WHEN_EXPIRY_MISSING in
          expiry ← match expires_at with
                   | Some e => Ok (Some e)
                   | None => claimed_expiry credentials grants access
                   end;
          Ok (is_refresh_required has_access expiry now rule None)
  end.

End Driver.
