(* ===== verification/JwtBearer.v ===== *)
(** * JWT-bearer assertions

    sdkpython/src/dex_connectors/sdk/oauthtoken/__init__.py, [JWTBearerAssertion],
    [parse_rsa_private_key_pem] and [sign_jwt_bearer_assertion].  Loading a PEM key and the RSA
    signature are parameters; times are instants in microseconds. *)

From Stdlib Require Import ZifyBool.
From S2P Require Import Prelude Json JsonText Retry Identity StructuredOutput ProjectModels JsonDumps CanonicalJson Base64 ManifestValues.

Record JWTBearerAssertion := mkAssertion {
  issuer : pystr;
  audience : pystr;
  issued_at : Z;
  lifetime : Z;
  subject : pystr;
  assertion_scope : pystr
}.

(** The instants a datetime can hold, and the sum of an instant and a duration. *)
Definition datetime_min : Z := -62135596800000000.
Definition datetime_max : Z := 253402300799999999.
Definition datetime_add (instant duration : Z) : res Z :=
  let t := (instant + duration)%Z in
  if ((datetime_min <=? t) && (t <=? datetime_max))%Z then Ok t else raise OverflowError "date value out of range".

(** [int(instant.timestamp())]. *)
Definition timestamp (instant : Z) : res Z := int_of_float (total_seconds instant).

Section Keys.
(** [load_pem_private_key]: an RSA key, a key of another kind, or its refusal; and [private_key.sign]. *)
Context {key : Type} (load_pem_private_key : list N → option (option key)) (rsa_sign : key → list N → list N).

(** [parse_rsa_private_key_pem]. *)
Definition parse_rsa_private_key_pem (pem_text : pystr) : res key :=
  match CallID.encode pem_text with
  | Ok bytes =>
      match load_pem_private_key bytes with
      | Some (Some k) => Ok k
      | Some None => raise ValueError "private key must use RSA"
      | None => raise ValueError "private key is invalid"
      end
  | Err _ => raise ValueError "private key is invalid"
  end.

(** The claims, their names sorted. *)
Definition assertion_claims (a : JWTBearerAssertion) (expiry issued : Z) : json :=
  JObj ([(lit "aud", JStr (audience a)); (lit "exp", JInt expiry); (lit "iat", JInt issued); (lit "iss", JStr (issuer a))]
        ++ (if truthy (assertion_scope a) then [(lit "scope", JStr (assertion_scope a))] else [])
        ++ (if truthy (subject a) then [(lit "sub", JStr (subject a))] else [])).

Definition assertion_header : json := JObj [(lit "alg", JStr "RS256"); (lit "typ", JStr "JWT")].

(** [encode]. *)
Definition encode_segment (value : json) : res pystr :=
  text ← dumps_ascii "," ":" true value; Ok (urlsafe_b64encode text).

(** [sign_jwt_bearer_assertion]. *)
Definition sign_jwt_bearer_assertion (a : JWTBearerAssertion) (private_key : key) : res pystr :=
  raise_if (negb (truthy (issuer a)) || negb (truthy (audience a)) || (lifetime a <=? 0)%Z)
    ValueError "JWT-bearer assertion claims are incomplete" ≫= λ _,
  expires_at ← datetime_add (issued_at a) (lifetime a);
  expiry ← timestamp expires_at;
  issued ← timestamp (issued_at a);
  header ← encode_segment assertion_header;
  claims ← encode_segment (assertion_claims a expiry issued);
  let unsigned := header ++ "." ++ claims in
  Ok (unsigned ++ "." ++ urlsafe_b64encode (rsa_sign private_key unsigned)).

End Keys.

(** ** What is signed is read back *)

Module JwtFacts.
Import CanonicalFacts Base64Facts.

(** *** Nesting of encoded documents *)

Definition opened (d : nat) : depth_state := mkDepth d false false.
Definition quoted_at (d : nat) : depth_state := mkDepth d true false.

Lemma depth_loop_app s a b : depth_loop s (a ++ b) = s' ← depth_loop s a; depth_loop s' b.
Proof. revert s. induction a as [|x a IH]; intros s; [done|]. cbn [app depth_loop]. destruct (depth_step s x); [apply IH|done]. Qed.

Lemma quoted_plain d c : (c =? 34)%N = false → (c =? 92)%N = false → depth_step (quoted_at d) c = Some (quoted_at d).
Proof.
  intros H1 H2. unfold depth_step, quoted_at. cbn [in_string escaped].
  change 0x5C%N with 92%N. change 0x22%N with 34%N. by rewrite H1, H2.
Qed.

Lemma quoted_run d s : forallb (λ c, negb (c =? 34)%N && negb (c =? 92)%N) s = true →
  depth_loop (quoted_at d) s = Some (quoted_at d).
Proof.
  induction s as [|c s IH]; [done|]. cbn [forallb depth_loop]. intros [[H1%negb_true_iff H2%negb_true_iff]%andb_prop Hs]%andb_prop.
  by rewrite quoted_plain, IH.
Qed.

Lemma hex4_unquoted c : forallb (λ c, negb (c =? 34)%N && negb (c =? 92)%N) (hex4 c) = true.
Proof.
  unfold hex4. generalize [c / 4096; (c / 256) mod 16; (c / 16) mod 16; c mod 16]%N as l. intros l.
  induction l as [|n l IHl]; [done|]. cbn [map forallb]. rewrite IHl, andb_true_r. destruct (n <? 10)%N eqn:?; lia.
Qed.

Lemma escape_step d e : depth_loop (quoted_at d) [92; e]%N = Some (quoted_at d).
Proof. done. Qed.

Lemma quoted_char d c : scalar c = true → depth_loop (quoted_at d) (ascii_char c) = Some (quoted_at d).
Proof.
  intros Hc. destruct (ascii_char_cases c Hc) as [(e & -> & _)|[(-> & H1 & H2 & _)|[[-> _]|(high & low & -> & _)]]].
  - apply escape_step.
  - apply quoted_run. cbn [forallb]. by rewrite H1, H2.
  - rewrite depth_loop_app, escape_step. cbn [mbind option_bind]. by rewrite quoted_run by apply hex4_unquoted.
  - rewrite depth_loop_app, escape_step. cbn [mbind option_bind].
    rewrite depth_loop_app, (quoted_run d (hex4 high)) by apply hex4_unquoted. cbn [mbind option_bind].
    rewrite depth_loop_app, escape_step. cbn [mbind option_bind]. by rewrite quoted_run by apply hex4_unquoted.
Qed.

Lemma depth_string d s : forallb scalar s = true → depth_loop (opened d) (ascii_string s) = Some (opened d).
Proof.
  intros Hs. unfold ascii_string. rewrite depth_loop_app. change (depth_loop (opened d) [34%N]) with (Some (quoted_at d)).
  cbn [mbind option_bind]. rewrite depth_loop_app.
  assert (depth_loop (quoted_at d) (flat_map ascii_char s) = Some (quoted_at d)) as ->; [|done].
  induction s as [|c s IH]; [done|]. cbn [flat_map forallb] in *. apply andb_prop in Hs as [Hc Hs].
  rewrite depth_loop_app, quoted_char by done. cbn [mbind option_bind]. by apply IH.
Qed.

Lemma depth_digits d z : depth_loop (opened d) (str_of_Z z) = Some (opened d).
Proof.
  assert (Hd : ∀ s, forallb is_digit s = true → depth_loop (opened d) s = Some (opened d)).
  { induction s as [|c s IH]; [done|]. cbn [forallb depth_loop]. intros [Hc Hs]%andb_prop.
    assert (depth_step (opened d) c = Some (opened d)) as ->; [|by apply IH].
    unfold depth_step, opened, is_digit, in_range in *. cbn [in_string].
    by repeat (replace (_ =? _)%N with false by lia). }
  rewrite str_of_Z_sign, depth_loop_app. assert (depth_loop (opened d) (if (z <? 0)%Z then [45%N] else []) = Some (opened d)) as ->
    by by destruct (z <? 0)%Z.
  cbn [mbind option_bind]. apply Hd. destruct (str_of_Z_abs_shape z) as [->|(c & s & -> & Hc & Hs)]; [done|].
  cbn [forallb]. rewrite Hs, andb_true_r. unfold is_digit, in_range. lia.
Qed.

(** An object of strings and integers opens and closes once. *)
Definition flat (v : json) : bool := match v with JStr s => forallb scalar s | JInt _ => true | _ => false end.

#[local] Abbreviation ascii_member := (text_member ascii_char (float_text true)).

Lemma depth_member d kv m : forallb scalar (fst kv) = true → flat (snd kv) = true → ascii_member kv = Ok m →
  depth_loop (opened d) m = Some (opened d).
Proof.
  destruct kv as [k v]. cbn [fst snd]. intros Hk Hv H. unfold text_member in H. cbn [fst snd] in H.
  apply bind_Ok in H as (t & Ht & H). apply Ok_inj in H as <-.
  change (text_string ascii_char k) with (ascii_string k). rewrite depth_loop_app, depth_string by done. cbn [mbind option_bind].
  rewrite depth_loop_app. change (depth_loop (opened d) (lit ":")) with (Some (opened d)). cbn [mbind option_bind].
  destruct v as [| |z| |s| |]; try done.
  - cbn [text_of] in Ht. apply bind_Ok in Ht as (_ & _ & Ht). apply Ok_inj in Ht as <-. apply depth_digits.
  - apply Ok_inj in Ht as <-. by apply depth_string.
Qed.

Lemma depth_members d (o : dict json) ms : forallb (λ kv, forallb scalar (fst kv) && flat (snd kv)) o = true →
  mapR ascii_member o = Ok ms → depth_loop (opened d) (join "," ms) = Some (opened d).
Proof.
  revert ms. induction o as [|kv o IH]; intros ms Hf H; cbn [mapR forallb] in *; [by apply Ok_inj in H as <-|].
  apply andb_prop in Hf as [[Hk Hv]%andb_prop Hf]. apply bind_Ok in H as (m & Hm & H). apply bind_Ok in H as (ms' & Hms & H).
  apply Ok_inj in H as <-. rewrite join_cons, depth_loop_app, (depth_member _ _ _ Hk Hv Hm). cbn [mbind option_bind].
  destruct ms' as [|m' ms']; [done|]. rewrite depth_loop_app.
  change (depth_loop (opened d) (lit ",")) with (Some (opened d)). cbn [mbind option_bind]. by apply IH.
Qed.

Lemma flat_readable (o : dict json) : NoDup (dkeys o) → forallb (λ kv, forallb scalar (fst kv) && flat (snd kv)) o = true →
  readable scalar (JObj o) = true.
Proof.
  intros Hn Hf. cbn [readable]. rewrite bool_decide_eq_true_2 by done. cbn [andb]. rewrite forallb_forall in *.
  intros kv Hkv. specialize (Hf kv Hkv). apply andb_prop in Hf as [-> Hv]. by destruct (snd kv).
Qed.

(** The text of a flat object is shallow JSON that reads back. *)
Lemma flat_text (o : dict json) t : NoDup (dkeys o) → forallb (λ kv, forallb scalar (fst kv) && flat (snd kv)) o = true →
  dumps_ascii "," ":" true (JObj o) = Ok t →
  loads_bytes t = Ok (JObj o) ∧ Forall (λ b, (b < 256)%N) t ∧
  ((Z.of_nat (length t) <= 16384)%Z → _has_bounded_json_depth t = true).
Proof.
  intros Hn Hf Ht. pose proof (flat_readable o Hn Hf) as Hr.
  destruct (loads_ascii true (JObj o) t Hr Ht) as [_ Hb]. split; [done|split].
  - pose proof (ascii_bytes _ _ _ Hr Ht) as Hb'. rewrite forallb_forall in Hb'. apply Forall_forall.
    intros x Hx%list_elem_of_In. specialize (Hb' x Hx). lia.
  - intros Hl. rewrite ascii_text, text_obj in Ht. apply bind_Ok in Ht as (ms & Hms & Ht). apply Ok_inj in Ht as <-.
    unfold _has_bounded_json_depth. apply andb_true_intro. split; [lia|].
    change (mkDepth 0 false false) with (opened 0). rewrite depth_loop_app.
    change (depth_loop (opened 0) (lit "{")) with (Some (opened 1)). cbn [mbind option_bind].
    by rewrite depth_loop_app, (depth_members 1 o ms Hf Hms).
Qed.

(** *** Tokens *)

Lemma b64_no_dot s : forallb b64_char s = true → 46%N ∉ s.
Proof.
  intros Hs Hin. rewrite forallb_forall in Hs. by specialize (Hs 46%N (proj1 (list_elem_of_In _ _) Hin)).
Qed.

Lemma b64_ascii s : forallb b64_char s = true → forallb (λ c, (c <? 128)%N) s = true.
Proof.
  rewrite !forallb_forall. intros Hs c Hc. specialize (Hs c Hc). unfold b64_char, is_alnum, is_alpha, is_upper, is_lower,
    is_digit, in_range in Hs. lia.
Qed.

Lemma segment_kept s : forallb b64_char s = true →
  drop_while segment_char s = [] ∧ drop_while_end (λ c, (c =? 61)%N) s = s ∧
  List.filter (λ c, negb ((c =? 13)%N || (c =? 10)%N)) s = s.
Proof.
  intros Hs. assert (Hall : ∀ c, In c s → segment_char c = true ∧ (c =? 61)%N = false ∧ (c =? 13)%N = false ∧ (c =? 10)%N = false).
  { rewrite forallb_forall in Hs. intros c Hc. specialize (Hs c Hc). unfold b64_char, is_alnum, is_alpha, is_upper, is_lower,
      is_digit, in_range in Hs. unfold segment_char, is_alnum, is_alpha, is_upper, is_lower, is_digit, in_range. lia. }
  split; [|split].
  - apply drop_while_all, forallb_forall. intros c Hc. by apply Hall.
  - unfold drop_while_end. rewrite drop_while_id; [apply rev_involutive|]. intros c r Hc.
    apply Hall. rewrite in_rev, Hc. by left.
  - clear Hs. induction s as [|c s IH]; [done|]. cbn [List.filter]. destruct (Hall c ltac:(by left)) as (_ & _ & -> & ->).
    cbn [orb negb]. f_equal. apply IH. intros x Hx. apply Hall. by right.
Qed.

(** A segment of a flat object decodes to the object. *)
Lemma segment_reads (o : dict json) segment : NoDup (dkeys o) →
  forallb (λ kv, forallb scalar (fst kv) && flat (snd kv)) o = true → encode_segment (JObj o) = Ok segment →
  forallb b64_char segment = true ∧ ∃ payload, urlsafe_b64decode segment = Some payload ∧ loads_bytes payload = Ok (JObj o) ∧
    (length payload <= length segment)%nat ∧ ((Z.of_nat (length payload) <= 16384)%Z → _has_bounded_json_depth payload = true).
Proof.
  intros Hn Hf H. unfold encode_segment in H. apply bind_Ok in H as (t & Ht & H). apply Ok_inj in H as <-.
  split; [apply encode_chars|]. destruct (flat_text o t Hn Hf Ht) as (Hl & Hb & Hd).
  exists t. split; [by apply decode_encode|]. split; [done|]. split; [apply encode_longer|done].
Qed.

(** The expiry that is read from a token of three segments whose middle one decodes to claims. *)
Lemma expiry_of_claims header segment signature payload claims :
  let token := header ++ lit "." ++ segment ++ lit "." ++ signature in
  forallb b64_char header = true → forallb b64_char segment = true → forallb b64_char signature = true →
  urlsafe_b64decode segment = Some payload → loads_bytes payload = Ok (JObj claims) →
  (length payload <= length segment)%nat →
  ((Z.of_nat (length payload) <= 16384)%Z → _has_bounded_json_depth payload = true) →
  split_char 46 token = [header; segment; signature] ∧
  _read_jwt_expiry_seconds token =
    if (16384 <? Z.of_nat (length token))%Z then Ok None else Ok (expiry_claim (JObj claims)).
Proof.
  intros token Hch Hcc Hcs Hdec Hload Hlen Hdepth.
  assert (Hsplit : split_char 46 token = [header; segment; signature]).
  { unfold token. change (lit ".") with [46%N]. cbn [app]. by rewrite !split_char_at, split_char_none by by apply b64_no_dot. }
  split; [done|].
  assert (Hutf : CallID.encode token = Ok token).
  { unfold CallID.encode. rewrite utf8_ascii; [done|]. unfold token. rewrite !forallb_app, (b64_ascii header), (b64_ascii segment), (b64_ascii signature) by done. done. }
  destruct (segment_kept segment Hcc) as (K1 & K2 & K3).
  unfold _read_jwt_expiry_seconds. rewrite Hutf, Hsplit.
  replace (negb (truthy token)) with false by (unfold token; by destruct header).
  cbn [mbind result_bind]. destruct (Z.ltb_spec 16384 (Z.of_nat (length token))) as [Hl|Hl]; [done|].
  rewrite K1. cbn [forallb negb]. cbv zeta. rewrite K2, K3, Hdec, Hdepth. 2: { unfold token in Hl. rewrite !length_app in Hl. lia. }
  cbn [negb]. by rewrite Hload.
Qed.

(** C40: what an assertion is signed over is read back: whatever key signs it, a signed assertion whose
    texts are sequences of Unicode scalar values is three segments, the last the signature of the first
    two; the first decodes to the RS256 header and the second to claims with exactly the issuer,
    audience, instants and, when they are given, scope and subject of the assertion.  The reader of token
    expiries gives the signed expiry when the token has at most 16384 bytes and the expiry is positive
    and within the reader's limit, and none otherwise.  (The driver applies that reader to the tokens a
    provider returns, not to its own assertions; texts with lone surrogates are not covered.) *)
Theorem signed_claims_read_back {key} (rsa_sign : key → list N → list N) a private_key token :
  sign_jwt_bearer_assertion rsa_sign a private_key = Ok token →
  Forall (λ s, forallb scalar s = true) [issuer a; audience a; subject a; assertion_scope a] →
  ∃ instant expiry issued header segment header_json payload claims,
    datetime_add (issued_at a) (lifetime a) = Ok instant ∧ timestamp instant = Ok expiry ∧ timestamp (issued_at a) = Ok issued ∧
    split_char 46 token = [header; segment; urlsafe_b64encode (rsa_sign private_key (header ++ "." ++ segment))] ∧
    urlsafe_b64decode header = Some header_json ∧
    loads_bytes header_json = Ok (JObj [(lit "alg", JStr "RS256"); (lit "typ", JStr "JWT")]) ∧
    urlsafe_b64decode segment = Some payload ∧ loads_bytes payload = Ok (JObj claims) ∧
    get "iss" claims = JStr (issuer a) ∧ get "aud" claims = JStr (audience a) ∧
    get "iat" claims = JInt issued ∧ get "exp" claims = JInt expiry ∧
    dget "scope" claims = (if truthy (assertion_scope a) then Some (JStr (assertion_scope a)) else None) ∧
    dget "sub" claims = (if truthy (subject a) then Some (JStr (subject a)) else None) ∧
    (∀ name, name ∈ dkeys claims → name ∈ [lit "iss"; lit "aud"; lit "iat"; lit "exp"; lit "scope"; lit "sub"]) ∧
    _read_jwt_expiry_seconds token =
      Ok (if ((Z.of_nat (length token) <=? 16384) && (0 <? expiry) && (expiry <=? max_expiry))%Z then Some expiry else None).
Proof.
  intros Hsign Hs. unfold sign_jwt_bearer_assertion in Hsign. apply bind_Ok in Hsign as ([] & _ & Hsign).
  apply bind_Ok in Hsign as (instant & Hinstant & Hsign). apply bind_Ok in Hsign as (expiry & Hexpiry & Hsign).
  apply bind_Ok in Hsign as (issued & Hissued & Hsign). apply bind_Ok in Hsign as (header & Hh & Hsign).
  apply bind_Ok in Hsign as (segment & Hc & Hsign). cbv zeta in Hsign. apply Ok_inj in Hsign.
  rewrite <- !app_assoc in Hsign.
  unfold assertion_header in Hh. apply segment_reads in Hh as (Hhc & hp & Hhd & Hhl & _);
    [|apply (bool_decide_eq_true_1 _); vm_compute; reflexivity|reflexivity].
  unfold assertion_claims in Hc. set (o := _ ++ _) in Hc.
  assert (Hflat : forallb (λ kv, forallb scalar (fst kv) && flat (snd kv)) o = true ∧ NoDup (dkeys o)).
  { repeat (apply Forall_cons in Hs as [? Hs]). unfold o.
    destruct (truthy (assertion_scope a)), (truthy (subject a)); cbn [app forallb fst snd flat];
      repeat match goal with H : forallb scalar _ = true |- _ => rewrite H; clear H end;
      (split; [reflexivity|apply (bool_decide_eq_true_1 _); vm_compute; reflexivity]). }
  destruct Hflat as [Hflat Hnd]. apply segment_reads in Hc as (Hcc & payload & Hd & Hl & Hlen & Hdepth); [|done..].
  destruct (expiry_of_claims header segment (urlsafe_b64encode (rsa_sign private_key (header ++ lit "." ++ segment))) payload o)
    as [Hsplit Hread]; [done|done|apply encode_chars|done..|].
  rewrite Hsign in Hsplit, Hread. exists instant, expiry, issued, header, segment, hp, payload, o.
  split_and!; try done.
  - unfold o. by destruct (truthy (assertion_scope a)), (truthy (subject a)).
  - unfold o. by destruct (truthy (assertion_scope a)), (truthy (subject a)).
  - unfold o. intros name. destruct (truthy (assertion_scope a)), (truthy (subject a)); cbn [app dkeys map fst]; set_solver.
  - rewrite Hread. unfold expiry_claim. change (get "exp" o) with (JInt expiry). cbn iota.
    destruct (Z.ltb_spec 16384 (Z.of_nat (length token))), (Z.leb_spec (Z.of_nat (length token)) 16384); try lia; [done|].
    cbn [andb]. by destruct (0 <? expiry)%Z, (expiry <=? max_expiry)%Z.
Qed.

Definition sample_assertion : JWTBearerAssertion :=
  mkAssertion (lit "svc@acme.example") (lit "https://acme.example/token") 1767225600000000 3600000000 [] (lit "read write").

Definition sample_token : res pystr := sign_jwt_bearer_assertion (λ (_ : unit) text, take 20 text) sample_assertion ().

Lemma signed_claims_read_back_witness :
  match sample_token with
  | Ok token => ∃ segment payload claims, nth 1 (split_char 46 token) [] = segment ∧ urlsafe_b64decode segment = Some payload ∧
      loads_bytes payload = Ok (JObj claims) ∧ get "iss" claims = JStr "svc@acme.example" ∧ dget "sub" claims = None
  | Err _ => False
  end.
Proof.
  destruct sample_token as [token|e] eqn:E; [|vm_compute in E; discriminate E].
  destruct (signed_claims_read_back _ sample_assertion () token E) as
    (_ & _ & _ & header & segment & _ & payload & claims & _ & _ & _ & Hsplit & _ & _ & Hd & Hl & Hiss & _ & _ & _ & _ & Hsub & _);
    [repeat constructor|].
  exists segment, payload, claims. rewrite Hsplit. exact (conj eq_refl (conj Hd (conj Hl (conj Hiss Hsub)))).
Defined.

End JwtFacts.
