(* ===== verification/ManifestRefresh.v ===== *)
(** * Refreshing a credential from its manifest

    sdkpython/src/dex_connectors/sdk/oauthtoken/manifest_refresh.py, [_exchange], [_exchange_with_client]
    and [refresh] of [ManifestCredentialRefreshDriver], over the token endpoint of OAuth.v and the
    assertions of JwtBearer.v.

    The HTTP client is a parameter: what sending the request of the n-th grant does, with the driver's
    client or a private-network one, under an exchange timeout.  So are the clock's readings. *)

From S2P Require Import Prelude Json JsonText Errors Calls Identity AddressPolicy Url ProviderHttp OAuth ManifestValues ManifestGrants.
From S2P Require Import StructuredOutput ProjectModels JsonDumps CanonicalJson Base64 JwtBearer.

(** How a refresh fails: a [RetryError], or another exception. *)
Inductive refresh_error := Retryable (e : RetryError) | Raised (e : exn).
Abbreviation outcome := (result refresh_error).

Definition lift {A} (m : res A) : outcome A := match m with Ok a => Ok a | Err e => Err (Raised e) end.

(** The clock is read when an assertion is issued, to compare a claimed expiry, and to date the result. *)
Inductive reading := Issuing | Comparing | Finishing.

(** [ClientAuthenticationMethod(text)]. *)
Definition authentication_of (s : pystr) : res ClientAuthenticationMethod :=
  if bool_decide (s = lit "client_secret_post") then Ok CLIENT_SECRET_POST
  else if bool_decide (s = lit "client_secret_basic") then Ok CLIENT_SECRET_BASIC
  else if bool_decide (s = lit "none") then Ok PUBLIC_CLIENT
  else raise ValueError "is not a valid ClientAuthenticationMethod".

(** The strings of a list of a checked manifest. *)
Definition strings_of (j : json) : res (list pystr) :=
  items ← iterate j; Ok (flat_map (λ x, match x with JStr s => [s] | _ => [] end) items).

Section Refresh.
Context {driver : Driver} {key : Type} (load_pem_private_key : list N → option (option key)) (rsa_sign : key → list N → list N).
Context (netloc_ok : pystr → bool) (mock_transport : bool).
Context (send : nat → option client_config → option pyfloat → token_request → send_result).
Context (clock : nat → reading → Z).

#[local] Abbreviation parse_duration := (_parse_duration unicode_decimal).

Definition load_json (contents : list N) : option json :=
  match loads_bytes contents with Ok j => Some j | Err _ => None end.

(** ** One exchange *)

(** The key fields the sources of a grant read. *)
Definition key_fields (sources : list json) : list json :=
  flat_map (λ s, match s with JObj d => match dget "fromKey" d with Some f => [f] | None => [] end | _ => [] end) sources.

(** The service account key in a credential: an object whose fields in use are strings. *)
Definition parse_key (assertion : dict json) (endpoint : json) (text : pystr) : res (dict json) :=
  match loads text with
  | Err _ => reauthorize
  | Ok parsed =>
      private ← item "privateKey" assertion;
      issuer ← item "issuer" assertion;
      audience ← item "audience" assertion;
      match parsed with
      | JObj d =>
          if existsb (λ f, match f with JStr f => dhas f d && negb (is_str (get f d)) | _ => false end)
               (key_fields [endpoint; private; issuer; audience; get "subject" assertion])
          then reauthorize else Ok d
      | _ => reauthorize
      end
  end.

(** [json.loads] of what the credential holds, for the grants that name a key. *)
Definition exchange_key (grant : dict json) (credentials : credential) : res (dict json) :=
  kind ← item "kind" grant;
  if negb (is_str_of kind "jwt_bearer") then Ok []
  else
    name ← item "key_credential" grant;
    if negb (py_bool name) then Ok []
    else
      text ← _credential_value credentials name;
      endpoint ← item "endpoint" grant;
      assertion ← item "assertion" grant;
      assertion ← mapping assertion;
      parse_key assertion endpoint text.

Definition private_network (grant : dict json) : bool :=
  is_str_of (get "token_endpoint_network_policy" grant) "privateNetworkHTTP".

(** The mapping sources the endpoint retains for the URL rule. *)
Fixpoint retained_of (rule : dict json) (items : list json) : res (list pystr) :=
  match items with
  | [] => Ok []
  | it :: items =>
      credential ← subscript "credential" it;
      here ← (if py_eq credential (get "credential" rule) then s ← subscript "source" it; Ok [py_str s] else Ok []);
      rest ← retained_of rule items; Ok (here ++ rest)
  end.

(** The token endpoint of a grant. *)
Definition endpoint_of (grant : dict json) (url : pystr) : res TokenEndpoint :=
  codes ← item "terminal_codes" grant; codes ← strings_of codes;
  mappings ← item "mappings" grant; items ← iterate mappings;
  rule ← item "response_url_validation" grant; rule ← mapping rule;
  retained ← retained_of rule items;
  types ← item "accepted_token_types" grant; types ← strings_of types;
  additional ← item "additional" grant; additional ← mapping additional;
  Ok (mkEndpoint _provider_name url codes types (py_bool (get "accepts_missing_token_type" grant))
        (py_bool (get "accepts_missing_expires_in" grant))
        ((if is_str_of (get "response_scope_field" grant) "scopesArray" then [lit "scopes"] else []) ++ retained)
        (is_str_of (get "encoding" grant) "json") (private_network grant)
        (map (λ kv, (fst kv, py_str (snd kv))) additional)).

(** The signed assertion of a grant; an unusable value needs reauthorization. *)
Definition signed_assertion (grant assertion : dict json) (credentials : credential) (key_document : dict json) (now lifetime : Z)
    : res pystr :=
  let resolve source := _resolve_assertion_source source assertion credentials key_document in
  let signed :=
    subject ← (if py_bool (get "subject" assertion) then resolve (get "subject" assertion) else Ok []);
    subject ← (if is_str_of (get "subjectValidation" assertion) "goMailAddress" then
                 let subject := _trim_go_space subject in
                 if _is_go_mail_address subject then Ok subject else reauthorize
               else Ok subject);
    private ← item "privateKey" assertion;
    pem ← _resolve_source private credentials key_document;
    private_key ← parse_rsa_private_key_pem load_pem_private_key pem;
    issuer ← item "issuer" assertion; issuer ← resolve issuer;
    audience ← item "audience" assertion; audience ← _resolve_source audience credentials key_document;
    scopes ← _scopes (get_or "scopes" (JArr []) assertion);
    sign_jwt_bearer_assertion rsa_sign (mkAssertion issuer audience now lifetime subject (join " " scopes)) private_key in
  match signed with
  | Ok token => Ok token
  | Err e => if isinst e KeyError || isinst e ValueError then reauthorize else Err e
  end.

(** The client of a refresh or client-credentials grant. *)
Definition exchange_client (grant : dict json) (credentials : credential) (key_document : dict json) (is_refresh : bool)
    : res ClientCredentials :=
  name ← item "client_secret" grant;
  secret ← _credential_value credentials name;
  let allows_public := py_bool (get "allows_public_client" grant) in
  if negb (truthy secret) && is_refresh && negb allows_public then reauthorize
  else
    source ← item "authentication" grant;
    method ← _resolve_source source credentials key_document;
    let method := if negb (truthy secret) && is_refresh && allows_public then lit "none" else method in
    id_name ← item "client_id" grant;
    client_id ← _credential_value credentials id_name;
    method ← authentication_of method;
    Ok (mkClient (if py_bool (get "trim_client_id" grant) then _trim_go_space client_id else client_id) secret method).

(** [asyncio.timeout] around the exchange. *)
Definition within_timeout (m : res TokenResponse) : res TokenResponse :=
  match m with
  | Err e => if isinst e TimeoutError then raise OSError "token endpoint is unavailable" else m
  | Ok _ => m
  end.

(** [_exchange_with_client]; [sending] is the client it is given. *)
Definition _exchange_with_client (n : nat) (grant : dict json) (credentials : credential)
    (sending : option pyfloat → token_request → send_result) : res (TokenResponse * list json) :=
  key_document ← exchange_key grant credentials;
  source ← item "endpoint" grant;
  url ← _resolve_source source credentials key_document;
  if private_network grant && (negb (forallb (in_range 33 126) url) || has_char 35 url) then reauthorize
  else
    endpoint ← endpoint_of grant url;
    kind ← item "kind" grant;
    if is_str_of kind "jwt_bearer" then
      assertion ← item "assertion" grant; assertion ← mapping assertion;
      declared ← item "lifetime" assertion; lifetime ← duration_of declared;
      signed ← signed_assertion grant assertion credentials key_document (clock n Issuing) lifetime;
      token ← exchange_jwt_bearer_assertion lower netloc_ok load_json (sending None) endpoint signed;
      copies ← iterate (get_or "copies" (JArr []) grant);
      Ok (token, copies)
    else
      let is_refresh := is_str_of kind "refresh" in
      client ← exchange_client grant credentials key_document is_refresh;
      timeout ← _token_exchange_timeout_seconds (get "token_exchange_timeout" grant);
      if is_refresh then
        name ← item "refresh_field" grant;
        refresh_token ← _credential_value credentials name;
        token ← within_timeout (exchange_refresh_token lower netloc_ok load_json (sending timeout) endpoint client refresh_token);
        Ok (token, [])
      else
        source ← item "request_scopes" grant;
        scopes ← _scopes source;
        token ← within_timeout (exchange_client_credentials lower netloc_ok load_json (sending timeout) endpoint client scopes);
        Ok (token, []).

(** [_exchange]: a private-network grant gets a client of its own. *)
Definition _exchange (n : nat) (grant : dict json) (credentials : credential) : res (TokenResponse * list json) :=
  if private_network grant && negb mock_transport then
    timeout ← _token_exchange_timeout_seconds (get "token_exchange_timeout" grant);
    client ← new_provider_http_client (default (f_of_Z 30) timeout) privateNetworkHTTP [];
    _exchange_with_client n grant credentials (send n (Some client))
  else _exchange_with_client n grant credentials (send n None).

(** What [refresh] makes of the exceptions of an exchange. *)
Definition retry_refresh {A} (message : pystr) : outcome A :=
  match retry_error (Failure.mk PROTOCOL _provider_name "refreshCredentials" message) (FFin 0 0) with
  | Ok e => Err (Retryable e)
  | Err e => Err (Raised e)
  end.

Definition exchange_outcome (grant : dict json) (m : res (TokenResponse * list json)) : outcome (TokenResponse * list json) :=
  match m with
  | Ok x => Ok x
  | Err e =>
      if isinst e InvalidURL then
        if private_network grant then Err (Raised (Exn AddressRefusal "URL is invalid"))
        else retry_refresh "token endpoint is invalid"
      else if isinst e AddressRefusal then Err (Raised e)
      else if isinst e OSError || isinst e ValueError then retry_refresh (exn_msg e)
      else Err (Raised e)
  end.

(** ** Granted scopes *)

(** [canonical]. *)
Definition canonical (grant : dict json) (scope : pystr) : pystr :=
  let prefix := py_str (get "scope_resource_prefix" grant) in
  let fold s := if py_bool (get "scope_resource_prefix_case_insensitive" grant) then lower s else s in
  let stripped := if truthy prefix && starts_with (fold prefix) (fold scope) then drop (length prefix) scope else scope in
  if py_bool (get "case_insensitive_scopes" grant) then lower stripped else stripped.

(** The scopes the response reports: the names, whether it reports any, whether it has the array asked for. *)
Record reported := mkReported { r_names : list pystr; has_reported_scope : bool; has_scope_array : bool }.

Definition reported_scopes (grant : dict json) (token : TokenResponse) : res reported :=
  let words := if is_str_of (get "scope_separators" grant) "whitespaceAndComma" then scope_words [] (scope token)
               else split_space [] (scope token) in
  if is_str_of (get "response_scope_field" grant) "scopesArray" then
    match get "scopes" (retained_fields token) with
    | JNull => Ok (mkReported words false false)
    | JArr l => if forallb is_str l
                then Ok (mkReported (flat_map (λ x, match x with JStr s => [s] | _ => [] end) l) true true)
                else reauthorize
    | _ => reauthorize
    end
  else Ok (mkReported words (truthy (py_strip (scope token))) true).

Definition offline (scope : pystr) : bool := bool_decide (scope = lit "offline_access").

(** The scope sets any of which is enough. *)
Definition accepted_sets (grant : dict json) : res (list (list pystr)) :=
  source ← item "scopes" grant;
  required ← _scopes source;
  let is_refresh := is_str_of (get "kind" grant) "refresh" in
  let online scopes := if is_refresh then List.filter (λ s, negb (offline s)) scopes else scopes in
  let sets := get "accepted_scope_sets" grant in
  if py_bool sets then items ← iterate sets; sets ← mapR strings_of items; Ok (map online sets)
  else Ok [online required].

(** [has_wrong_scopes]. *)
Definition wrong_scopes (grant : dict json) (r : reported) (sets : list (list pystr)) : bool :=
  let exact := py_bool (get "exact_scopes" grant) in
  let granted := List.filter truthy (map (canonical grant) (r_names r)) in
  (has_reported_scope r || exact)
  && negb (existsb (λ set, let wanted := map (canonical grant) set in
                           subset wanted granted && (negb exact || subset granted wanted)) sets).

Definition check_scopes (grant : dict json) (token : TokenResponse) : res unit :=
  sets ← accepted_sets grant;
  r ← reported_scopes grant token;
  if negb (is_str_of (get "response_scopes" grant) "ignore") && has_scope_array r && wrong_scopes grant r sets
  then reauthorize else Ok ().

(** ** The replacement credential *)

Definition stored (method : dict json) (destination value : pystr) : res (pystr * cred_value) :=
  field ← field_of (JStr destination);
  secret ← _is_secret method destination;
  Ok (field, if secret : bool then Secret value else Plain value).

(** The mapped response strings. *)
Fixpoint mapped_updates (method grant : dict json) (token : TokenResponse) (items : list json) (updates : credential)
    : res credential :=
  match items with
  | [] => Ok updates
  | it :: items =>
      destination ← subscript "credential" it;
      source ← subscript "source" it;
      let destination := py_str destination in
      match mapped_response_string token (py_str source) with
      | None => mapped_updates method grant token items updates
      | Some value =>
          if negb (truthy value) && py_eq (JStr destination) (get_or "refresh_field" (JStr []) grant)
          then mapped_updates method grant token items updates
          else
            '(field, v) ← stored method destination value;
            mapped_updates method grant token items (dset field v updates)
      end
  end.

(** The source mapped to the credential of the URL rule. *)
Fixpoint url_source (destination : json) (items : list json) : res pystr :=
  match items with
  | [] => raise RuntimeError "coroutine raised StopIteration"
  | it :: items =>
      c ← subscript "credential" it;
      if py_eq c destination then s ← subscript "source" it; Ok (py_str s) else url_source destination items
  end.

(** The response URL, when the rule has one. *)
Definition url_update (grant : dict json) (token : TokenResponse) (credentials updates : credential) : outcome credential :=
  rule ← lift (r ← item "response_url_validation" grant; mapping r);
  match rule with
  | [] => Ok updates
  | _ =>
      destination ← lift (item "credential" rule);
      items ← lift (m ← item "mappings" grant; iterate m);
      source ← lift (url_source destination items);
      prior ← lift (_credential_value credentials destination);
      let value :=
        match dget source (retained_fields token) with
        | Some JNull => JStr []
        | Some returned => returned
        | None => if py_bool (get "requireResponse" rule) then JNull
                  else if truthy prior then JStr prior else get_or "defaultURL" (JStr []) rule
        end in
      let refused := retry_refresh "token response URL is invalid" in
      match value with
      | JStr s =>
          valid ← lift (_is_valid_response_url s rule);
          if valid : bool then
            field ← lift (field_of destination);
            url ← lift (_validate_response_url s rule);
            Ok (dset field (Plain url) updates)
          else refused
      | _ => refused
      end
  end.

Fixpoint copied_updates (method : dict json) (credentials : credential) (copies : list json) (updates : credential)
    : res credential :=
  match copies with
  | [] => Ok updates
  | it :: copies =>
      destination ← subscript "credential" it;
      source ← subscript "fromCredential" it;
      value ← _credential_value credentials (JStr (py_str source));
      '(field, v) ← stored method (py_str destination) value;
      copied_updates method credentials copies (dset field v updates)
  end.

(** [dataclasses.replace(credentials, **updates)]. *)
Definition replace_fields (credentials updates : credential) : res credential :=
  if forallb (λ kv, dhas (fst kv) credentials) updates
  then Ok (fold_left (λ c kv, dset (fst kv) (snd kv) c) updates credentials)
  else raise TypeError "got an unexpected keyword argument".

(** ** The expiry of the result *)

Definition grant_lifetime (n : nat) (grant : dict json) (token : TokenResponse) : res Z :=
  let reported := expires_in token in
  lifetime ← (if (reported <=? 0)%Z then duration_of (get_or "missing_expiry" (JStr []) grant) else Ok reported);
  cap ← item "expiry_cap" grant;
  lifetime ← (if py_bool cap && (0 <? lifetime)%Z then c ← duration_of cap; Ok (Z.min lifetime c) else Ok lifetime);
  fallback ← item "access_token_jwt_expiry_fallback" grant;
  if py_bool fallback && (reported <=? 0)%Z then
    seconds ← _read_jwt_expiry_seconds (access_token token);
    let now := clock n Comparing in
    match seconds with
    | Some s => if (now <? s * 1000000)%Z then Ok (s * 1000000 - now)%Z else duration_of fallback
    | None => duration_of fallback
    end
  else Ok lifetime.

Definition grant_expiry (n : nat) (grant : dict json) (token : TokenResponse) : res Z :=
  lifetime ← grant_lifetime n grant token;
  if (lifetime =? 0)%Z then Ok datetime_min else datetime_add (clock n Finishing) lifetime.

(** ** [refresh] *)

(** One grant whose token, if it needs one, is present: the credentials and the expiry. *)
Definition refresh_grant_step (n : nat) (method grant : dict json) (credentials : credential) : outcome (credential * Z) :=
  '(token, copies) ← exchange_outcome grant (_exchange n grant credentials);
  lift (check_scopes grant token) ≫= λ _,
  updates ← lift (m ← item "mappings" grant; items ← iterate m; mapped_updates method grant token items []);
  updates ← url_update grant token credentials updates;
  updates ← lift (copied_updates method credentials copies updates);
  credentials ← lift (replace_fields credentials updates);
  expiry ← lift (grant_expiry n grant token);
  Ok (credentials, expiry).

(** The loop over the grants: those whose refresh token is not stored are left out. *)
Fixpoint refresh_loop (n : nat) (method : dict json) (grants : list (dict json)) (credentials : credential) (expiries : list Z)
    : outcome (credential * list Z) :=
  match grants with
  | [] => Ok (credentials, expiries)
  | grant :: grants =>
      let name := get_or "refresh_field" (JStr []) grant in
      skipped ← lift (if py_bool name then v ← _credential_value credentials name; Ok (negb (truthy v)) else Ok false);
      if skipped : bool then refresh_loop (S n) method grants credentials expiries
      else
        '(credentials, expiry) ← refresh_grant_step n method grant credentials;
        refresh_loop (S n) method grants credentials (expiries ++ [expiry])
  end.

(** [refresh]: the replacement credentials and their expiry. *)
Definition refresh (credentials : credential) : outcome (credential * Z) :=
  method ← lift (_selected_method credentials);
  grants ← lift (_grants method);
  match grants with
  | [] => lift reauthorize
  | _ =>
      lift (for_each _validate_grant grants) ≫= λ _,
      '(replaced, expiries) ← refresh_loop 0 method grants credentials [];
      match expiries with
      | [] => lift reauthorize
      | e :: es => Ok (replaced, fold_left Z.min es e)
      end
  end.

End Refresh.
