(* ===== verification/ManifestFacts.v ===== *)
(** * What manifest-declared refreshes guarantee

    The theorems about ManifestValues.v, ManifestGrants.v and ManifestRefresh.v. *)

From Stdlib Require Import ZifyBool.
From S2P Require Import Prelude Json JsonText Errors Calls Identity AddressPolicy Url ProviderHttp OAuth ManifestValues ManifestGrants.
From S2P Require Import StructuredOutput ProjectModels JsonDumps CanonicalJson Base64 JwtBearer ManifestRefresh.

Module ManifestFacts.

(** ** Response URLs *)

Lemma has_char_false c s : has_char c s = false → ∀ x, In x s → x ≠ c.
Proof.
  unfold has_char. intros H x Hx ->. apply not_true_iff_false in H. apply H, existsb_exists. exists c. split; [done|]. lia.
Qed.

Lemma partition_absent c s : has_char c s = false → partition_char c s = (s, None).
Proof.
  induction s as [|x s IH]; [done|]. cbn [has_char existsb partition_char]. intros [H1 H2]%orb_false_iff.
  rewrite N.eqb_sym, H1. by rewrite (IH H2).
Qed.

Lemma filter_all {A} (p : A → bool) l : forallb p l = true → List.filter p l = l.
Proof. induction l as [|x l IH]; [done|]. cbn [forallb List.filter]. intros [-> H]%andb_prop. by rewrite IH. Qed.

Lemma span_netloc_app s : s = fst (span_netloc s) ++ snd (span_netloc s) ∧ has_char 47 (fst (span_netloc s)) = false.
Proof.
  induction s as [|c s [IH1 IH2]]; [done|]. cbn [span_netloc]. destruct (_ || _) eqn:E; [done|].
  destruct (span_netloc s) as [a r]. cbn [fst snd app] in *. rewrite <- IH1. split; [done|].
  cbn [has_char existsb]. change (existsb (N.eqb 47) a) with (has_char 47 a). rewrite IH2. lia.
Qed.

(** Splitting a URL of printable characters with a lower-case HTTP scheme, no query and no fragment. *)
Lemma split_http scheme rest parsed : scheme = lit "https" ∨ scheme = lit "http" →
  forallb (in_range 33 126) rest = true → has_char 63 rest = false → has_char 35 rest = false →
  urlsplit (λ _, true) (scheme ++ lit "://" ++ rest) = Ok parsed →
  Url.scheme parsed = scheme ∧ rest = netloc parsed ++ path parsed ∧ has_char 47 (netloc parsed) = false.
Proof.
  intros Hs Hp Hq Hf H. unfold urlsplit in H.
  assert (Hd : drop_while (λ c, (c <=? 32)%N) (scheme ++ lit "://" ++ rest) = scheme ++ lit "://" ++ rest)
    by (destruct Hs as [-> | ->]; done).
  rewrite Hd in H. rewrite filter_all in H.
  2: { rewrite !forallb_app. assert (Hr : forallb (λ c, negb ((c =? 9)%N || (c =? 10)%N || (c =? 13)%N)) rest = true).
       { rewrite forallb_forall in *. intros c Hc. specialize (Hp c Hc). unfold in_range in Hp. lia. }
       rewrite Hr. by destruct Hs as [-> | ->]. }
  assert (Hsc : split_scheme (scheme ++ lit "://" ++ rest) = (scheme, lit "//" ++ rest)).
  { unfold split_scheme. destruct Hs as [-> | ->]; reflexivity. }
  rewrite Hsc in H. change (starts_with "//" (lit "//" ++ rest)) with true in H.
  change (drop 2 (lit "//" ++ rest)) with rest in H. cbv zeta in H.
  destruct (span_netloc rest) as [n r] eqn:En. pose proof (span_netloc_app rest) as [Ha Hn]. rewrite En in Ha, Hn. cbn [fst snd] in *.
  destruct (negb (brackets_ok n)); [done|]. cbn [raise_if mbind result_bind] in H.
  assert (Hr : ∀ c, has_char c rest = false → has_char c r = false).
  { intros c Hc. rewrite Ha in Hc. unfold has_char in *. rewrite existsb_app in Hc. by apply orb_false_iff in Hc as [_ Hc]. }
  rewrite (partition_absent 35 r (Hr _ Hf)), (partition_absent 63 r (Hr _ Hq)) in H.
  destruct (_ && _); [done|]. apply Ok_inj in H as <-. done.
Qed.

(** The host a URL names is one the rule lists. *)
Definition host_listed (rule : dict json) (host : pystr) : Prop :=
  (∃ hosts, get_or "allowedHosts" (JArr []) rule = JArr hosts ∧ JStr host ∈ hosts) ∨
  (∃ hosts, get_or "allowedHosts" (JArr []) rule = JStr hosts ∧ contains host hosts = true) ∨
  (∃ hosts, get_or "allowedHosts" (JArr []) rule = JObj hosts ∧ host ∈ dkeys hosts) ∨
  (∃ suffix, get_or "allowedHostSuffix" (JStr []) rule = JStr suffix ∧ suffix ≠ [] ∧
     (host = suffix ∨ ends_with ("." ++ suffix) host = true)).

Lemma host_allowed_listed parsed loopback rule :
  host_allowed parsed loopback rule = Ok true →
  (py_bool (get "allowAnyHTTPS" rule) = true ∧ Url.scheme parsed = lit "https") ∨
  (py_bool (get "allowLoopback" rule) = true ∧ loopback = true) ∨ host_listed rule (netloc parsed).
Proof.
  unfold host_allowed. destruct (_ || _) eqn:E.
  - intros _. apply orb_prop in E as [[H1 H2%bool_decide_eq_true]%andb_prop|[H1 H2]%andb_prop]; auto.
  - intros (listed & Hl & H)%bind_Ok. right. right. destruct listed.
    + unfold py_in in Hl. destruct (get_or "allowedHosts" _ rule) as [| | | |s|l|d] eqn:Eh; try done; apply Ok_inj in Hl.
      * right. left. by exists s.
      * left. exists l. split; [done|]. apply existsb_exists in Hl as (j & Hj & Hs). destruct j; try done.
        apply bool_decide_eq_true in Hs as ->. by apply list_elem_of_In.
      * right. right. left. exists d. split; [done|]. by apply bool_decide_eq_true in Hl.
    + unfold suffix_matches in H. destruct (negb (py_bool _)) eqn:Eb; [done|].
      destruct (get_or "allowedHostSuffix" _ rule) as [| | | |s| |] eqn:Es; try done. apply Ok_inj in H.
      right. right. right. exists s. split; [done|]. split; [by destruct s|].
      apply orb_prop in H as [H%bool_decide_eq_true|H]; auto.
Qed.

Lemma partition_present c s : snd (partition_char c s) = None → has_char c s = false.
Proof.
  induction s as [|x s IH]; [done|]. cbn [partition_char has_char existsb]. destruct (N.eqb_spec x c) as [->|Hx]; [done|].
  destruct (partition_char c s) as [a p]. cbn [snd]. intros H. change (existsb (N.eqb c) s) with (has_char c s).
  rewrite (IH H). by destruct (N.eqb_spec c x); [congruence|].
Qed.

Lemma no_userinfo parsed : username parsed = None → has_char 64 (netloc parsed) = false.
Proof.
  unfold username, rpartition_char. pose proof (partition_present 64 (rev (netloc parsed))) as Hp.
  destruct (partition_char 64 (rev (netloc parsed))) as [a [b|]]; [done|]. intros _. specialize (Hp eq_refl).
  unfold has_char in *. apply not_true_iff_false in Hp. apply not_true_iff_false. intros H. apply Hp.
  apply existsb_exists in H as (x & Hx & Hc). apply existsb_exists. exists x. by rewrite <- in_rev.
Qed.

Lemma strip_slashes scheme host slash : has_char 47 host = false → host ≠ [] → slash = [] ∨ slash = lit "/" →
  drop_while_end (λ c, (c =? 47)%N) (scheme ++ host ++ slash) = scheme ++ host.
Proof.
  intros Hh Hne Hs. destruct host as [|x host _] using rev_ind; [done|].
  assert (Hx : (x =? 47)%N = false).
  { unfold has_char in Hh. rewrite existsb_app in Hh. apply orb_false_iff in Hh as [_ Hh]. cbn [existsb] in Hh. by rewrite orb_false_r, N.eqb_sym in Hh. }
  assert (Hid : drop_while_end (λ c, (c =? 47)%N) (scheme ++ host ++ [x]) = scheme ++ host ++ [x]).
  { unfold drop_while_end. rewrite app_assoc, rev_app_distr. cbn [rev app drop_while]. rewrite Hx.
    cbn [rev]. by rewrite rev_involutive, <- app_assoc. }
  destruct Hs as [-> | ->]; [by rewrite app_nil_r|]. rewrite app_assoc. unfold drop_while_end. rewrite rev_app_distr.
  cbn [rev app drop_while lit codes]. change (47 =? 47)%N with true. cbn iota. exact Hid.
Qed.

(** The host of an authority is this machine: [localhost] in any letter case, an IPv4 address of 127.0.0.0/8,
    or the IPv6 address ::1. *)
Definition names_loopback (authority : pystr) : Prop :=
  ∃ parsed, netloc parsed = authority ∧
    let host := default [] (hostname parsed) in
    (ascii_lower host = lit "localhost" ∨
     (∃ n, ip_address host = Some (V4 n) ∧ (n / 2 ^ 24 = 127)%Z) ∨ (∃ scope, ip_address host = Some (V6 1 scope))).

Lemma loopback_named parsed : is_loopback_host (default [] (hostname parsed)) = true → names_loopback (netloc parsed).
Proof.
  intros H. exists parsed. split; [done|]. cbv zeta. unfold is_loopback_host in H.
  destruct (ip_address _) as [[n|n scope]|].
  - right; left. exists n. split; [done|]. apply Z.eqb_eq in H. change (2 ^ (32 - 8))%Z with (2 ^ 24)%Z in H. by rewrite H.
  - right; right. apply Z.eqb_eq in H as ->. by exists scope.
  - left. by apply bool_decide_eq_true in H.
Qed.

(** C21: a response URL that is accepted names nothing but an origin the manifest allows: it is kept as its
    scheme and its host, with no user information, path, query or fragment; the scheme is HTTPS, or it is
    plain HTTP, the rule allows loopback hosts, and the host is one ([localhost], 127.0.0.0/8 or ::1); and
    unless the rule accepts every HTTPS host, or loopback hosts for such a host, the host is one the rule
    lists, or lies under its suffix. *)
Theorem response_url_confined value rule url :
  _validate_response_url value rule = Ok url →
  ∃ scheme host, url = scheme ++ lit "://" ++ host ∧ host ≠ [] ∧
    Forall (λ c, has_char c host = false) [47; 63; 35; 64; 32]%N ∧
    (scheme = lit "https" ∨ (scheme = lit "http" ∧ py_bool (get "allowLoopback" rule) = true ∧ names_loopback host)) ∧
    ((scheme = lit "https" ∧ py_bool (get "allowAnyHTTPS" rule) = true) ∨
     (py_bool (get "allowLoopback" rule) = true ∧ names_loopback host) ∨
     host_listed rule host).
Proof.
  unfold _validate_response_url. intros H. destruct (_ || has_char 35 value) eqn:E; [done|].
  apply orb_false_iff in E as [[[Hstart%negb_false_iff Hp%negb_false_iff]%orb_false_iff Hq]%orb_false_iff Hf].
  assert (Hvalue : ∃ scheme rest, value = scheme ++ lit "://" ++ rest ∧ (scheme = lit "https" ∨ scheme = lit "http")).
  { apply orb_prop in Hstart as [Hs|Hs]; [exists (lit "https")|exists (lit "http")].
    - apply starts_with_split in Hs as [r ->]. exists r. split; [done|by left].
    - apply starts_with_split in Hs as [r ->]. exists r. split; [done|by right]. }
  destruct Hvalue as (scheme & rest & -> & Hscheme).
  destruct (urlsplit _ _) as [parsed|] eqn:Hsplit; [|done].
  assert (Hrest : forallb (in_range 33 126) rest = true ∧ has_char 63 rest = false ∧ has_char 35 rest = false).
  { rewrite !forallb_app in Hp. unfold has_char in *. rewrite !existsb_app in Hq, Hf.
    apply andb_prop in Hp as [_ [_ Hp]%andb_prop]. apply orb_false_iff in Hq as [_ [_ Hq]%orb_false_iff].
    by apply orb_false_iff in Hf as [_ [_ Hf]%orb_false_iff]. }
  destruct Hrest as (Hp' & Hq' & Hf').
  destruct (split_http _ _ _ Hscheme Hp' Hq' Hf' Hsplit) as (Hs & Hr & Hslash).
  destruct (port parsed) as [p|]; [|done]. cbv zeta in H. destruct (_ || (py_bool (get "forbidPort" rule) && _)) eqn:Ec; [done|].
  repeat (apply orb_false_iff in Ec as [Ec ?]). apply bind_Ok in H as ([|] & Ha & H); [|done].
  rename select (negb (bool_decide (path parsed ∈ _)) = false) into Hpath.
  apply negb_false_iff, bool_decide_eq_true in Hpath.
  assert (Hpath' : path parsed = [] ∨ path parsed = lit "/") by set_solver.
  assert (Hhost : netloc parsed ≠ []).
  { intros Hn. apply negb_false_iff in Ec. unfold hostname, _hostinfo in Ec. rewrite Hn in Ec. done. }
  assert (Huser : username parsed = None) by (destruct (username parsed); done).
  exists scheme, (netloc parsed). split.
  { apply Ok_inj in H. rewrite <- H, Hr, (app_assoc scheme), (strip_slashes _ _ _ Hslash Hhost Hpath').
    by rewrite <- app_assoc. }
  split; [done|]. split.
  { assert (Hsub : ∀ c, has_char c rest = false → has_char c (netloc parsed) = false).
    { intros c Hc. rewrite Hr in Hc. unfold has_char in *. rewrite existsb_app in Hc. by apply orb_false_iff in Hc as [? _]. }
    repeat constructor; [done|by apply Hsub..|by apply no_userinfo|]. apply Hsub. apply not_true_iff_false. intros Hx.
    apply existsb_exists in Hx as (x & Hx & Hc). rewrite forallb_forall in Hp'. specialize (Hp' x Hx). by apply N.eqb_eq in Hc as <-. }
  split.
  { destruct Hscheme as [->|Hh]; [by left|right]. split; [done|].
    match goal with H : negb (bool_decide (Url.scheme parsed = _)) && _ = false |- _ => rename H into Hplain end.
    rewrite Hs, Hh in Hplain. cbn in Hplain. apply negb_false_iff in Hplain.
    apply andb_prop in Hplain as [[? Hl]%andb_prop _]. split; [done|by apply loopback_named]. }
  apply host_allowed_listed in Ha as [[K1 K2]|[[K1 K2]|K1]]; [left; by rewrite <- Hs|right; left; split; [done|by apply loopback_named]|by right; right].
Qed.

(** ** Endpoint templates *)

(** The characters that structure a URL, or that a URL may not hold. *)
Definition structural (c : N) : bool := existsb (N.eqb c) [47; 63; 35; 92]%N || (c <=? 32)%N || (126 <? c)%N.

Lemma value_char_plain c : value_char c = true → structural c = false.
Proof.
  unfold value_char, unreserved, structural, is_alnum, is_alpha, is_upper, is_lower, is_digit, in_range. cbn [existsb]. lia.
Qed.

Lemma hex_plain n : (n < 16)%N → structural (upper_hex_digit n) = false.
Proof.
  intros Hn. apply value_char_plain. unfold upper_hex_digit, value_char, unreserved, is_alnum, is_alpha, is_upper, is_lower, is_digit, in_range.
  cbn [existsb]. destruct (N.ltb_spec n 10); lia.
Qed.

Lemma quote_plain s v : quote_value s = Ok v → List.filter structural v = [].
Proof.
  unfold quote_value. destruct (utf8 s) as [b|] eqn:Hb; [|done]. intros H%Ok_inj. subst v. apply CallID.utf8_bytes in Hb.
  induction Hb as [|x b Hx _ IH]; [done|]. cbn [flat_map]. rewrite List.filter_app, IH, app_nil_r. unfold quote_value_byte.
  destruct (value_char x) eqn:Ev; cbn [List.filter]; [by rewrite (value_char_plain x Ev)|].
  rewrite !hex_plain; [done|by apply N.mod_lt|apply N.Div0.div_lt_upper_bound; lia].
Qed.

Lemma replace_structural fuel old new s : List.filter structural old = [] → List.filter structural new = [] →
  List.filter structural (replace_text fuel old new s) = List.filter structural s.
Proof.
  intros Ho Hn. revert s. induction fuel as [|fuel IH]; intros s; [done|]. cbn [replace_text].
  destruct s as [|c s]; [done|]. destruct (starts_with old (c :: s)) eqn:E.
  - apply starts_with_split in E as [r E]. rewrite E at 1. rewrite drop_app_length, List.filter_app, Hn, IH, E, List.filter_app.
    by rewrite Ho.
  - cbn [List.filter]. by rewrite IH.
Qed.

Lemma in_braces_plain name : List.filter structural name = [] → List.filter structural (in_braces name) = [].
Proof. intros H. unfold in_braces. by rewrite !List.filter_app, H. Qed.

Section Templates.
Context {driver : Driver}.

Lemma fill_structural credentials rules names : ∀ template url,
  Forall (λ name, List.filter structural name = []) names →
  fill_template credentials rules names template = Ok url → List.filter structural url = List.filter structural template.
Proof.
  induction names as [|name names IH]; intros template url Hn H; cbn [fill_template] in H; [by apply Ok_inj in H as <-|].
  apply Forall_cons in Hn as [Hname Hn]. apply bind_Ok in H as (value & Hv & H). apply IH in H; [|done]. rewrite H.
  unfold py_replace. apply replace_structural; [by apply in_braces_plain|].
  unfold placeholder_value in Hv. apply bind_Ok in Hv as (raw & _ & Hv). apply bind_Ok in Hv as (r & _ & Hv).
  apply bind_Ok in Hv as (x & _ & Hv). by eapply quote_plain.
Qed.

(** No value can change the shape of a templated endpoint: whatever credentials and settings fill its
    placeholders, the slashes, question marks, hashes and backslashes of the result, in their order,
    are those of the template, and it has no white space, control or non-ASCII character that the
    template has not; so a value stays within the path segment or host label it fills. *)
Theorem template_shape_kept d template credentials key_document url :
  get "template" d = JStr template → dkeys d ⊆ [lit "template"; lit "templateValueRules"] →
  Forall (λ name, List.filter structural name = []) (placeholders template) →
  _resolve_source (JObj d) credentials key_document = Ok url → List.filter structural url = List.filter structural template.
Proof.
  intros Ht Hk Hn H. assert (Habsent : ∀ k, k ∉ [lit "template"; lit "templateValueRules"] → dhas k d = false).
  { intros k Hk'. apply bool_decide_eq_false_2. intros Hin. by apply Hk', Hk. }
  assert (Hitem : dget "template" d = Some (JStr template)).
  { unfold get, get_or in Ht. by destruct (dget "template" d); [subst|]. }
  unfold _resolve_source in H.
  rewrite !Habsent in H by (apply (bool_decide_eq_true_1 _); vm_compute; reflexivity). cbn [negb andb] in H.
  assert (dhas "template" d = true) as Hd.
  { apply bool_decide_eq_true_2. apply dget_elem in Hitem. unfold dkeys. change (lit "template") with (fst (lit "template", JStr template)).
    by apply list_elem_of_fmap_2. }
  rewrite Hd in H. unfold item in H. rewrite Hitem in H. cbn [mbind result_bind py_str] in H. by eapply fill_structural.
Qed.

End Templates.

(** ** Where requests go *)

(** [a] and [b] give the same results on the requests [P] admits. *)
Definition agree (P : token_request → Prop) (a b : token_request → send_result) : Prop := ∀ r, P r → a r = b r.

Section Sending.
Context (lower : pystr → pystr) (netloc_ok : pystr → bool) (loads : list N → option json).

Definition https (r : token_request) : Prop := lower (take 8 (r_url r)) = lit "https://".

Lemma exchange_agree e parameters basic a b (P : token_request → Prop) : (∀ r, https r → P r) → agree P a b →
  allows_plain_http e = false ∨ (∀ r, P r) →
  OAuth._exchange lower netloc_ok loads a e parameters basic = OAuth._exchange lower netloc_ok loads b e parameters basic.
Proof.
  intros HP Ha Hp. unfold OAuth._exchange. destruct (urlsplit netloc_ok (url e)) as [parsed|]; [|done]. cbn [mbind result_bind].
  destruct (url_invalid lower e parsed) eqn:Hu; [done|]. cbn [raise_if mbind result_bind].
  destruct (existsb _ (retained_response_fields e)); [done|]. destruct (existsb _ (dkeys _)); [done|]. cbn [raise_if mbind result_bind].
  destruct (if uses_json_request_body e then _ else _) as [body|]; [|done]. cbn [mbind result_bind].
  rewrite Ha; [done|]. destruct Hp as [Hp|Hp]; [|apply Hp]. apply HP. unfold https. cbn [r_url].
  unfold url_invalid in Hu. rewrite Hp in Hu. cbn [andb] in Hu. rewrite !orb_false_r in Hu.
  repeat (apply orb_false_iff in Hu as [Hu _]). by apply negb_false_iff, bool_decide_eq_true in Hu.
Qed.

Lemma refresh_token_agree e client token a b (P : token_request → Prop) : (∀ r, https r → P r) → agree P a b →
  allows_plain_http e = false ∨ (∀ r, P r) →
  exchange_refresh_token lower netloc_ok loads a e client token = exchange_refresh_token lower netloc_ok loads b e client token.
Proof.
  intros HP Ha Hp. unfold exchange_refresh_token. destruct (_ || _); [done|]. destruct (_apply_client_authentication _ _ _) as [[p c]|];
    [|done]. by eapply exchange_agree.
Qed.

Lemma client_credentials_agree e client scopes a b (P : token_request → Prop) : (∀ r, https r → P r) → agree P a b →
  allows_plain_http e = false ∨ (∀ r, P r) →
  exchange_client_credentials lower netloc_ok loads a e client scopes = exchange_client_credentials lower netloc_ok loads b e client scopes.
Proof.
  intros HP Ha Hp. unfold exchange_client_credentials. destruct (_ || _); [done|].
  destruct (_apply_client_authentication _ _ _) as [[p c]|]; [|done]. by eapply exchange_agree.
Qed.

Lemma assertion_agree e assertion a b (P : token_request → Prop) : (∀ r, https r → P r) → agree P a b →
  allows_plain_http e = false ∨ (∀ r, P r) →
  exchange_jwt_bearer_assertion lower netloc_ok loads a e assertion = exchange_jwt_bearer_assertion lower netloc_ok loads b e assertion.
Proof. intros HP Ha Hp. unfold exchange_jwt_bearer_assertion. destruct (negb _); [done|]. by eapply exchange_agree. Qed.

End Sending.

Section Requests.
Context {driver : Driver} {key : Type} (load_pem_private_key : list N → option (option key)) (rsa_sign : key → list N → list N).
Context (netloc_ok : pystr → bool) (clock : nat → reading → Z).

Lemma endpoint_plain grant url e : endpoint_of grant url = Ok e → allows_plain_http e = private_network grant.
Proof.
  unfold endpoint_of. intros H. repeat (apply bind_Ok in H as (? & _ & H)). by apply Ok_inj in H as <-.
Qed.

Lemma bind_ext {E A B} (m : result E A) (f g : A → result E B) : (∀ a, m = Ok a → f a = g a) → m ≫= f = m ≫= g.
Proof. destruct m; cbn; auto. Qed.

Lemma with_client_agree n grant credentials (a b : option pyfloat → token_request → send_result) (P : token_request → Prop) :
  (∀ r, https lower r → P r) → (∀ t, agree P (a t) (b t)) → private_network grant = false ∨ (∀ r, P r) →
  _exchange_with_client load_pem_private_key rsa_sign netloc_ok clock n grant credentials a
  = _exchange_with_client load_pem_private_key rsa_sign netloc_ok clock n grant credentials b.
Proof.
  intros HP Ha Hp. unfold _exchange_with_client.
  apply bind_ext; intros kd _. apply bind_ext; intros source _. apply bind_ext; intros url _.
  destruct (_ && _); [done|]. apply bind_ext; intros e He. apply endpoint_plain in He. rewrite <- He in Hp.
  apply bind_ext; intros kind _. destruct (is_str_of kind "jwt_bearer").
  - apply bind_ext; intros assertion _. apply bind_ext; intros am _. apply bind_ext; intros declared _.
    apply bind_ext; intros lifetime _. apply bind_ext; intros signed _.
    by rewrite (assertion_agree lower netloc_ok load_json e signed (a None) (b None) P HP (Ha None) Hp).
  - apply bind_ext; intros client _. apply bind_ext; intros timeout _. destruct (is_str_of kind "refresh").
    + apply bind_ext; intros name _. apply bind_ext; intros token _.
      by rewrite (refresh_token_agree lower netloc_ok load_json e client token (a timeout) (b timeout) P HP (Ha timeout) Hp).
    + apply bind_ext; intros src _. apply bind_ext; intros scopes _.
      by rewrite (client_credentials_agree lower netloc_ok load_json e client scopes (a timeout) (b timeout) P HP (Ha timeout) Hp).
Qed.

(** A client whose transport dials private networks only. *)
Definition private_client (c : option client_config) : Prop := ∃ config, c = Some config ∧ transport config = Some privateNetworkHTTP.

(** C13: a refresh depends on nothing but HTTPS requests and requests through a client restricted to
    private networks: two environments that answer those alike lead to the same result, whatever they
    would answer to any other request; so no grant material, client secret or assertion leaves in
    plain HTTP except on a private network, and no other answer can become a credential. *)
Theorem refresh_only_https send1 send2 credentials :
  (∀ n client timeout r, https lower r ∨ private_client client → send1 n client timeout r = send2 n client timeout r) →
  refresh load_pem_private_key rsa_sign netloc_ok false send1 clock credentials
  = refresh load_pem_private_key rsa_sign netloc_ok false send2 clock credentials.
Proof.
  intros Hs. assert (Hex : ∀ n grant c, _exchange load_pem_private_key rsa_sign netloc_ok false send1 clock n grant c
    = _exchange load_pem_private_key rsa_sign netloc_ok false send2 clock n grant c).
  { intros n grant c. unfold _exchange. destruct (private_network grant && negb false) eqn:Ep.
    - apply bind_ext; intros timeout _. apply bind_ext; intros client Hc.
      apply (with_client_agree n grant c _ _ (λ _, True)); [done| |by right].
      intros t r _. apply Hs. right. exists client. split; [done|]. unfold new_provider_http_client in Hc.
      destruct (fle _ _); [done|]. cbn in Hc. by apply Ok_inj in Hc as <-.
    - apply (with_client_agree n grant c _ _ (https lower)); [done| |left; by rewrite andb_true_r in Ep].
      intros t r Hr. apply Hs. by left. }
  assert (Hloop : ∀ grants n method c es,
    refresh_loop load_pem_private_key rsa_sign netloc_ok false send1 clock n method grants c es
    = refresh_loop load_pem_private_key rsa_sign netloc_ok false send2 clock n method grants c es).
  { induction grants as [|grant grants IH]; intros n method c es; [done|]. cbn [refresh_loop].
    apply bind_ext; intros [|] _; [apply IH|].
    assert (Hstep : refresh_grant_step load_pem_private_key rsa_sign netloc_ok false send1 clock n method grant c
      = refresh_grant_step load_pem_private_key rsa_sign netloc_ok false send2 clock n method grant c)
      by (unfold refresh_grant_step; by rewrite Hex).
    rewrite Hstep. apply bind_ext; intros [c' e] _. apply IH. }
  unfold refresh. apply bind_ext; intros method _. apply bind_ext; intros grants _.
  destruct grants as [|g grants]; [reflexivity|]. apply bind_ext; intros _ _. by rewrite Hloop.
Qed.

End Requests.

(** ** What a refresh writes *)

Lemma dset_holds {V} (P : pystr * V → Prop) k v (d : dict V) : P (k, v) → Forall P d → Forall P (dset k v d).
Proof.
  intros Hv. induction 1 as [|[k' v'] d Hx Hd IH]; cbn [dset]; [by repeat constructor|]. case_bool_decide as E.
  - subst. by constructor.
  - by constructor.
Qed.

Lemma dset_keys {V} k (v : V) d : dhas k d = true → dkeys (dset k v d) = dkeys d.
Proof.
  unfold dhas. rewrite bool_decide_eq_true. induction d as [|[k' v'] d IH]; intros H; cbn [dset dkeys map fst] in *.
  - by apply elem_of_nil in H.
  - case_bool_decide as E; cbn [map fst]; [by subst|]. f_equal. apply IH. by apply elem_of_cons in H as [?|?].
Qed.

Section Writes.
Context {driver : Driver} {key : Type} (load_pem_private_key : list N → option (option key)) (rsa_sign : key → list N → list N).
Context (netloc_ok : pystr → bool) (mock_transport : bool) (clock : nat → reading → Z).
Context (send : nat → option client_config → option pyfloat → token_request → send_result).

(** *** What one grant writes *)

(** The text of a credential under the attribute of a declared field, a secret when the method says so. *)
Definition kept_as (method : dict json) (destination attr value : pystr) (v : cred_value) : Prop :=
  dget destination _fields = Some attr ∧
  ((_is_secret method destination = Ok true ∧ v = Secret value) ∨ (_is_secret method destination = Ok false ∧ v = Plain value)).

(** The text a mapping names as the source: a string member of the token response. *)
Definition response_text (token : TokenResponse) (source value : pystr) : Prop :=
  dget source (_response_fields token) = Some value.

(** The text of a stored credential; an attribute that is absent is empty. *)
Definition field_text (credentials : credential) (name text : pystr) : Prop :=
  ∃ attr, dget name _fields = Some attr ∧
    (dget attr credentials = Some (Plain text) ∨ dget attr credentials = Some (Secret text) ∨
     (dget attr credentials = None ∧ text = [])).

(** The URL a rule is about: the string the response has under the source, the empty one for null, and
    without that, unless the rule requires it, the one stored before or else the rule's default. *)
Definition url_text (rule : dict json) (token : TokenResponse) (credentials : credential) (destination source value : pystr) : Prop :=
  dget source (retained_fields token) = Some (JStr value) ∨
  (dget source (retained_fields token) = Some JNull ∧ value = []) ∨
  (dget source (retained_fields token) = None ∧ py_bool (get "requireResponse" rule) = false ∧
   ((value ≠ [] ∧ field_text credentials destination value) ∨
    (field_text credentials destination [] ∧ get_or "defaultURL" (JStr []) rule = JStr value))).

(** What a grant may write, by its own manifest: each mapping of the response its source's string to its
    destination (but no blank refresh token), the URL rule the validated response URL to the credential it
    names, and each copy a stored credential's text to its destination. *)
Inductive writes (method grant : dict json) (token : TokenResponse) (copies : list json) (credentials : credential) :
    pystr → cred_value → Prop :=
  | writes_mapping m items it destination source attr value v :
      item "mappings" grant = Ok m → iterate m = Ok items → it ∈ items →
      subscript "credential" it = Ok destination → subscript "source" it = Ok source →
      response_text token (py_str source) value →
      ¬ (value = [] ∧ py_eq (JStr (py_str destination)) (get_or "refresh_field" (JStr []) grant) = true) →
      kept_as method (py_str destination) attr value v → writes method grant token copies credentials attr v
  | writes_url rule m items it destination source attr value url :
      item "response_url_validation" grant = Ok (JObj rule) → rule ≠ [] → item "credential" rule = Ok (JStr destination) →
      item "mappings" grant = Ok m → iterate m = Ok items → it ∈ items →
      subscript "credential" it = Ok (JStr destination) → subscript "source" it = Ok source →
      url_text rule token credentials destination (py_str source) value →
      _validate_response_url value rule = Ok url →
      dget destination _fields = Some attr → writes method grant token copies credentials attr (Plain url)
  | writes_copy it destination source attr value v :
      it ∈ copies → subscript "credential" it = Ok destination → subscript "fromCredential" it = Ok source →
      field_text credentials (py_str source) value →
      kept_as method (py_str destination) attr value v → writes method grant token copies credentials attr v.

(** What a grant makes of a credential: the same attributes, each with a value the grant writes to it, or,
    where it writes none, with the value it had. *)
Definition replaced (method grant : dict json) (token : TokenResponse) (copies : list json) (c c' : credential) : Prop :=
  dkeys c' = dkeys c ∧
  ∀ attr, (∃ v, writes method grant token copies c attr v ∧ dget attr c' = Some v) ∨
          ((∀ v, ¬ writes method grant token copies c attr v) ∧ dget attr c' = dget attr c).

(** The grants in their order: one whose refresh token is blank is left out, each other one exchanges the
    credential it finds for a token and writes what it may. *)
Inductive refreshed (method : dict json) : nat → list (dict json) → credential → credential → Prop :=
  | refreshed_done n c : refreshed method n [] c c
  | refreshed_skip n grant grants c c' :
      py_bool (get_or "refresh_field" (JStr []) grant) = true →
      _credential_value c (get_or "refresh_field" (JStr []) grant) = Ok [] →
      refreshed method (S n) grants c c' → refreshed method n (grant :: grants) c c'
  | refreshed_grant n grant grants c token copies c1 c' :
      _exchange load_pem_private_key rsa_sign netloc_ok mock_transport send clock n grant c = Ok (token, copies) →
      replaced method grant token copies c c1 →
      refreshed method (S n) grants c1 c' → refreshed method n (grant :: grants) c c'.

Lemma field_of_str name field : field_of (JStr name) = Ok field → dget name _fields = Some field.
Proof. unfold field_of. cbn [key_of mbind result_bind]. destruct (dget name _fields); [by intros ->%Ok_inj|done]. Qed.

Lemma stored_kept method destination value field v :
  stored method destination value = Ok (field, v) → kept_as method destination field value v.
Proof.
  unfold stored. intros (f & Hf & (secret & Hs & H%Ok_inj)%bind_Ok)%bind_Ok. injection H as <- <-.
  split; [by apply field_of_str|]. destruct secret; auto.
Qed.

Lemma credential_text credentials name value : _credential_value credentials name = Ok value →
  ∃ k, name = JStr k ∧ field_text credentials k value.
Proof.
  unfold _credential_value. intros (field & Hf & H%Ok_inj)%bind_Ok. unfold field_of in Hf.
  apply bind_Ok in Hf as (k & Hk & Hf). destruct k as [k|]; [|done].
  assert (name = JStr k) as -> by (destruct name; try done; by injection Hk as ->).
  exists k. split; [done|]. destruct (dget k _fields) as [f|] eqn:E; [|done]. apply Ok_inj in Hf as <-.
  exists f. split; [done|]. destruct (dget f credentials) as [[t|t]|]; cbn [reveal] in H; subst; auto.
Qed.

(** [updates'] extends [updates] by writes of the grant. *)
Definition extended (W : pystr → cred_value → Prop) (updates updates' : credential) : Prop :=
  (Forall (λ kv, W (fst kv) (snd kv)) updates → Forall (λ kv, W (fst kv) (snd kv)) updates') ∧
  ∀ attr, attr ∈ dkeys updates → attr ∈ dkeys updates'.

Lemma extended_refl W updates : extended W updates updates.
Proof. by split. Qed.

Lemma extended_dset W updates updates' attr v : W attr v → extended W (dset attr v updates) updates' →
  extended W updates updates' ∧ attr ∈ dkeys updates'.
Proof.
  intros Hw [H1 H2]. split; [split|].
  - intros Hu. by apply H1, dset_holds.
  - intros a Ha. apply H2, dkeys_dset_elem. by right.
  - apply H2, dkeys_dset_elem. by left.
Qed.

Section OneGrant.
Context (method grant : dict json) (token : TokenResponse) (copies : list json) (credentials : credential).
#[local] Abbreviation W := (writes method grant token copies credentials).

(** What the mapping items of the list would write is written, and nothing else. *)
Lemma mapped_extended m all : item "mappings" grant = Ok m → iterate m = Ok all →
  ∀ items updates updates', items ⊆ all → mapped_updates method grant token items updates = Ok updates' →
  extended W updates updates' ∧
  ∀ it destination source attr value v, it ∈ items →
    subscript "credential" it = Ok destination → subscript "source" it = Ok source →
    response_text token (py_str source) value →
    ¬ (value = [] ∧ py_eq (JStr (py_str destination)) (get_or "refresh_field" (JStr []) grant) = true) →
    kept_as method (py_str destination) attr value v → attr ∈ dkeys updates'.
Proof.
  intros Hm Hall. induction items as [|it items IH]; intros updates updates' Hin H; cbn [mapped_updates] in H.
  { apply Ok_inj in H as <-. split; [apply extended_refl|]. intros it ? ? ? ? ? Hit. by apply elem_of_nil in Hit. }
  apply bind_Ok in H as (destination & Hd & H). apply bind_Ok in H as (source & Hs & H). cbv zeta in H.
  assert (Hrest : items ⊆ all) by set_solver. assert (Hit : it ∈ all) by set_solver.
  destruct (mapped_response_string token (py_str source)) as [value|] eqn:Hv.
  2:{ destruct (IH _ _ Hrest H) as [He Hc]. split; [done|]. intros it' d s a x v [->|Hi]%elem_of_cons; [|by eapply Hc].
      intros Hd' Hs' Hx. rewrite Hs in Hs'. apply Ok_inj in Hs' as <-. unfold response_text in Hx. unfold mapped_response_string in Hv. congruence. }
  destruct (negb (truthy value) && _) eqn:Hblank.
  - destruct (IH _ _ Hrest H) as [He Hc]. split; [done|]. intros it' d s a x v [->|Hi]%elem_of_cons; [|by eapply Hc].
    intros Hd' Hs' Hx Hn. exfalso. rewrite Hs in Hs'. apply Ok_inj in Hs' as <-. rewrite Hd in Hd'. apply Ok_inj in Hd' as <-.
    assert (x = value) as -> by (unfold response_text in Hx; unfold mapped_response_string in Hv; congruence).
    apply Hn. apply andb_prop in Hblank as [Hb ?]. split; [by destruct value|done].
  - apply bind_Ok in H as ([field v] & Hst & H). apply stored_kept in Hst. destruct (IH _ _ Hrest H) as [He Hc].
    assert (Hw : W field v).
    { eapply writes_mapping; try done. intros [-> E]. by rewrite E in Hblank. }
    destruct (extended_dset _ _ _ _ _ Hw He) as [He' Hf]. split; [done|].
    intros it' d s a x w [->|Hi]%elem_of_cons; [|by eapply Hc].
    intros Hd' Hs' Hx _ [Ha _]. rewrite Hd in Hd'. apply Ok_inj in Hd' as <-. destruct Hst as [Hf' _]. congruence.
Qed.

Lemma copied_extended : ∀ items updates updates', items ⊆ copies →
  copied_updates method credentials items updates = Ok updates' →
  extended W updates updates' ∧
  ∀ it destination source attr value v, it ∈ items →
    subscript "credential" it = Ok destination → subscript "fromCredential" it = Ok source →
    field_text credentials (py_str source) value →
    kept_as method (py_str destination) attr value v → attr ∈ dkeys updates'.
Proof.
  induction items as [|it items IH]; intros updates updates' Hin H; cbn [copied_updates] in H.
  { apply Ok_inj in H as <-. split; [apply extended_refl|]. intros it ? ? ? ? ? Hit. by apply elem_of_nil in Hit. }
  apply bind_Ok in H as (destination & Hd & H). apply bind_Ok in H as (source & Hs & H). apply bind_Ok in H as (value & Hv & H).
  apply bind_Ok in H as ([field v] & Hst & H). apply stored_kept in Hst.
  assert (Hrest : items ⊆ copies) by set_solver. assert (Hit : it ∈ copies) by set_solver.
  destruct (IH _ _ Hrest H) as [He Hc]. apply credential_text in Hv as (k & Hk & Hv). injection Hk as <-.
  assert (Hw : W field v) by (by eapply writes_copy).
  destruct (extended_dset _ _ _ _ _ Hw He) as [He' Hf]. split; [done|].
  intros it' d s a x w [->|Hi]%elem_of_cons; [|by eapply Hc].
  intros Hd' Hs' _ [Ha _]. rewrite Hd in Hd'. apply Ok_inj in Hd' as <-. destruct Hst as [Hf' _]. congruence.
Qed.

End OneGrant.

Lemma lift_Ok {A} (m : res A) a : lift m = Ok a → m = Ok a.
Proof. destruct m; [by intros ->%Ok_inj|done]. Qed.

Lemma retry_refresh_not_Ok {A} message (a : A) : retry_refresh message ≠ Ok a.
Proof. unfold retry_refresh. by destruct (retry_error _ _). Qed.

Lemma url_source_item destination items source : url_source (JStr destination) items = Ok source →
  ∃ it s, it ∈ items ∧ subscript "credential" it = Ok (JStr destination) ∧ subscript "source" it = Ok s ∧ py_str s = source.
Proof.
  induction items as [|it items IH]; cbn [url_source]; [done|]. intros (c & Hc & H)%bind_Ok.
  destruct (py_eq c (JStr destination)) eqn:Heq.
  - apply bind_Ok in H as (s & Hs & H%Ok_inj). exists it, s. split; [by left|].
    assert (c = JStr destination) as ->; [|done]. destruct c; try done. cbn [py_eq num_value] in Heq. by apply bool_decide_eq_true in Heq as ->.
  - destruct (IH H) as (it' & s & Hi & ?). exists it', s. split; [by right|done].
Qed.

Lemma url_extended method grant token copies credentials m items updates updates' :
  item "mappings" grant = Ok m → iterate m = Ok items →
  url_update grant token credentials updates = Ok updates' →
  extended (writes method grant token copies credentials) updates updates' ∧
  ∀ rule destination attr, item "response_url_validation" grant = Ok (JObj rule) → rule ≠ [] →
    item "credential" rule = Ok (JStr destination) → dget destination _fields = Some attr → attr ∈ dkeys updates'.
Proof.
  intros Hm Hitems H. unfold url_update in H. apply bind_Ok in H as (rule & Hrule%lift_Ok & H).
  apply bind_Ok in Hrule as (r & Hr & Hrule). destruct r; try done. apply Ok_inj in Hrule as ->.
  destruct rule as [|r0 rule].
  { apply Ok_inj in H as <-. split; [apply extended_refl|]. intros rule' ? ? Hr' Hne. rewrite Hr in Hr'. apply Ok_inj in Hr'. congruence. }
  set (rule0 := r0 :: rule) in *.
  apply bind_Ok in H as (destination & Hd%lift_Ok & H).
  apply bind_Ok in H as (items' & Hi%lift_Ok & H). apply bind_Ok in Hi as (m' & Hm' & Hi).
  rewrite Hm in Hm'. apply Ok_inj in Hm' as <-. rewrite Hitems in Hi. apply Ok_inj in Hi as <-.
  apply bind_Ok in H as (source & Hsource%lift_Ok & H). apply bind_Ok in H as (prior & Hprior%lift_Ok & H).
  cbv zeta in H. apply credential_text in Hprior as (k & -> & Hprior).
  destruct (url_source_item _ _ _ Hsource) as (it & s & Hit & Hc & Hs & Hps).
  match type of H with match ?v with _ => _ end = _ => destruct v as [| | | |value| |] eqn:Hvalue end;
    try (by apply retry_refresh_not_Ok in H).
  apply bind_Ok in H as (valid & _ & H). destruct valid; [|by apply retry_refresh_not_Ok in H].
  apply bind_Ok in H as (field & Hf%lift_Ok & H). apply bind_Ok in H as (url & Hurl%lift_Ok & H). apply Ok_inj in H as <-.
  apply field_of_str in Hf.
  assert (Hw : writes method grant token copies credentials field (Plain url)).
  { eapply (writes_url _ _ _ _ _ rule0); try done. rewrite Hps. unfold url_text.
    destruct (dget source (retained_fields token)) as [[]|]; try done.
    - right; left. by injection Hvalue as <-.
    - left. by injection Hvalue as <-.
    - right; right. split; [done|]. destruct (py_bool (get "requireResponse" rule0)); [done|]. split; [done|].
      destruct (truthy prior) eqn:Hp.
      + injection Hvalue as <-. left. split; [by destruct prior|done].
      + right. destruct prior; [|done]. by split. }
  destruct (extended_dset _ updates _ _ _ Hw (extended_refl _ _)) as [He Hin]. split; [done|].
  intros rule' d attr Hr' _ Hd' Ha. rewrite Hr in Hr'. apply Ok_inj in Hr'. injection Hr' as <-.
  rewrite Hd in Hd'. apply Ok_inj in Hd'. injection Hd' as <-. congruence.
Qed.

Lemma fold_dset (updates : credential) : ∀ c attr,
  (∃ v, (attr, v) ∈ updates ∧ dget attr (fold_left (λ c kv, dset (fst kv) (snd kv) c) updates c) = Some v) ∨
  (attr ∉ dkeys updates ∧ dget attr (fold_left (λ c kv, dset (fst kv) (snd kv) c) updates c) = dget attr c).
Proof.
  induction updates as [|[k v] updates IH]; intros c attr; cbn [fold_left fst snd].
  { right. split; [apply not_elem_of_nil|done]. }
  destruct (IH (dset k v c) attr) as [(w & Hw & Hg)|[Hn Hg]]; [left; exists w; split; [by right|done]|].
  destruct (decide (k = attr)) as [->|Hne].
  - left. exists v. split; [by left|]. by rewrite Hg, dget_dset_eq.
  - right. split; [apply not_elem_of_cons; split; [by apply not_eq_sym|done]|]. rewrite Hg. by apply dget_dset_ne, not_eq_sym.
Qed.

Lemma fold_keys (updates : credential) : ∀ c, forallb (λ kv, dhas (fst kv) c) updates = true →
  dkeys (fold_left (λ c kv, dset (fst kv) (snd kv) c) updates c) = dkeys c.
Proof.
  induction updates as [|[k v] updates IH]; intros c Hf; [done|]. cbn [forallb fst snd fold_left] in *.
  apply andb_prop in Hf as [Hk Hf]. rewrite IH; [by apply dset_keys|]. unfold dhas in *. by rewrite (dset_keys k v c Hk).
Qed.

Lemma grant_replaced n method grant c token copies c' expiry :
  refresh_grant_step load_pem_private_key rsa_sign netloc_ok mock_transport send clock n method grant c = Ok (c', expiry) →
  _exchange load_pem_private_key rsa_sign netloc_ok mock_transport send clock n grant c = Ok (token, copies) →
  replaced method grant token copies c c'.
Proof.
  intros Hstep Hex. unfold refresh_grant_step in Hstep. rewrite Hex in Hstep. cbn [exchange_outcome mbind result_bind] in Hstep.
  apply bind_Ok in Hstep as (u0 & _ & Hstep). apply bind_Ok in Hstep as (u1 & H1%lift_Ok & Hstep).
  apply bind_Ok in Hstep as (u2 & H2 & Hstep). apply bind_Ok in Hstep as (u3 & H3%lift_Ok & Hstep).
  apply bind_Ok in Hstep as (c2 & H4%lift_Ok & Hstep). apply bind_Ok in Hstep as (ex & _ & Hstep).
  apply Ok_inj in Hstep. injection Hstep as <- _.
  apply bind_Ok in H1 as (m & Hm & (items & Hi & H1)%bind_Ok).
  destruct (mapped_extended method grant token copies c m items Hm Hi items [] u1 ltac:(done) H1) as [[E1 K1] C1].
  destruct (url_extended method grant token copies c m items u1 u2 Hm Hi H2) as [[E2 K2] C2].
  destruct (copied_extended method grant token copies c copies u2 u3 ltac:(done) H3) as [[E3 K3] C3].
  unfold replace_fields in H4. destruct (forallb _ u3) eqn:Hf; [|done]. apply Ok_inj in H4 as <-.
  split; [by apply fold_keys|]. intros attr.
  assert (Hall : Forall (λ kv, writes method grant token copies c (fst kv) (snd kv)) u3) by (apply E3, E2, E1; constructor).
  destruct (fold_dset u3 c attr) as [(v & Hv & Hg)|[Hn Hg]].
  - left. exists v. split; [|done]. rewrite Forall_forall in Hall. exact (Hall _ Hv).
  - right. split; [|done]. intros v Hw. apply Hn.
    destruct Hw as [m' items' it destination source attr value v Hm' Hi' Hit Hd Hs Hr Hnb Hk
      |rule m' items' it destination source attr value url Hr Hne Hd Hm' Hi' Hit Hc Hs Ht Hurl Ha
      |it destination source attr value v Hit Hd Hs Ht Hk].
    + rewrite Hm in Hm'. apply Ok_inj in Hm' as <-. rewrite Hi in Hi'. apply Ok_inj in Hi' as <-. apply K3, K2. by eapply C1.
    + apply K3. by eapply C2.
    + by eapply C3.
Qed.

Lemma exchanged grant (m : res (TokenResponse * list json)) x : exchange_outcome grant m = Ok x → m = Ok x.
Proof.
  destruct m as [y|e]; cbn [exchange_outcome]; [by intros ->%Ok_inj|]. intros H.
  repeat (case_match; try done); by apply retry_refresh_not_Ok in H.
Qed.

Lemma loop_refreshed method grants : ∀ n c es c' es',
  refresh_loop load_pem_private_key rsa_sign netloc_ok mock_transport send clock n method grants c es = Ok (c', es') →
  refreshed method n grants c c'.
Proof.
  induction grants as [|grant grants IH]; intros n c es c' es' H; cbn [refresh_loop] in H.
  - apply Ok_inj in H. injection H as <- _. apply refreshed_done.
  - apply bind_Ok in H as (skipped & Hs%lift_Ok & H). destruct skipped.
    + destruct (py_bool (get_or "refresh_field" (JStr []) grant)) eqn:Hb; [|by apply Ok_inj in Hs].
      apply bind_Ok in Hs as (v & Hv & Hs%Ok_inj). eapply refreshed_skip; [done| |by eapply IH].
      by destruct v.
    + apply bind_Ok in H as ([c1 e] & Hstep & H). pose proof Hstep as Hstep'. unfold refresh_grant_step in Hstep'.
      apply bind_Ok in Hstep' as ([token copies] & Hex%exchanged & _).
      eapply refreshed_grant; [exact Hex|by eapply grant_replaced|by eapply IH].
Qed.

Lemma refreshed_keys method n grants c c' : refreshed method n grants c c' → dkeys c' = dkeys c.
Proof. induction 1 as [| |n grant grants c token copies c1 c' _ [Hk _] _ IH]; [done|done|by rewrite IH]. Qed.

(** C12: a refresh replaces a credential as a whole and touches nothing but what the manifest maps.  Grant
    by grant (those whose refresh token is blank left out), each attribute of the credential keeps its
    value unless the grant writes it, and is then one of the values written: a mapping of the grant writes
    the response's string under its source to the field named by its destination, a copy the text of the
    stored credential it names, both as a secret exactly when the destination is declared [secretString],
    and the URL rule the validated URL (kept as text).  No attribute is added or dropped. *)
Theorem refresh_writes_mapped_fields credentials credentials' expiry :
  refresh load_pem_private_key rsa_sign netloc_ok mock_transport send clock credentials = Ok (credentials', expiry) →
  ∃ method grants, _selected_method credentials = Ok method ∧ _grants method = Ok grants ∧ grants ≠ [] ∧
    refreshed method 0 grants credentials credentials'.
Proof.
  unfold refresh. intros H. apply bind_Ok in H as (method & Hm%lift_Ok & H). exists method.
  apply bind_Ok in H as (grants & Hg%lift_Ok & H). exists grants. split; [done|]. split; [done|].
  destruct grants as [|g grants]; [done|]. split; [done|]. apply bind_Ok in H as (u & _ & H).
  apply bind_Ok in H as ([c es] & Hl & H). destruct es; [done|]. apply Ok_inj in H. injection H as <- _. by eapply loop_refreshed.
Qed.

End Writes.

(** ** Durations *)

Lemma fuel_length fuel : ∀ n acc, (length (N_digits_fuel fuel n acc) <= fuel + length acc)%nat.
Proof.
  induction fuel as [|fuel IH]; intros n acc; cbn [N_digits_fuel]; [lia|]. cbv zeta. destruct (n <? 10)%N; cbn [length]; [lia|].
  pose proof (IH (n / 10)%N ((48 + n mod 10)%N :: acc)) as H. cbn [length] in H. lia.
Qed.

Lemma str_of_Z_length z : (0 <= z < 2 ^ 63)%Z → (length (str_of_Z z) <= 64)%nat.
Proof.
  intros Hz. destruct z as [|p|p]; [vm_compute; lia| |lia]. cbn [str_of_Z]. unfold str_of_N.
  pose proof (fuel_length (S (N.to_nat (N.size (N.pos p)))) (N.pos p) []) as H. cbn [length] in H.
  assert (N.size (N.pos p) <= 63)%N; [|lia]. rewrite N.size_log2 by done.
  assert (N.log2 (N.pos p) < 63)%N; [|lia]. apply N.log2_lt_pow2; lia.
Qed.

Lemma str_of_Z_digits z : (0 <= z)%Z → forallb is_digit (str_of_Z z) = true ∧ str_of_Z z ≠ [].
Proof.
  intros Hz. replace z with (Z.abs z) by lia.
  destruct (CanonicalFacts.str_of_Z_abs_shape z) as [->|(c & s & -> & Hc & Hs)]; [done|]. split; [|done].
  cbn [forallb]. rewrite Hs, andb_true_r. unfold is_digit, in_range. lia.
Qed.

Section Durations.
Context (unicode_decimal : N → option N).

#[local] Abbreviation value_of := (decimal_value unicode_decimal).

Lemma ascii_decimal c : is_digit c = true → decimal_of unicode_decimal c = Some (c - 48)%N.
Proof. unfold decimal_of. by intros ->. Qed.

Lemma decimal_digits s : forallb is_digit s = true → value_of s = digits_value s.
Proof.
  unfold decimal_value, digits_value. generalize 0%Z as n. induction s as [|c s IH]; intros n Hs; [done|].
  cbn [forallb fold_left] in *. apply andb_prop in Hs as [Hc Hs]. rewrite (ascii_decimal c Hc). cbn [default].
  rewrite IH by done. f_equal. unfold is_digit, in_range in Hc. unfold id. lia.
Qed.

Lemma span_decimal s rest : forallb is_digit s = true →
  match rest with c :: _ => decimal_char unicode_decimal c = false | [] => True end →
  JsonText.span (decimal_char unicode_decimal) (s ++ rest) = (s, rest).
Proof.
  intros Hs Hr. induction s as [|c s IH]; cbn [app JsonText.span].
  - destruct rest as [|c rest]; [done|]. cbn [JsonText.span]. by rewrite Hr.
  - cbn [forallb] in Hs. apply andb_prop in Hs as [Hc Hs]. unfold decimal_char at 1. by rewrite (ascii_decimal c Hc), IH.
Qed.

(** A whole number of a one-letter unit. *)
Lemma whole_part n c unit rest : (0 <= n < 2 ^ 63)%Z → c ∈ [104; 109; 115]%N →
  duration_unit (c :: rest) = Some (unit, rest) →
  duration_part unicode_decimal (str_of_Z n ++ c :: rest) = Some (str_of_Z n, [], unit, rest) ∧
  int_of_decimal unicode_decimal (str_of_Z n) = Ok n.
Proof.
  intros Hn Hc Hu. destruct (str_of_Z_digits n ltac:(lia)) as [Hd Hne].
  assert (Hcs : decimal_char unicode_decimal c = false ∧ (c =? 46)%N = false).
  { repeat (apply elem_of_cons in Hc as [->|Hc]; [done|]). by apply elem_of_nil in Hc. }
  split.
  - unfold duration_part. rewrite span_decimal by tauto. unfold JsonText.head_is. rewrite (proj2 Hcs).
    apply truthy_true in Hne. rewrite Hne. cbn [orb]. by rewrite Hu.
  - unfold int_of_decimal. pose proof (str_of_Z_length n Hn). destruct (Nat.ltb_spec 4300 (length (str_of_Z n))); [lia|].
    rewrite decimal_digits by done. f_equal. replace n with (Z.abs n) at 1 by lia. rewrite CanonicalFacts.str_of_Z_value. lia.
Qed.

Lemma parts_whole fuel n c unit rest : (0 <= n < 2 ^ 63)%Z → c ∈ [104; 109; 115]%N →
  duration_unit (c :: rest) = Some (unit, rest) →
  duration_parts unicode_decimal (S fuel) (str_of_Z n ++ c :: rest)
  = total ← duration_parts unicode_decimal fuel rest; Ok (n * unit + total)%Z.
Proof.
  intros Hn Hc Hu. destruct (whole_part n c unit rest Hn Hc Hu) as [Hp Hi]. destruct (str_of_Z_digits n ltac:(lia)) as [_ Hne].
  cbn [duration_parts]. rewrite Hp, Hi. apply truthy_true in Hne. rewrite Hne. cbn [truthy mbind result_bind].
  destruct (str_of_Z n ++ c :: rest) eqn:E; [by destruct (str_of_Z n)|].
  destruct (duration_parts _ fuel rest) as [total|]; [|done]. cbn [mbind result_bind length]. f_equal.
  rewrite Z.mul_0_l, Z.div_0_l by lia. lia.
Qed.

Lemma not_a_zero (t : pystr) : (3 <= length t)%nat → t ∉ [lit "0"; lit "+0"; lit "-0"].
Proof.
  intros Ht Hin. assert (Forall (λ z : pystr, (length z < 3)%nat) [lit "0"; lit "+0"; lit "-0"]) as HF.
  { repeat (constructor; [vm_compute; lia|]). constructor. }
  rewrite Forall_forall in HF. specialize (HF t Hin). cbn beta in HF. lia.
Qed.

(** Durations are read as Go writes them: for every number of hours, minutes and seconds that Go's
    64-bit nanoseconds can hold, the text with its three units is read as exactly that many
    microseconds, and with a leading minus sign as their negation. *)
Theorem durations_read h m s : (0 <= h)%Z → (0 <= m)%Z → (0 <= s)%Z → ((h * 3600 + m * 60 + s) * 1000000000 < 2 ^ 63)%Z →
  let text := str_of_Z h ++ lit "h" ++ str_of_Z m ++ lit "m" ++ str_of_Z s ++ lit "s" in
  _parse_duration unicode_decimal text = Ok ((h * 3600 + m * 60 + s) * 1000000)%Z ∧
  _parse_duration unicode_decimal (lit "-" ++ text) = Ok (- ((h * 3600 + m * 60 + s) * 1000000))%Z.
Proof.
  intros Hh Hm Hs Hb. cbv zeta. set (text := str_of_Z h ++ _).
  destruct (str_of_Z_digits h Hh) as [Dh Nh]. destruct (str_of_Z_digits m Hm) as [Dm Nm].
  assert (Hparts : ∀ fuel, (3 <= fuel)%nat →
    duration_parts unicode_decimal fuel text = Ok ((h * 3600 + m * 60 + s) * 1000000000)%Z).
  { intros fuel Hf. do 3 (destruct fuel as [|fuel]; [lia|]). unfold text.
    change (lit "h" ++ ?x) with (104%N :: x). change (lit "m" ++ ?x) with (109%N :: x). change (lit "s") with [115%N].
    rewrite (parts_whole _ h 104 3600000000000) by (first [lia|reflexivity|set_solver]).
    rewrite (parts_whole _ m 109 60000000000); [|lia|set_solver|].
    2: { destruct (str_of_Z_digits s Hs) as [Ds Ns]. destruct (str_of_Z s) as [|c r]; [done|]. cbn [app duration_unit].
         cbn [forallb] in Ds. apply andb_prop in Ds as [Dc _]. unfold is_digit, in_range in Dc.
         by replace (c =? 115)%N with false by lia. }
    rewrite (parts_whole _ s 115 1000000000) by (first [lia|reflexivity|set_solver]).
    destruct fuel; cbn [duration_parts mbind result_bind]; f_equal; lia. }
  assert (Hlen : (3 <= length text)%nat) by (subst text; rewrite !length_app;
    repeat match goal with |- context [length (lit ?u)] => change (length (lit u)) with 1%nat end; lia).
  assert (Hhead : ∃ c r, text = c :: r ∧ is_digit c = true).
  { unfold text. destruct (str_of_Z h) as [|c r]; [done|]. exists c. eexists. split; [reflexivity|].
    cbn [forallb] in Dh. by apply andb_prop in Dh as [? _]. }
  assert (Hnot : (text ∉ [lit "0"; lit "+0"; lit "-0"]) ∧ (lit "-" ++ text) ∉ [lit "0"; lit "+0"; lit "-0"]).
  { split; apply not_a_zero; [lia|]. rewrite length_app. lia. }
  destruct Hhead as (c & r & Ht & Hc). unfold is_digit, in_range in Hc.
  assert (Hdiv : ((h * 3600 + m * 60 + s) * 1000000000 / 1000 = (h * 3600 + m * 60 + s) * 1000000)%Z).
  { replace ((h * 3600 + m * 60 + s) * 1000000000)%Z with ((h * 3600 + m * 60 + s) * 1000000 * 1000)%Z by lia.
    by rewrite Z.div_mul. }
  clearbody text. subst text. unfold _parse_duration. split.
  - rewrite (bool_decide_eq_false_2 _ (proj1 Hnot)).
    change (starts_with "-" (c :: r)) with ((45 =? c)%N && true). change (starts_with "+" (c :: r)) with ((43 =? c)%N && true).
    replace (45 =? c)%N with false by lia. replace (43 =? c)%N with false by lia. cbn [andb orb truthy negb]. rewrite (Hparts _ Hlen).
    cbn [mbind result_bind]. destruct (Z.ltb_spec (2 ^ 63 - 1) ((h * 3600 + m * 60 + s) * 1000000000)); [lia|]. by rewrite Hdiv.
  - rewrite (bool_decide_eq_false_2 _ (proj2 Hnot)). change (lit "-" ++ c :: r) with (45%N :: c :: r).
    change (starts_with "-" (45%N :: c :: r)) with true. cbn [andb orb truthy negb tail]. rewrite (Hparts _ Hlen).
    cbn [mbind result_bind]. destruct (Z.ltb_spec (2 ^ 63) ((h * 3600 + m * 60 + s) * 1000000000)); [lia|]. by rewrite Hdiv.
Qed.

End Durations.

(** ** What is kept *)

Section Kept.
Context {driver : Driver}.








Lemma has_no_value credentials name : has_value credentials (JStr name) = Ok false → field_text credentials name [].
Proof.
  unfold has_value. intros (v & Hv & H%Ok_inj)%bind_Ok. apply credential_text in Hv as (k & [= ->] & Hv). by destruct v.
Qed.




End Kept.

(** ** Examples *)

(** A driver of a method that declares client credentials, with one more rule for undated tokens. *)
Definition sample_method (rule : json) : dict json :=
  [(lit "fields", JArr [JObj [(lit "name", JStr "access"); (lit "type", JStr "secretString")]]);
   (lit "clientCredentials", JObj
      [(lit "tokenEndpoint", JStr "https://auth.acme.example/token"); (lit "clientIDCredential", JStr "id");
       (lit "clientSecretCredential", JStr "secret"); (lit "storedMissingExpiry", rule);
       (lit "credentialMappings",
        JArr [JObj [(lit "credential", JStr "access"); (lit "source", JStr "access_token")]])])].

Definition sample_driver (auth : dict json) : Driver := {|
  unicode_decimal _ := None; lower s := ascii_lower s; pattern_compiles _ := true; pattern_matches _ _ := true;
  str_of _ := lit "None"; _provider_name := lit "acme"; _auth := auth;
  _fields := [(lit "access", lit "access_token"); (lit "id", lit "client_id"); (lit "secret", lit "client_secret")];
  _settings := [] |}.

Definition sample_credential : credential :=
  [(lit "access_token", Secret (lit "old")); (lit "client_id", Plain (lit "id")); (lit "client_secret", Secret (lit "s3"))].

(** A provider that issues a token of the given lifetime, and the network that answers nothing else. *)
Definition answer (expires : Z) : send_result :=
  Responded 200 [Chunk (JsonText.quoted ("{'access_token':'tok','token_type':'Bearer','expires_in':" ++ str_of_Z expires ++ "}"))].

Definition sample_send (expires : Z) (n : nat) (client : option client_config) (timeout : option pyfloat) (r : token_request) : send_result :=
  if bool_decide (r_url r = lit "https://auth.acme.example/token") then answer expires else SendFailed.

Definition sample_clock (n : nat) (r : reading) : Z := 1767225600000000.

Definition sample_refresh (expires : Z) : outcome (credential * Z) :=
  let driver := sample_driver (sample_method (JStr "keep")) in
  refresh (λ _, None) (λ (_ : unit) b, b) (λ _, true) false (sample_send expires) sample_clock sample_credential.

(** A provider that reports an expiry no [datetime] can hold ends a refresh in an [OverflowError], outside
    the errors a refresh turns into retryable failures. *)
Theorem distant_expiry_escapes :
  is_ok (sample_refresh 3600) = true ∧ sample_refresh 999999999999 = Err (Raised (Exn OverflowError "date value out of range")).
Proof. split; vm_compute; reflexivity. Qed.

(** A driver is built for client credentials whose undated tokens depend on a refresh token, and then
    cannot decide any refresh: the grant has no such field to look up. *)
Theorem refresh_token_rule_unchecked :
  let driver := sample_driver (sample_method (JStr "refreshIfRefreshTokenPresent")) in
  new_driver = Ok () ∧ ∀ expires_at now, refresh_required sample_credential expires_at now = Err (Exn KeyError []).
Proof. split; [vm_compute; reflexivity|]. intros [e|] now; reflexivity. Qed.

(** A sign alone is read as no time at all, though it is no duration. *)
Theorem bare_sign_accepted unicode_decimal :
  _parse_duration unicode_decimal "-" = Ok 0%Z ∧ _parse_duration unicode_decimal "+" = Ok 0%Z.
Proof. done. Qed.

Definition hosts_rule : dict json := [(lit "allowedHosts", JArr [JStr "api.acme.example"])].

Lemma response_url_confined_witness :
  ∃ url, _validate_response_url "https://api.acme.example/" hosts_rule = Ok url ∧ has_char 64 url = false.
Proof.
  destruct (_validate_response_url "https://api.acme.example/" hosts_rule) as [url|e] eqn:E; [|vm_compute in E; discriminate E].
  exists url. split; [reflexivity|]. destruct (response_url_confined _ _ _ E) as (scheme & host & -> & _ & Hc & Hs & _).
  unfold has_char in *. rewrite !existsb_app. apply Forall_forall with (x := 64%N) in Hc; [|set_solver].
  rewrite Hc. destruct Hs as [-> | [-> _]]; reflexivity.
Defined.

Lemma durations_read_witness :
  _parse_duration (λ _, None) (str_of_Z 1 ++ lit "h" ++ str_of_Z 30 ++ lit "m" ++ str_of_Z 15 ++ lit "s") = Ok 5415000000%Z.
Proof. exact (proj1 (durations_read (λ _, None) 1 30 15 ltac:(lia) ltac:(lia) ltac:(lia) ltac:(lia))). Defined.

Definition path_template : dict json := [(lit "template", JStr "https://{id}.acme.example/token")].

Lemma template_shape_kept_witness :
  let driver := sample_driver (sample_method (JStr "keep")) in
  let credentials := [(lit "client_id", Plain (lit "a/b?c#d"))] in
  match _resolve_source (JObj path_template) credentials [] with
  | Ok url => List.filter structural url = lit "///"
  | Err _ => False
  end.
Proof.
  intros driver credentials. destruct (_resolve_source _ _ _) as [url|e] eqn:E; [|vm_compute in E; discriminate E].
  rewrite (template_shape_kept path_template "https://{id}.acme.example/token" credentials [] url); [reflexivity..| | |exact E].
  - unfold dkeys, path_template. cbn [map fst]. set_solver.
  - apply (bool_decide_eq_true_1 _). vm_compute. reflexivity.
Defined.

(** A network that answers as the sample does over HTTPS and to private clients, and hands out another
    token to anything else. *)
Definition rogue_send (n : nat) (client : option client_config) (timeout : option pyfloat) (r : token_request) : send_result :=
  if bool_decide (ascii_lower (take 8 (r_url r)) = lit "https://")
     || match client with Some c => bool_decide (transport c = Some privateNetworkHTTP) | None => false end
  then sample_send 3600 n client timeout r else answer 7.

Lemma refresh_only_https_witness :
  let driver := sample_driver (sample_method (JStr "keep")) in
  refresh (λ _, None) (λ (_ : unit) b, b) (λ _, true) false rogue_send sample_clock sample_credential = sample_refresh 3600.
Proof.
  intros driver. apply (refresh_only_https (λ _, None) (λ (_ : unit) b, b) (λ _, true) sample_clock).
  intros n client timeout r H. unfold rogue_send.
  destruct H as [H|(config & -> & H)].
  - rewrite bool_decide_eq_true_2 by exact H. reflexivity.
  - rewrite (bool_decide_eq_true_2 _ H), orb_true_r. reflexivity.
Defined.

Lemma refresh_writes_mapped_fields_witness :
  match sample_refresh 3600 with
  | Ok (credentials, _) => dkeys credentials = dkeys sample_credential
  | Err _ => False
  end.
Proof.
  destruct (sample_refresh 3600) as [[c e]|err] eqn:E; [|vm_compute in E; discriminate E].
  destruct (refresh_writes_mapped_fields _ _ _ _ _ _ _ _ _ E) as (method & grants & _ & _ & _ & H).
  exact (refreshed_keys _ _ _ _ _ _ _ _ _ _ _ H).
Defined.


End ManifestFacts.
