(* ===== verification/ChatFormat.v ===== *)
(** * The Chat Completions dialect

    sdkpython/src/dex_connectors/sdk/textgen/openaichat.py: the profile of an OpenAI-compatible
    provider and its checks, the encoder, the decoders of complete and of streamed answers, and the
    wire format they make.  Compiling and searching the regular expressions of model rules are
    parameters. *)

From S2P Require Import Prelude Json JsonText JsonDumps Errors Retry Url ProviderHttp Definitions.
From S2P Require Import TextGen StructuredOutput ProjectModels TextGenAttempt.

(** [_FIELD.fullmatch]. *)
Definition field_match (s : pystr) : bool :=
  match s with
  | c :: rest => is_lower c && forallb (λ c, is_lower c || is_digit c || (c =? 95)%N) rest && (length rest <=? 63)%nat
  | [] => false
  end.

Definition in_quotes (s : pystr) : pystr := [34%N] ++ s ++ [34%N].

Inductive InstructionsRole := SYSTEM | DEVELOPER.
Inductive MaxTokensField := MAX_TOKENS | MAX_COMPLETION_TOKENS.
Inductive StreamingPolicy := NEVER | ALWAYS.

#[global] Instance StreamingPolicy_eq_dec : EqDecision StreamingPolicy.
Proof. solve_decision. Defined.

Definition role_value (r : InstructionsRole) : pystr :=
  match r with SYSTEM => "system" | DEVELOPER => "developer" end.
Definition field_value (f : MaxTokensField) : pystr :=
  match f with MAX_TOKENS => "max_tokens" | MAX_COMPLETION_TOKENS => "max_completion_tokens" end.
Definition message_role (r : MessageRole) : pystr :=
  match r with USER => "user" | ASSISTANT => "assistant" end.

Record ModelRule := mkModelRule {
  model_id_prefix : pystr;
  model_id_pattern : pystr;
  r_temperature : option TemperaturePolicy;
  r_reasoning_efforts : option (dict pystr);
  r_structured_output : option StructuredOutputRules;
  r_max_tokens_field : option MaxTokensField;
  r_streaming : option StreamingPolicy
}.

Record Profile := mkProfile {
  pf_provider_name : pystr;
  chat_completions_path : pystr;
  pf_credential_name : pystr;
  pf_credential_prefix : pystr;
  fixed_headers : dict pystr;
  instructions_role : InstructionsRole;
  max_tokens_field : MaxTokensField;
  pf_reasoning_efforts : dict pystr;
  pf_temperature : TemperaturePolicy;
  pf_structured_output : StructuredOutputRules;
  should_send_strict_json_schema : bool;
  streaming : StreamingPolicy;
  should_request_stream_usage : bool;
  allowed_request_fields : list pystr;
  pf_finish_reasons : dict FinishReason;
  pf_error_rules : list ErrorRule;
  pf_error_token_pointers : list pystr;
  pf_request_id_headers : list pystr;
  pf_rate_limit_headers : list pystr;
  pf_stall_timeout_seconds : pyfloat;
  model_rules : list ModelRule
}.

(** ** Checks of a profile *)

Definition effort_names : list pystr :=
  [lit "none"; lit "minimal"; lit "low"; lit "medium"; lit "high"; lit "xhigh"; lit "max"].

(** [_validate_settings]; the enumerations are typed here. *)
Definition _validate_settings (efforts : option (dict pystr)) (structured : StructuredOutputRules) : res unit :=
  for_each (λ kv, raise_if (negb (bool_decide (fst kv ∈ effort_names)) || negb (field_match (snd kv)))
                    ValueError "openaichat profile reasoning effort is invalid") (default [] efforts) ≫= λ _,
  validate_rules structured.

Definition no_structured_output : StructuredOutputRules := mkRules MODE_NONE [] [].

Section Dialect.
(** [re.compile] accepts the pattern; [re.search(pattern, model)] finds it. *)
Context (pattern_compiles : pystr → bool) (pattern_found : pystr → pystr → bool).

(** One model rule. *)
Definition validate_model_rule (index : nat) (r : ModelRule) : res unit :=
  let pattern := model_id_pattern r in
  raise_if (eqb (truthy (model_id_prefix r)) (truthy pattern)) ValueError
    ("openaichat profile model rule " ++ str_of_Z (Z.of_nat index) ++ " must set exactly one of prefix and pattern")
    ≫= λ _,
  raise_if (truthy pattern && (negb (starts_with "^" pattern) || negb (ends_with "$" pattern)))
    ValueError "openaichat profile model pattern must be anchored with ^ and $" ≫= λ _,
  raise_if (truthy pattern && negb (pattern_compiles pattern))
    ValueError "openaichat profile model pattern is invalid" ≫= λ _,
  _validate_settings (r_reasoning_efforts r) (default no_structured_output (r_structured_output r)).

Fixpoint validate_model_rules (index : nat) (rules : list ModelRule) : res unit :=
  match rules with
  | [] => Ok ()
  | r :: rules => validate_model_rule index r ≫= λ _, validate_model_rules (S index) rules
  end.

Definition reserved_names (p : Profile) : list pystr :=
  [ascii_lower (pf_credential_name p); lit "content-type"; lit "content-length"; lit "accept"; lit "host"].

Definition can_stream (p : Profile) : bool :=
  bool_decide (streaming p = ALWAYS) || existsb (λ r, bool_decide (r_streaming r = Some ALWAYS)) (model_rules p).

(** The fields a request may always have, sorted. *)
Definition required_fields (p : Profile) : list pystr :=
  [lit "messages"; lit "model"]
    ++ (if can_stream p then lit "stream" :: (if should_request_stream_usage p then [lit "stream_options"] else [])
        else []).

(** [_validate_profile]. *)
Definition _validate_profile (p : Profile) : res unit :=
  raise_if (negb (truthy (py_strip (pf_provider_name p)))) ValueError "openaichat profile provider name is required"
    ≫= λ _,
  raise_if (negb (starts_with "/" (chat_completions_path p))
            || existsb (λ c, (c =? 63)%N || (c =? 35)%N || (c =? 32)%N) (chat_completions_path p))
    ValueError "openaichat profile chat completions path must start with / and hold no query, fragment, or space"
    ≫= λ _,
  for_each (λ kv,
    raise_if (negb (header_match (fst kv)) || bool_decide (ascii_lower (fst kv) ∈ reserved_names p))
      ValueError "openaichat profile fixed header name is invalid or reserved" ≫= λ _,
    raise_if (existsb (λ c, (c <? 32)%N || (126 <? c)%N) (snd kv))
      ValueError "openaichat profile fixed header value must be printable ASCII") (fixed_headers p) ≫= λ _,
  _validate_settings (Some (pf_reasoning_efforts p)) (pf_structured_output p) ≫= λ _,
  for_each (λ name, raise_if (negb (field_match name)) ValueError "openaichat profile allowed request field is invalid")
    (allowed_request_fields p) ≫= λ _,
  validate_model_rules 0 (model_rules p) ≫= λ _,
  match allowed_request_fields p with
  | [] => Ok ()
  | allowed =>
      for_each (λ name, raise_if (negb (bool_decide (name ∈ allowed))) ValueError
                          ("openaichat profile allowed request fields must include " ++ in_quotes name)) (required_fields p)
  end.

(** ** Requests *)

(** The rule for a model. *)
Definition rule_applies (model : pystr) (r : ModelRule) : bool :=
  (truthy (model_id_prefix r) && starts_with (model_id_prefix r) model)
  || (truthy (model_id_pattern r) && pattern_found (model_id_pattern r) model).

(** [settings]. *)
Definition settings (p : Profile) (model : pystr) : ModelRequestRules * MaxTokensField * StreamingPolicy :=
  match List.find (rule_applies model) (model_rules p) with
  | None => (mkModelRules (pf_temperature p) (pf_reasoning_efforts p) (pf_structured_output p),
             max_tokens_field p, streaming p)
  | Some r =>
      (mkModelRules (default (pf_temperature p) (r_temperature r))
         (default (pf_reasoning_efforts p) (r_reasoning_efforts r))
         (default (pf_structured_output p) (r_structured_output r)),
       default (max_tokens_field p) (r_max_tokens_field r), default (streaming p) (r_streaming r))
  end.

Definition rules_for_model (p : Profile) (model : pystr) : ModelRequestRules := fst (fst (settings p model)).

(** The messages of the body, the instructions first. *)
Definition body_messages (p : Profile) (request : TextGenerationRequest) : list json :=
  (if truthy (instructions request)
   then [JObj [(lit "role", JStr (role_value (instructions_role p))); (lit "content", JStr (instructions request))]]
   else [])
    ++ map (λ m, JObj [(lit "role", JStr (message_role (role m))); (lit "content", JStr (m_text m))]) (messages request).

(** [response_format]. *)
Definition response_format (p : Profile) (rules : StructuredOutputRules) (output : StructuredOutput) : dict json :=
  match mode rules with
  | JSON_SCHEMA =>
      [(lit "response_format",
        JObj [(lit "type", JStr "json_schema");
              (lit "json_schema",
               JObj ([(lit "name", JStr (so_name output)); (lit "schema", so_schema output)]
                     ++ (if truthy (so_description output) then [(lit "description", JStr (so_description output))] else [])
                     ++ (if should_send_strict_json_schema p then [(lit "strict", JBool true)] else [])))])]
  | JSON_OBJECT_WITH_INSTRUCTION => [(lit "response_format", JObj [(lit "type", JStr "json_object")])]
  | MODE_NONE => []
  end.

Definition format_fields (p : Profile) (request : TextGenerationRequest) (rules : ModelRequestRules) : dict json :=
  match structured_output request with
  | Some output => response_format p (mr_structured_output rules) output
  | None => []
  end.

(** The request body. *)
Definition request_body (p : Profile) (request : TextGenerationRequest) (rules : ModelRequestRules) : res (dict json) :=
  let '(_, tokens_field, streaming) := settings p (model request) in
  effort ← (if truthy (reasoning_effort request) then
              match dget (reasoning_effort request) (mr_reasoning_efforts rules) with
              | Some value => Ok [(lit "reasoning_effort", JStr value)]
              | None => raise KeyError (reasoning_effort request)
              end
            else Ok []);
  Ok ([(lit "model", JStr (model request)); (lit "messages", JArr (body_messages p request))]
      ++ (if (0 <? max_output_tokens request)%Z then [(field_value tokens_field, JInt (max_output_tokens request))] else [])
      ++ (match temperature request with Some t => [(lit "temperature", JFloat t)] | None => [] end)
      ++ effort
      ++ format_fields p request rules
      ++ (if bool_decide (streaming = ALWAYS)
          then (lit "stream", JBool true)
                 :: (if should_request_stream_usage p
                     then [(lit "stream_options", JObj [(lit "include_usage", JBool true)])] else [])
          else [])).

(** [json.dumps(body, separators=(",", ":"), allow_nan=False).encode()]. *)
Definition encode_body (body : dict json) : res (list N) :=
  match dumps_ascii "," ":" false (JObj body) with
  | Ok text => Ok text
  | Err e => if isinst e TypeError || isinst e ValueError
             then raise ValueError "the request body is not JSON serializable" else Err e
  end.

(** [encode_request]. *)
Definition encode_request (p : Profile) (request : TextGenerationRequest) (rules : ModelRequestRules) : res EncodedRequest :=
  body ← request_body p request rules;
  (match allowed_request_fields p with
   | [] => Ok ()
   | allowed =>
       for_each (λ name, raise_if (negb (bool_decide (name ∈ allowed))) ValueError
                           ("the provider does not accept the " ++ in_quotes name ++ " request field")) (sort_by id (dkeys body))
   end) ≫= λ _,
  encoded ← encode_body body;
  Ok (mkEncoded (chat_completions_path p) encoded (fixed_headers p) (bool_decide (snd (settings p (model request)) = ALWAYS))).

End Dialect.

(** ** Fields of an answer *)

(** [_nullable_string]. *)
Definition _nullable_string (value : json) : res pystr :=
  match value with
  | JNull => Ok []
  | JStr s => Ok s
  | _ => raise ValueError "chat field must be a string"
  end.

(** The checks of a message or delta of a choice. *)
Definition check_message (item : dict json) (field_name : pystr) : res unit :=
  match get field_name item with
  | JNull => Ok ()
  | JObj delta =>
      for_each (λ name, _nullable_string (get name delta) ≫= λ _, Ok ()) [lit "reasoning_content"; lit "refusal"]
  | _ => raise ValueError "chat message must be an object"
  end.

(** One choice: its checks, and whether its index is absent or zero. *)
Definition check_choice (item : json) : res (dict json * bool) :=
  match item with
  | JObj d =>
      first ← match get "index" d with
              | JNull => Ok true
              | JInt n => Ok (n =? 0)%Z
              | _ => raise ValueError "chat choice index must be an integer"
              end;
      _nullable_string (get "finish_reason" d) ≫= λ _,
      for_each (check_message d) [lit "message"; lit "delta"] ≫= λ _,
      Ok (d, first)
  | _ => raise ValueError "chat choice must be an object"
  end.

Fixpoint first_of (first : option (dict json)) (items : list json) : res (option (dict json)) :=
  match items with
  | [] => Ok first
  | item :: items =>
      '(d, candidate) ← check_choice item;
      first_of (match first with Some _ => first | None => if candidate : bool then Some d else None end) items
  end.

(** [_first_choice]. *)
Definition _first_choice (value : json) : res (option (dict json)) :=
  match value with
  | JNull => Ok None
  | JArr items => first_of None items
  | _ => raise ValueError "chat choices must be an array"
  end.

(** The parts of a content array. *)
Fixpoint content_parts (items : list json) : res (list ResponsePart) :=
  match items with
  | [] => Ok []
  | JNull :: items => content_parts items
  | JObj item :: items =>
      part_type ← _nullable_string (get "type" item);
      part_text ← (if bool_decide (part_type = lit "text") then _nullable_string (get "text" item) else Ok []);
      rest ← content_parts items;
      Ok ((if truthy part_text then [mkPart part_text false] else []) ++ rest)
  | _ => raise ValueError "chat content part must be an object"
  end.

(** [_parts]. *)
Definition _parts (delta : json) : res (list ResponsePart * bool) :=
  d ← match delta with
      | JNull => Ok []
      | JObj d => Ok d
      | _ => raise ValueError "chat message must be an object"
      end;
  reasoning ← match get "reasoning_content" d with
              | JNull => Ok []
              | JStr s => Ok (if truthy s then [mkPart s true] else [])
              | _ => raise ValueError "chat reasoning content must be a string"
              end;
  content ← match get "content" d with
            | JNull => Ok []
            | JStr s => Ok (if truthy s then [mkPart s false] else [])
            | JArr items => content_parts items
            | _ => raise ValueError "chat content has invalid type"
            end;
  refusal ← match get "refusal" d with
            | JNull => Ok []
            | JStr s => Ok s
            | _ => raise ValueError "chat refusal must be a string"
            end;
  Ok (reasoning ++ content, truthy refusal).

(** ** Token counts *)

(** A [decimal.Decimal]: its sign, its digits without leading zeros, and the exponent of the last. *)
Record decimal := mkDecimal { d_negative : bool; d_digits : pystr; d_exponent : Z }.

Definition strip_leading (digits : pystr) : pystr := drop_while (λ c, (c =? 48)%N) digits.

(** The number that [_JSON_NUMBER.fullmatch] accepts. *)
Definition json_number (s : pystr) : option decimal :=
  let negative := head_is 45 s in
  let s := if negative then tail s else s in
  let '(digits, r) := if head_is 48 s then ([48%N], tail s) else span is_digit s in
  match digits with
  | [] => None
  | _ =>
      let '(fraction, r) := scan_fraction r in
      let '(exponent, r) := scan_exponent r in
      match r with
      | [] => let f := default [] fraction in
              Some (mkDecimal negative (strip_leading (digits ++ f)) (default 0%Z exponent - Z.of_nat (length f)))
      | _ => None
      end
  end.

(** The exponent of the first digit. *)
Definition adjusted (d : decimal) : Z := (d_exponent d + Z.of_nat (length (d_digits d)) - 1)%Z.

(** [Decimal(text)] refuses what its exponent limits cannot hold. *)
Definition constructible (d : decimal) : bool :=
  (-1999999999999999997 <=? d_exponent d)%Z
  && ((if truthy (d_digits d) then adjusted d else d_exponent d) <=? 999999999999999999)%Z.

(** [abs] rounds to 28 digits, half to even, with exponents up to 999999. *)
Definition abs_overflows (d : decimal) : bool :=
  truthy (d_digits d)
  && ((1000000 <=? adjusted d)
      || ((adjusted d =? 999999) && forallb (λ c, (c =? 57)%N) (take 28 (d_digits d))
          && (28 <? Z.of_nat (length (d_digits d)))
          && match drop 28 (d_digits d) with c :: _ => (53 <=? c)%N | [] => false end))%Z.

Definition strip_trailing (digits : pystr) : pystr := drop_while_end (λ c, (c =? 48)%N) digits.

(** The integer a decimal stands for. *)
Definition to_integral (d : decimal) : option (pystr * Z) :=
  let digits := strip_trailing (d_digits d) in
  let exponent := (d_exponent d + Z.of_nat (length (d_digits d)) - Z.of_nat (length digits))%Z in
  if negb (truthy digits) then Some ([], 0%Z)
  else if (0 <=? exponent)%Z then Some (digits, exponent) else None.

Definition not_a_count {A} : res A := raise ValueError "token count must be an integer".

(** The checks of a constructed number and its integer; beyond 20 digits no power is computed. *)
Definition decimal_count (d : decimal) : res Z :=
  if negb (constructible d) then not_a_count
  else
    match to_integral d with
    | None => not_a_count
    | Some (digits, exponent) =>
        if abs_overflows d then raise DecimalOverflow []
        else if truthy digits && (19 <=? adjusted d)%Z then not_a_count
        else
          let n := (digits_value digits * 10 ^ exponent)%Z in
          let n := (if d_negative d then - n else n)%Z in
          if (2 ^ 63 <=? Z.abs n)%Z then not_a_count else Ok n
    end.

(** [Decimal(str(value))] of a finite float: its shortest digits. *)
Definition float_decimal (m e : Z) : decimal :=
  if (m =? 0)%Z then mkDecimal false [] 0
  else let '(digits, point) := float_point (Z.abs m) e in
       mkDecimal (m <? 0)%Z (strip_leading digits) (point - Z.of_nat (length digits)).

(** [_token_count]. *)
Definition _token_count (value : json) : res Z :=
  match value with
  | JNull => Ok 0%Z
  | JInt n => if (2 ^ 63 <=? Z.abs n)%Z then not_a_count else Ok n
  | JFloat (FFin m e) => decimal_count (float_decimal m e)
  | JStr s => match json_number s with Some d => decimal_count d | None => not_a_count end
  | _ => not_a_count
  end.

Definition details (value : json) (message : pystr) : res (dict json) :=
  match value with
  | JNull => Ok []
  | JObj d => Ok d
  | _ => raise ValueError message
  end.

(** [_usage]. *)
Definition _usage (value : json) : res Usage :=
  match value with
  | JNull => Ok (mkUsage 0 0 0 0 0)
  | JObj d =>
      prompt ← details (get "prompt_tokens_details" d) "chat prompt token details must be an object";
      completion ← details (get "completion_tokens_details" d) "chat completion token details must be an object";
      input ← _token_count (get "prompt_tokens" d);
      cached ← _token_count (get "cached_tokens" prompt);
      output ← _token_count (get "completion_tokens" d);
      reasoning ← _token_count (get "reasoning_tokens" completion);
      total ← _token_count (get "total_tokens" d);
      Ok (mkUsage input cached output reasoning total)
  | _ => raise ValueError "chat usage must be an object"
  end.


(** ** Complete answers *)

Section Answers.
Context (profile : Profile).
(** The document [read_error_tokens] parses. *)
Context (parse_error_body : list N → option json).

(** [_reported_error]. *)
Definition _reported_error (body : list N) : decode_result :=
  ReportedError (read_error_tokens (parse_error_body body) (pf_error_token_pointers profile)).

Definition decoded (m : res DecodedResponse) : decode_result :=
  match m with Ok d => DecodedAs d | Err e => DecodeRaised e end.

(** A JSON object without an error, given to [f]; what it reports or raises otherwise. *)
Definition read_document {A} (body : list N) (message : pystr) (report : decode_result → A) (f : dict json → A) : A :=
  match loads (utf8_replace body) with
  | Err e => report (DecodeRaised e)
  | Ok (JObj document) =>
      match get "error" document with
      | JNull => f document
      | _ => report (_reported_error body)
      end
  | Ok _ => report (DecodeRaised (Exn ValueError message))
  end.

(** [decode_response] on an object without an error. *)
Definition decode_completion (completion : dict json) : res DecodedResponse :=
  choice ← _first_choice (get "choices" completion);
  match choice with
  | None => raise ValueError "chat completion has no first choice"
  | Some choice =>
      '(parts, refusal) ← _parts (get "message" choice);
      model ← _nullable_string (get "model" completion);
      id ← _nullable_string (get "id" completion);
      reason ← _nullable_string (get "finish_reason" choice);
      usage ← _usage (get "usage" completion);
      Ok (mkDecoded parts model id reason refusal usage)
  end.

(** [decode_response]. *)
Definition decode_response (body : list N) : decode_result :=
  read_document body "chat completion must be an object" id (λ completion, decoded (decode_completion completion)).

(** ** Streamed answers *)

(** One line of [_events]: the event it ends, and the lines of the open event. *)
Definition event_line (event_lines : list (list N)) (raw : list N) : list (list N) * list (list N) :=
  let line := strip_cr raw in
  match line with
  | [] => match event_lines with [] => ([], []) | _ => ([join [10%N] event_lines], []) end
  | _ =>
      if starts_with "data:" line then
        let value := drop 5 line in
        ([], event_lines ++ [if head_is 32 value then tail value else value])
      else if bool_decide (line = lit "data") then ([], event_lines ++ [[]])
      else ([], event_lines)
  end.

(** The inner loop over the complete lines of the buffer. *)
Fixpoint event_lines_loop (event_lines : list (list N)) (raws : list (list N)) : list (list N) * list (list N) :=
  match raws with
  | [] => ([], event_lines)
  | raw :: raws =>
      let '(events, event_lines) := event_line event_lines raw in
      let '(more, event_lines) := event_lines_loop event_lines raws in
      (events ++ more, event_lines)
  end.

(** [_events] from a buffer and the lines of an open event. *)
Fixpoint events_from (buffer : list N) (event_lines : list (list N)) (chunks : list (list N)) : list (list N) :=
  match chunks with
  | [] => []
  | chunk :: chunks =>
      let '(raws, buffer) := split_lines (buffer ++ chunk) in
      let '(events, event_lines) := event_lines_loop event_lines raws in
      events ++ events_from buffer event_lines chunks
  end.

Definition _events (chunks : list (list N)) : list (list N) := events_from [] [] chunks.

(** The variables of [decode_stream]. *)
Record chat_state := mkChat {
  c_parts : list ResponsePart;
  c_served_model : pystr;
  c_response_id : pystr;
  c_finish : pystr;
  c_refusal : bool;
  c_usage : Usage;
  has_finished : bool
}.

Definition chat_start : chat_state := mkChat [] [] [] [] false (mkUsage 0 0 0 0 0) false.

Definition chat_response (s : chat_state) : DecodedResponse :=
  mkDecoded (c_parts s) (c_served_model s) (c_response_id s) (c_finish s) (c_refusal s) (c_usage s).

(** A new part extends the last one of its kind. *)
Definition add_part (parts : list ResponsePart) (part : ResponsePart) : list ResponsePart :=
  match last parts with
  | Some previous =>
      if eqb (is_reasoning previous) (is_reasoning part)
      then removelast parts ++ [mkPart (part_text previous ++ part_text part) (is_reasoning part)]
      else parts ++ [part]
  | None => parts ++ [part]
  end.

(** The loop over the new parts: the text deltas written, and the parts, or the failed write.  Whether a
    write fails is given for each text, so a text written twice fails both times or neither. *)
Fixpoint add_parts (write_fails : pystr → bool) (parts new : list ResponsePart) : list pystr * res (list ResponsePart) :=
  match new with
  | [] => ([], Ok parts)
  | part :: new =>
      let parts := add_part parts part in
      if is_reasoning part then add_parts write_fails parts new
      else if write_fails (part_text part) then ([], Err (Exn TextStreamWriteError []))
      else let '(written, r) := add_parts write_fails parts new in (part_text part :: written, r)
  end.

(** [bytes.strip()]. *)
Definition bytes_strip (b : list N) : list N := trim (λ c, (c =? 32)%N || in_range 9 13 c) b.

(** [old or _nullable_string(value)]. *)
Definition or_string (old : pystr) (value : json) : res pystr := if truthy old then Ok old else _nullable_string value.

(** The fields of a chunk that precede its choice. *)
Definition chunk_fields (s : chat_state) (chunk : dict json) : res (chat_state * option (dict json)) :=
  id ← or_string (c_response_id s) (get "id" chunk);
  model ← or_string (c_served_model s) (get "model" chunk);
  usage ← match get "usage" chunk with JNull => Ok (c_usage s) | usage => _usage usage end;
  choice ← _first_choice (get "choices" chunk);
  Ok (mkChat (c_parts s) model id (c_finish s) (c_refusal s) usage (has_finished s), choice).

(** The choice of a chunk: the deltas written, and the state after it. *)
Definition chunk_choice (write_fails : pystr → bool) (s : chat_state) (choice : dict json) : list pystr * res chat_state :=
  match _parts (get "delta" choice) with
  | Err e => ([], Err e)
  | Ok (new, refusal) =>
      let '(written, r) := add_parts write_fails (c_parts s) new in
      (written,
       parts ← r;
       reason ← _nullable_string (get "finish_reason" choice);
       Ok (mkChat parts (c_served_model s) (c_response_id s) (if truthy reason then reason else c_finish s)
             (c_refusal s || refusal) (c_usage s) (has_finished s || truthy reason)))
  end.

(** One event: the deltas written, and the next state or the end of the decoding. *)
Definition chat_event (write_fails : pystr → bool) (s : chat_state) (event : list N)
    : list pystr * result decode_result chat_state :=
  if bool_decide (bytes_strip event = lit "[DONE]") then
    ([], Err (if has_finished s then DecodedAs (chat_response s)
              else DecodeRaised (Exn ValueError "stream ended without finish reason")))
  else
    read_document event "chat stream chunk must be an object" (λ r, ([], Err r)) (λ chunk,
      match chunk_fields s chunk with
      | Err e => ([], Err (DecodeRaised e))
      | Ok (s, None) => ([], Ok s)
      | Ok (s, Some choice) =>
          let '(written, r) := chunk_choice write_fails s choice in
          (written, match r with Ok s => Ok s | Err e => Err (DecodeRaised e) end)
      end).

(** The end of the events. *)
Definition chat_end (s : chat_state) (e : stop) : decode_result :=
  match e with
  | Finished => if has_finished s then DecodedAs (chat_response s)
                else DecodeRaised (Exn EOFError "stream ended before terminal event")
  | Raised e => DecodeRaised e
  | Cancelled => DecodeCancelled
  end.

Fixpoint chat_loop (write_fails : pystr → bool) (s : chat_state) (events : list (list N)) (e : stop)
    : list pystr * decode_result :=
  match events with
  | [] => ([], chat_end s e)
  | event :: events =>
      match chat_event write_fails s event with
      | (written, Err r) => (written, r)
      | (written, Ok s) => let '(more, r) := chat_loop write_fails s events e in (written ++ more, r)
      end
  end.

(** [decode_stream]. *)
Definition decode_stream (chunks : list (list N)) (e : stop) (write_fails : pystr → bool) : list pystr * decode_result :=
  chat_loop write_fails chat_start (_events chunks) e.

End Answers.

(** ** The wire format *)

(** [dict(a); update(b)]. *)
Definition dict_update {V} (d more : dict V) : dict V := fold_left (λ d kv, dset (fst kv) (snd kv) d) more d.

(** The defaults [new_wire_format] fills in; the enumerations are always set here. *)
Definition with_defaults (p : Profile) : Profile :=
  let named := truthy (pf_credential_name p) in
  mkProfile (pf_provider_name p)
    (if truthy (chat_completions_path p) then chat_completions_path p else "/chat/completions")
    (if named then pf_credential_name p else "Authorization") (if named then pf_credential_prefix p else "Bearer ")
    (fixed_headers p) (instructions_role p) (max_tokens_field p) (pf_reasoning_efforts p) (pf_temperature p)
    (pf_structured_output p) (should_send_strict_json_schema p) (streaming p) (should_request_stream_usage p)
    (allowed_request_fields p) (pf_finish_reasons p) (pf_error_rules p) (pf_error_token_pointers p)
    (pf_request_id_headers p) (pf_rate_limit_headers p) (pf_stall_timeout_seconds p) (model_rules p).

(** [new_wire_format]: the data of the wire format; its callbacks are the functions above. *)
Definition new_wire_format (pattern_compiles : pystr → bool) (profile : Profile) : res (Profile * WireFormat) :=
  let p := with_defaults profile in
  _validate_profile pattern_compiles p ≫= λ _,
  Ok (p, mkWire (pf_provider_name p) BODY (mkFeatures true true true true true) (pf_credential_name p)
           (pf_credential_prefix p) true true true true
           (dict_update [(lit "stop", STOP); (lit "length", LENGTH); (lit "content_filter", CONTENT_POLICY)]
              (pf_finish_reasons p))
           (pf_error_rules p) (pf_error_token_pointers p) (pf_request_id_headers p) (pf_rate_limit_headers p)
           (pf_stall_timeout_seconds p)).
