(* ===== verification/ChatFacts.v ===== *)
(** * What the Chat Completions dialect guarantees

    The theorems about ChatFormat.v: streams decode the same whatever their chunks, the deltas written
    are the answer, decoded answers are well formed, encoded requests are ones the Query accepts; and
    the whole attempt of TextGenAttempt.v with this dialect. *)

From Stdlib Require Import ZifyBool.
From S2P Require Import Prelude Json JsonText JsonDumps Timestamps Errors Identity Calls Results Retry Url ProviderHttp Definitions.
From S2P Require Import AddressPolicy TextGen StructuredOutput ProjectModels TextGenAttempt CanonicalJson ChatFormat.
Import CanonicalFacts.

Module ChatFacts.

(** ** Events *)

Lemma event_lines_loop_app lines a b :
  event_lines_loop lines (a ++ b) =
  (fst (event_lines_loop lines a) ++ fst (event_lines_loop (snd (event_lines_loop lines a)) b),
   snd (event_lines_loop (snd (event_lines_loop lines a)) b)).
Proof.
  revert lines. induction a as [|raw a IH]; intros lines; cbn [app event_lines_loop fst snd].
  - by destruct (event_lines_loop lines b).
  - destruct (event_line lines raw) as [events lines']. rewrite IH.
    destruct (event_lines_loop lines' a) as [more lines'']. cbn [fst snd]. by rewrite app_assoc.
Qed.

(** The first chunk can be read with the buffer that precedes it. *)
Lemma events_from_whole chunks : ∀ buffer lines, split_lines buffer = ([], buffer) →
  events_from buffer lines chunks =
  fst (event_lines_loop lines (fst (split_lines (buffer ++ List.concat chunks)))).
Proof.
  induction chunks as [|chunk chunks IH]; intros buffer lines Hb; cbn [events_from List.concat].
  - by rewrite app_nil_r, Hb.
  - rewrite (app_assoc buffer chunk), (StreamFacts.split_lines_app (buffer ++ chunk)).
    assert (Hrest : split_lines (snd (split_lines (buffer ++ chunk))) = ([], snd (split_lines (buffer ++ chunk)))).
    { pose proof (StreamFacts.split_lines_app (buffer ++ chunk) []) as H. rewrite !app_nil_r in H.
      set (s := split_lines (buffer ++ chunk)) in *. set (t := split_lines (snd s)) in *.
      destruct s as [l r], t as [l' r']. cbn [fst snd] in *. injection H as Hl <-.
      f_equal. destruct l' as [|x l']; [done|]. apply (f_equal length) in Hl. rewrite length_app in Hl. cbn in Hl. lia. }
    destruct (split_lines (buffer ++ chunk)) as [raws rest]. cbn [fst snd] in *.
    rewrite event_lines_loop_app. destruct (event_lines_loop lines raws) as [events lines']. cbn [fst snd].
    by rewrite (IH _ _ Hrest).
Qed.

(** C19: a stream is decoded from its bytes alone: whatever the boundaries of the chunks they arrive in,
    inside a line, a character or an event, the decoder writes the same deltas and ends with the same
    result as on the concatenation of the chunks. *)
Theorem chunks_irrelevant profile parse_error_body chunks e write_fails :
  decode_stream profile parse_error_body chunks e write_fails
  = decode_stream profile parse_error_body [List.concat chunks] e write_fails.
Proof.
  unfold decode_stream, _events. rewrite !events_from_whole by done. cbn [List.concat]. by rewrite !app_nil_l, app_nil_r.
Qed.

(** ** Parts and deltas *)

(** The text of the parts that are not reasoning. *)
Definition answer_of (parts : list ResponsePart) : pystr :=
  List.concat (map part_text (filter (λ p, is_reasoning p = false) parts)).

Lemma answer_of_app a b : answer_of (a ++ b) = answer_of a ++ answer_of b.
Proof. unfold answer_of. by rewrite filter_app, map_app, concat_app. Qed.

Lemma answer_of_one p : answer_of [p] = if is_reasoning p then [] else part_text p.
Proof.
  unfold answer_of. destruct (is_reasoning p) eqn:E; cbn.
  - by rewrite decide_False by congruence.
  - rewrite decide_True by done. cbn. apply app_nil_r.
Qed.

Lemma last_split {A} (l : list A) x : last l = Some x → l = removelast l ++ [x].
Proof.
  intros H. destruct l as [|y l] using rev_ind; [done|]. rewrite last_snoc in H. injection H as ->.
  by rewrite removelast_last.
Qed.

Lemma answer_of_add parts p : answer_of (add_part parts p) = answer_of parts ++ answer_of [p].
Proof.
  unfold add_part. destruct (last parts) as [q|] eqn:E; [|apply answer_of_app].
  destruct (eqb _ _) eqn:Eq; [|apply answer_of_app]. apply eqb_prop in Eq.
  rewrite (last_split _ _ E) at 2. rewrite !answer_of_app, !answer_of_one. cbn [is_reasoning part_text].
  rewrite <- Eq. destruct (is_reasoning q); [by rewrite !app_nil_r|]. by rewrite app_assoc.
Qed.

Definition nonempty_part (p : ResponsePart) : Prop := part_text p ≠ [].

Lemma nonempty_add parts p : Forall nonempty_part parts → nonempty_part p → Forall nonempty_part (add_part parts p).
Proof.
  intros Hf Hp. unfold add_part. destruct (last parts) as [q|] eqn:E; [|by apply Forall_app_2; [|constructor]].
  destruct (eqb _ _); [|by apply Forall_app_2; [|constructor]]. rewrite (last_split _ _ E) in Hf.
  apply Forall_app in Hf as [Hf Hq]. apply Forall_app. split; [done|]. constructor; [|done].
  intros H. apply app_nil in H as [H _]. apply Forall_inv in Hq. by apply Hq.
Qed.

Lemma add_parts_answer write_fails new : ∀ parts written r,
  add_parts write_fails parts new = (written, Ok r) → answer_of r = answer_of parts ++ List.concat written.
Proof.
  induction new as [|p new IH]; intros parts written r H; cbn [add_parts] in H.
  - injection H as <- <-. by rewrite app_nil_r.
  - cbv zeta in H. pose proof (answer_of_add parts p) as Ha. rewrite answer_of_one in Ha.
    destruct (is_reasoning p).
    + apply IH in H as ->. by rewrite Ha, app_nil_r.
    + destruct (write_fails _); [done|]. destruct (add_parts _ _ new) as [more r'] eqn:E.
      injection H as <- ->. apply IH in E as ->. rewrite Ha. cbn [List.concat]. by rewrite app_assoc.
Qed.

Lemma add_parts_nonempty write_fails new : ∀ parts written r,
  Forall nonempty_part new → Forall nonempty_part parts →
  add_parts write_fails parts new = (written, Ok r) → Forall nonempty_part r.
Proof.
  induction new as [|p new IH]; intros parts written r Hn Hp H; cbn [add_parts] in H.
  - by injection H as _ <-.
  - inversion Hn; subst. pose proof (nonempty_add parts p Hp ltac:(done)) as Ha. cbv zeta in H.
    destruct (is_reasoning p); [by eapply IH|]. destruct (write_fails _); [done|].
    destruct (add_parts _ _ new) as [more r'] eqn:E. injection H as <- ->. by eapply IH.
Qed.

Lemma content_parts_nonempty items parts : content_parts items = Ok parts → Forall nonempty_part parts.
Proof.
  revert parts. induction items as [|item items IH]; intros parts H; cbn [content_parts] in H.
  - injection H as <-. constructor.
  - destruct item; try done; [by apply IH|].
    apply bind_Ok in H as (ty & _ & H). apply bind_Ok in H as (t & _ & H). apply bind_Ok in H as (rest & Hr & H).
    injection H as <-. apply Forall_app. split; [|by apply IH]. destruct t; repeat constructor. discriminate.
Qed.

Lemma one_part_nonempty s b : Forall nonempty_part (if truthy s then [mkPart s b] else []).
Proof. destruct s; repeat constructor. discriminate. Qed.

Lemma parts_nonempty delta parts refusal : _parts delta = Ok (parts, refusal) → Forall nonempty_part parts.
Proof.
  unfold _parts. intros H. apply bind_Ok in H as (d & _ & H). apply bind_Ok in H as (reasoning & Hr & H).
  apply bind_Ok in H as (content & Hc & H). apply bind_Ok in H as (ref & _ & H). injection H as <- _.
  apply Forall_app. split.
  - destruct (get "reasoning_content" d); try done; apply Ok_inj in Hr as <-; [constructor|apply one_part_nonempty].
  - destruct (get "content" d); try done;
      [apply Ok_inj in Hc as <-; constructor|apply Ok_inj in Hc as <-; apply one_part_nonempty|by eapply content_parts_nonempty].
Qed.

(** ** Token counts *)

Definition int64_usage (u : Usage) : Prop :=
  Forall (λ n, (Z.abs n < 2 ^ 63)%Z)
    [input_tokens u; cached_input_tokens u; output_tokens u; reasoning_tokens u; total_tokens u].

Lemma decimal_count_bound d n : decimal_count d = Ok n → (Z.abs n < 2 ^ 63)%Z.
Proof.
  intros H. unfold decimal_count, not_a_count in H.
  destruct (negb (constructible d)); [done|]. destruct (to_integral d) as [[digits exponent]|]; [|done].
  destruct (abs_overflows d); [done|]. destruct (_ && _); [done|]. cbv zeta in H.
  destruct (Z.leb_spec (2 ^ 63) (Z.abs (if d_negative d then - (digits_value digits * 10 ^ exponent)
    else digits_value digits * 10 ^ exponent))); [done|]. by apply Ok_inj in H as <-.
Qed.

Lemma token_count_bound v n : _token_count v = Ok n → (Z.abs n < 2 ^ 63)%Z.
Proof.
  unfold _token_count, not_a_count. intros H. destruct v as [| |z|f|s| |]; try done.
  - by apply Ok_inj in H as <-.
  - destruct (Z.leb_spec (2 ^ 63) (Z.abs z)); [done|]. by apply Ok_inj in H as <-.
  - destruct f; [|done|done]. by eapply decimal_count_bound.
  - destruct (json_number s); [|done]. by eapply decimal_count_bound.
Qed.

Lemma usage_int64 v u : _usage v = Ok u → int64_usage u.
Proof.
  unfold _usage. intros H. destruct v; try done.
  - apply Ok_inj in H as <-. repeat constructor; cbn; lia.
  - apply bind_Ok in H as (prompt & _ & H). apply bind_Ok in H as (completion & _ & H).
    apply bind_Ok in H as (n1 & H1 & H). apply bind_Ok in H as (n2 & H2 & H). apply bind_Ok in H as (n3 & H3 & H).
    apply bind_Ok in H as (n4 & H4 & H). apply bind_Ok in H as (n5 & H5 & H). apply Ok_inj in H as <-.
    repeat constructor; cbn; by eapply token_count_bound.
Qed.

(** ** Decoded answers *)

(** What both decoders promise of an answer. *)
Definition well_formed (d : DecodedResponse) : Prop := Forall nonempty_part (parts d) ∧ int64_usage (d_usage d).

Section Decoding.
Context (profile : Profile) (parse_error_body : list N → option json).

#[local] Abbreviation stream := (decode_stream profile parse_error_body).
#[local] Abbreviation event := (chat_event profile parse_error_body).
#[local] Abbreviation loop := (chat_loop profile parse_error_body).

Lemma read_document_inv {A} body message report (f : dict json → A) a :
  read_document profile parse_error_body body message report f = a →
  (∃ document, f document = a) ∨ (∃ r, report r = a ∧ ∀ d, r ≠ DecodedAs d).
Proof.
  unfold read_document. intros H. destruct (loads _) as [[| | | | | |document]|e]; try (right; by eexists).
  destruct (get "error" document); [left; by eexists|..]; right; by eexists.
Qed.

Lemma decode_response_well_formed body d : decode_response profile parse_error_body body = DecodedAs d → well_formed d.
Proof.
  unfold decode_response. intros H. apply read_document_inv in H as [(document & H)|(r & H & Hr)]; [|by destruct (Hr d)].
  unfold decoded in H. destruct (decode_completion document) as [d'|] eqn:E; [|done]. injection H as ->.
  unfold decode_completion in E. apply bind_Ok in E as ([choice|] & _ & E); [|done].
  apply bind_Ok in E as ([parts refusal] & Hp & E). repeat (apply bind_Ok in E as (? & ? & E)).
  apply Ok_inj in E as <-. split; cbn; [by eapply parts_nonempty|by eapply usage_int64].
Qed.

(** The state of a stream whose written text is [written]. *)
Definition stream_ok (written : pystr) (s : chat_state) : Prop :=
  answer_of (c_parts s) = written ∧ Forall nonempty_part (c_parts s) ∧ int64_usage (c_usage s).

Lemma chunk_fields_ok s chunk w s' choice : stream_ok w s → chunk_fields s chunk = Ok (s', choice) → stream_ok w s'.
Proof.
  intros (Ha & Hn & Hu) H. unfold chunk_fields in H. apply bind_Ok in H as (id & _ & H).
  apply bind_Ok in H as (model & _ & H). apply bind_Ok in H as (usage & Hus & H).
  apply bind_Ok in H as (c & _ & H). apply Ok_inj in H. injection H as <- _. split; [done|]. split; [done|]. cbn.
  destruct (get "usage" chunk); try (by eapply usage_int64). by apply Ok_inj in Hus as <-.
Qed.

Lemma chunk_choice_ok write_fails s choice w written s' : stream_ok w s →
  chunk_choice write_fails s choice = (written, Ok s') → stream_ok (w ++ List.concat written) s'.
Proof.
  intros (Ha & Hn & Hu) H. unfold chunk_choice in H. destruct (_parts _) as [[new refusal]|] eqn:E; [|done].
  destruct (add_parts _ _ _) as [wr r] eqn:Er. injection H as <- H. apply bind_Ok in H as (parts & -> & H).
  apply bind_Ok in H as (reason & _ & H). apply Ok_inj in H as <-. split; [|split]; cbn [c_parts c_usage];
    [|by eapply add_parts_nonempty; [by eapply parts_nonempty| |]|done].
  by rewrite (add_parts_answer _ _ _ _ _ Er), Ha.
Qed.

Lemma event_ok write_fails s ev w written r : stream_ok w s → event write_fails s ev = (written, r) →
  match r with
  | Ok s' => stream_ok (w ++ List.concat written) s'
  | Err (DecodedAs d) => written = [] ∧ d = chat_response s
  | Err _ => True
  end.
Proof.
  intros Hs H. unfold chat_event in H. destruct (bool_decide _).
  - injection H as <- <-. by destruct (has_finished s).
  - apply read_document_inv in H as [(document & H)|(r' & H & Hr)].
    + destruct (chunk_fields s document) as [[s1 [choice|]]|] eqn:E; [| |by injection H as <- <-].
      * pose proof (chunk_fields_ok _ _ _ _ _ Hs E) as H1. destruct (chunk_choice _ _ _) as [wr [s2|]] eqn:Ec.
        -- injection H as <- <-. by eapply chunk_choice_ok.
        -- by injection H as <- <-.
      * injection H as <- <-. rewrite app_nil_r. by eapply chunk_fields_ok.
    + injection H as <- <-. destruct r'; try done. by destruct (Hr d).
Qed.

Lemma loop_ok write_fails e events : ∀ s w written d, stream_ok w s → loop write_fails s events e = (written, DecodedAs d) →
  answer_text d = w ++ List.concat written ∧ well_formed d.
Proof.
  induction events as [|ev events IH]; intros s w written d Hs H; cbn [chat_loop] in H.
  - injection H as <- H. destruct e; try done. cbn in H. destruct (has_finished s); [|done]. injection H as <-.
    destruct Hs as (Ha & Hn & Hu). cbn [List.concat]. by rewrite app_nil_r.
  - destruct (event _ s ev) as [wr [s'|r]] eqn:E; pose proof (event_ok _ _ _ _ _ _ Hs E) as Ho.
    + destruct (loop _ s' events e) as [more r] eqn:El. injection H as <- ->.
      destruct (IH _ _ _ _ Ho El) as [Ha Hw]. by rewrite concat_app, app_assoc.
    + injection H as <- ->. destruct Ho as [-> ->]. destruct Hs as (Ha & Hn & Hu). cbn [List.concat]. by rewrite app_nil_r.
Qed.

Lemma stream_start_ok : stream_ok [] chat_start.
Proof. repeat split; [constructor|repeat constructor; cbn; lia]. Qed.

(** C36: both decoders return well-formed answers: no part is empty, and every token count fits a signed
    64-bit integer, whether the provider wrote it as a number or as a string; and the deltas a stream
    wrote are, joined, the text of the answer it decodes to. *)
Theorem decoded_well_formed body chunks e write_fails written d :
  (decode_response profile parse_error_body body = DecodedAs d → well_formed d) ∧
  (stream chunks e write_fails = (written, DecodedAs d) → well_formed d ∧ List.concat written = answer_text d).
Proof.
  split; [apply decode_response_well_formed|]. unfold decode_stream. intros H.
  destruct (loop_ok _ _ _ _ _ _ _ stream_start_ok H) as [Ha Hw]. by rewrite Ha.
Qed.

End Decoding.

(** ** Requests *)

Section Requests.
Context (pattern_compiles : pystr → bool) (pattern_found : pystr → pystr → bool).

Lemma with_defaults_idem_path p : chat_completions_path (with_defaults p) ≠ [].
Proof. unfold with_defaults; cbn. destruct (truthy _) eqn:E; [by apply truthy_true|discriminate]. Qed.

(** What [_validate_profile] leaves of the path and the fixed headers. *)
Lemma profile_checked p : _validate_profile pattern_compiles p = Ok () →
  starts_with "/" (chat_completions_path p) = true ∧
  existsb (λ c, (c =? 35)%N) (chat_completions_path p) = false ∧
  for_each (λ kv,
    raise_if (negb (header_match (fst kv)) || bool_decide (ascii_lower (fst kv) ∈ reserved_names p))
      ValueError "openaichat profile fixed header name is invalid or reserved" ≫= λ _,
    raise_if (existsb (λ c, (c <? 32)%N || (126 <? c)%N) (snd kv))
      ValueError "openaichat profile fixed header value must be printable ASCII") (fixed_headers p) = Ok ().
Proof.
  unfold _validate_profile. intros H. apply bind_Ok in H as ([] & _ & H). apply bind_Ok in H as ([] & H1 & H).
  apply bind_Ok in H as ([] & H2 & _). apply raise_if_Ok in H1. apply orb_false_iff in H1 as [H0%negb_false_iff H1].
  split; [done|]. split; [|done]. apply not_true_iff_false. intros Hx. apply not_true_iff_false in H1. apply H1.
  apply existsb_exists in Hx as (c & Hc & Hx). apply existsb_exists. exists c. split; [done|]. rewrite Hx. by destruct (c =? 63)%N.
Qed.

(** The request that an encoder of the dialect builds. *)
Lemma encode_request_inv p request rules encoded : encode_request pattern_found p request rules = Ok encoded →
  ∃ body, request_body pattern_found p request rules = Ok body ∧
    encode_body body = Ok (e_body encoded) ∧ e_path encoded = chat_completions_path p ∧
    e_headers encoded = fixed_headers p ∧
    is_streaming encoded = bool_decide (snd (settings pattern_found p (model request)) = ALWAYS) ∧
    (allowed_request_fields p = [] ∨ ∀ name, name ∈ dkeys body → name ∈ allowed_request_fields p).
Proof.
  unfold encode_request. intros H. apply bind_Ok in H as (body & Hb & H). apply bind_Ok in H as ([] & Ha & H).
  apply bind_Ok in H as (bytes & He & H). apply Ok_inj in H as <-. exists body. repeat (split; [done|]).
  destruct (allowed_request_fields p) as [|f fs]; [by left|right]. rewrite for_each_Ok, Forall_forall in Ha.
  intros name Hn. specialize (Ha name). rewrite raise_if_Ok, negb_false_iff, bool_decide_eq_true in Ha. apply Ha.
  by rewrite sort_by_perm.
Qed.
(** A request without a temperature whose texts are sequences of Unicode scalar values. *)
Definition sendable (request : TextGenerationRequest) (rules : ModelRequestRules) : bool :=
  match temperature request with None => true | Some _ => false end
  && forallb scalar (model request) && forallb scalar (instructions request)
  && forallb (λ m, forallb scalar (m_text m)) (messages request)
  && match structured_output request with
     | Some output => forallb scalar (so_name output) && readable scalar (so_schema output)
                      && forallb scalar (so_description output)
     | None => true
     end
  && forallb (λ kv, forallb scalar (snd kv)) (mr_reasoning_efforts rules).

Lemma readable_messages p request : forallb scalar (instructions request) = true →
  forallb (λ m, forallb scalar (m_text m)) (messages request) = true →
  forallb (readable scalar) (body_messages p request) = true.
Proof.
  intros Hi Hm. unfold body_messages. rewrite forallb_app. apply andb_true_intro. split.
  - destruct (truthy _); [|done]. cbn [forallb readable fst snd]. rewrite Hi. by destruct (instructions_role p).
  - induction (messages request) as [|m ms IH]; [done|]. cbn [forallb] in Hm. apply andb_prop in Hm as [Hx Hm].
    cbn [map forallb]. rewrite (IH Hm), andb_true_r. cbn [readable forallb fst snd]. rewrite Hx. by destruct (role m).
Qed.

Lemma readable_format p rules output : forallb scalar (so_name output) = true →
  readable scalar (so_schema output) = true → forallb scalar (so_description output) = true →
  forallb (λ kv, forallb scalar (fst kv) && readable scalar (snd kv)) (response_format p rules output) = true ∧
  dkeys (response_format p rules output) ∈ [[]; [lit "response_format"]].
Proof.
  intros Hn Hs Hd. unfold response_format. destruct (mode rules);
    (split; [try reflexivity|first [by left|by right; left]]).
  destruct (truthy (so_description output)), (should_send_strict_json_schema p);
    cbn [app forallb readable fst snd]; rewrite Hn, Hs, ?Hd; reflexivity.
Qed.

Lemma dkeys_app (a b : dict json) : dkeys (a ++ b) = dkeys a ++ dkeys b.
Proof. apply map_app. Qed.

Lemma readable_body p request rules body : sendable request rules = true →
  request_body pattern_found p request rules = Ok body → readable scalar (JObj body) = true.
Proof.
  unfold sendable, request_body. intros Hs Hb. repeat (apply andb_prop in Hs as [Hs ?]).
  destruct (temperature request); [done|]. destruct (settings pattern_found p (model request)) as [[r field] streaming].
  apply bind_Ok in Hb as (effort & He & Hb). apply Ok_inj in Hb as <-.
  assert (Heffort : effort = [] ∨ ∃ v, effort = [(lit "reasoning_effort", JStr v)] ∧ forallb scalar v = true).
  { destruct (truthy (reasoning_effort request)); [right|left; by apply Ok_inj in He].
    destruct (dget _ _) as [v|] eqn:Ed; [|done]. apply Ok_inj in He as <-. exists v. split; [done|].
    apply dget_elem, list_elem_of_In in Ed.
    match goal with H : forallb _ (mr_reasoning_efforts rules) = true |- _ => rewrite forallb_forall in H; exact (H _ Ed) end. }
  assert (Hformat : forallb (λ kv, forallb scalar (fst kv) && readable scalar (snd kv)) (format_fields p request rules) = true ∧
    dkeys (format_fields p request rules) ∈ [[]; [lit "response_format"]]).
  { unfold format_fields. destruct (structured_output request) as [output|]; [|split; [done|left]].
    bool_inv. by apply readable_format. }
  destruct Hformat as [Hf Hk]. set (format := format_fields p request rules) in *. clearbody format.
  cbn [readable]. apply andb_true_intro. split.
  - apply bool_decide_eq_true_2. rewrite !dkeys_app.
    assert (Hm : dkeys format = [] ∨ dkeys format = [lit "response_format"]) by set_solver.
    destruct Heffort as [->|(v & -> & _)], Hm as [-> | ->], (0 <? max_output_tokens request)%Z, field,
      (bool_decide (streaming = ALWAYS)), (should_request_stream_usage p); apply (bool_decide_eq_true_1 _); vm_compute; reflexivity.
  - rewrite !forallb_app, Hf. cbn [forallb fst snd readable app].
    rewrite readable_messages by done. match goal with H : forallb scalar (model request) = true |- _ => rewrite H end.
    destruct Heffort as [->|(v & -> & Hv)], (0 <? max_output_tokens request)%Z, field,
      (bool_decide (streaming = ALWAYS)), (should_request_stream_usage p);
      cbn [forallb fst snd readable app]; rewrite ?Hv; reflexivity.
Qed.

Lemma dget_app (k : pystr) (a b : dict json) :
  dget k (a ++ b) = match dget k a with Some v => Some v | None => dget k b end.
Proof. induction a as [|[k2 v2] a IH]; [done|]. cbn [app dget]. by destruct (bool_decide _). Qed.

(** The body asks for a stream exactly when the settings do. *)
Lemma body_stream p request rules body : request_body pattern_found p request rules = Ok body →
  (bool_decide (snd (settings pattern_found p (model request)) = ALWAYS) = true ↔ get "stream" body = JBool true).
Proof.
  unfold request_body. intros Hb. destruct (settings _ _ _) as [[r field] streaming]. cbn [snd].
  apply bind_Ok in Hb as (effort & Heff & Hb). apply Ok_inj in Hb as <-.
  assert (He : dget "stream" effort = None).
  { destruct (truthy (reasoning_effort request)); [destruct (dget _ _); [|done]|]; by apply Ok_inj in Heff as <-. }
  assert (Hf : dget "stream" (format_fields p request rules) = None).
  { unfold format_fields. destruct (structured_output request); [|done]. unfold response_format. by destruct (mode _). }
  unfold get, get_or. rewrite !dget_app, He, Hf.
  destruct (0 <? max_output_tokens request)%Z, field, (temperature request), (bool_decide (streaming = ALWAYS)); done.
Qed.

(** C35: the dialect builds only requests the Query accepts: with the wire format of a profile whose path
    is printable ASCII (a profile check only excludes '?', '#' and spaces), every encoded request passes
    the Query's own check (path, headers, reserved names), goes to the profile's path with its fixed
    headers, holds no field outside the profile's allowlist and asks for a stream exactly when its body
    does.  When the request has no temperature, its texts and the profile's effort values are sequences of
    Unicode scalar values and its schema holds no float and no repeated key ([sendable]), the encoded
    bytes also read back as the very JSON object the encoder built from the request; reading back floats,
    and lone surrogates, which the encoder escapes, is not covered. *)
Theorem encoded_requests_accepted p p' w request rules encoded :
  new_wire_format pattern_compiles p = Ok (p', w) →
  forallb (in_range 33 126) (chat_completions_path p') = true →
  encode_request pattern_found p' request rules = Ok encoded →
  _validate_encoded w encoded = Ok () ∧ e_path encoded = chat_completions_path p' ∧ e_headers encoded = fixed_headers p' ∧
  ∃ body, request_body pattern_found p' request rules = Ok body ∧
    (is_streaming encoded = true ↔ get "stream" body = JBool true) ∧
    (allowed_request_fields p' = [] ∨ ∀ name, name ∈ dkeys body → name ∈ allowed_request_fields p') ∧
    (sendable request rules = true → loads_bytes (e_body encoded) = Ok (JObj body)).
Proof.
  unfold new_wire_format. intros Hw Hpath He. apply bind_Ok in Hw as ([] & Hv & Hw).
  set (p1 := with_defaults p) in *. clearbody p1. apply Ok_inj in Hw. injection Hw as <- <-.
  destruct (profile_checked _ Hv) as (H1 & H2 & H3).
  destruct (encode_request_inv _ _ _ _ He) as (body & Hb & Hj & Hp & Hh & Hst & Ha). split; [|split; [done|split; [done|]]].
  - unfold _validate_encoded. rewrite Hp, Hh, H1. cbn [negb orb].
    assert (existsb (λ c, (c <=? 32)%N || (126 <? c)%N || (c =? 35)%N) (chat_completions_path p1) = false) as ->.
    2: { cbn [raise_if mbind result_bind]. rewrite for_each_Ok in H3 |- *. eapply Forall_impl; [exact H3|].
         intros kv Hkv. cbv beta in Hkv |- *. apply bind_Ok in Hkv as ([] & Hn%raise_if_Ok & Hx%raise_if_Ok).
         apply bind_Ok. exists (). split; apply raise_if_Ok; [exact Hn|exact Hx]. }
    apply not_true_iff_false. intros Hx. apply existsb_exists in Hx as (c & Hc & Hx).
    rewrite forallb_forall in Hpath. specialize (Hpath c Hc). apply not_true_iff_false in H2. apply H2, existsb_exists.
    exists c. split; [done|]. unfold in_range in Hpath. lia.
  - exists body. split; [done|]. split; [|split; [done|]].
    + rewrite Hst. by apply body_stream in Hb as <-.
    + intros Hs. unfold encode_body in Hj. destruct (dumps_ascii _ _ _ _) as [text|e] eqn:Ed; [|by destruct (_ || _)].
      apply Ok_inj in Hj as <-. eapply loads_ascii; [|done]. by eapply readable_body.
Qed.
End Requests.

(** ** The whole attempt *)

Section Query.
Context (pattern_compiles : pystr → bool) (pattern_found : pystr → pystr → bool) (profile : Profile).
Context (config : TextGenerationQueryConfig) (q_base_url q_connection_model : pystr) (call : Call.t).
Context (read_error_retry_delay : option (list N → pyfloat)) (resolved_credential : res pystr).
Context (write_fails : pystr → bool) (raw_decode : pystr → res (answer * nat)) (parse_error_body : list N → option json).
Context (parsedate_to_datetime : pystr → res GoTime.datetime) (now : GoTime.datetime).
Context (request_builds : bool) (send : provider_request → sending).

(** [TextGenerationQuery.invoke] with the dialect's wire format. *)
Definition chat_run (request : TextGenerationRequest) : list pystr * res (Attempt TextGenerationResponse) :=
  run config q_base_url q_connection_model call true (rules_for_model pattern_found profile)
    (encode_request pattern_found profile) (decode_response profile parse_error_body)
    (decode_stream profile parse_error_body) read_error_retry_delay resolved_credential write_fails loads raw_decode
    parse_error_body parsedate_to_datetime now request_builds send request.

(** C20: what the caller's stream receives is the answer: when an attempt over this dialect ends with text
    (branch [generated] or [truncated]) and no structured output was asked for, the deltas written,
    joined, are the text of the returned response, whether the provider streamed the answer, in
    whatever chunks, or sent it whole. *)
Theorem text_written_is_answer request written a :
  _validate_wire_format (wire_format config) = Ok () → structured_output request = None →
  chat_run request = (written, Ok a) → a_branch a ∈ [GENERATED_BRANCH_ID; TRUNCATED_BRANCH_ID] →
  ∃ v, a_value a = Some v ∧ List.concat written = text v.
Proof.
  intros Hw Hn Hr Hb. unfold chat_run in Hr.
  pose proof (run_writes_answer config q_base_url q_connection_model call true (rules_for_model pattern_found profile)
    (encode_request pattern_found profile) (decode_response profile parse_error_body)
    (decode_stream profile parse_error_body) read_error_retry_delay resolved_credential write_fails loads raw_decode
    parse_error_body parsedate_to_datetime now request_builds send request Hw) as H.
  rewrite Hr in H. apply (H (λ chunks e ws d Hd, eq_sym (proj1 (loop_ok profile parse_error_body _ _ _ _ _ _ _ stream_start_ok Hd)))
    Hn a); done.
Qed.

End Query.

(** ** Counts that no clause catches *)

(** A usage count whose exponent is beyond the decimal context's. *)
Lemma overflowing_count text d : json_number text = Some d → constructible d = true → abs_overflows d = true →
  (0 <= d_exponent d)%Z → _token_count (JStr text) = Err (Exn DecimalOverflow []).
Proof.
  intros Ht Hc Ho He. unfold _token_count, decimal_count. rewrite Ht, Hc, Ho. cbn [negb].
  unfold to_integral. destruct (negb (truthy (strip_trailing (d_digits d)))); [done|].
  replace (0 <=? _)%Z with true; [done|]. symmetry. apply Z.leb_le.
  assert (length (strip_trailing (d_digits d)) <= length (d_digits d)); [|lia].
  unfold strip_trailing, drop_while_end. rewrite length_rev.
  destruct (drop_while_suffix (λ c, (c =? 48)%N) (rev (d_digits d))) as (pre & H & _).
  apply (f_equal length) in H. rewrite length_app, length_rev in H. lia.
Qed.

(** A usage count written as a string whose exponent is beyond the decimal context's is refused by no
    check: comparing its magnitude raises [decimal.Overflow], which is none of the exceptions the Query
    takes for a malformed response, so the invocation ends with that exception and not with the
    [invalidResponse] branch that other malformed counts lead to. *)
Theorem overflowing_count_escapes text d usage config response receipt :
  json_number text = Some d → constructible d = true → abs_overflows d = true → (0 <= d_exponent d)%Z →
  get "prompt_tokens" usage = JStr text → get "prompt_tokens_details" usage = JNull →
  get "completion_tokens_details" usage = JNull →
  _usage (JObj usage) = Err (Exn DecimalOverflow []) ∧
  decode_failed config response (Exn DecimalOverflow []) receipt = Err (Exn DecimalOverflow []).
Proof.
  intros Ht Hc Ho He H1 H2 H3. split; [|reflexivity]. unfold _usage. rewrite H1, H2, H3. cbn [details mbind result_bind].
  by rewrite (overflowing_count text d).
Qed.

(** ** Sample answers *)

Definition sample_profile : Profile :=
  mkProfile "acme" [] [] [] [(lit "x-client", lit "dex")] SYSTEM MAX_TOKENS [(lit "low", lit "low")] temperature_accepted
    (mkRules JSON_SCHEMA [] []) true ALWAYS true
    [lit "messages"; lit "model"; lit "stream"; lit "stream_options"; lit "max_tokens"; lit "reasoning_effort"] [] []
    [lit "/error/code"] [lit "x-request-id"] [] (FFin 0 0)
    [mkModelRule "acme-old-" [] None None None None (Some NEVER)].

Definition sample_parts : Profile * WireFormat :=
  match new_wire_format (λ _, true) sample_profile with
  | Ok x => x
  | Err _ => (sample_profile, sample_wire)
  end.

Lemma sample_format : new_wire_format (λ _, true) sample_profile = Ok sample_parts.
Proof. vm_compute. reflexivity. Qed.

Definition sample_chat_request : TextGenerationRequest :=
  mkRequest [mkMessage USER (lit "hello " ++ [233; 0x1F600; 10]%N)] (lit "acme-2") (lit "be brief") None 64 None (lit "low").

Definition sample_encoded : res EncodedRequest :=
  encode_request (λ _ _, false) (fst sample_parts) sample_chat_request
    (rules_for_model (λ _ _, false) (fst sample_parts) "acme-2").

Lemma encoded_requests_accepted_witness :
  match sample_encoded with
  | Ok encoded => _validate_encoded (snd sample_parts) encoded = Ok () ∧ is_streaming encoded = true ∧
      ∃ body, loads_bytes (e_body encoded) = Ok (JObj body)
  | Err _ => False
  end.
Proof.
  destruct sample_encoded as [encoded|e] eqn:E; [|vm_compute in E; discriminate E].
  assert (Hw : new_wire_format (λ _, true) sample_profile = Ok (fst sample_parts, snd sample_parts))
    by (rewrite sample_format; by destruct sample_parts).
  destruct (encoded_requests_accepted (λ _, true) (λ _ _, false) sample_profile _ _ sample_chat_request _ encoded Hw
    ltac:(vm_compute; reflexivity) E) as (Hv & _ & _ & body & _ & _ & _ & Hread). split; [exact Hv|]. split.
  - apply (f_equal (λ r, match r with Ok x => is_streaming x | Err _ => false end)) in E. rewrite <- E.
    vm_compute. reflexivity.
  - exists body. apply Hread. vm_compute. reflexivity.
Defined.

(** Two deltas, cut inside an event and between a carriage return and its line feed. *)
Definition sample_stream : list (list N) :=
  [JsonText.quoted "data: {'id':'r1','choices':[{'delta':{'reasoning_content':'hm','content':'Hel"; JsonText.quoted "lo'}}]}" ++ [13]%N;
   [10; 13; 10]%N ++ JsonText.quoted "data: {'choices':[{'delta':{'content':' you'},'finish_reason':'stop'}]}" ++ [10; 10]%N;
   JsonText.quoted "data: {'choices':[],'usage':{'prompt_tokens':'3e0','completion_tokens':2.0}}" ++ [10; 10]%N ++ lit "data: [DONE]" ++ [10; 10]%N].

Lemma decoded_well_formed_witness :
  match decode_stream (fst sample_parts) (λ _, None) sample_stream Finished (λ _, false) with
  | (written, DecodedAs d) => written = [lit "Hello"; lit " you"] ∧ well_formed d ∧ List.concat written = answer_text d
  | _ => False
  end.
Proof.
  destruct (decode_stream _ _ _ _ _) as [written [d|t|e|]] eqn:E; try (vm_compute in E; discriminate E). split.
  - apply (f_equal fst) in E. vm_compute in E. by rewrite <- E.
  - by apply (decoded_well_formed (fst sample_parts) (λ _, None) [] sample_stream Finished (λ _, false)).
Defined.

Definition sample_chat_config : TextGenerationQueryConfig :=
  mkConfig (QueryDefinition.mk (OperationRef.mk "acme" TEXT_GENERATION_OPERATION_ID)
              (Some text_generation_branch_definitions) (StepDefaults.mk 60000000 1 0 None None))
    (snd sample_parts) "https://api.acme.example" "acme-1" (FFin 30 0) true 4096 1024 false unrestricted.

Definition sample_chat_run : list pystr * res (Attempt TextGenerationResponse) :=
  chat_run (λ _ _, false) (fst sample_parts) sample_chat_config "https://api.acme.example" "acme-1" Call.sample_call None
    (Ok (lit "s3cret")) (λ _, false) (λ _, raise ValueError []) (λ _, None) (λ _, raise ValueError [])
    (GoTime.DT 2026 1 1 0 0 0 0 (Some 0%Z)) true
    (λ _, Responded (mkHttp 200 [(lit "content-type", lit "text/event-stream")] (map WChunk sample_stream)))
    sample_chat_request.

Lemma text_written_is_answer_witness :
  match sample_chat_run with
  | (written, Ok a) => length written = 2 ∧ ∃ v, a_value a = Some v ∧ List.concat written = text v
  | (_, Err _) => False
  end.
Proof.
  destruct sample_chat_run as [written [a|e]] eqn:E.
  - assert (Hb : (length written, a_branch a) = (2, GENERATED_BRANCH_ID)).
    { transitivity (match sample_chat_run with (w, Ok a) => (length w, a_branch a) | (_, Err _) => (0, []) end);
        [by rewrite E|vm_compute; reflexivity]. }
    injection Hb as Hl Hb. split; [done|]. unfold sample_chat_run in E.
    eapply text_written_is_answer; [| |exact E|]; [vm_compute; reflexivity|reflexivity|rewrite Hb; by left].
  - apply (f_equal snd) in E. vm_compute in E. discriminate E.
Defined.

Definition sample_usage : dict json := [(lit "prompt_tokens", JStr "1e1000000")].

Lemma overflowing_count_escapes_witness :
  _usage (JObj sample_usage) = Err (Exn DecimalOverflow []) ∧
  decode_response (fst sample_parts) (λ _, None)
    (JsonText.quoted "{'choices':[{'message':{'content':'hi'}}],'usage':{'prompt_tokens':'1e1000000'}}")
  = DecodeRaised (Exn DecimalOverflow []).
Proof.
  split; [|vm_compute; reflexivity].
  apply (overflowing_count_escapes "1e1000000" (mkDecimal false (lit "1") 1000000) sample_usage sample_chat_config
           empty_response Results.sample_receipt); try done; vm_compute; reflexivity.
Defined.

End ChatFacts.
