(* ===== verification/ProjectStorage.v ===== *)
(** * Versioned project objects and the configuration store

    sdkpython/src/dex_connectors/sdk/projectconfig/storage.py.  [ObjectStore] is the protocol with its
    operations, [VersionedStore] what the configuration store relies on; the in-memory store is an
    instance (its lock makes every operation one step), and the configuration store is written and
    proved against the interface, with other writers acting between its own accesses. *)

From S2P Require Import Prelude Sha1 Sha256 Json Url AddressPolicy Identity Definitions.
From S2P Require Import ProjectModels.

Definition MAXIMUM_OBJECT_BYTES : Z := 4194304.

Record Object := mkObject { o_key : pystr; o_version : pystr; o_etag : pystr; o_contents : list N }.

Definition segment_invalid (s : pystr) : bool :=
  negb (truthy s) || bool_decide (s = lit ".") || bool_decide (s = lit "..").

Definition validate_object_key (key : pystr) : res unit :=
  raise_if (negb (truthy key) || (1024 <? Z.of_nat (length key))%Z || starts_with "/" key
            || existsb (λ c, (c =? 92)%N || (c =? 0)%N || (c =? 13)%N || (c =? 10)%N) key
            || existsb segment_invalid (split_char 47 key))
    ValueError "invalid project object key".

Definition _validate_contents (contents : list N) : res unit :=
  raise_if (negb (truthy contents) || (MAXIMUM_OBJECT_BYTES <? Z.of_nat (length contents))%Z)
    ValueError "project object body is empty or oversized".

Definition not_found : exn := Exn ObjectNotFoundError "project object not found".

(** ** The protocol

    An operation may meet a fault of type [F]; a store without faults uses [unit]. *)
Class ObjectStore (F S : Type) := {
  read_object : S → pystr → pystr → res Object;
  create_object : F → S → pystr → list N → res Object * S;
  compare_and_swap_object : F → S → pystr → pystr → list N → res Object * S
}.

Section Protocol.
Context {F S : Type} `{ObjectStore F S}.

(** The current object of a key. *)
Definition head_of (s : S) (key : pystr) : option Object :=
  match read_object s key [] with Ok o => Some o | Err _ => None end.

(** A write of [contents] under [key] took effect. *)
Definition written (s s' : S) (key : pystr) (contents : list N) (o : Object) : Prop :=
  o_key o = key ∧ o_contents o = contents ∧ head_of s' key = Some o ∧
  (∀ k v, k ≠ key → read_object s' k v = read_object s k v) ∧
  (∀ v o', v ≠ [] → read_object s key v = Ok o' → read_object s' key v = Ok o').

(** A write operation either took effect, which its answer may hide, or left the store alone. *)
Definition write_outcome (r : res Object * S) (s : S) (key : pystr) (contents : list N) (allowed : Prop) : Prop :=
  match r with
  | (Ok o, s') => allowed ∧ written s s' key contents o
  | (Err e, s') => s' = s ∨ (exn_cls e = OutcomeUnknownError ∧ allowed ∧ ∃ o, written s s' key contents o)
  end.

(** The store as other clients may change it. *)
Inductive evolves : S → S → Prop :=
  | evolves_refl s : evolves s s
  | evolves_create f s s' key contents :
      evolves s s' → evolves s (snd (create_object f s' key contents))
  | evolves_swap f s s' key etag contents :
      evolves s s' → evolves s (snd (compare_and_swap_object f s' key etag contents)).

End Protocol.

Class VersionedStore (F S : Type) `{ObjectStore F S} := {
  well_formed : S → Prop;
  create_law f s key contents : well_formed s →
    write_outcome (create_object f s key contents) s key contents (head_of s key = None);
  swap_law f s key etag contents : well_formed s →
    write_outcome (compare_and_swap_object f s key etag contents) s key contents
      (∃ o, head_of s key = Some o ∧ o_etag o = etag);
  evolves_well_formed s s' : well_formed s → evolves s s' → well_formed s';
  (** an entity tag stands for the bytes it was returned with *)
  etag_contents s s' key o o' : well_formed s → evolves s s' →
    head_of s key = Some o → head_of s' key = Some o' → o_etag o = o_etag o' → o_contents o = o_contents o';
  (** objects are not deleted *)
  head_persists s s' key o : well_formed s → evolves s s' → head_of s key = Some o → head_of s' key ≠ None
}.

(** ** The in-memory store *)

Module Memory.

(** [self._objects]: the versions of every key, oldest first. *)
Abbreviation store := (gmap pystr (list Object)).

Definition versions (s : store) (key : pystr) : list Object := default [] (s !! key).

Definition read_object (s : store) (key version : pystr) : res Object :=
  validate_object_key key ≫= λ _,
  match List.find (λ o, negb (truthy version) || bool_decide (o_version o = version)) (rev (versions s key)) with
  | Some o => Ok o
  | None => Err not_found
  end.

(** [_append]. *)
Definition new_object (s : store) (key : pystr) (contents : list N) : Object :=
  let version := str_of_Z (Z.of_nat (length (versions s key)) + 1) in
  mkObject key version (drop 7 (digest_bytes contents) ++ "-" ++ version) contents.

Definition _append (s : store) (key : pystr) (contents : list N) : Object * store :=
  let item := new_object s key contents in (item, <[key := versions s key ++ [item]]> s).

Definition create_object (_ : unit) (s : store) (key : pystr) (contents : list N) : res Object * store :=
  match validate_object_key key ≫= λ _, _validate_contents contents with
  | Err e => (Err e, s)
  | Ok _ =>
      match s !! key with
      | Some _ => (raise ObjectConflictError "project object already exists", s)
      | None => let '(item, s') := _append s key contents in (Ok item, s')
      end
  end.

Definition compare_and_swap_object (_ : unit) (s : store) (key expected_etag : pystr) (contents : list N)
    : res Object * store :=
  match validate_object_key key ≫= λ _, _validate_contents contents with
  | Err e => (Err e, s)
  | Ok _ =>
      match last (versions s key) with
      | Some current =>
          if truthy expected_etag && bool_decide (o_etag current = expected_etag) then
            let '(item, s') := _append s key contents in (Ok item, s')
          else (raise ObjectConflictError "project object compare-and-swap conflict", s)
      | None => (raise ObjectConflictError "project object compare-and-swap conflict", s)
      end
  end.

#[global] Instance object_store : ObjectStore unit store := {
  read_object := read_object;
  create_object := create_object;
  compare_and_swap_object := compare_and_swap_object
}.

End Memory.

(** ** The S3 store *)

Module S3.

(** [_KMS_KEY_ARN.fullmatch]. *)
Definition kms_part (tail : N → bool) (s : pystr) : bool := truthy s && forallb tail s.
Definition lower_dash (c : N) : bool := is_lower c || is_digit c || (c =? 45)%N.
Definition kms_key_arn_match (s : pystr) : bool :=
  match split_char 58 s with
  | [arn; partition; service; region; account; key] =>
      bool_decide (arn = lit "arn") && kms_part lower_dash partition && bool_decide (service = lit "kms")
      && kms_part lower_dash region && forallb is_digit account && (length account =? 12)%nat
      && starts_with "key/" key && kms_part (λ c, is_alnum c || (c =? 45)%N) (drop 4 key)
  | _ => false
  end.

Record t := mk { bucket : pystr; prefix : pystr; kms_key_arn : pystr }.

(** [S3ObjectStore.__init__]. *)
Definition init (has_client : bool) (bucket prefix kms_key_arn : pystr) (allow_unencrypted : bool) : res t :=
  raise_if (negb has_client || negb (truthy bucket)
            || existsb (λ c, (c =? 47)%N || (c =? 92)%N || (c =? 0)%N) bucket
            || negb (kms_key_arn_match kms_key_arn || (allow_unencrypted && negb (truthy kms_key_arn))))
    ValueError "versioned project storage and encryption configuration are required" ≫= λ _,
  let stripped := drop_while_end (λ c, (c =? 47)%N) prefix in
  (if truthy prefix then validate_object_key stripped else Ok ()) ≫= λ _,
  Ok (mk bucket (if truthy prefix then stripped ++ "/" else []) kms_key_arn).

(** [create]: the bucket must be versioned. *)
Definition create (versioning_status : option pystr) (store : res t) : res t :=
  store ← store;
  raise_if (negb (bool_decide (versioning_status = Some (lit "Enabled"))))
    ValueError "project object bucket versioning must be enabled" ≫= λ _, Ok store.

(** What the client answers: a response, or an error with the HTTP status its response carries. *)
Record get_response := mkGet {
  g_version : pystr; g_etag : pystr; g_encryption : option pystr; g_kms_key : option pystr; g_body : option (list N)
}.
Record put_response := mkPut { p_version : pystr; p_etag : pystr }.
Inductive reply (A : Type) := Answer (a : A) | Failed (status : option Z).
Arguments Answer {A} a.
Arguments Failed {A} status.

(** [_classify_storage_error]. *)
Definition _classify_storage_error (status : option Z) (is_write : bool) : exn :=
  if bool_decide (status = Some 404%Z) && negb is_write then not_found
  else if bool_decide (status = Some 409%Z) || bool_decide (status = Some 412%Z)
  then Exn ObjectConflictError "project object conditional write conflict"
  else if is_write then Exn OutcomeUnknownError "project write outcome is unknown"
  else Exn OSError "project object read failed".

Section Client.
Context {C : Type}.
(** [client.get_object] and [client.put_object]; the last argument of a put is its condition,
    [IfMatch] with an ETag or [IfNoneMatch="*"]. *)
Context (get : C → pystr → option pystr → reply get_response).
Context (put : C → pystr → list N → option pystr → reply put_response * C).

Definition no_version (v : pystr) : bool := negb (truthy v) || bool_decide (v = lit "null").

Definition read_object (s : t) (c : C) (key version : pystr) : res Object :=
  validate_object_key key ≫= λ _,
  match get c (prefix s ++ key) (if truthy version then Some version else None) with
  | Failed status => Err (_classify_storage_error status false)
  | Answer r =>
      match g_body r with
      | None => raise ValueError "project object body is unavailable"
      | Some body =>
          raise_if (no_version (g_version r) || negb (truthy (g_etag r))
                    || (truthy version && negb (bool_decide (g_version r = version))))
            ValueError "project object lacks exact version identity" ≫= λ _,
          raise_if (truthy (kms_key_arn s)
                    && (negb (bool_decide (g_encryption r = Some (lit "aws:kms")))
                        || negb (bool_decide (g_kms_key r = Some (kms_key_arn s)))))
            ValueError "project object encryption boundary differs" ≫= λ _,
          let contents := take (Z.to_nat (MAXIMUM_OBJECT_BYTES + 1)) body in
          raise_if (negb (truthy contents) || (MAXIMUM_OBJECT_BYTES <? Z.of_nat (length contents))%Z)
            ValueError "project object body is unavailable or oversized" ≫= λ _,
          Ok (mkObject key (g_version r) (g_etag r) contents)
      end
  end.

(** [_write_object]. *)
Definition _write_object (s : t) (c : C) (key : pystr) (contents : list N) (etag : pystr) : res Object * C :=
  match validate_object_key key ≫= λ _, _validate_contents contents with
  | Err e => (Err e, c)
  | Ok _ =>
      match put c (prefix s ++ key) contents (if truthy etag then Some etag else None) with
      | (Failed status, c') => (Err (_classify_storage_error status true), c')
      | (Answer r, c') =>
          (if no_version (p_version r) || negb (truthy (p_etag r))
           then raise OutcomeUnknownError "project write has no exact version identity"
           else Ok (mkObject key (p_version r) (p_etag r) contents), c')
      end
  end.

Definition create_object (s : t) (c : C) (key : pystr) (contents : list N) : res Object * C :=
  _write_object s c key contents [].

Definition compare_and_swap_object (s : t) (c : C) (key expected_etag : pystr) (contents : list N)
    : res Object * C :=
  if truthy expected_etag then _write_object s c key contents expected_etag
  else (raise ValueError "object compare-and-swap requires an ETag", c).
End Client.

End S3.

(** ** The in-memory store keeps the protocol *)

Module MemoryFacts.
Import Memory.

Definition version_text (i : nat) : pystr := str_of_Z (Z.of_nat i + 1).

Lemma version_text_inj i j : version_text i = version_text j → i = j.
Proof.
  unfold version_text. intros H.
  assert (Hv : ∀ i, digits_value (str_of_Z (Z.of_nat i + 1)) = (Z.of_nat i + 1)%Z).
  { intros k. destruct (Z.of_nat k + 1)%Z as [|p|p] eqn:E; [lia| |lia].
    unfold str_of_Z. rewrite str_of_N_value. done. }
  pose proof (Hv i) as Hi. rewrite H, Hv in Hi. lia.
Qed.

(** The object at position [i] of a key's versions. *)
Definition stored (key : pystr) (i : nat) (o : Object) : Prop :=
  o_key o = key ∧ o_version o = version_text i ∧
  o_etag o = Sha256.hexdigest (o_contents o) ++ "-" ++ version_text i.

Definition well_formed (s : store) : Prop :=
  ∀ key vs, s !! key = Some vs →
    vs ≠ [] ∧ validate_object_key key = Ok () ∧ ∀ i o, vs !! i = Some o → stored key i o.

Lemma new_object_stored s key contents : stored key (length (versions s key)) (new_object s key contents).
Proof. repeat split. Qed.

Lemma versions_stored s key i o : well_formed s → versions s key !! i = Some o → stored key i o.
Proof.
  intros Hs. unfold versions. destruct (s !! key) as [vs|] eqn:E; [|done]. apply (Hs key vs E).
Qed.

Lemma find_all (l : list Object) : List.find (λ o, true) l = head l.
Proof. by destruct l. Qed.

Lemma head_of_last s key : well_formed s → head_of (F:=unit) s key = last (versions s key).
Proof.
  intros Hs. unfold head_of. cbn [ProjectStorage.read_object object_store]. unfold read_object.
  destruct (validate_object_key key) as [[]|e] eqn:Hk; cbn [mbind result_bind].
  - change (λ o, negb (truthy []) || _) with (λ o : Object, true). rewrite find_all.
    destruct (versions s key) as [|o vs] using rev_ind; [done|]. rewrite rev_app_distr. cbn [rev app head].
    by rewrite last_snoc.
  - unfold versions. destruct (s !! key) as [vs|] eqn:E; [|done]. destruct (Hs key vs E) as (_ & Hv & _).
    rewrite Hk in Hv. done.
Qed.

Lemma versions_append s key contents key' :
  versions (snd (_append s key contents)) key' =
  if decide (key = key') then versions s key ++ [new_object s key contents] else versions s key'.
Proof.
  unfold _append, versions. cbv zeta. cbn [snd]. destruct (decide (key = key')) as [->|Hne].
  - by rewrite lookup_insert_eq.
  - by rewrite lookup_insert_ne.
Qed.

Lemma append_well_formed s key contents : well_formed s → validate_object_key key = Ok () →
  well_formed (snd (_append s key contents)).
Proof.
  intros Hs Hk key' vs. unfold _append. cbv zeta. cbn [snd]. destruct (decide (key = key')) as [<-|Hne].
  - rewrite lookup_insert_eq. intros [= <-]. split; [by destruct (versions s key)|]. split; [done|].
    intros i o. destruct (decide (i < length (versions s key))) as [Hi|Hi].
    + rewrite lookup_app_l by done. by apply versions_stored.
    + rewrite lookup_app_r by lia. intros Ho. apply list_lookup_singleton_Some in Ho as [Hz <-].
      replace i with (length (versions s key)) by lia. apply new_object_stored.
  - rewrite lookup_insert_ne by done. apply Hs.
Qed.

Lemma find_version_app (l : list Object) o v : (∀ o', o' ∈ l → o_version o' = v → o_version o ≠ v) → v ≠ [] →
  ∀ o', List.find (λ x, negb (truthy v) || bool_decide (o_version x = v)) (rev l) = Some o' →
  List.find (λ x, negb (truthy v) || bool_decide (o_version x = v)) (rev (l ++ [o])) = Some o'.
Proof.
  intros Hl Hv o' Ho. rewrite rev_app_distr. cbn [rev app List.find].
  assert (Ht : truthy v = true) by (by apply truthy_true). rewrite Ht in *. cbn [negb orb] in *.
  rewrite bool_decide_eq_false_2; [done|]. apply find_some in Ho as [Hin Hver%bool_decide_eq_true].
  apply (Hl o'); [|done]. apply list_elem_of_In. by apply in_rev.
Qed.

Lemma append_written s key contents : well_formed s → validate_object_key key = Ok () →
  written (F:=unit) s (snd (_append s key contents)) key contents (new_object s key contents).
Proof.
  intros Hs Hk. split; [done|]. split; [done|]. split; [|split].
  - rewrite head_of_last by (by apply append_well_formed). rewrite versions_append, decide_True by done.
    by rewrite last_snoc.
  - intros k v Hne. cbn [ProjectStorage.read_object object_store]. unfold read_object.
    by rewrite versions_append, decide_False.
  - intros v o' Hv. cbn [ProjectStorage.read_object object_store]. unfold read_object.
    rewrite Hk. cbn [mbind result_bind]. rewrite versions_append, decide_True by done.
    destruct (List.find _ (rev (versions s key))) as [x|] eqn:E; [|done]. intros [= ->].
    erewrite find_version_app; [done| |done|exact E].
    intros y [i Hy]%list_elem_of_lookup Hyv Hn.
    destruct (versions_stored _ _ _ _ Hs Hy) as (_ & Hi & _).
    destruct (new_object_stored s key contents) as (_ & Hj & _).
    assert (i = length (versions s key)) as -> by (apply version_text_inj; congruence).
    by apply lookup_lt_Some, Nat.lt_irrefl in Hy.
Qed.

Lemma head_last_elem s key o : well_formed s → last (versions s key) = Some o →
  ∃ vs, s !! key = Some vs ∧ last vs = Some o.
Proof. unfold versions. destruct (s !! key) as [vs|]; [by eexists|done]. Qed.

Lemma create_law f s key contents : well_formed s →
  write_outcome (F:=unit) (create_object f s key contents) s key contents (head_of (F:=unit) s key = None).
Proof.
  intros Hs. unfold create_object.
  destruct (validate_object_key key ≫= λ _, _validate_contents contents) as [[]|e] eqn:Hv; [|by left].
  apply bind_Ok in Hv as ([] & Hk & _).
  destruct (s !! key) as [vs|] eqn:E; [by left|]. cbn [_append]. split.
  - rewrite head_of_last by done. unfold versions. by rewrite E.
  - by apply append_written.
Qed.

Lemma swap_law f s key etag contents : well_formed s →
  write_outcome (F:=unit) (compare_and_swap_object f s key etag contents) s key contents
    (∃ o, head_of (F:=unit) s key = Some o ∧ o_etag o = etag).
Proof.
  intros Hs. unfold compare_and_swap_object.
  destruct (validate_object_key key ≫= λ _, _validate_contents contents) as [[]|e] eqn:Hv; [|by left].
  apply bind_Ok in Hv as ([] & Hk & _).
  destruct (last (versions s key)) as [current|] eqn:E; [|by left].
  destruct (truthy etag && _) eqn:Et; [|by left]. cbn [_append]. split.
  - exists current. rewrite head_of_last by done. by apply andb_prop in Et as [_ Et%bool_decide_eq_true].
  - by apply append_written.
Qed.

(** Every key keeps its versions, in order. *)
Definition extends (s s' : store) : Prop := ∀ key, ∃ more, versions s' key = versions s key ++ more.

Lemma append_extends s key contents : extends s (snd (_append s key contents)).
Proof.
  intros key'. rewrite versions_append. destruct (decide (key = key')) as [<-|]; [by eexists|].
  exists []. by rewrite app_nil_r.
Qed.

Lemma extends_refl s : extends s s.
Proof. intros key. exists []. by rewrite app_nil_r. Qed.

Lemma extends_trans s1 s2 s3 : extends s1 s2 → extends s2 s3 → extends s1 s3.
Proof.
  intros H12 H23 key. destruct (H12 key) as [m1 H1], (H23 key) as [m2 H2]. exists (m1 ++ m2).
  by rewrite H2, H1, app_assoc.
Qed.

(** One operation keeps the store well formed and extends it. *)
Definition grows (s s' : store) : Prop := well_formed s → well_formed s' ∧ extends s s'.

Lemma grows_refl s : grows s s.
Proof. intros Hs. split; [done|apply extends_refl]. Qed.

Lemma create_grows f s key contents : grows s (snd (create_object f s key contents)).
Proof.
  unfold create_object.
  destruct (validate_object_key key ≫= λ _, _validate_contents contents) as [[]|e] eqn:Hv; [|apply grows_refl].
  apply bind_Ok in Hv as ([] & Hk & _). destruct (s !! key); [apply grows_refl|]. intros Hs.
  split; [by apply append_well_formed|apply append_extends].
Qed.

Lemma swap_grows f s key etag contents : grows s (snd (compare_and_swap_object f s key etag contents)).
Proof.
  unfold compare_and_swap_object.
  destruct (validate_object_key key ≫= λ _, _validate_contents contents) as [[]|e] eqn:Hv; [|apply grows_refl].
  apply bind_Ok in Hv as ([] & Hk & _). destruct (last _) as [o|]; [|apply grows_refl].
  destruct (truthy etag && _); [|apply grows_refl]. intros Hs.
  split; [by apply append_well_formed|apply append_extends].
Qed.

Lemma evolves_grows s s' : evolves (F:=unit) s s' → grows s s'.
Proof.
  induction 1 as [s|f s s' key contents _ IH|f s s' key etag contents _ IH]; [apply grows_refl|..];
    intros Hs; destruct (IH Hs) as [Hw He].
  - destruct (create_grows f s' key contents Hw). split; [done|]. by eapply extends_trans.
  - destruct (swap_grows f s' key etag contents Hw). split; [done|]. by eapply extends_trans.
Qed.

Lemma last_stored s key o : well_formed s → last (versions s key) = Some o →
  stored key (pred (length (versions s key))) o.
Proof. intros Hs Hl. apply (versions_stored s); [done|]. by rewrite <- last_lookup. Qed.

Lemma stored_etag_inj key i j o o' : stored key i o → stored key j o' → o_etag o = o_etag o' →
  i = j ∧ Sha256.hexdigest (o_contents o) = Sha256.hexdigest (o_contents o').
Proof.
  intros (_ & _ & He) (_ & _ & He') Heq. rewrite He, He' in Heq.
  apply app_inj_1 in Heq as [Hh Hv]; [|by rewrite !Sha256.hexdigest_length].
  split; [|done]. apply app_inv_head in Hv. by apply version_text_inj.
Qed.

#[export] Instance memory_versioned : VersionedStore unit store.
Proof.
  refine {| ProjectStorage.well_formed := well_formed; ProjectStorage.create_law := create_law;
            ProjectStorage.swap_law := swap_law |}.
  - intros s s' Hs He. by apply (evolves_grows s s').
  - intros s s' key o o' Hs He Ho Ho' Htag. destruct (evolves_grows s s' He Hs) as [Hs' Hext].
    rewrite head_of_last in Ho, Ho' by done. destruct (Hext key) as [more Hmore].
    pose proof (last_stored _ _ _ Hs Ho) as H1. pose proof (last_stored _ _ _ Hs' Ho') as H2.
    destruct (stored_etag_inj _ _ _ _ _ H1 H2 Htag) as [Hlen _]. rewrite Hmore, length_app in Hlen.
    assert (0 < length (versions s key)) by (destruct (versions s key); [done|cbn; lia]).
    assert (length more = 0) as ->%nil_length_inv by lia.
    rewrite Hmore, app_nil_r, Ho in Ho'. by injection Ho' as ->.
  - intros s s' key o Hs He Ho. destruct (evolves_grows s s' He Hs) as [Hs' Hext].
    rewrite head_of_last in * by done. destruct (Hext key) as [more ->]. intros Hn.
    apply last_None, app_nil in Hn as [Hn _]. by rewrite Hn in Ho.
Defined.

End MemoryFacts.

(** ** The configuration store *)

Section ConfigurationStore.
Context {F S : Type} `{VersionedStore F S}.
(** [json.loads] of a document: [ValueError] stands for its decoding errors. *)
Context (json_loads : list N → res json).
Context (repr : json → pystr) (netloc_ok : pystr → bool) (stdlib_is_private : ip → bool).
(** [secrets.token_hex(16)] is an argument of the operation that draws it. *)
Context (scope : Scope.t).

Let to_wire := Configuration.to_wire repr netloc_ok stdlib_is_private.
Let from_wire := Configuration.from_wire repr netloc_ok stdlib_is_private.

(** [self.key]. *)
Definition configuration_key : res pystr := p ← Scope.prefix scope; Ok (p ++ "/configuration/head").

(** [_decode]. *)
Definition _decode (key : pystr) (item : Object) : res Configuration.t :=
  raise_if (negb (bool_decide (o_key item = key)) || negb (truthy (o_version item)) || negb (truthy (o_etag item)))
    ValueError "configuration document identity is invalid" ≫= λ _,
  value ← json_loads (o_contents item);
  configuration ← from_wire value;
  raise_if (negb (bool_decide (Configuration.scope configuration = scope)))
    ValueError "configuration document scope differs" ≫= λ _,
  Ok configuration.

Definition read_configuration (s : S) (key : pystr) : res (Configuration.t * Object) :=
  item ← read_object s key [];
  configuration ← _decode key item;
  Ok (configuration, item).

(** What [write_configuration] has read: nothing, or the document and its object. *)
Definition read_previous (s : S) (key : pystr) (expected_revision : Z)
    : res (option (Configuration.t * Object)) :=
  match read_configuration s key with
  | Ok p => Ok (Some p)
  | Err e =>
      if isinst e ObjectNotFoundError && (expected_revision =? 0)%Z then Ok None else Err e
  end.

Definition previous_revision (previous : option (Configuration.t * Object)) : Z :=
  match previous with Some (c, _) => Configuration.revision c | None => 0%Z end.

Definition schema_for (c : Configuration.t) : pystr :=
  if negb (Configuration.is_some (Configuration.credential_broker c))
     && negb (existsb Configuration.is_shared (Configuration.connections c))
  then PREVIOUS_CONFIGURATION_SCHEMA_VERSION else CONFIGURATION_SCHEMA_VERSION.

(** The document that replaces the previous one. *)
Definition next_configuration (expected_revision : Z) (c : Configuration.t) : Configuration.t :=
  Configuration.mk scope (expected_revision + 1) (Configuration.connections c)
    (Configuration.trigger_bindings c) (Configuration.operation_configurations c)
    (Configuration.environment c) (Configuration.credential_broker c) (schema_for c).

(** [write_configuration]: [f] is the fault of its write, and other clients act on the store
    between the read and the write ([others]) and before the read that settles an unknown outcome
    ([later]). *)
Definition write_configuration (f : F) (others later : S → S) (key : pystr) (s : S) (expected_revision : Z)
    (c : Configuration.t) : res (Configuration.t * Object) * S :=
  match read_previous s key expected_revision with
  | Err e => (Err e, s)
  | Ok previous =>
      if negb (previous_revision previous =? expected_revision)%Z
      then (raise ObjectConflictError "configuration revision conflict", s)
      else
        let updated := next_configuration expected_revision c in
        match to_wire updated ≫= go_canonical_json_bytes with
        | Err e => (Err e, s)
        | Ok contents =>
            let s := others s in
            let '(r, s) := match previous with
                           | None => create_object f s key contents
                           | Some (_, o) => compare_and_swap_object f s key (o_etag o) contents
                           end in
            match r with
            | Ok item => (Ok (updated, item), s)
            | Err e =>
                if isinst e OutcomeUnknownError then
                  let s := later s in
                  match read_object s key [] with
                  | Ok observed =>
                      if bool_decide (o_contents observed = contents) then (Ok (updated, observed), s) else (Err e, s)
                  | Err e' => (Err e', s)
                  end
                else (Err e, s)
            end
        end
  end.

Definition freeze_configuration (s : S) (key : pystr) (expected_revision : Z) : res SnapshotRef.t :=
  '(configuration, item) ← read_configuration s key;
  raise_if (negb (Configuration.revision configuration =? expected_revision)%Z)
    ObjectConflictError "configuration revision conflict" ≫= λ _,
  Ok (SnapshotRef.mk (o_key item) (o_version item) (digest_bytes (o_contents item)) "application/json").

Definition read_snapshot (s : S) (key : pystr) (reference : SnapshotRef.t) : res Configuration.t :=
  SnapshotRef.validate reference scope ≫= λ _,
  item ← read_object s (SnapshotRef.key reference) (SnapshotRef.version reference);
  raise_if (negb (bool_decide (digest_bytes (o_contents item) = SnapshotRef.digest reference)))
    ValueError "configuration snapshot digest differs" ≫= λ _,
  _decode key item.

(** ** Secrets *)

Definition _application_secret_wire (name value : pystr) : res json :=
  s ← Scope.to_wire scope; Ok (JObj [(lit "scope", s); (lit "name", JStr name); (lit "value", JStr value)]).

(** [_create_secret] with the drawn token. *)
Definition _create_secret (f : F) (later : S → S) (token name value : pystr) (s : S) : res SecretRef.t * S :=
  match p ← Scope.prefix scope;
        contents ← (w ← _application_secret_wire name value; go_canonical_json_bytes w);
        Ok (p ++ "/app-secrets/" ++ name ++ "/" ++ token, contents) with
  | Err e => (Err e, s)
  | Ok (key, contents) =>
      let done (item : Object) := Ok (SecretRef.mk key (o_version item) (digest_bytes contents)) in
      match create_object f s key contents with
      | (Ok item, s) => (done item, s)
      | (Err e, s) =>
          if isinst e ObjectConflictError || isinst e OutcomeUnknownError then
            let s := later s in
            (item ← read_object s key [];
             raise_if (negb (bool_decide (o_contents item = contents)))
               ValueError "application secret content differs" ≫= λ _, done item, s)
          else (Err e, s)
      end
  end.

Definition create_application_secret f later token (name value : pystr) (s : S) : res SecretRef.t * S :=
  match raise_if (negb (is_application_environment_name name)) ValueError "invalid application secret name"
        ≫= λ _, validate_environment_value value with
  | Err e => (Err e, s)
  | Ok _ => _create_secret f later token name value s
  end.

Definition create_credential_broker_token f later token (value : pystr) (s : S) : res SecretRef.t * S :=
  match raise_if (negb (truthy value)) ValueError "credential broker token is required"
        ≫= λ _, validate_environment_value value with
  | Err e => (Err e, s)
  | Ok _ => _create_secret f later token Configuration.BROKER_TOKEN_NAME value s
  end.

Definition read_secret_value (s : S) (reference : SecretRef.t) (name : pystr) : res pystr :=
  validate_secret_reference reference scope name ≫= λ _,
  item ← read_object s (SecretRef.key reference) (SecretRef.version reference);
  raise_if (negb (bool_decide (o_version item = SecretRef.version reference))
            || negb (bool_decide (digest_bytes (o_contents item) = SecretRef.digest reference)))
    ValueError "application secret integrity differs" ≫= λ _,
  value ← json_loads (o_contents item);
  record ← require_object value "application secret";
  expected ← Scope.to_wire scope;
  match get "value" record with
  | JStr v =>
      raise_if (negb (py_eq (get "scope" record) expected) || negb (py_eq (get "name" record) (JStr name)))
        ValueError "application secret scope or identity differs" ≫= λ _,
      validate_environment_value v ≫= λ _, Ok v
  | _ => raise ValueError "application secret scope or identity differs"
  end.

(** ** Theorems *)

(** The revision the document under [key] has; zero without a document. *)
Definition head_revision (s : S) (key : pystr) (n : Z) : Prop :=
  match head_of (F:=F) s key with
  | None => n = 0%Z
  | Some o => ∃ c, _decode key o = Ok c ∧ Configuration.revision c = n
  end.

Lemma read_configuration_head s key c o : read_configuration s key = Ok (c, o) →
  head_of (F:=F) s key = Some o ∧ _decode key o = Ok c.
Proof.
  unfold read_configuration, head_of. intros (item & Hi & H1)%bind_Ok. apply bind_Ok in H1 as (c' & Hc & H1).
  apply Ok_inj in H1 as [= -> ->]. by rewrite Hi.
Qed.

(** The head a write may replace: the one that was read, with the expected revision. *)
Definition replaces_expected (s now : S) (key : pystr) (expected : Z) : Prop :=
  match head_of (F:=F) now key with
  | None => expected = 0%Z
  | Some prior => ∃ read cfg, head_of (F:=F) s key = Some read ∧ _decode key read = Ok cfg ∧
                    Configuration.revision cfg = expected ∧ o_contents prior = o_contents read
  end.

Lemma write_outcome_weaken (r : res Object * S) s key contents (P Q : Prop) : (P → Q) →
  write_outcome (F:=F) r s key contents P → write_outcome (F:=F) r s key contents Q.
Proof.
  intros HPQ. destruct r as [[o|e] s']; cbn [write_outcome].
  - intros [? ?]. auto.
  - intros [?|(? & ? & ?)]; [by left|right; auto].
Qed.

(** The write of [write_configuration], once the document was read. *)
Lemma conditional_write_outcome f s now key expected previous contents :
  well_formed s → evolves (F:=F) s now →
  read_previous s key expected = Ok previous → previous_revision previous = expected →
  write_outcome (F:=F)
    (match previous with
     | None => create_object f now key contents
     | Some (_, o) => compare_and_swap_object f now key (o_etag o) contents
     end) now key contents (replaces_expected s now key expected).
Proof.
  intros Hwf Hnow Hprev Hrev. assert (Hw : well_formed now) by (by eapply evolves_well_formed).
  unfold read_previous in Hprev. destruct previous as [[cfg o]|].
  - destruct (read_configuration s key) as [[cfg' o']|e] eqn:Hread; [|by destruct (_ && _)].
    injection Hprev as -> ->. apply read_configuration_head in Hread as [Hh Hd].
    eapply write_outcome_weaken; [|by apply swap_law]. intros (prior & Hp & He).
    unfold replaces_expected. rewrite Hp. exists o, cfg. split; [done|]. split; [done|]. split; [done|].
    symmetry. by eapply (etag_contents s now).
  - eapply write_outcome_weaken; [|by apply create_law]. intros Hn. unfold replaces_expected. by rewrite Hn.
Qed.

(** C33: a configuration write never overwrites a revision it did not read.  Whatever other clients do
    in between and however the outcome is hidden, a write that reports success returns revision
    [expected + 1] in an object with exactly the new document's bytes; the head it replaced held the
    expected revision and was still the one that was read, unless the store already held that very
    document. *)
Theorem write_replaces_expected f others later key s expected c updated item s' :
  well_formed s → evolves (F:=F) s (others s) →
  write_configuration f others later key s expected c = (Ok (updated, item), s') →
  Configuration.revision updated = (expected + 1)%Z ∧
  (∃ wire, to_wire updated = Ok wire ∧ go_canonical_json_bytes wire = Ok (o_contents item)) ∧
  ((∃ s1 o, written (F:=F) (others s) s1 key (o_contents item) o ∧
            replaces_expected s (others s) key expected ∧ (s' = s1 ∧ item = o ∨ s' = later s1)) ∨
   s' = later (others s) ∧ head_of (F:=F) s' key = Some item).
Proof.
  intros Hwf Hothers. unfold write_configuration.
  destruct (read_previous s key expected) as [previous|e] eqn:Hprev; [|done].
  destruct (negb _) eqn:Hrev; [done|]. apply negb_false_iff, Z.eqb_eq in Hrev.
  destruct (to_wire _ ≫= go_canonical_json_bytes) as [contents|e] eqn:Hc; [|done].
  apply bind_Ok in Hc as (wire & Hwire & Hbytes).
  pose proof (conditional_write_outcome f s (others s) key expected previous contents Hwf Hothers Hprev Hrev) as Hout.
  destruct (match previous with None => _ | Some _ => _ end) as [[o|e] s1]; cbn [write_outcome] in Hout.
  - intros [= <- <- <-]. destruct Hout as [Ha Hw]. pose proof Hw as (_ & Hoc & _). rewrite Hoc.
    split; [done|]. split; [by exists wire|]. left. exists s1, o. split; [done|]. split; [done|]. by left.
  - destruct (isinst e OutcomeUnknownError); [|done].
    destruct (read_object (later s1) key []) as [observed|e'] eqn:Hobs; [|done].
    case_bool_decide as Heq; [|done]. intros [= <- <- <-]. rewrite Heq. split; [done|]. split; [by exists wire|].
    destruct Hout as [->|(_ & Ha & o & Hw)].
    + right. split; [done|]. unfold head_of. by rewrite Hobs.
    + left. exists s1, o. split; [done|]. split; [done|]. by right.
Qed.

Lemma next_revision c wire decoded : to_wire c = Ok wire → from_wire wire = Ok decoded →
  Configuration.revision decoded = Configuration.revision c.
Proof.
  unfold to_wire, Configuration.to_wire. intros (_ & _ & H1)%bind_Ok. apply bind_Ok in H1 as (sc & _ & H1).
  apply bind_Ok in H1 as (env & _ & H1). apply Ok_inj in H1 as <-.
  destruct (ModelFacts.document_fields repr c sc env) as (_ & _ & Hr & _ & _ & _ & _ & _ & _).
  change (JObj _) with (JObj (ModelFacts.document c sc env)). unfold from_wire, Configuration.from_wire.
  intros (d & Hd & H1)%bind_Ok. injection Hd as <-. apply bind_Ok in H1 as (_ & _ & H1).
  apply bind_Ok in H1 as (e & _ & H1).
  destruct (get "connections" _); try done. destruct (get "triggerBindings" _); try done.
  destruct (get "operationConfigurations" _); try done. rewrite Hr in H1.
  apply bind_Ok in H1 as (s1 & _ & H1). apply bind_Ok in H1 as (rev & Hrev & H1). injection Hrev as <-.
  do 5 (apply bind_Ok in H1 as (? & _ & H1)). apply bind_Ok in H1 as (_ & _ & H1). apply Ok_inj in H1 as <-.
  done.
Qed.

End ConfigurationStore.

(** ** The history of a configuration document *)

Module History.
Import Memory MemoryFacts.

Section Writers.
Context (json_loads : list N → res json) (repr : json → pystr).
Context (netloc_ok : pystr → bool) (stdlib_is_private : ip → bool) (scope : Scope.t) (key : pystr).

Let decode := _decode json_loads repr netloc_ok stdlib_is_private scope key.
Let to_wire := Configuration.to_wire repr netloc_ok stdlib_is_private.

(** A writer between its read and its write: what it read and the bytes it will write. *)
Definition writer : Type := option (Configuration.t * Object) * list N.
Record world := mkWorld { objects : store; writers : list writer }.

Definition write_step (w : writer) (s : store) : store :=
  snd (match fst w with
       | None => create_object () s key (snd w)
       | Some (_, o) => compare_and_swap_object () s key (o_etag o) (snd w)
       end).

(** Any number of [write_configuration] calls, each cut into its read and its (repeatable) write,
    among writes to other keys; [json.loads] reads back each document that [json.dumps] wrote. *)
Inductive step : world → world → Prop :=
  | step_read x expected c previous wire contents :
      read_previous (F:=unit) json_loads repr netloc_ok stdlib_is_private scope (objects x) key expected
        = Ok previous →
      previous_revision previous = expected →
      to_wire (next_configuration scope expected c) = Ok wire →
      go_canonical_json_bytes wire = Ok contents → json_loads contents = Ok wire →
      step x (mkWorld (objects x) ((previous, contents) :: writers x))
  | step_write x w : w ∈ writers x → step x (mkWorld (write_step w (objects x)) (writers x))
  | step_other_create x k contents : k ≠ key →
      step x (mkWorld (snd (create_object () (objects x) k contents)) (writers x))
  | step_other_swap x k etag contents : k ≠ key →
      step x (mkWorld (snd (compare_and_swap_object () (objects x) k etag contents)) (writers x)).

Inductive reachable : world → Prop :=
  | reachable_start : reachable (mkWorld ∅ [])
  | reachable_step x y : reachable x → step x y → reachable y.

(** These are the steps of [write_configuration]: it leaves the store as it was, or the write it prepared
    with its read is the [write_step] of the store that [others] left, the bytes being those of the next
    revision. *)
Lemma write_configuration_steps others later s expected c r s' :
  write_configuration (F:=unit) json_loads repr netloc_ok stdlib_is_private scope () others later key s expected c = (r, s') →
  s' = s ∨
  ∃ previous wire contents,
    read_previous (F:=unit) json_loads repr netloc_ok stdlib_is_private scope s key expected = Ok previous ∧
    previous_revision previous = expected ∧ to_wire (next_configuration scope expected c) = Ok wire ∧
    go_canonical_json_bytes wire = Ok contents ∧
    (s' = write_step (previous, contents) (others s) ∨ s' = later (write_step (previous, contents) (others s))).
Proof.
  unfold write_configuration. destruct (read_previous _ _ _ _ _ _ _ _) as [previous|e] eqn:Hp; [|intros [= _ <-]; by left].
  destruct (negb _) eqn:Hrev; [intros [= _ <-]; by left|]. apply negb_false_iff, Z.eqb_eq in Hrev. cbv zeta.
  destruct (_ ≫= go_canonical_json_bytes) as [contents|e] eqn:Hc; [|intros [= _ <-]; by left].
  apply bind_Ok in Hc as (wire & Hw & Hc). intros H. right. exists previous, wire, contents. do 4 (split; [done|]).
  set (written := match previous with None => _ | Some _ => _ end) in H.
  assert (Hs : snd written = write_step (previous, contents) (others s)) by (unfold written; by destruct previous as [[? ?]|]).
  destruct written as [[o|e] s1]; cbn [snd] in Hs; rewrite <- Hs; revert H.
  - intros [= _ <-]. by left.
  - destruct (isinst e _); [|intros [= _ <-]; by left].
    repeat case_match; intros [= _ <-]; by right.
Qed.

(** The bytes decode, if at all, to revision [n]. *)
Definition has_revision (contents : list N) (n : Z) : Prop :=
  ∀ o c, o_contents o = contents → decode o = Ok c → Configuration.revision c = n.

Definition ready (s : store) (w : writer) : Prop :=
  match fst w with
  | None => has_revision (snd w) 1
  | Some (_, o) => ∃ i, versions s key !! i = Some o ∧ has_revision (snd w) (Z.of_nat i + 2)
  end.

Record invariant (x : world) : Prop := {
  inv_store : well_formed (objects x);
  inv_history i o : versions (objects x) key !! i = Some o → has_revision (o_contents o) (Z.of_nat i + 1);
  inv_writers w : w ∈ writers x → ready (objects x) w
}.

Lemma contents_revision expected c wire contents :
  to_wire (next_configuration scope expected c) = Ok wire → json_loads contents = Ok wire →
  has_revision contents (expected + 1).
Proof.
  intros Hw Hb o d <- Hd. unfold decode, _decode in Hd. apply bind_Ok in Hd as (_ & _ & Hd).
  rewrite Hb in Hd. cbn [mbind result_bind] in Hd. apply bind_Ok in Hd as (c' & Hf & Hd).
  apply bind_Ok in Hd as (_ & _ & Hd). apply Ok_inj in Hd as <-.
  by rewrite (next_revision repr netloc_ok stdlib_is_private _ _ _ Hw Hf).
Qed.

Lemma ready_mono s s' w : extends s s' → ready s w → ready s' w.
Proof.
  intros Hext. unfold ready. destruct (fst w) as [[_ o]|]; [|done]. intros (i & Hi & Hr).
  destruct (Hext key) as [more ->]. exists i. split; [by apply lookup_app_l_Some|done].
Qed.

(** A step that leaves the document alone. *)
Lemma invariant_frame x s' : invariant x → well_formed s' → extends (objects x) s' →
  versions s' key = versions (objects x) key → invariant (mkWorld s' (writers x)).
Proof.
  intros [Hs Hh Hw] Hs' Hext Hv. split; cbn [objects writers]; [done|by rewrite Hv|].
  intros w Hin. by apply (ready_mono (objects x)), Hw.
Qed.

(** A step that appends one version with the next revision. *)
Lemma invariant_append x contents : invariant x → validate_object_key key = Ok () →
  has_revision contents (Z.of_nat (length (versions (objects x) key)) + 1) →
  invariant (mkWorld (snd (_append (objects x) key contents)) (writers x)).
Proof.
  intros [Hs Hh Hw] Hk Hr. split; cbn [objects writers].
  - by apply append_well_formed.
  - intros i o. rewrite versions_append, decide_True by done. intros Hi.
    apply lookup_app_Some in Hi as [Hi|[Hlen Hi]]; [by apply Hh|].
    apply list_lookup_singleton_Some in Hi as [Hz <-].
    replace i with (length (versions (objects x) key)) by lia. exact Hr.
  - intros w Hin. eapply ready_mono; [apply append_extends|by apply Hw].
Qed.

Lemma invariant_write x w : invariant x → ready (objects x) w →
  invariant (mkWorld (write_step w (objects x)) (writers x)).
Proof.
  intros Hinv Hr. destruct x as [s ws]. pose proof Hinv as [Hs _ _]. cbn [objects writers] in *.
  unfold write_step, ready in *. destruct w as [[[cfg o]|] contents]; cbn [fst snd] in *.
  - destruct Hr as (i & Hi & Hr). unfold compare_and_swap_object.
    destruct (validate_object_key key ≫= λ _, _validate_contents contents) as [[]|e] eqn:Hv; [|done].
    apply bind_Ok in Hv as ([] & Hk & _).
    destruct (last (versions s key)) as [current|] eqn:Hl; [|done].
    destruct (truthy (o_etag o) && _) eqn:Ht; [|done].
    apply andb_prop in Ht as [_ Ht%bool_decide_eq_true].
    destruct (stored_etag_inj key _ i current o (last_stored s key current Hs Hl) (versions_stored s key i o Hs Hi) Ht)
      as [Hlen _].
    apply (invariant_append (mkWorld s ws)); [done|done|]. cbn [objects].
    assert (length (versions s key) = S i) as -> by (apply lookup_lt_Some in Hi; lia).
    replace (Z.of_nat (S i) + 1)%Z with (Z.of_nat i + 2)%Z by lia. done.
  - unfold create_object.
    destruct (validate_object_key key ≫= λ _, _validate_contents contents) as [[]|e] eqn:Hv; [|done].
    apply bind_Ok in Hv as ([] & Hk & _). destruct (s !! key) as [vs|] eqn:E; [done|].
    apply (invariant_append (mkWorld s ws)); [done|done|]. cbn [objects]. unfold versions. by rewrite E.
Qed.

Lemma other_create s k contents : k ≠ key → versions (snd (create_object () s k contents)) key = versions s key.
Proof.
  intros Hne. unfold create_object. destruct (_ ≫= _); [|done]. destruct (s !! k); [done|].
  change (versions (snd (_append s k contents)) key = versions s key). by rewrite versions_append, decide_False.
Qed.

Lemma other_swap s k etag contents : k ≠ key →
  versions (snd (compare_and_swap_object () s k etag contents)) key = versions s key.
Proof.
  intros Hne. unfold compare_and_swap_object. destruct (_ ≫= _); [|done].
  destruct (last _); [|done]. destruct (_ && _); [|done].
  change (versions (snd (_append s k contents)) key = versions s key). by rewrite versions_append, decide_False.
Qed.

Lemma invariant_step x y : step x y → invariant x → invariant y.
Proof.
  intros Hstep Hinv. pose proof Hinv as [Hs Hh Hw].
  destruct Hstep as [x expected c previous wire contents Hp Hrev Hwire _ Hb|x w Hin|x k contents Hne|x k etag contents Hne].
  - split; cbn [objects writers]; [done|done|]. intros w [->|Hin]%elem_of_cons; [|by apply Hw].
    pose proof (contents_revision _ _ _ _ Hwire Hb) as Hr.
    unfold ready. cbn [fst snd]. destruct previous as [[cfg o]|]; cbn [previous_revision] in Hrev; [|by subst].
    unfold read_previous in Hp. destruct (read_configuration _ _ _ _ _ _ _) as [[cfg' o']|e] eqn:Hread;
      [|by destruct (_ && _)].
    injection Hp as -> ->. apply read_configuration_head in Hread as [Hhead Hd].
    rewrite head_of_last in Hhead by done. exists (pred (length (versions (objects x) key))).
    assert (Hlast : versions (objects x) key !! pred (length (versions (objects x) key)) = Some o)
      by (by rewrite <- last_lookup).
    split; [done|]. pose proof (Hh _ _ Hlast o cfg eq_refl Hd) as Hcfg.
    replace (Z.of_nat _ + 2)%Z with (expected + 1)%Z by lia. done.
  - by apply invariant_write, Hw.
  - destruct (create_grows () (objects x) k contents Hs). apply invariant_frame; [done..|by apply other_create].
  - destruct (swap_grows () (objects x) k etag contents Hs). apply invariant_frame; [done..|by apply other_swap].
Qed.

Lemma reachable_invariant x : reachable x → invariant x.
Proof.
  induction 1 as [|x y _ IH Hstep]; [|by eapply invariant_step].
  split; cbn [objects writers].
  - intros k vs. by rewrite lookup_empty.
  - intros i o. unfold versions. by rewrite lookup_empty.
  - by intros w ?%elem_of_nil.
Qed.

(** C32: under any interleaving of any number of configuration writers, retried writes included, the
    stored versions of the document carry the revisions 1, 2, 3, ... in order: no revision is written
    twice and none is skipped, so a write that lost a race never replaces another's revision. *)
Theorem revisions_count_versions x i o c :
  reachable x → versions (objects x) key !! i = Some o → decode o = Ok c →
  Configuration.revision c = (Z.of_nat i + 1)%Z.
Proof. intros Hx Hi Hd. by apply (inv_history x (reachable_invariant x Hx) i o Hi o c). Qed.

End Writers.

(** Two writes in sequence, with the reader of the two documents they produce. *)
Definition sample_key : pystr := "projects/acme/live/configuration/head".

Definition no_repr : json → pystr := λ _, [].
Definition any_netloc : pystr → bool := λ _, true.
Definition none_private : ip → bool := λ _, false.

Definition sample_document (expected : Z) : Configuration.t :=
  next_configuration ModelFacts.sample_scope expected ModelFacts.sample_configuration.
Definition sample_wire (expected : Z) : json :=
  match Configuration.to_wire no_repr any_netloc none_private (sample_document expected) with
  | Ok w => w | Err _ => JNull end.
Definition sample_bytes (expected : Z) : list N :=
  match go_canonical_json_bytes (sample_wire expected) with Ok b => b | Err _ => [] end.
Definition sample_loads (bytes : list N) : res json :=
  if bool_decide (bytes = sample_bytes 0) then Ok (sample_wire 0)
  else if bool_decide (bytes = sample_bytes 1) then Ok (sample_wire 1)
  else raise ValueError "Expecting value".

Definition first_write : writer := (None, sample_bytes 0).
Definition store_1 : store := write_step sample_key first_write ∅.
Definition object_1 : Object := new_object ∅ sample_key (sample_bytes 0).
Definition second_write : writer := (Some (sample_document 0, object_1), sample_bytes 1).
Definition store_2 : store := write_step sample_key second_write store_1.
Definition object_2 : Object := new_object store_1 sample_key (sample_bytes 1).

Lemma sample_reachable :
  reachable sample_loads no_repr any_netloc none_private ModelFacts.sample_scope sample_key
    (mkWorld store_2 [second_write; first_write]).
Proof.
  eapply reachable_step; [|apply (step_write _ _ _ _ _ _ (mkWorld store_1 [second_write; first_write])); left].
  eapply reachable_step.
  2: { apply (step_read _ _ _ _ _ _ (mkWorld store_1 [first_write]) 1 ModelFacts.sample_configuration
               (Some (sample_document 0, object_1)) (sample_wire 1) (sample_bytes 1)); vm_compute; reflexivity. }
  eapply reachable_step; [|apply (step_write _ _ _ _ _ _ (mkWorld ∅ [first_write])); left].
  eapply reachable_step; [apply reachable_start|].
  apply (step_read _ _ _ _ _ _ (mkWorld ∅ []) 0 ModelFacts.sample_configuration None (sample_wire 0)
           (sample_bytes 0)); vm_compute; reflexivity.
Qed.

Lemma revisions_count_versions_witness :
  versions store_2 sample_key !! 1 = Some object_2 ∧ Configuration.revision (sample_document 1) = 2%Z.
Proof.
  assert (Hi : versions store_2 sample_key !! 1 = Some object_2) by (vm_compute; reflexivity).
  split; [exact Hi|].
  apply (revisions_count_versions sample_loads no_repr any_netloc none_private ModelFacts.sample_scope sample_key
           (mkWorld store_2 [second_write; first_write]) 1 object_2); [exact sample_reachable|exact Hi|].
  vm_compute. reflexivity.
Defined.

(** The same first write through [write_configuration], with nobody in between. *)
Lemma write_replaces_expected_witness :
  let r := write_configuration (F:=unit) sample_loads no_repr any_netloc none_private ModelFacts.sample_scope
             () id id sample_key ∅ 0 ModelFacts.sample_configuration in
  is_ok (fst r) = true ∧ Configuration.revision (sample_document 0) = 1%Z.
Proof.
  cbv zeta. split; [vm_compute; reflexivity|].
  assert (H : fst (write_configuration (F:=unit) sample_loads no_repr any_netloc none_private
                ModelFacts.sample_scope () id id sample_key ∅ 0 ModelFacts.sample_configuration)
              = Ok (sample_document 0, object_1)) by (vm_compute; reflexivity).
  destruct (write_configuration (F:=unit) sample_loads no_repr any_netloc none_private
                ModelFacts.sample_scope () id id sample_key ∅ 0 ModelFacts.sample_configuration) as [r s'] eqn:E.
  cbn [fst] in H. subst r.
  apply (write_replaces_expected (F:=unit) sample_loads no_repr any_netloc none_private ModelFacts.sample_scope
           () id id sample_key ∅ 0 ModelFacts.sample_configuration (sample_document 0) object_1 s'); [|apply evolves_refl|exact E].
  intros k vs. by rewrite lookup_empty.
Defined.

End History.
