(* ===== verification/StoreProgram.v ===== *)
(** * Programs over an object store

    The coroutines of sdkpython/src/dex_connectors/sdk/projectconfig that await an object store, the
    clock, fresh tokens and a provider exchange, as interaction trees: every await is a node, so that
    other tasks and processes may act between any two of them.  An exception is a result, [catch] is
    [try]/[except].  [run] executes one program alone. *)

From S2P Require Import Prelude Sha256 Timestamps ProjectModels ProjectStorage.

(** The admission of one credential exchange ([_Admission] of provider.py); it travels with the
    request so that executions can be told which exchange it belongs to. *)
Module Admission.

Record t := mk {
  kind : pystr;
  attempt_id : pystr;
  fence : Z;
  deadline : GoTime.datetime;
  result_key : pystr
}.

End Admission.

Section Programs.
(** [C] is the connector's credential type. *)
Context {C : Type}.

(** What a coroutine awaits; every answer may be an exception. *)
Inductive cmd : Type → Type :=
  | CRead (key version : pystr) : cmd Object
  | CCreate (key : pystr) (contents : list N) : cmd Object
  | CSwap (key etag : pystr) (contents : list N) : cmd Object
  | CNow : cmd GoTime.datetime
  | CToken : cmd pystr
  | CSleep : cmd unit
  | CRefresh (a : Admission.t) (credentials : C) (expires_at : option GoTime.datetime)
      (now : GoTime.datetime) : cmd (C * GoTime.datetime).

Inductive prog (A : Type) : Type :=
  | Ret (r : res A)
  | Vis {X} (c : cmd X) (k : res X → prog A).
Arguments Ret {A} r.
Arguments Vis {A X} c k.

Fixpoint prog_bind {A B} (p : prog A) (f : A → prog B) : prog B :=
  match p with
  | Ret (Ok a) => f a
  | Ret (Err e) => Ret (Err e)
  | Vis c k => Vis c (λ r, prog_bind (k r) f)
  end.

(** [try: p] with the handler of its exceptions. *)
Fixpoint catch {A} (p : prog A) (h : exn → prog A) : prog A :=
  match p with
  | Ret (Ok a) => Ret (Ok a)
  | Ret (Err e) => h e
  | Vis c k => Vis c (λ r, catch (k r) h)
  end.

Definition await {X} (c : cmd X) : prog X := Vis c Ret.
Definition lift {A} (r : res A) : prog A := Ret r.
Definition fail {A} (c : exn_class) (msg : pystr) : prog A := Ret (raise c msg).

(** ** Running one program alone *)

(** The rest of the world: the store, how its next operations fail, the readings of the clock, the
    tokens drawn, and what the provider answers. *)
Record env (F S : Type) := mkEnv {
  e_store : S;
  e_faults : list F;
  e_clock : list GoTime.datetime;
  e_tokens : list pystr;
  e_exchanges : list (res (C * GoTime.datetime));
  e_dispatched : list Admission.t
}.
Arguments mkEnv {F S} _ _ _ _ _ _.
Arguments e_store {F S} _.
Arguments e_faults {F S} _.
Arguments e_clock {F S} _.
Arguments e_tokens {F S} _.
Arguments e_exchanges {F S} _.
Arguments e_dispatched {F S} _.

Section Run.
Context {F S : Type} `{ObjectStore F S} (no_fault : F) (epoch : GoTime.datetime).

Definition with_store (s : S) (e : env F S) : env F S :=
  mkEnv s (tail (e_faults e)) (e_clock e) (e_tokens e) (e_exchanges e) (e_dispatched e).

(** One await.  The clock keeps its last reading. *)
Definition perform {X} (c : cmd X) (e : env F S) : res X * env F S :=
  let fault := hd no_fault (e_faults e) in
  match c in cmd X return res X * env F S with
  | CRead key version => (read_object (e_store e) key version, e)
  | CCreate key contents =>
      let '(r, s) := create_object fault (e_store e) key contents in (r, with_store s e)
  | CSwap key etag contents =>
      let '(r, s) := compare_and_swap_object fault (e_store e) key etag contents in (r, with_store s e)
  | CNow =>
      (Ok (hd epoch (e_clock e)),
       mkEnv (e_store e) (e_faults e) (match e_clock e with _ :: (_ :: _) as c => c | c => c end)
         (e_tokens e) (e_exchanges e) (e_dispatched e))
  | CToken =>
      (Ok (hd [] (e_tokens e)),
       mkEnv (e_store e) (e_faults e) (e_clock e) (tail (e_tokens e)) (e_exchanges e) (e_dispatched e))
  | CSleep => (Ok (), e)
  | CRefresh a _ _ _ =>
      (hd (raise TimeoutError []) (e_exchanges e),
       mkEnv (e_store e) (e_faults e) (e_clock e) (e_tokens e) (tail (e_exchanges e)) (a :: e_dispatched e))
  end.

Fixpoint run {A} (p : prog A) (e : env F S) : res A * env F S :=
  match p with
  | Ret r => (r, e)
  | Vis c k => let '(r, e) := perform c e in run (k r) e
  end.

Lemma run_bind {A B} (p : prog A) (f : A → prog B) e :
  run (prog_bind p f) e =
  match run p e with (Ok a, e') => run (f a) e' | (Err x, e') => (Err x, e') end.
Proof. revert e. induction p as [[a|x]|X c k IH]; intros e; [done..|]. cbn [prog_bind run].
  destruct (perform c e) as [r e']. apply IH. Qed.

Lemma run_catch {A} (p : prog A) h e :
  run (catch p h) e =
  match run p e with (Ok a, e') => (Ok a, e') | (Err x, e') => run (h x) e' end.
Proof. revert e. induction p as [[a|x]|X c k IH]; intros e; [done..|]. cbn [catch run].
  destruct (perform c e) as [r e']. apply IH. Qed.

End Run.
End Programs.

Arguments cmd C : clear implicits.
Arguments prog C A : clear implicits.
Arguments Ret {C A} r.
Arguments Vis {C A X} c k.
Arguments mkEnv {C F S} _ _ _ _ _ _.
Arguments e_store {C F S} _.
Arguments e_faults {C F S} _.
Arguments e_clock {C F S} _.
Arguments e_tokens {C F S} _.
Arguments e_exchanges {C F S} _.
Arguments e_dispatched {C F S} _.

Declare Scope prog_scope.
Delimit Scope prog_scope with prog.
Notation "x <- p ;; q" := (prog_bind p (λ x, q))
  (at level 100, p at next level, right associativity, format "x  <-  p ;;  '/' q") : prog_scope.
Notation "p ;;; q" := (prog_bind p (λ _, q)) (at level 100, right associativity) : prog_scope.

(** ** Storage faults

    A write whose answer is lost, or whose request is: either way the caller is told that the outcome
    is unknown, as the S3 store tells it. *)
Module Faulty.

Inductive fault := NoFault | LostRequest | LostAnswer.

Definition unknown {A} : res A := raise OutcomeUnknownError "project write outcome is unknown".

Definition disturb {S} (f : fault) (s : S) (write : res Object * S) : res Object * S :=
  match f with
  | NoFault => write
  | LostRequest => (unknown, s)
  | LostAnswer => match write with (Ok _, s') => (unknown, s') | w => w end
  end.

#[global] Instance object_store : ObjectStore fault Memory.store := {
  read_object := Memory.read_object;
  create_object f s key contents := disturb f s (Memory.create_object () s key contents);
  compare_and_swap_object f s key etag contents :=
    disturb f s (Memory.compare_and_swap_object () s key etag contents)
}.

End Faulty.

Module FaultyFacts.
Import Faulty MemoryFacts.

Lemma disturb_cases {S} f (s : S) w :
  disturb f s w = w ∨ disturb f s w = (unknown, s) ∨ ∃ o, fst w = Ok o ∧ disturb f s w = (unknown, snd w).
Proof. destruct f; [by left|by right; left|]. destruct w as [[o|e] s']; [right; right; by eexists|by left]. Qed.

(** A disturbed write keeps the law of the write. *)
Lemma disturb_law f s w key contents (allowed : Prop) :
  write_outcome (F:=unit) w s key contents allowed →
  write_outcome (F:=fault) (disturb f s w) s key contents allowed.
Proof.
  intros H. destruct f; [exact H|by left|]. destruct w as [[o|e] s']; [|exact H].
  destruct H as [Ha Hw]. right. split; [done|]. split; [done|]. by exists o.
Qed.

Lemma disturb_snd {S} f (s : S) w : snd (disturb f s w) = s ∨ snd (disturb f s w) = snd w.
Proof. destruct (disturb_cases f s w) as [->|[->|(o & _ & ->)]]; auto. Qed.

Lemma evolves_undisturbed (s s' : Memory.store) : evolves (F:=fault) s s' → evolves (F:=unit) s s'.
Proof.
  induction 1 as [s|f s s' key contents _ IH|f s s' key etag contents _ IH]; [constructor|..].
  - cbn. destruct (disturb_snd f s' (Memory.create_object () s' key contents)) as [->| ->]; [done|].
    exact (evolves_create (F:=unit) () s s' key contents IH).
  - cbn. destruct (disturb_snd f s' (Memory.compare_and_swap_object () s' key etag contents)) as [->| ->]; [done|].
    exact (evolves_swap (F:=unit) () s s' key etag contents IH).
Qed.

(** The in-memory store with faults keeps the protocol too. *)
#[export] Instance faulty_versioned : VersionedStore fault Memory.store.
Proof.
  refine {| ProjectStorage.well_formed := MemoryFacts.well_formed |}.
  - intros f s key contents Hs. by apply disturb_law, MemoryFacts.create_law.
  - intros f s key etag contents Hs. by apply disturb_law, MemoryFacts.swap_law.
  - intros s s' Hs He%evolves_undisturbed. exact (evolves_well_formed (VersionedStore:=memory_versioned) s s' Hs He).
  - intros s s' key o o' Hs He%evolves_undisturbed.
    exact (etag_contents (VersionedStore:=memory_versioned) s s' key o o' Hs He).
  - intros s s' key o Hs He%evolves_undisturbed. exact (head_persists (VersionedStore:=memory_versioned) s s' key o Hs He).
Defined.

End FaultyFacts.
