(* ===== verification/ProjectConnections.v ===== *)
(** * Connection heads and credential material

    sdkpython/src/dex_connectors/sdk/projectconfig/connections.py: the key and path of a connection,
    the JSON head that carries its revision, fence, status and credential reference, the immutable
    credential envelopes, and the store that reads and replaces them.  [repr] of containers and
    [datetime.fromisoformat] are parameters; [json.loads] is computed. *)

From S2P Require Import Prelude Json JsonText Sha256 Timestamps Identity Definitions.
From S2P Require Import ProjectModels ProjectStorage StoreProgram.

Definition CONNECTION_SCHEMA_VERSION : pystr := "connectors.dex.dev/project-connection/v1alpha2".

(** ** Keys *)

Definition base64_char (n : N) : N :=
  if (n <? 26)%N then (65 + n)%N
  else if (n <? 52)%N then (71 + n)%N
  else if (n <? 62)%N then (n - 4)%N
  else if (n =? 62)%N then 45%N else 95%N.

(** [base64.urlsafe_b64encode(bytes).decode().rstrip("=")]. *)
Fixpoint urlsafe_b64 (bytes : list N) : pystr :=
  match bytes with
  | a :: b :: c :: r =>
      [base64_char (a / 4); base64_char (a mod 4 * 16 + b / 16); base64_char (b mod 16 * 4 + c / 64);
       base64_char (c mod 64)]%N ++ urlsafe_b64 r
  | [a; b] => [base64_char (a / 4); base64_char (a mod 4 * 16 + b / 16); base64_char (b mod 16 * 4)]%N
  | [a] => [base64_char (a / 4); base64_char (a mod 4 * 16)]%N
  | [] => []
  end.

Module ConnectionKey.

Record t := mk { connector_id : pystr; connection_name : pystr }.

#[global] Instance eq_dec : EqDecision t.
Proof. solve_decision. Defined.

Definition to_wire (k : t) : json :=
  JObj [(lit "connectorId", JStr (connector_id k)); (lit "connectionName", JStr (connection_name k))].

Definition path (k : t) (scope : Scope.t) : res pystr :=
  let name := connection_name k in
  raise_if (negb (connector_id_match (connector_id k)) || negb (truthy name)
            || negb (bool_decide (py_strip name = name)) || (256 <? length name)%nat
            || existsb (λ c, (c =? 0)%N || (c =? 13)%N || (c =? 10)%N) name)
    ValueError "invalid project connection key" ≫= λ _,
  bytes ← CallID.encode name;
  prefix ← Scope.prefix scope;
  Ok (prefix ++ "/connections/" ++ connector_id k ++ "/" ++ urlsafe_b64 bytes).

End ConnectionKey.

(** [CredentialMaterial] and [Connection]. *)
Record CredentialMaterial := mkMaterial {
  credentials : dict json;
  m_expires_at : option GoTime.timestamp;
  auth_method : pystr
}.

Record Connection := mkConnection {
  cn_key : ConnectionKey.t;
  cn_scope : Scope.t;
  cn_revision : json;
  cn_fence : json;
  cn_status : pystr;
  cn_expires_at : option GoTime.datetime;
  cn_auth_method : pystr
}.

(** ** Wire documents *)

Definition optional_member (key : pystr) (value : option json) : dict json :=
  match value with Some v => [(key, v)] | None => [] end.

(** [if expires_at is not None: result["expiresAt"] = format_rfc3339_nano(expires_at)]. *)
Definition expiry_wire (expires_at : option GoTime.timestamp) : res (option json) :=
  match expires_at with
  | Some t => s ← GoTime.format_rfc3339_nano t; Ok (Some (JStr s))
  | None => Ok None
  end.

Definition _credential_envelope_wire (scope : Scope.t) (key : ConnectionKey.t) (fence : Z)
    (credentials : dict json) (expires_at : option GoTime.timestamp) (auth_method attempt_id : pystr)
    : res (dict json) :=
  scope ← Scope.to_wire scope;
  expiry ← expiry_wire expires_at;
  Ok ([(lit "schemaVersion", JStr CONNECTION_SCHEMA_VERSION); (lit "scope", scope);
       (lit "connection", ConnectionKey.to_wire key); (lit "fence", JInt fence)]
      ++ (if truthy attempt_id then [(lit "attemptId", JStr attempt_id)] else [])
      ++ [(lit "credentials", JObj credentials)]
      ++ optional_member "expiresAt" expiry
      ++ [(lit "authMethod", JStr auth_method)]).

(** The three members of a credential reference. *)
Definition reference_wire (reference : dict json) : res json :=
  k ← item "key" reference; v ← item "version" reference; d ← item "digest" reference;
  Ok (JObj [(lit "key", k); (lit "version", v); (lit "digest", d)]).

Definition reference_of (key version digest : pystr) : dict json :=
  [(lit "key", JStr key); (lit "version", JStr version); (lit "digest", JStr digest)].

(** The mutation of an exchange in flight; its time is put in canonical form. *)
Definition mutation_wire (repr : json → pystr) (mutation : dict json) : res json :=
  kind ← item "kind" mutation;
  invocation ← item "invocationId" mutation;
  id ← item "id" mutation;
  fence ← item "fence" mutation;
  base ← item "baseRevision" mutation;
  deadline ← item "deadline" mutation;
  deadline ← GoTime.from_wire (py_str repr deadline);
  result_key ← item "resultKey" mutation;
  Ok (JObj [(lit "kind", kind); (lit "invocationId", invocation); (lit "id", id); (lit "fence", fence);
            (lit "baseRevision", base); (lit "deadline", JStr (GoTime.wire deadline));
            (lit "resultKey", result_key)]).

Definition _connection_record_wire (repr : json → pystr) (scope : Scope.t) (key : ConnectionKey.t)
    (revision : Z) (fence : json) (status : pystr) (expires_at : option GoTime.timestamp) (auth_method : json)
    (credential_reference mutation : option (dict json)) : res (dict json) :=
  scope ← Scope.to_wire scope;
  expiry ← expiry_wire expires_at;
  reference ← match credential_reference with
              | Some r => w ← reference_wire r; Ok (Some w) | None => Ok None end;
  mutation ← match mutation with
             | Some m => w ← mutation_wire repr m; Ok (Some w) | None => Ok None end;
  Ok ([(lit "schemaVersion", JStr CONNECTION_SCHEMA_VERSION);
       (lit "connection", ConnectionKey.to_wire key); (lit "scope", scope);
       (lit "revision", JInt revision); (lit "fence", fence); (lit "status", JStr status)]
      ++ optional_member "expiresAt" expiry
      ++ [(lit "authMethod", auth_method)]
      ++ optional_member "credential" reference
      ++ optional_member "mutation" mutation).

(** ** Validation of a head *)

(** [isinstance(value, int)]: a [bool] is an [int]. *)
Definition int_value (j : json) : option Z :=
  match j with JInt z => Some z | JBool b => Some (if b then 1 else 0)%Z | _ => None end.
Definition num_int (j : json) : Z := default 0%Z (int_value j).

Definition sha_hex_match (s : pystr) : bool := forallb is_lower_hex s && (length s =? 64)%nat.
Definition attempt_id_match (s : pystr) : bool :=
  forallb (λ c, is_alnum c || (c =? 95)%N || (c =? 45)%N) s && sized 1 128 s.

Definition record_fields : list pystr :=
  [lit "schemaVersion"; lit "connection"; lit "scope"; lit "revision"; lit "fence"; lit "status";
   lit "expiresAt"; lit "authMethod"; lit "credential"; lit "mutation"].
Definition statuses : list pystr :=
  [lit "READY"; lit "REFRESHING"; lit "AUTHORIZING"; lit "REAUTHORIZATION_REQUIRED"; lit "REVOKED"].

Definition status_is (s : pystr) (d : dict json) : bool := py_eq (get "status" d) (JStr s).
Definition is_null (j : json) : bool := match j with JNull => true | _ => false end.

Section Heads.
Context (repr : json → pystr) (fromisoformat : pystr → res GoTime.datetime).

Definition exchange_result_key (path attempt_id : pystr) : pystr := path ++ "/exchange-results/" ++ attempt_id.
Definition head_key (path : pystr) : pystr := path ++ "/head".

(** [_parse_time]. *)
Definition _parse_time (value : json) : res (option GoTime.datetime) :=
  match value with
  | JNull => Ok None
  | JStr s => d ← fromisoformat (replace_char 90 "+00:00" s); Ok (Some d)
  | _ => raise ValueError "invalid credential expiry"
  end.

(** [status not in {...}]: a set cannot look up a list or a dict. *)
Definition status_unknown (status : json) : res bool :=
  match status with
  | JArr _ | JObj _ => raise TypeError "unhashable type"
  | _ => Ok (negb (existsb (λ s, py_eq status (JStr s)) statuses))
  end.

Definition reference_invalid (path : pystr) (r : dict json) : bool :=
  negb (starts_with (path ++ "/") (py_str repr (get_or "key" (JStr []) r)))
  || negb (match get "version" r with JStr v => truthy v | _ => false end)
  || negb (match get "digest" r with JStr d => sha_hex_match d | _ => false end).

(** The admission of an exchange in a head; [true] when it is invalid. *)
Definition mutation_invalid (path : pystr) (record m : dict json) : res bool :=
  match get "id" m with
  | JStr id =>
      if negb (attempt_id_match id) || negb (py_eq (get "kind" m) (get "status" record))
         || negb (match get "invocationId" m with JStr i => truthy i | _ => false end)
         || negb (py_eq (get "fence" m) (get "fence" record))
         || negb (py_eq (get "baseRevision" m) (JInt (num_int (get "revision" record) - 1)))
         || negb (py_eq (get "resultKey" m) (JStr (exchange_result_key path id)))
      then Ok true
      else t ← _parse_time (get "deadline" m); Ok (match t with None => true | Some _ => false end)
  | _ => Ok true
  end.

(** The checks of [_read_record] on what it has read. *)
Definition validate_head (scope : Scope.t) (key : ConnectionKey.t) (path : pystr) (o : Object)
    : res (dict json) :=
  value ← loads_bytes (o_contents o);
  record ← require_object value "connection head";
  let identity {A} : res A := raise ValueError "project connection identity is invalid" in
  scope ← Scope.to_wire scope;
  if negb (truthy (o_version o)) || negb (truthy (o_etag o)) || negb (keys_within record record_fields)
     || negb (py_eq (get "schemaVersion" record) (JStr CONNECTION_SCHEMA_VERSION))
     || negb (py_eq (get "scope" record) scope)
     || negb (py_eq (get "connection" record) (ConnectionKey.to_wire key))
     || negb (match int_value (get "revision" record) with Some z => (0 <? z)%Z | None => false end)
     || negb (match int_value (get "fence" record) with Some z => (0 <? z)%Z | None => false end)
  then identity
  else
    unknown ← status_unknown (get "status" record);
    if unknown : bool then identity
    else
      let reference := get "credential" record in
      raise_if ((status_is "READY" record || status_is "REFRESHING" record) && is_null reference)
        ValueError "project credential reference is absent" ≫= λ _,
      raise_if (status_is "REVOKED" record
                && (negb (is_null reference) || negb (is_null (get "mutation" record))))
        ValueError "revoked connection retains active material" ≫= λ _,
      (if is_null reference then Ok ()
       else
         r ← require_object reference "credential reference";
         raise_if (reference_invalid path r) ValueError "project credential reference is invalid") ≫= λ _,
      (if status_is "REFRESHING" record || status_is "AUTHORIZING" record then
         match get "mutation" record with
         | JObj m =>
             bad ← mutation_invalid path record m;
             raise_if bad ValueError "credential exchange admission is invalid"
         | _ => raise ValueError "credential exchange admission is absent"
         end
       else raise_if (negb (is_null (get "mutation" record)))
              ValueError "inactive credential exchange admission is invalid") ≫= λ _,
      Ok record.

(** [_connection]. *)
Definition _connection (scope : Scope.t) (key : ConnectionKey.t) (record : dict json) : res Connection :=
  expires ← _parse_time (get "expiresAt" record);
  Ok (mkConnection key scope (get "revision" record) (get "fence" record)
        (py_str repr (get "status" record)) expires
        (py_str repr (get_or "authMethod" (JStr []) record))).

(** ** The connection store *)

Section Store.
Context {C : Type} (scope : Scope.t).
Local Open Scope prog_scope.

Abbreviation prog := (prog C).

Definition _read_record (key : ConnectionKey.t) : prog (dict json * Object) :=
  path <- lift (ConnectionKey.path key scope);;
  o <- await (CRead (head_key path) []);;
  record <- lift (validate_head scope key path o);;
  lift (Ok (record, o)).

Definition read_connection (key : ConnectionKey.t) : prog Connection :=
  r <- _read_record key;; lift (_connection scope key (fst r)).

(** The envelope a head refers to: its exact version, digest, identity and expiry. *)
Definition check_envelope (key : ConnectionKey.t) (expected_auth expected_expiry : json) (digest : json)
    (o : Object) : res (dict json) :=
  raise_if (negb (py_eq (JStr (Sha256.hexdigest (o_contents o))) digest))
    ValueError "project credential integrity differs" ≫= λ _,
  value ← loads_bytes (o_contents o);
  envelope ← require_object value "credential envelope";
  scope ← Scope.to_wire scope;
  raise_if (negb (py_eq (get "schemaVersion" envelope) (JStr CONNECTION_SCHEMA_VERSION))
            || negb (py_eq (get "scope" envelope) scope)
            || negb (py_eq (get "connection" envelope) (ConnectionKey.to_wire key))
            || negb (py_eq (get "authMethod" envelope) expected_auth)
            || negb (py_eq (get "expiresAt" envelope) expected_expiry))
    ValueError "project credential identity differs" ≫= λ _,
  Ok envelope.

Definition read_credential_material (key : ConnectionKey.t) : prog (CredentialMaterial * Connection) :=
  r <- _read_record key;;
  let record := fst r in
  connection <- lift (_connection scope key record);;
  lift (raise_if (negb (bool_decide (cn_status connection = lit "READY")))
          ValueError "project credential is unavailable");;;
  reference <- lift (require_object (get "credential" record) "credential reference");;
  k <- lift (item "key" reference);;
  v <- lift (item "version" reference);;
  o <- await (CRead (py_str repr k) (py_str repr v));;
  digest <- lift (item "digest" reference);;
  envelope <- lift (check_envelope key (JStr (cn_auth_method connection)) (get "expiresAt" record) digest o);;
  credentials <- lift (require_object (get "credentials" envelope) "credentials");;
  expires <- lift (match get "expiresAt" envelope with
                   | JNull => Ok None
                   | e => t ← GoTime.from_wire (py_str repr e); Ok (Some (GoTime.TNano t))
                   end);;
  lift (Ok (mkMaterial credentials expires (cn_auth_method connection), connection)).

(** [try: create_object ... except (ObjectConflictError, OutcomeUnknownError)]: the object another
    attempt left must have the same bytes. *)
Definition create_or_read (key : pystr) (contents : list N) (differs : pystr) : prog Object :=
  catch (await (CCreate key contents))
    (λ e, if isinst e ObjectConflictError || isinst e OutcomeUnknownError then
            o <- await (CRead key []);;
            lift (raise_if (negb (bool_decide (o_contents o = contents))) ValueError differs);;;
            lift (Ok o)
          else lift (Err e)).

(** A head write whose outcome is unknown succeeded when the head has the written bytes. *)
Definition settle_write (path : pystr) (contents : list N) (write : prog Object) : prog unit :=
  catch (write;;; lift (Ok ()))
    (λ e, if isinst e OutcomeUnknownError then
            observed <- await (CRead (head_key path) []);;
            (if bool_decide (o_contents observed = contents) then lift (Ok ()) else lift (Err e))
          else lift (Err e)).

(** What [replace_credential] found: revision, fence and the head object, or no head. *)
Definition read_replaced (key : ConnectionKey.t) (expected_revision : Z) : prog (Z * Z * option Object) :=
  catch (r <- _read_record key;;
         lift (Ok (num_int (get "revision" (fst r)), num_int (get "fence" (fst r)), Some (snd r))))
    (λ e, if isinst e ObjectNotFoundError && (expected_revision =? 0)%Z
          then lift (Ok (0%Z, 0%Z, None)) else lift (Err e)).

Definition replace_credential (key : ConnectionKey.t) (expected_revision : Z) (material : CredentialMaterial)
    : prog Connection :=
  lift (raise_if (negb (truthy (auth_method material))) ValueError "invalid credential material");;;
  path <- lift (ConnectionKey.path key scope);;
  found <- read_replaced key expected_revision;;
  let '(revision, prior_fence, head) := found in
  lift (raise_if (negb (revision =? expected_revision)%Z) ObjectConflictError "connection revision conflict");;;
  let fence := (prior_fence + 1)%Z in
  envelope <- lift (_credential_envelope_wire scope key fence (credentials material)
                      (m_expires_at material) (auth_method material) []);;
  contents <- lift (go_canonical_json_bytes (JObj envelope));;
  let digest := Sha256.hexdigest contents in
  let immutable_key := path ++ "/credentials/" ++ digest in
  candidate <- create_or_read immutable_key contents "immutable credential content differs";;
  new_record <- lift (_connection_record_wire repr scope key (expected_revision + 1) (JInt fence) "READY"
                        (m_expires_at material) (JStr (auth_method material))
                        (Some (reference_of immutable_key (o_version candidate) digest)) None);;
  head_contents <- lift (go_canonical_json_bytes (JObj new_record));;
  settle_write path head_contents
    (match head with
     | None => await (CCreate (head_key path) head_contents)
     | Some h => await (CSwap (head_key path) (o_etag h) head_contents)
     end);;;
  lift (_connection scope key new_record).

End Store.
End Heads.
