(* ===== verification/ProjectProvider.v ===== *)
(** * Project credential providers

    sdkpython/src/dex_connectors/sdk/projectconfig/provider.py: resolving a stored credential, and
    refreshing it once per generation across replicas.  A refresh is admitted by a conditional write
    of the connection head; observers wait for, publish or abandon the exchange.  [resolve_round] is
    one turn of the [while True] of [resolve_with_refresh]. *)

From S2P Require Import Prelude Json JsonText Sha256 Timestamps Identity Calls Definitions OAuth.
From S2P Require Import ProjectModels ProjectStorage StoreProgram ProjectConnections.

Definition _REFRESH_TIMEOUT : Z := 30000000.
Definition _ADMISSION_TIMEOUT : Z := 40000000.

(** Comparison of datetimes; aware and naive ones do not compare. *)
Definition compare_datetimes (test : Z → Z → bool) (a b : GoTime.datetime) : res bool :=
  match GoTime.dt_offset a, GoTime.dt_offset b with
  | Some _, Some _ | None, None => Ok (test (GoTime.instant a) (GoTime.instant b))
  | _, _ => raise TypeError "can't compare offset-naive and offset-aware datetimes"
  end.
Definition dt_lt := compare_datetimes Z.ltb.
Definition dt_le := compare_datetimes Z.leb.

Section Provider.
Context (repr : json → pystr) (fromisoformat : pystr → res GoTime.datetime).
Context {C : Type} (decode : dict json → res C) (decode_shared : option (dict json → res C))
        (encode : C → res json).
Context (scope : Scope.t) (key : ConnectionKey.t).
Local Open Scope prog_scope.

Abbreviation prog := (prog C).

(** The broker-backed connection of a shared entry: its two reads. *)
Record SharedReads := mkShared {
  shared_resolve : pystr → prog (dict json);
  shared_resolve_after_rejection : pystr → prog (dict json)
}.
Context (shared : option SharedReads).

Abbreviation read_record := (_read_record repr fromisoformat (C:=C) scope key).
Abbreviation parse_expiry := (_parse_time fromisoformat).
Abbreviation record_wire := (_connection_record_wire repr scope key).

Definition key_path : res pystr := ConnectionKey.path key scope.

(** [_validate_call]. *)
Definition _validate_call (call : Call.t) : res unit :=
  raise_if (negb (bool_decide (OperationRef.connector_id (Call.operation call) = ConnectionKey.connector_id key))
            || negb (bool_decide (ConnectionRef.name (Call.connection call) = ConnectionKey.connection_name key)))
    ValueError "connector call differs from configured project connection" ≫= λ _,
  OperationRef.validate (Call.operation call).

Definition decoding_failed {A} (r : res A) (message : pystr) : res A :=
  match r with
  | Err e => if isinst e ValueError || isinst e KeyError || isinst e TypeError
             then raise ValueError message else Err e
  | Ok a => Ok a
  end.

Definition _decode_material (material : CredentialMaterial) : res C :=
  decoding_failed (decode (credentials material)) "project credential decoding failed".
Definition _decode_shared_material (material : dict json) : res C :=
  decoding_failed (default decode decode_shared material) "shared project credential decoding failed".

(** [CredentialProvider.resolve]. *)
Definition resolve (call : Call.t) : prog C :=
  lift (_validate_call call);;;
  match shared with
  | Some s => m <- shared_resolve s (Call.id call);; lift (_decode_shared_material m)
  | None =>
      found <- read_credential_material repr fromisoformat scope key;;
      expired <- match cn_expires_at (snd found) with
                 | None => lift (Ok false)
                 | Some e => now <- await CNow;; lift (dt_le e now)
                 end;;
      (if expired : bool then fail ValueError "expired project credential requires refresh"
       else lift (_decode_material (fst found)))
  end.

(** ** The pieces of a refresh *)

(** [_read_material]. *)
Definition _read_material (record : dict json) : prog CredentialMaterial :=
  reference <- lift (require_object (get "credential" record) "credential reference");;
  k <- lift (item "key" reference);;
  v <- lift (item "version" reference);;
  o <- await (CRead (py_str repr k) (py_str repr v));;
  digest <- lift (item "digest" reference);;
  envelope <- lift (check_envelope scope key (get "authMethod" record) (get "expiresAt" record) digest o);;
  credentials <- lift (require_object (get "credentials" envelope) "credentials");;
  expires <- lift (parse_expiry (get "expiresAt" envelope));;
  auth <- lift (item "authMethod" envelope);;
  lift (Ok (mkMaterial credentials (GoTime.TDate <$> expires) (py_str repr auth))).

(** [_write_head]: the head must still equal the one that was read. *)
Definition _write_head (prior updated : dict json) : prog unit :=
  path <- lift key_path;;
  r <- read_record;;
  let head := snd r in
  value <- lift (loads_bytes (o_contents head));;
  current <- lift (require_object value "connection head");;
  lift (raise_if (negb (py_eq (JObj current) (JObj prior))) ObjectConflictError "connection revision conflict");;;
  contents <- lift (go_canonical_json_bytes (JObj updated));;
  settle_write path contents (await (CSwap (head_key path) (o_etag head) contents)).

(** [_require_admission]. *)
Definition _require_admission (record : dict json) (a : Admission.t) : res unit :=
  let superseded := raise ObjectConflictError "credential exchange admission was superseded" in
  if negb (status_is (Admission.kind a) record)
     || negb (py_eq (get "fence" record) (JInt (Admission.fence a))) then superseded
  else
    match get "mutation" record with
    | JObj m =>
        if negb (py_eq (get "id" m) (JStr (Admission.attempt_id a)))
           || negb (py_eq (get "kind" m) (JStr (Admission.kind a))) then superseded
        else Ok ()
    | _ => superseded
    end.

(** [record.get("credential", {}).get("key")]. *)
Definition credential_key (record : dict json) : res json :=
  match get_or "credential" (JObj []) record with
  | JObj r => Ok (get "key" r)
  | _ => raise AttributeError "get"
  end.

(** The head already refers to the object under [result_key]. *)
Definition already_published (record : dict json) (result_key : pystr) : res bool :=
  if status_is "READY" record then k ← credential_key record; Ok (py_eq k (JStr result_key)) else Ok false.

(** [_finish_exchange]. *)
Definition _finish_exchange (a : Admission.t) (status : pystr) : prog unit :=
  r <- read_record;;
  let record := fst r in
  lift (_require_admission record a);;;
  expires <- lift (parse_expiry (get "expiresAt" record));;
  auth <- lift (item "authMethod" record);;
  reference <- lift (if is_null (get "credential" record) then Ok None
                     else c ← require_object (get "credential" record) "credential reference"; Ok (Some c));;
  updated <- lift (record_wire (num_int (get "revision" record) + 1) (JInt (num_int (get "fence" record) + 1))
                     status (GoTime.TDate <$> expires) (JStr (py_str repr auth)) reference None);;
  _write_head record updated.

(** The identity of an exchange result. *)
Definition result_invalid (a : Admission.t) (envelope : dict json) : res bool :=
  scope ← Scope.to_wire scope;
  Ok (negb (py_eq (get "schemaVersion" envelope) (JStr CONNECTION_SCHEMA_VERSION))
      || negb (py_eq (get "scope" envelope) scope)
      || negb (py_eq (get "connection" envelope) (ConnectionKey.to_wire key))
      || negb (py_eq (get "fence" envelope) (JInt (Admission.fence a)))
      || negb (py_eq (get "attemptId" envelope) (JStr (Admission.attempt_id a)))).

(** The head that publishes an exchange result. *)
Definition published_record (record : dict json) (a : Admission.t) (result : Object) : res (dict json) :=
  value ← loads_bytes (o_contents result);
  envelope ← require_object value "credential result";
  bad ← result_invalid a envelope;
  raise_if bad ValueError "credential exchange result identity is invalid" ≫= λ _,
  expires ← parse_expiry (get "expiresAt" envelope);
  auth ← item "authMethod" envelope;
  record_wire (num_int (get "revision" record) + 1) (get "fence" record) "READY"
    (GoTime.TDate <$> expires) (JStr (py_str repr auth))
    (Some (reference_of (o_key result) (o_version result) (Sha256.hexdigest (o_contents result)))) None.

(** [_publish_result]. *)
Definition _publish_result (a : Admission.t) (result : Object) : prog unit :=
  r <- read_record;;
  let record := fst r in
  already <- lift (already_published record (o_key result));;
  if already : bool then lift (Ok ())
  else
    lift (_require_admission record a);;;
    updated <- lift (published_record record a result);;
    catch (_write_head record updated)
      (λ e, if isinst e ObjectConflictError then
              observed <- read_record;;
              published <- lift (already_published (fst observed) (o_key result));;
              (if published : bool then lift (Ok ()) else lift (Err e))
            else lift (Err e)).

(** [_commit_refresh]. *)
Definition _commit_refresh (a : Admission.t) (material : CredentialMaterial) : prog unit :=
  envelope <- lift (_credential_envelope_wire scope key (Admission.fence a) (credentials material)
                      (m_expires_at material) (auth_method material) (Admission.attempt_id a));;
  contents <- lift (go_canonical_json_bytes (JObj envelope));;
  result <- create_or_read (Admission.result_key a) contents "immutable credential result differs";;
  _publish_result a result.

(** The mutation and the head of an admission. *)
Definition admission_mutation (record : dict json) (path attempt_id invocation_id : pystr)
    (deadline : GoTime.datetime) : res (dict json) :=
  deadline ← GoTime.format_rfc3339_nano (GoTime.TDate deadline);
  Ok [(lit "kind", JStr "REFRESHING"); (lit "invocationId", JStr invocation_id); (lit "id", JStr attempt_id);
      (lit "fence", JInt (num_int (get "fence" record) + 1)); (lit "baseRevision", get "revision" record);
      (lit "deadline", JStr deadline); (lit "resultKey", JStr (exchange_result_key path attempt_id))].

Definition admitted_record (record mutation : dict json) : res (dict json) :=
  expires ← parse_expiry (get "expiresAt" record);
  auth ← item "authMethod" record;
  credential ← item "credential" record;
  reference ← require_object credential "credential reference";
  record_wire (num_int (get "revision" record) + 1) (JInt (num_int (get "fence" record) + 1)) "REFRESHING"
    (GoTime.TDate <$> expires) auth (Some reference) (Some mutation).

(** [_admit_refresh]. *)
Definition _admit_refresh (record : dict json) (now : GoTime.datetime) : prog Admission.t :=
  attempt_id <- await CToken;;
  path <- lift key_path;;
  deadline <- lift (GoTime.add_micros now _ADMISSION_TIMEOUT);;
  invocation_id <- await CToken;;
  mutation <- lift (admission_mutation record path attempt_id invocation_id deadline);;
  updated <- lift (admitted_record record mutation);;
  _write_head record updated;;;
  lift (Ok (Admission.mk "REFRESHING" attempt_id (num_int (get "fence" record) + 1) deadline
              (exchange_result_key path attempt_id))).

Definition refresh_failed {A} (message : pystr) : prog A := fail RefreshFailedError message.

(** The handlers of a failed exchange. *)
Definition exchange_failed {A} (a : Admission.t) (e : exn) : prog A :=
  if isinst e ReauthorizationRequiredError then
    _finish_exchange a "REAUTHORIZATION_REQUIRED";;; lift (Err e)
  else
    _finish_exchange a "READY";;;
    (if isinst e AddressRefusal then lift (Err e)
     else refresh_failed "project credential refresh failed; current authorization is kept").

(** What the encoder returned must be a nonempty object. *)
Definition encoded_material (c : C) : res (dict json) :=
  match encode c with
  | Ok (JObj (_ :: _ as d)) => Ok d
  | Ok _ => raise ValueError "invalid private credential material"
  | Err e => Err e
  end.

(** [_refresh_admitted]. *)
Definition _refresh_admitted (a : Admission.t) (prior : CredentialMaterial) (credentials : C)
    (expires_at : option GoTime.datetime) (now : GoTime.datetime) : prog C :=
  result <- catch (await (CRefresh a credentials expires_at now)) (exchange_failed a);;
  now <- await CNow;;
  late <- lift (dt_le (snd result) now);;
  if late : bool then
    _finish_exchange a "READY";;; refresh_failed "refreshed credential has no future expiry"
  else
    encoded <- catch (lift (encoded_material (fst result)))
      (λ e, if isinst e ValueError || isinst e TypeError then
              _finish_exchange a "READY";;; refresh_failed "refreshed credential encoding failed"
            else lift (Err e));;
    _commit_refresh a (mkMaterial encoded (Some (GoTime.TDate (snd result))) (auth_method prior));;;
    lift (Ok (fst result)).

(** The admission an observer reads from a head. *)
Definition observed_admission (record : dict json) : res Admission.t :=
  mutation ← require_object (get "mutation" record) "credential mutation";
  id ← item "id" mutation;
  deadline ← item "deadline" mutation;
  deadline ← parse_expiry deadline;
  result_key ← item "resultKey" mutation;
  Ok (Admission.mk (py_str repr (get "status" record)) (py_str repr id) (num_int (get "fence" record))
        (default GoTime.datetime_min_utc deadline) (py_str repr result_key)).

(** [_recover_or_wait]. *)
Definition _recover_or_wait (record : dict json) : prog unit :=
  a <- lift (observed_admission record);;
  found <- catch (o <- await (CRead (Admission.result_key a) []);; lift (Ok (Some o)))
             (λ e, if isinst e ObjectNotFoundError then lift (Ok None) else lift (Err e));;
  match found with
  | Some result => _publish_result a result
  | None =>
      now <- await CNow;;
      waiting <- lift (dt_lt now (Admission.deadline a));;
      (if waiting : bool then await CSleep
       else _finish_exchange a
              (if bool_decide (Admission.kind a = lit "AUTHORIZING") then lit "REAUTHORIZATION_REQUIRED"
               else lit "READY"))
  end.

(** [try: ... except ObjectConflictError: continue]. *)
Definition or_continue {A} (p : prog A) : prog (option A) :=
  catch (x <- p;; lift (Ok (Some x)))
    (λ e, if isinst e ObjectConflictError then lift (Ok None) else lift (Err e)).

(** ** [resolve_with_refresh] *)

Section Driver.
(** [driver.refresh_required] of a credential, its expiry and the time. *)
Context (refresh_required : C → option GoTime.datetime → GoTime.datetime → bool).

(** The branch of a head in exchange whose admission may still be running. *)
Definition pending_exchange (record : dict json) : prog unit :=
  mutation <- lift (require_object (get "mutation" record) "credential mutation");;
  deadline <- lift (item "deadline" mutation ≫= parse_expiry);;
  match deadline with
  | None => lift (Ok ())
  | Some d =>
      now <- await CNow;;
      pending <- lift (dt_lt now d);;
      (if pending : bool then fail ExchangePendingError "credential authorization exchange is pending"
       else lift (Ok ()))
  end.

(** The branch of a READY head: the credential is returned as it is, or refreshed. *)
Definition resolve_ready (record : dict json) : prog (option C) :=
  material <- _read_material record;;
  credentials <- lift (_decode_material material);;
  now <- await CNow;;
  let expires_at := match m_expires_at material with Some (GoTime.TDate d) => Some d | _ => None end in
  current <- lift (match expires_at with None => Ok true | Some e => dt_lt now e end);;
  if (current : bool) && negb (refresh_required credentials expires_at now) then lift (Ok (Some credentials))
  else
    admission <- or_continue (_admit_refresh record now);;
    match admission with
    | None => lift (Ok None)
    | Some a => c <- _refresh_admitted a material credentials expires_at now;; lift (Ok (Some c))
    end.

(** One turn of the loop; [None] continues it. *)
Definition resolve_round : prog (option C) :=
  r <- read_record;;
  let record := fst r in
  if status_is "REVOKED" record || status_is "REAUTHORIZATION_REQUIRED" record then
    fail ReauthorizationRequiredError "connector reauthorization is required"
  else if status_is "AUTHORIZING" record then
    pending_exchange record;;; or_continue (_recover_or_wait record);;; lift (Ok None)
  else if status_is "REFRESHING" record then
    or_continue (_recover_or_wait record);;; lift (Ok None)
  else if negb (status_is "READY" record) then fail ValueError "project credential status is invalid"
  else resolve_ready record.

(** What precedes the loop: [None] enters it. *)
Definition resolve_with_refresh_start (call : Call.t) (has_driver : bool) : prog (option C) :=
  lift (_validate_call call);;;
  lift (raise_if (negb has_driver) ValueError "credential refresh driver is required");;;
  match shared with
  | Some s => m <- shared_resolve s (Call.id call);; c <- lift (_decode_shared_material m);; lift (Ok (Some c))
  | None => lift (Ok None)
  end.

(** [resolve_after_rejection]; [None] goes on as [resolve_with_refresh]. *)
Definition resolve_after_rejection_start (call : Call.t) (has_driver : bool) : prog (option C) :=
  lift (_validate_call call);;;
  lift (raise_if (negb has_driver) ValueError "credential refresh driver is required");;;
  match shared with
  | Some s =>
      m <- shared_resolve_after_rejection s (Call.id call);;
      c <- lift (_decode_shared_material m);; lift (Ok (Some c))
  | None =>
      connection <- read_connection repr fromisoformat scope key;;
      kept <- match cn_expires_at connection with
              | None => lift (Ok true)
              | Some e => now <- await CNow;; lift (dt_lt now e)
              end;;
      (if kept : bool then
         fail RejectedCredentialNotRefreshedError "authentication rejection does not prove credential expiry"
       else resolve_with_refresh_start call has_driver)
  end.

(** At most [n] turns of the loop; [None] when they were not enough. *)
Fixpoint resolve_loop (n : nat) : prog (option C) :=
  match n with
  | O => lift (Ok None)
  | S n =>
      r <- resolve_round;;
      match r with Some c => lift (Ok (Some c)) | None => resolve_loop n end
  end.

End Driver.
End Provider.
