(* ===== verification/CredentialRefresh.v ===== *)
(** * Refreshing a credential from many processes

    Any number of tasks run [resolve_with_refresh] and [replace_credential]
    (sdkpython/src/dex_connectors/sdk/projectconfig/provider.py and connections.py) on one connection,
    their awaits interleaved, their writes lost or unanswered, their clocks arbitrary, some of them
    crashing; clients of the other SDKs write the head too.  A small program logic over the
    interaction trees ([wp], [spec]) shows that the head moves only as [transition] allows and that a
    provider exchange is dispatched at most once per fence. *)

From S2P Require Import Prelude Json JsonText Sha256 Timestamps Identity Calls Definitions OAuth StructuredOutput.
From S2P Require Import ProjectModels CanonicalJson ProjectStorage StoreProgram ProjectConnections.
From S2P Require Import ProjectProvider.
Import Memory MemoryFacts Faulty FaultyFacts.

(** ** Heads as documents *)

Definition doc (o : Object) : option (dict json) :=
  match loads_bytes (o_contents o) with Ok (JObj d) => Some d | _ => None end.

Definition fence_of (d : dict json) : Z := num_int (get "fence" d).
Definition status_of (d : dict json) : pystr := match get "status" d with JStr s => s | _ => [] end.
Definition in_exchange (d : dict json) : Prop := status_of d = lit "REFRESHING" ∨ status_of d = lit "AUTHORIZING".
Definition mutation_of (d : dict json) : dict json := match get "mutation" d with JObj m => m | _ => [] end.

(** The head with index [i] in its history. *)
Record head_ok (i : nat) (d : dict json) : Prop := {
  ok_plain : plain (JObj d) = true;
  ok_revision : get "revision" d = JInt (Z.of_nat i + 1);
  ok_fence : get "fence" d = JInt (fence_of d) ∧ (1 <= fence_of d)%Z
}.

(** The credential reference goes over, as its three members. *)
Definition credential_kept (d d' : dict json) : Prop :=
  match get "credential" d with
  | JObj r => reference_wire r = Ok (get "credential" d')
  | c => c = JNull ∧ get "credential" d' = JNull
  end.

Definition material_key (path digest : pystr) : pystr := path ++ "/credentials/" ++ digest.

(** The credential reference of a head resolves: it names a stored version and its digest. *)
Definition reference_resolves (s : store) (d : dict json) : Prop :=
  match get "credential" d with
  | JNull => True
  | JObj r => ∃ k o, o ∈ versions s k ∧ get "key" r = JStr k ∧ get "version" r = JStr (o_version o) ∧
                     get "digest" r = JStr (Sha256.hexdigest (o_contents o))
  | _ => False
  end.

(** The fence of a head never goes back; it stays only when a running exchange ends READY. *)
Definition fence_rule (d d' : dict json) : Prop :=
  (fence_of d < fence_of d')%Z ∨ (fence_of d' = fence_of d ∧ in_exchange d ∧ status_of d' = lit "READY").

(** How a head may replace another, given the store: the abstract protocol.  [foreign] is what the
    clients of the other SDKs do. *)
Inductive transition (foreign : dict json → dict json → Prop) (path : pystr) (s : store) (d d' : dict json) : Prop :=
  | t_admit :
      status_of d = lit "READY" → status_of d' = lit "REFRESHING" → fence_of d' = (fence_of d + 1)%Z →
      credential_kept d d' → transition foreign path s d d'
  | t_publish id o envelope :
      in_exchange d → status_of d' = lit "READY" → fence_of d' = fence_of d →
      get "id" (mutation_of d) = JStr id →
      o ∈ versions s (exchange_result_key path id) → doc o = Some envelope →
      py_eq (get "fence" envelope) (JInt (fence_of d)) = true →
      py_eq (get "attemptId" envelope) (JStr id) = true →
      get "credential" d' = JObj (reference_of (exchange_result_key path id) (o_version o)
                                    (Sha256.hexdigest (o_contents o))) →
      transition foreign path s d d'
  | t_finish :
      in_exchange d → (status_of d' = lit "READY" ∨ status_of d' = lit "REAUTHORIZATION_REQUIRED") →
      fence_of d' = (fence_of d + 1)%Z → credential_kept d d' → transition foreign path s d d'
  | t_replace o :
      status_of d' = lit "READY" → fence_of d' = (fence_of d + 1)%Z →
      o ∈ versions s (material_key path (Sha256.hexdigest (o_contents o))) →
      get "credential" d' = JObj (reference_of (material_key path (Sha256.hexdigest (o_contents o))) (o_version o)
                                    (Sha256.hexdigest (o_contents o))) →
      transition foreign path s d d'
  | t_foreign : foreign d d' → reference_resolves s d' → transition foreign path s d d'.

(** ** Executions *)

Section Executions.
Context (repr : json → pystr) (fromisoformat : pystr → res GoTime.datetime).
Context {C : Type} (decode : dict json → res C) (encode : C → res json).
Context (refresh_required : C → option GoTime.datetime → GoTime.datetime → bool).
Context (scope : Scope.t) (key : ConnectionKey.t) (path : pystr).

Let head := head_key path.

(** What the clients of the other SDKs do to the head. *)
Context (foreign : dict json → dict json → Prop) (Hforeign : ∀ d d', foreign d d' → fence_rule d d').

(** What the tasks share: the objects, the tokens drawn so far, the exchanges dispatched so far. *)
Record state := mkState { objects : store; used : list pystr; log : list Admission.t }.

Definition attempts (w : state) : list pystr := map Admission.attempt_id (log w).

(** One await: a read may fail, a write may be lost or unanswered, a clock may show anything, a token
    is fresh, and a provider may answer anything. *)
Definition acts {X} (c : cmd C X) (w : state) (r : res X) (w' : state) : Prop :=
  match c in cmd _ X return res X → Prop with
  | CRead k v => λ r, w' = w ∧ (r = Memory.read_object (objects w) k v ∨ r = raise OSError "project object read failed")
  | CCreate k b => λ r, ∃ f, disturb f (objects w) (Memory.create_object () (objects w) k b) = (r, objects w') ∧
                             w' = mkState (objects w') (used w) (log w)
  | CSwap k e b => λ r, ∃ f, disturb f (objects w) (Memory.compare_and_swap_object () (objects w) k e b) = (r, objects w') ∧
                             w' = mkState (objects w') (used w) (log w)
  | CNow => λ r, w' = w ∧ ∃ t, r = Ok t
  | CToken => λ r, ∃ t, r = Ok t ∧ (t ∉ used w) ∧ secret_id_match t = true ∧
                        w' = mkState (objects w) (t :: used w) (log w)
  | CSleep => λ r, w' = w ∧ r = Ok ()
  | CRefresh a _ _ _ => λ r, w' = mkState (objects w) (used w) (a :: log w)
  end r.

(** A task: one turn of a refresh, or a replacement. *)
Inductive task := Resolving (p : prog C (option C)) | Replacing (p : prog C Connection).

Inductive task_step : state → task → state → task → Prop :=
  | step_resolving {X} w w' (c : cmd C X) k r :
      acts c w r w' → task_step w (Resolving (Vis c k)) w' (Resolving (k r))
  | step_replacing {X} w w' (c : cmd C X) k r :
      acts c w r w' → task_step w (Replacing (Vis c k)) w' (Replacing (k r))
  | step_again w :
      task_step w (Resolving (Ret (Ok None))) w
        (Resolving (resolve_round repr fromisoformat decode encode scope key refresh_required)).

Record world := mkWorld { shared_state : state; tasks : list task }.

(** A crashed task is one that takes no further step. *)
Inductive step : world → world → Prop :=
  | step_resolve w ts :
      step (mkWorld w ts)
        (mkWorld w (Resolving (resolve_round repr fromisoformat decode encode scope key refresh_required) :: ts))
  | step_replace w ts expected material :
      step (mkWorld w ts)
        (mkWorld w (Replacing (replace_credential repr fromisoformat scope key expected material) :: ts))
  | step_task w w' ts1 t t' ts2 :
      task_step w t w' t' → step (mkWorld w (ts1 ++ t :: ts2)) (mkWorld w' (ts1 ++ t' :: ts2))
  | step_foreign_object w ts k b : k ≠ head →
      step (mkWorld w ts) (mkWorld (mkState (snd (Memory.create_object () (objects w) k b)) (used w) (log w)) ts)
  | step_foreign_create w ts b d :
      loads_bytes b = Ok (JObj d) → head_ok 0 d → reference_resolves (objects w) d →
      step (mkWorld w ts) (mkWorld (mkState (snd (Memory.create_object () (objects w) head b)) (used w) (log w)) ts)
  | step_foreign_head w ts j o d b d' :
      versions (objects w) head !! j = Some o → doc o = Some d →
      loads_bytes b = Ok (JObj d') → head_ok (S j) d' → foreign d d' →
      reference_resolves (objects w) d' →
      step (mkWorld w ts)
        (mkWorld (mkState (snd (Memory.compare_and_swap_object () (objects w) head (o_etag o) b)) (used w) (log w)) ts).

Inductive reachable : world → Prop :=
  | reachable_start : reachable (mkWorld (mkState ∅ [] []) [])
  | reachable_step x y : reachable x → step x y → reachable y.

(** ** The invariant *)

Definition version_at (s : store) (i : nat) (d : dict json) : Prop :=
  ∃ o, versions s head !! i = Some o ∧ doc o = Some d.

(** The exchange [a] was admitted by a head. *)
Definition admitted (s : store) (a : Admission.t) : Prop :=
  ∃ i d, version_at s i d ∧ status_of d = lit "REFRESHING" ∧ fence_of d = Admission.fence a ∧
         get "id" (mutation_of d) = JStr (Admission.attempt_id a).

Record inv (w : state) : Prop := {
  inv_store : well_formed (objects w);
  inv_docs i o : versions (objects w) head !! i = Some o → ∃ d, doc o = Some d ∧ head_ok i d;
  inv_chain i d d' : version_at (objects w) i d → version_at (objects w) (S i) d' → transition foreign path (objects w) d d';
  inv_reference i d : version_at (objects w) i d → reference_resolves (objects w) d;
  inv_log a : a ∈ log w → admitted (objects w) a;
  inv_once : NoDup (attempts w);
  inv_used t : t ∈ attempts w → t ∈ used w
}.

Definition later (w w' : state) : Prop := extends (objects w) (objects w') ∧ used w ⊆ used w'.

(** The tokens a task holds have not been dispatched. *)
Definition holds (own : list pystr) (w : state) : Prop := ∀ t, t ∈ own → t ∈ used w ∧ t ∉ attempts w.

(** What a task must establish before an await. *)
Definition pre {X} (c : cmd C X) (own : list pystr) (w : state) : Prop :=
  match c with
  | CCreate k b => k ≠ head ∨ ∃ d, loads_bytes b = Ok (JObj d) ∧ head_ok 0 d ∧ reference_resolves (objects w) d
  | CSwap k etag b =>
      k = head ∧ ∃ j o d d', versions (objects w) head !! j = Some o ∧ o_etag o = etag ∧ doc o = Some d ∧
                   loads_bytes b = Ok (JObj d') ∧ head_ok (S j) d' ∧ transition foreign path (objects w) d d'
  | CRefresh a _ _ _ => Admission.attempt_id a ∈ own ∧ admitted (objects w) a
  | _ => True
  end.

Definition own_after {X} (c : cmd C X) (r : res X) (own : list pystr) : list pystr :=
  match c in cmd _ X return res X → list pystr with
  | CToken => λ r, match r with Ok t => t :: own | Err _ => own end
  | CRefresh a _ _ _ => λ _, List.filter (λ t, negb (bool_decide (t = Admission.attempt_id a))) own
  | _ => λ _, own
  end r.

(** Every await of the task is allowed, whatever the others do in between, and its result satisfies
    [Q]. *)
Fixpoint wp {A} (p : prog C A) (own : list pystr) (w : state) (Q : list pystr → state → res A → Prop) : Prop :=
  match p with
  | Ret r => ∀ w1, later w w1 → inv w1 → holds own w1 → Q own w1 r
  | Vis c k => ∀ w1, later w w1 → inv w1 → holds own w1 →
      pre c own w1 ∧ ∀ r w2, acts c w1 r w2 → wp (k r) (own_after c r own) w2 Q
  end.

(** ** Awaits keep the invariant *)

Lemma later_refl w : later w w.
Proof. split; [apply extends_refl|done]. Qed.

Lemma later_trans w1 w2 w3 : later w1 w2 → later w2 w3 → later w1 w3.
Proof. intros [He Hu] [He' Hu']. split; [by eapply extends_trans|by intros t ?; apply Hu', Hu]. Qed.

Lemma versions_extends s s' k i o : extends s s' → versions s k !! i = Some o → versions s' k !! i = Some o.
Proof. intros He Hi. destruct (He k) as [more ->]. by apply lookup_app_l_Some. Qed.

Lemma version_at_mono s s' i d : extends s s' → version_at s i d → version_at s' i d.
Proof. intros He (o & Ho & Hd). exists o. split; [by eapply versions_extends|done]. Qed.

Lemma admitted_mono s s' a : extends s s' → admitted s a → admitted s' a.
Proof. intros He (i & d & Hv & H). exists i, d. split; [by eapply version_at_mono|done]. Qed.

Lemma resolves_mono s s' d : extends s s' → reference_resolves s d → reference_resolves s' d.
Proof.
  intros He. unfold reference_resolves. destruct (get "credential" d) as [| | | | | |r]; try done.
  intros (k & o & Ho & H). exists k, o. split; [|done]. destruct (He k) as [more ->]. apply elem_of_app. by left.
Qed.

Lemma item_get k d v : item k d = Ok v → get k d = v.
Proof. unfold item, get, get_or. destruct (dget k d); [|done]. by intros ?%Ok_inj. Qed.

Lemma resolves_kept s d d' : credential_kept d d' → reference_resolves s d → reference_resolves s d'.
Proof.
  unfold credential_kept, reference_resolves. destruct (get "credential" d) as [| | | | | |r]; try done; [by intros [_ ->]|].
  unfold reference_wire. intros (k & Hk%item_get & H)%bind_Ok. apply bind_Ok in H as (v & Hv%item_get & H).
  apply bind_Ok in H as (h & Hh%item_get & H). apply Ok_inj in H as <-. subst k v h. done.
Qed.

Lemma transition_resolves s d d' : transition foreign path s d d' → reference_resolves s d → reference_resolves s d'.
Proof.
  assert (Hnew : ∀ k o, o ∈ versions s k →
            get "credential" d' = JObj (reference_of k (o_version o) (Sha256.hexdigest (o_contents o))) →
            reference_resolves s d').
  { intros k o Ho Hc. unfold reference_resolves. rewrite Hc. by exists k, o. }
  intros [_ _ _ Hk|id o env _ _ _ _ Ho _ _ _ Hc|_ _ _ Hk|o _ _ Ho Hc|_ Hr] H; [by eapply resolves_kept|by eapply Hnew|
    by eapply resolves_kept|by eapply Hnew|done].
Qed.

Lemma transition_mono s s' d d' : extends s s' → transition foreign path s d d' → transition foreign path s' d d'.
Proof.
  intros He. assert (Hin : ∀ k o, o ∈ versions s k → o ∈ versions s' k).
  { intros k o Ho. destruct (He k) as [more ->]. apply elem_of_app. by left. }
  intros [| | | |]; [by apply t_admit|by eapply t_publish; eauto|by apply t_finish|by eapply t_replace; eauto|apply t_foreign; [done|by eapply resolves_mono]].
Qed.

Lemma version_at_fun s i d d' : version_at s i d → version_at s i d' → d = d'.
Proof. intros (o & Ho & Hd) (o' & Ho' & Hd'). congruence. Qed.

(** The store after a write: it has grown by at most the written object. *)
Lemma create_store f s k b r s' : well_formed s →
  disturb f s (Memory.create_object () s k b) = (r, s') →
  well_formed s' ∧ extends s s' ∧
  (s' = s ∨ (versions s k = [] ∧ s' = snd (_append s k b) ∧ validate_object_key k = Ok ())).
Proof.
  intros Hs Hd. assert (Hs' : s' = snd (disturb f s (Memory.create_object () s k b))) by (by rewrite Hd).
  destruct (create_grows () s k b Hs) as [Hw He]. destruct (disturb_snd f s (Memory.create_object () s k b)) as [E|E];
    rewrite E in Hs'; subst s'; [split; [done|]; split; [apply extends_refl|by left]|].
  split; [done|]. split; [done|]. unfold Memory.create_object.
  destruct (validate_object_key k ≫= λ _, _validate_contents b) as [[]|e] eqn:Hv; [|by left].
  apply bind_Ok in Hv as ([] & Hk & _). destruct (s !! k) as [vs|] eqn:Hl; [by left|right].
  split; [unfold versions; by rewrite Hl|done].
Qed.

Lemma swap_store f s k e b r s' : well_formed s →
  disturb f s (Memory.compare_and_swap_object () s k e b) = (r, s') →
  well_formed s' ∧ extends s s' ∧
  (s' = s ∨ (∃ current, last (versions s k) = Some current ∧ o_etag current = e ∧
             s' = snd (_append s k b) ∧ validate_object_key k = Ok ())).
Proof.
  intros Hs Hd. assert (Hs' : s' = snd (disturb f s (Memory.compare_and_swap_object () s k e b))) by (by rewrite Hd).
  destruct (swap_grows () s k e b Hs) as [Hw He].
  destruct (disturb_snd f s (Memory.compare_and_swap_object () s k e b)) as [E|E];
    rewrite E in Hs'; subst s'; [split; [done|]; split; [apply extends_refl|by left]|].
  split; [done|]. split; [done|]. unfold Memory.compare_and_swap_object.
  destruct (validate_object_key k ≫= λ _, _validate_contents b) as [[]|x] eqn:Hv; [|by left].
  apply bind_Ok in Hv as ([] & Hk & _). destruct (last (versions s k)) as [o|] eqn:Hl; [|by left].
  destruct (truthy e && _) eqn:Ht; [|by left]. apply andb_prop in Ht as [_ Ht%bool_decide_eq_true].
  right. by exists o.
Qed.

(** What the invariant says of a store that only grew beside the head. *)
Lemma inv_frame w s' : inv w → well_formed s' → extends (objects w) s' →
  versions s' head = versions (objects w) head → inv (mkState s' (used w) (log w)).
Proof.
  intros Hinv Hs He Hv.
  assert (Hva : ∀ i d, version_at s' i d ↔ version_at (objects w) i d)
    by (intros i d; unfold version_at; by rewrite Hv).
  split; cbn [objects used log].
  - done.
  - rewrite Hv. apply (inv_docs w Hinv).
  - intros i d d' H1%Hva H2%Hva. eapply transition_mono; [done|]. by eapply (inv_chain w Hinv).
  - intros i d H1%Hva. eapply resolves_mono; [done|]. by eapply (inv_reference w Hinv).
  - intros a Ha. eapply admitted_mono; [done|]. by apply (inv_log w Hinv).
  - apply (inv_once w Hinv).
  - apply (inv_used w Hinv).
Qed.

(** Appending a head: the new document follows the last one. *)
Lemma inv_append w b d : inv w → validate_object_key head = Ok () →
  loads_bytes b = Ok (JObj d) → head_ok (length (versions (objects w) head)) d →
  (∀ j d0, S j = length (versions (objects w) head) → version_at (objects w) j d0 → transition foreign path (objects w) d0 d) →
  reference_resolves (objects w) d →
  inv (mkState (snd (_append (objects w) head b)) (used w) (log w)).
Proof.
  intros Hinv Hk Hb Hok Htr Hres. set (s' := snd (_append (objects w) head b)).
  assert (He : extends (objects w) s') by apply append_extends.
  assert (Hv : versions s' head = versions (objects w) head ++ [new_object (objects w) head b])
    by (unfold s'; rewrite versions_append, decide_True; done).
  assert (Hdoc : doc (new_object (objects w) head b) = Some d) by (unfold doc; cbn [o_contents new_object]; by rewrite Hb).
  split; cbn [objects used log].
  - apply append_well_formed; [apply (inv_store w Hinv)|done].
  - intros i o. rewrite Hv. intros Hi. apply lookup_app_Some in Hi as [Hi|[Hlen Hi]]; [by apply (inv_docs w Hinv)|].
    apply list_lookup_singleton_Some in Hi as [Hz <-]. exists d. split; [done|].
    by replace i with (length (versions (objects w) head)) by lia.
  - intros i d1 d2 (o1 & Ho1 & Hd1) (o2 & Ho2 & Hd2). rewrite Hv in Ho1, Ho2. eapply transition_mono; [done|].
    apply lookup_app_Some in Ho2 as [Hi2|[Hlen Hi2]].
    + assert (Hi1 : versions (objects w) head !! i = Some o1).
      { apply lookup_app_Some in Ho1 as [?|[? _]]; [done|]. apply lookup_lt_Some in Hi2. lia. }
      apply (inv_chain w Hinv i); [by exists o1|by exists o2].
    + apply list_lookup_singleton_Some in Hi2 as [Hz <-].
      assert (d2 = d) as -> by congruence.
      assert (Hi1 : versions (objects w) head !! i = Some o1).
      { apply lookup_app_Some in Ho1 as [?|[? _]]; [done|]. lia. }
      apply (Htr i); [lia|by exists o1].
  - intros i d0 (o0 & Ho0 & Hd0). rewrite Hv in Ho0. eapply resolves_mono; [done|].
    apply lookup_app_Some in Ho0 as [Hi0|[_ Hi0]]; [by eapply (inv_reference w Hinv i); exists o0|].
    apply list_lookup_singleton_Some in Hi0 as [_ <-]. by assert (d0 = d) as -> by congruence.
  - intros a Ha. eapply admitted_mono; [done|]. by apply (inv_log w Hinv).
  - apply (inv_once w Hinv).
  - apply (inv_used w Hinv).
Qed.

Lemma inv_create w k b f r s' : inv w → (k ≠ head ∨ ∃ d, loads_bytes b = Ok (JObj d) ∧ head_ok 0 d ∧ reference_resolves (objects w) d) →
  disturb f (objects w) (Memory.create_object () (objects w) k b) = (r, s') →
  inv (mkState s' (used w) (log w)) ∧ extends (objects w) s'.
Proof.
  intros Hinv Hpre Hd. pose proof (inv_store w Hinv) as Hs.
  destruct (create_store f _ k b r s' Hs Hd) as (Hw & He & [->|(Hv & -> & Hk)]); (split; [|done]).
  - by apply inv_frame.
  - destruct (decide (k = head)) as [->|Hne].
    + destruct Hpre as [?|(d & Hb & Hok & Hres)]; [done|]. eapply inv_append; [done..|by rewrite Hv| |done].
      intros j d0 Hj. by rewrite Hv in Hj.
    + apply inv_frame; [done..|]. by rewrite versions_append, decide_False.
Qed.

Lemma inv_swap w b f r s' j o d d' : inv w →
  versions (objects w) head !! j = Some o → doc o = Some d →
  loads_bytes b = Ok (JObj d') → head_ok (S j) d' → transition foreign path (objects w) d d' →
  disturb f (objects w) (Memory.compare_and_swap_object () (objects w) head (o_etag o) b) = (r, s') →
  inv (mkState s' (used w) (log w)) ∧ extends (objects w) s'.
Proof.
  intros Hinv Hj Hd Hb Hok Htr Hdis. pose proof (inv_store w Hinv) as Hs.
  destruct (swap_store f _ head _ b r s' Hs Hdis) as (Hw & He & [->|(cur & Hl & Het & -> & Hk)]); (split; [|done]).
  - by apply inv_frame.
  - destruct (stored_etag_inj head _ j cur o (last_stored _ head cur Hs Hl) (versions_stored _ head j o Hs Hj) Het)
      as [Hlen _].
    assert (length (versions (objects w) head) = S j) as Hlen' by (apply lookup_lt_Some in Hj; lia).
    eapply inv_append; [done..|by rewrite Hlen'| |eapply transition_resolves; [exact Htr|]; eapply (inv_reference w Hinv j); by exists o].
    intros j0 d0 Hj0 Hv0.
    assert (j0 = j) as -> by lia. by rewrite (version_at_fun _ j d0 d) by (done || by exists o).
Qed.

(** A task's await keeps the invariant, and the tokens of the others. *)
Lemma acts_inv {X} (c : cmd C X) own w r w' : inv w → holds own w → pre c own w → acts c w r w' →
  inv w' ∧ later w w' ∧ holds (own_after c r own) w' ∧
  (∀ other, (∀ t, t ∈ other → t ∉ own) → holds other w → holds other w') ∧
  (∀ t, t ∈ own_after c r own → t ∈ own ∨ t ∉ used w).
Proof.
  intros Hinv Hown Hpre Hact. destruct c as [k v|k b|k e b| | | |a cr ex now]; cbn [acts pre own_after] in *.
  - destruct Hact as [-> _]. split_and!; [done|apply later_refl|done|done|by left].
  - destruct Hact as (f & Hd & ->). destruct (inv_create w k b f r _ Hinv Hpre Hd) as [Hi He].
    split_and!; [done|by split|done|done|by left].
  - destruct Hpre as (-> & j & o & d & d' & Hj & <- & Hd & Hb & Hok & Htr). destruct Hact as (f & Hdis & ->).
    destruct (inv_swap w b f r _ j o d d' Hinv Hj Hd Hb Hok Htr Hdis) as [Hi He].
    split_and!; [done|by split|done|done|by left].
  - destruct Hact as [-> _]. split_and!; [done|apply later_refl|done|done|by left].
  - destruct Hact as (t & -> & Ht & _ & ->). pose proof (inv_used w Hinv) as Hused.
    assert (Hnew : t ∉ attempts w) by (intros Hin; by apply Ht, Hused).
    split_and!.
    + destruct Hinv. split; cbn [objects used log]; try done. intros x Hx. right. by apply Hused.
    + split; [apply extends_refl|]. intros x Hx. by right.
    + intros x [->|Hx]%elem_of_cons; [split; [by left|done]|]. destruct (Hown x Hx). split; [by right|done].
    + intros other _ Ho x Hx. destruct (Ho x Hx). split; [by right|done].
    + intros x [->|Hx]%elem_of_cons; [by right|by left].
  - destruct Hact as [-> _]. split_and!; [done|apply later_refl|done|done|by left].
  - subst w'. destruct Hpre as [Hin Hadm]. destruct (Hown _ Hin) as [Hu Hn].
    split_and!.
    + destruct Hinv. split; cbn [objects used log]; try done.
      * intros x [->|Hx]%elem_of_cons; [done|by auto].
      * unfold attempts. cbn [log map]. by constructor.
      * unfold attempts. cbn [log map]. intros x [->|Hx]%elem_of_cons; [done|by auto].
    + split; [apply extends_refl|done].
    + intros x Hx. apply list_elem_of_In, filter_In in Hx as [Hx Hne]. bool_inv.
      apply list_elem_of_In in Hx. destruct (Hown x Hx) as [? ?]. split; [done|].
      unfold attempts. cbn [log map]. by intros [?|?]%elem_of_cons.
    + intros other Hdisj Ho x Hx. destruct (Ho x Hx) as [? ?]. split; [done|].
      unfold attempts. cbn [log map]. intros [->|?]%elem_of_cons; [by eapply Hdisj|done].
    + intros x Hx. apply list_elem_of_In, filter_In in Hx as [Hx _]. left. by apply list_elem_of_In.
Qed.

(** ** A logic for tasks *)

Lemma wp_later {A} (p : prog C A) own w w' Q : later w w' → wp p own w Q → wp p own w' Q.
Proof.
  intros Hl. destruct p as [r|X c k]; cbn [wp]; intros H w1 Hl1; apply H; by eapply later_trans.
Qed.

(** A task may wait. *)
Lemma wp_wait {A} (p : prog C A) own w Q :
  (∀ w1, later w w1 → inv w1 → holds own w1 → wp p own w1 Q) → wp p own w Q.
Proof.
  intros H. destruct p as [r|X c k]; cbn [wp] in *; intros w1 Hl Hi Ho;
    exact (H w1 Hl Hi Ho w1 (later_refl w1) Hi Ho).
Qed.

Lemma wp_bind {A B} (p : prog C A) (f : A → prog C B) own w Q :
  wp p own w (λ own1 w1 r, match r with Ok a => wp (f a) own1 w1 Q | Err e => Q own1 w1 (Err e) end) →
  wp (prog_bind p f) own w Q.
Proof.
  revert own w. induction p as [[a|e]|X c k IH]; intros own w H.
  - cbn [prog_bind]. by apply wp_wait.
  - exact H.
  - cbn [prog_bind wp] in *. intros w1 Hl Hi Ho. destruct (H w1 Hl Hi Ho) as [Hp Hk].
    split; [done|]. intros r w2 Ha. by apply IH, Hk.
Qed.

Lemma wp_catch {A} (p : prog C A) (h : exn → prog C A) own w Q :
  wp p own w (λ own1 w1 r, match r with Ok a => Q own1 w1 (Ok a) | Err e => wp (h e) own1 w1 Q end) →
  wp (catch p h) own w Q.
Proof.
  revert own w. induction p as [[a|e]|X c k IH]; intros own w H.
  - exact H.
  - cbn [catch]. by apply wp_wait.
  - cbn [catch wp] in *. intros w1 Hl Hi Ho. destruct (H w1 Hl Hi Ho) as [Hp Hk].
    split; [done|]. intros r w2 Ha. by apply IH, Hk.
Qed.

(** The tokens a program leaves its task: all it had, unless it may dispatch. *)
Definition keeps (strict : bool) (own own1 : list pystr) : Prop := if strict then own ⊆ own1 else True.

(** [spec strict own w p P]: from [w] on, [p] is allowed, and it returns values satisfying [P] or
    raises; if [strict], it dispatches nothing. *)
Definition spec (strict : bool) {A} (own : list pystr) (w : state) (p : prog C A)
    (P : list pystr → state → A → Prop) : Prop :=
  ∀ Q : list pystr → state → res A → Prop,
    (∀ own1 w1 a, keeps strict own own1 → later w w1 → inv w1 → P own1 w1 a → Q own1 w1 (Ok a)) →
    (∀ own1 w1 e, keeps strict own own1 → later w w1 → inv w1 → Q own1 w1 (Err e)) → wp p own w Q.

Lemma keeps_refl strict own : keeps strict own own.
Proof. by destruct strict. Qed.

Lemma keeps_trans strict own1 own2 own3 : keeps strict own1 own2 → keeps strict own2 own3 → keeps strict own1 own3.
Proof. destruct strict; [|done]. intros H1 H2 t Ht. by apply H2, H1. Qed.

Lemma keeps_cons strict t own : keeps strict own (t :: own).
Proof. destruct strict; [|done]. intros x Hx. by right. Qed.

Definition any {A} (own : list pystr) (w : state) (a : A) : Prop := True.

Lemma spec_bind strict {A B} own w (p : prog C A) (f : A → prog C B) P R :
  spec strict own w p P →
  (∀ own1 w1 a, keeps strict own own1 → later w w1 → inv w1 → P own1 w1 a → spec strict own1 w1 (f a) R) →
  spec strict own w (prog_bind p f) R.
Proof.
  intros Hp Hf Q HQ He. apply wp_bind, Hp.
  - intros own1 w1 a Hk Hl Hi HP. apply (Hf own1 w1 a Hk Hl Hi HP).
    + intros own2 w2 b Hk2 Hl2 ? ?. apply HQ; [by eapply keeps_trans|by eapply later_trans|done|done].
    + intros own2 w2 e Hk2 Hl2 ?. apply He; [by eapply keeps_trans|by eapply later_trans|done].
  - intros own1 w1 e Hk Hl Hi. by apply He.
Qed.

Lemma spec_catch strict {A} own w (p : prog C A) h P :
  spec strict own w p P →
  (∀ own1 w1 e, keeps strict own own1 → later w w1 → inv w1 → spec strict own1 w1 (h e) P) →
  spec strict own w (catch p h) P.
Proof.
  intros Hp Hh Q HQ He. apply wp_catch, Hp.
  - intros own1 w1 a Hk Hl Hi HP. by apply HQ.
  - intros own1 w1 e Hk Hl Hi. apply (Hh own1 w1 e Hk Hl Hi).
    + intros own2 w2 b Hk2 Hl2 ? ?. apply HQ; [by eapply keeps_trans|by eapply later_trans|done|done].
    + intros own2 w2 e' Hk2 Hl2 ?. apply He; [by eapply keeps_trans|by eapply later_trans|done].
Qed.

Lemma spec_lift strict {A} own w (r : res A) (P : list pystr → state → A → Prop) :
  (∀ w1 a, later w w1 → inv w1 → r = Ok a → P own w1 a) → spec strict own w (lift r) P.
Proof.
  intros H Q HQ He w1 Hl Hi _. destruct r as [a|e]; [apply HQ; auto using keeps_refl|apply He; auto using keeps_refl].
Qed.

Lemma spec_fail strict {A} own w cls msg (P : list pystr → state → A → Prop) : spec strict own w (fail cls msg) P.
Proof. by apply spec_lift. Qed.

Lemma spec_weaken strict {A} own w (p : prog C A) (P R : list pystr → state → A → Prop) :
  spec strict own w p P → (∀ own1 w1 a, keeps strict own own1 → later w w1 → inv w1 → P own1 w1 a → R own1 w1 a) →
  spec strict own w p R.
Proof. intros Hp HPR Q HQ He. apply Hp; [|done]. intros own1 w1 a Hk Hl Hi HP. apply HQ; auto. Qed.

Lemma spec_relax strict {A} own w (p : prog C A) P : spec true own w p P → spec strict own w p P.
Proof.
  intros Hp Q HQ He. apply Hp.
  - intros own1 w1 a Hk Hl Hi Ha. apply HQ; [by destruct strict|done..].
  - intros own1 w1 e Hk Hl Hi. apply He; [by destruct strict|done..].
Qed.

(** A single await; a dispatch is [spec_refresh]. *)
Lemma spec_await strict {X} own w (c : cmd C X) (P : list pystr → state → X → Prop) :
  (∀ w1, later w w1 → inv w1 → holds own w1 → pre c own w1) →
  (∀ w1 r w2, later w w1 → acts c w1 r w2 → keeps strict own (own_after c r own)) →
  (∀ w1 a w2 w3, later w w1 → inv w1 → acts c w1 (Ok a) w2 → inv w2 → later w2 w3 → inv w3 →
     P (own_after c (Ok a) own) w3 a) →
  spec strict own w (await c) P.
Proof.
  intros Hpre Hkeep HP Q HQ He w1 Hl Hi Ho. split; [by apply Hpre|]. intros r w2 Ha.
  destruct (acts_inv c own w1 r w2 Hi Ho (Hpre w1 Hl Hi Ho) Ha) as (Hi2 & Hl2 & _).
  pose proof (Hkeep w1 r w2 Hl Ha) as Hk.
  intros w3 Hl3 Hi3 _. destruct r as [a|e].
  - apply HQ; [done|by eapply later_trans; [|eapply later_trans]|done|]. by eapply HP.
  - apply He; [done|by eapply later_trans; [|eapply later_trans]|done].
Qed.

(** The rules with what follows. *)
Lemma then_lift strict {A B} own w (r : res A) (f : A → prog C B) R :
  (∀ w1 a, later w w1 → inv w1 → r = Ok a → spec strict own w1 (f a) R) → spec strict own w (prog_bind (lift r) f) R.
Proof.
  intros H. eapply (spec_bind strict own w _ f (λ own1 _ a, own1 = own ∧ r = Ok a)).
  - by apply spec_lift.
  - intros own1 w1 a Hk Hl Hi [-> Hr]. by apply H.
Qed.

Lemma then_read strict {B} own w k v (f : Object → prog C B) R :
  (∀ w1 w2 o, later w w1 → inv w1 → later w1 w2 → inv w2 → Memory.read_object (objects w1) k v = Ok o →
     spec strict own w2 (f o) R) → spec strict own w (prog_bind (await (CRead k v)) f) R.
Proof.
  intros H. eapply (spec_bind strict own w _ f (λ own1 w2 o, own1 = own ∧ ∃ w1, later w w1 ∧ inv w1 ∧ later w1 w2 ∧
                      Memory.read_object (objects w1) k v = Ok o)).
  - apply spec_await; [done|intros; apply keeps_refl|]. intros w1 a w2 w3 Hl Hi [-> [Ha|?]] _ Hl3 Hi3; [|done].
    split; [done|]. by exists w1.
  - intros own1 w2 o Hk Hl Hi (-> & w1 & ? & ? & ? & ?). by apply (H w1).
Qed.

Lemma then_now strict {B} own w (f : GoTime.datetime → prog C B) R :
  (∀ w1 t, later w w1 → inv w1 → spec strict own w1 (f t) R) → spec strict own w (prog_bind (await CNow) f) R.
Proof.
  intros H. eapply (spec_bind strict own w _ f (λ own1 _ _, own1 = own)).
  - apply spec_await; [done|intros; apply keeps_refl|done].
  - intros own1 w1 t Hk Hl Hi ->. by apply H.
Qed.

Lemma spec_sleep strict own w : spec strict own w (await CSleep) any.
Proof. apply spec_await; [done|intros; apply keeps_refl|done]. Qed.

Lemma then_token strict {B} own w (f : pystr → prog C B) R :
  (∀ w1 t, later w w1 → inv w1 → secret_id_match t = true → spec strict (t :: own) w1 (f t) R) →
  spec strict own w (prog_bind (await CToken) f) R.
Proof.
  intros H. eapply (spec_bind strict own w _ f (λ own1 _ t, own1 = t :: own ∧ secret_id_match t = true)).
  - apply spec_await; [done|intros w1 [t|e] w2 _ _; [apply keeps_cons|apply keeps_refl]|].
    intros w1 a w2 w3 Hl Hi (t & [= <-] & _ & Ht & Hw) Hi2 Hl3 Hi3. done.
  - intros own1 w1 t Hk Hl Hi [-> Ht]. by apply H.
Qed.

(** The dispatch of an admitted exchange. *)
Lemma spec_refresh own w a c e n : Admission.attempt_id a ∈ own → admitted (objects w) a →
  spec false own w (await (CRefresh a c e n)) any.
Proof.
  intros Hin Ha. apply spec_await; [|done|done]. intros w1 Hl Hi Ho. split; [done|].
  eapply admitted_mono; [apply Hl|done].
Qed.

(** A stored version is read back. *)
Lemma read_stored s k o : well_formed s → o ∈ versions s k → Memory.read_object s k (o_version o) = Ok o.
Proof.
  intros Hs [i Hi]%list_elem_of_lookup. destruct (versions_stored s k i o Hs Hi) as (_ & Hv & _).
  assert (Ht : truthy (o_version o) = true).
  { rewrite Hv. apply truthy_true. unfold version_text.
    replace (Z.of_nat i + 1)%Z with (Z.pos (Pos.of_succ_nat i)) by lia. cbn [str_of_Z].
    by destruct (str_of_N_shape (N.pos (Pos.of_succ_nat i))) as (c & l & -> & _). }
  unfold Memory.read_object. assert (Hk : validate_object_key k = Ok ()).
  { unfold versions in Hi. destruct (s !! k) as [vs|] eqn:E; [|done]. by destruct (Hs k vs E) as (_ & ? & _). }
  rewrite Hk, Ht. cbn [mbind result_bind negb orb].
  destruct (List.find _ _) as [x|] eqn:E.
  - apply find_some in E as [Hx Hxv%bool_decide_eq_true]. apply in_rev, list_elem_of_In, list_elem_of_lookup in Hx as [j Hj].
    destruct (versions_stored s k j x Hs Hj) as (_ & Hvj & _). f_equal.
    assert (i = j) as -> by (apply version_text_inj; congruence). congruence.
  - assert (Hin : In o (rev (versions s k))) by (rewrite <- in_rev; by apply list_elem_of_In, list_elem_of_lookup_2 with i).
    apply (find_none _ _ E) in Hin. by apply bool_decide_eq_false in Hin.
Qed.

(** ** Reading the head *)

Lemma head_of_versions s k v o : Memory.read_object s k v = Ok o → o ∈ versions s k.
Proof.
  unfold Memory.read_object. intros (_ & _ & H)%bind_Ok.
  destruct (List.find _ _) as [x|] eqn:E; [|done]. injection H as <-. apply find_some in E as [E _].
  by apply list_elem_of_In, in_rev.
Qed.

Definition head_version (w : state) (j : nat) (o : Object) (d : dict json) : Prop :=
  versions (objects w) head !! j = Some o ∧ doc o = Some d ∧ head_ok j d.

Lemma head_version_later w w' j o d : later w w' → head_version w j o d → head_version w' j o d.
Proof. intros [He _] (Hj & H). split; [by eapply versions_extends|done]. Qed.

Lemma head_version_at w j o d : head_version w j o d → version_at (objects w) j d.
Proof. intros (Hj & Hd & _). by exists o. Qed.

Lemma head_object w o : inv w → o ∈ versions (objects w) head → ∃ j d, head_version w j o d.
Proof.
  intros Hi [j Hj]%list_elem_of_lookup. destruct (inv_docs w Hi j o Hj) as (d & Hd & Hok). by exists j, d.
Qed.

Context (Hpath : ConnectionKey.path key scope = Ok path).

Abbreviation validated o d := (validate_head repr fromisoformat scope key path o = Ok d).

Lemma validated_doc o d : validated o d → doc o = Some d.
Proof.
  unfold validate_head, doc. intros (v & Hv & H)%bind_Ok. rewrite Hv. apply bind_Ok in H as (r & Hr & H).
  destruct v; try done. injection Hr as ->. apply bind_Ok in H as (sc & _ & H).
  destruct (_ || _); [done|]. apply bind_Ok in H as (u & _ & H). destruct u; [done|].
  apply bind_Ok in H as (? & _ & H). apply bind_Ok in H as (? & _ & H). apply bind_Ok in H as (? & _ & H).
  apply bind_Ok in H as (? & _ & H). injection H as ->. done.
Qed.

Lemma spec_read_record strict own w :
  spec strict own w (_read_record repr fromisoformat scope key)
    (λ own1 w1 r, validated (snd r) (fst r) ∧ ∃ j, head_version w1 j (snd r) (fst r)).
Proof.
  unfold _read_record. apply then_lift. intros w1 p Hl1 Hi1 Hp. rewrite Hpath in Hp. injection Hp as <-.
  apply then_read. intros w2 w3 o Hl2 Hi2 Hl3 Hi3 Ho%head_of_versions.
  destruct (head_object w2 o Hi2 Ho) as (j & d & Hv).
  apply then_lift. intros w4 d' Hl4 Hi4 Hd'. apply spec_lift. intros w5 r Hl5 Hi5 [= <-]. cbn [fst snd].
  split; [done|]. exists j. pose proof (validated_doc _ _ Hd') as Hdd.
  assert (d = d') as -> by (destruct Hv as (_ & ? & _); congruence).
  by apply (head_version_later w4), (head_version_later w3), (head_version_later w2).
Qed.

(** ** Heads that are written *)

Lemma py_eq_member d e k v : py_eq (JObj d) (JObj e) = true → dget k d = Some v → dict_ok d →
  ∃ w, dget k e = Some w ∧ py_eq v w = true.
Proof.
  intros H%andb_prop. destruct H as [_ H]. revert H. unfold dict_ok. clear.
  induction d as [|[k' v'] d IH]; [done|]. cbn [dget dkeys map fst].
  intros [Hv H]%andb_prop Hk [Hn Hd]%NoDup_cons. case_bool_decide as Hkk; [|by apply IH].
  injection Hk as ->. subst k'. destruct (dget k e) as [w|]; [by exists w|done].
Qed.

Lemma py_eq_int a b : py_eq (JInt a) (JInt b) = true → a = b.
Proof.
  cbn [py_eq num_value]. unfold feq. change (FFin a 0) with (f_of_Z a). rewrite AnswerFacts.fcmp_int.
  by destruct (Z.compare_spec a b).
Qed.

Lemma dget_get k (d : dict json) v : get k d = v → v ≠ JNull → dget k d = Some v.
Proof. unfold get, get_or. by destruct (dget k d) as [x|]; intros <-. Qed.

Lemma same_revision d e a b : plain (JObj d) = true → py_eq (JObj d) (JObj e) = true →
  get "revision" d = JInt a → get "revision" e = JInt b → a = b.
Proof.
  intros Hp He Ha Hb. cbn [plain] in Hp. apply andb_prop in Hp as [Hnd%bool_decide_eq_true _].
  destruct (py_eq_member d e (lit "revision") (JInt a) He (dget_get _ _ _ Ha ltac:(done)) Hnd) as (w & Hw & Heq).
  unfold get, get_or in Hb. rewrite Hw in Hb. subst w. by apply py_eq_int.
Qed.

Lemma plain_member d k v : plain (JObj d) = true → dget k d = Some v → plain v = true.
Proof.
  cbn [plain]. intros [_ Hp]%andb_prop Hk%dget_elem. rewrite forallb_forall in Hp.
  apply (Hp (k, v)). by apply list_elem_of_In.
Qed.

Lemma plain_get d k : plain (JObj d) = true → plain (get k d) = true.
Proof.
  intros Hp. unfold get, get_or. destruct (dget k d) as [v|] eqn:E; [by eapply plain_member|done].
Qed.

Lemma plain_item d k v : plain (JObj d) = true → item k d = Ok v → plain v = true.
Proof.
  intros Hp. unfold item. destruct (dget k d) as [x|] eqn:E; [|done]. intros [= <-]. by eapply plain_member.
Qed.

(** The members of a head that [_connection_record_wire] builds. *)
Record wired (revision : Z) (fence : json) (status : pystr) (reference mutation : option (dict json))
    (d : dict json) : Prop := {
  wd_plain : plain (JObj d) = true;
  wd_revision : get "revision" d = JInt revision;
  wd_fence : get "fence" d = fence;
  wd_status : get "status" d = JStr status;
  wd_reference : match reference with
                 | Some r => reference_wire r = Ok (get "credential" d)
                 | None => get "credential" d = JNull
                 end;
  wd_mutation : match mutation with
                | Some m => mutation_wire repr m = Ok (get "mutation" d)
                | None => get "mutation" d = JNull
                end
}.

Definition plain_option (o : option (dict json)) : Prop :=
  match o with Some d => plain (JObj d) = true | None => True end.

Lemma plain_reference r w : plain (JObj r) = true → reference_wire r = Ok w → plain w = true.
Proof.
  intros Hp. unfold reference_wire. intros (k & Hk & H)%bind_Ok. apply bind_Ok in H as (v & Hv & H).
  apply bind_Ok in H as (d & Hd & H). apply Ok_inj in H as <-. cbn [plain forallb snd].
  by rewrite (plain_item _ _ _ Hp Hk), (plain_item _ _ _ Hp Hv), (plain_item _ _ _ Hp Hd).
Qed.

Lemma plain_mutation m w : plain (JObj m) = true → mutation_wire repr m = Ok w → plain w = true.
Proof.
  intros Hp. unfold mutation_wire. intros (a1 & H1 & H)%bind_Ok. apply bind_Ok in H as (a2 & H2 & H).
  apply bind_Ok in H as (a3 & H3 & H). apply bind_Ok in H as (a4 & H4 & H). apply bind_Ok in H as (a5 & H5 & H).
  apply bind_Ok in H as (a6 & _ & H). apply bind_Ok in H as (a7 & _ & H). apply bind_Ok in H as (a8 & H8 & H).
  apply Ok_inj in H as <-. cbn [plain forallb snd].
  by rewrite (plain_item _ _ _ Hp H1), (plain_item _ _ _ Hp H2), (plain_item _ _ _ Hp H3), (plain_item _ _ _ Hp H4),
    (plain_item _ _ _ Hp H5), (plain_item _ _ _ Hp H8).
Qed.

Lemma record_wired revision fence status expires auth reference mutation d :
  _connection_record_wire repr scope key revision fence status expires auth reference mutation = Ok d →
  plain fence = true → plain auth = true → plain_option reference → plain_option mutation →
  wired revision fence status reference mutation d.
Proof.
  unfold _connection_record_wire. intros H Hf Ha Hr Hm. apply bind_Ok in H as (sc & Hsc & H).
  apply bind_Ok in H as (ex & Hex & H). apply bind_Ok in H as (rw & Hrw & H). apply bind_Ok in H as (mw & Hmw & H).
  apply Ok_inj in H as <-.
  assert (Hpsc : plain sc = true).
  { unfold Scope.to_wire in Hsc. apply bind_Ok in Hsc as (? & _ & Hsc). by apply Ok_inj in Hsc as <-. }
  assert (Hpex : match ex with Some v => plain v = true | None => True end).
  { destruct expires; cbn [expiry_wire] in Hex; [|by apply Ok_inj in Hex as <-].
    apply bind_Ok in Hex as (s & _ & Hex). by apply Ok_inj in Hex as <-. }
  assert (Hprw : match rw with Some v => plain v = true | None => True end ∧
                 match reference with
                 | Some r => match rw with Some v => reference_wire r = Ok v | None => False end
                 | None => rw = None end).
  { destruct reference as [r|]; [|by apply Ok_inj in Hrw as <-]. apply bind_Ok in Hrw as (v & Hv & Hrw).
    apply Ok_inj in Hrw as <-. split; [by eapply plain_reference|done]. }
  assert (Hpmw : match mw with Some v => plain v = true | None => True end ∧
                 match mutation with
                 | Some m => match mw with Some v => mutation_wire repr m = Ok v | None => False end
                 | None => mw = None end).
  { destruct mutation as [m|]; [|by apply Ok_inj in Hmw as <-]. apply bind_Ok in Hmw as (v & Hv & Hmw).
    apply Ok_inj in Hmw as <-. split; [by eapply plain_mutation|done]. }
  destruct Hprw as [Hprw Hrr], Hpmw as [Hpmw Hmm]. clear Hrw Hmw Hsc Hex.
  assert (Hkw : plain (ConnectionKey.to_wire key) = true) by done.
  destruct ex as [ex|], rw as [rw|], mw as [mw|]; split;
    try (destruct reference; [done|]); try (destruct mutation; done); try done;
    cbn [app optional_member plain forallb snd];
    rewrite ?Hpsc, ?Hkw, ?Hf, ?Ha, ?Hpex, ?Hprw, ?Hpmw; vm_compute; reflexivity.
Qed.

(** ** Writing the head *)

Lemma wired_ok j d revision fence status reference mutation : wired revision fence status reference mutation d →
  revision = (Z.of_nat j + 1)%Z → (∃ f, fence = JInt f ∧ (1 <= f)%Z) → head_ok j d.
Proof.
  intros Hw -> (f & Hf & Hpos). destruct Hw as [Hp Hr Hfe _ _ _]. split; [done|done|].
  unfold fence_of. rewrite Hfe, Hf. done.
Qed.

(** A write that answers has appended its object. *)
Lemma swap_answered f s k e b o s' : disturb f s (Memory.compare_and_swap_object () s k e b) = (Ok o, s') →
  s' = snd (_append s k b) ∧ o = new_object s k b.
Proof.
  assert (Hcas : ∀ o s', Memory.compare_and_swap_object () s k e b = (Ok o, s') →
            s' = snd (_append s k b) ∧ o = new_object s k b).
  { clear. intros o s'. unfold Memory.compare_and_swap_object. destruct (_ ≫= _); [|done].
    destruct (last _); [|done]. destruct (_ && _); [|done]. by intros [= <- <-]. }
  destruct f; [apply Hcas|done|]. unfold disturb.
  destruct (Memory.compare_and_swap_object () s k e b) as [[x|x] y] eqn:E; [done|]. intros [= ->].
Qed.

Lemma create_answered f s k b o s' : disturb f s (Memory.create_object () s k b) = (Ok o, s') →
  s' = snd (_append s k b) ∧ o = new_object s k b.
Proof.
  assert (Hc : ∀ o s', Memory.create_object () s k b = (Ok o, s') →
            s' = snd (_append s k b) ∧ o = new_object s k b).
  { clear. intros o s'. unfold Memory.create_object. destruct (_ ≫= _); [|done].
    destruct (s !! k); [done|]. by intros [= <- <-]. }
  destruct f; [apply Hc|done|]. unfold disturb.
  destruct (Memory.create_object () s k b) as [[x|x] y] eqn:E; [done|]. intros [= ->].
Qed.

Lemma appended_object s k b : new_object s k b ∈ versions (snd (_append s k b)) k.
Proof. rewrite versions_append, decide_True by done. apply elem_of_app. right. by left. Qed.

Lemma head_bytes w o b d : inv w → o ∈ versions (objects w) head → o_contents o = b → loads_bytes b = Ok (JObj d) →
  ∃ i, version_at (objects w) i d.
Proof.
  intros Hi Ho <- Hb. destruct (head_object w o Hi Ho) as (j & d' & Hj & Hd & _). exists j, o.
  split; [done|]. unfold doc in *. by rewrite Hb in *.
Qed.

Lemma bytes_read d b : plain (JObj d) = true → go_canonical_json_bytes (JObj d) = Ok b → loads_bytes b = Ok (JObj d).
Proof. intros Hp (t & Hd & Hu)%CanonicalFacts.canonical_bytes_text. by eapply CanonicalFacts.loads_encoded. Qed.

(** What a settled head write has achieved. *)
Definition in_history (d : dict json) (own : list pystr) (w : state) (_ : unit) : Prop :=
  ∃ i, version_at (objects w) i d.

Lemma spec_settle strict own w b d (write : prog C Object) : loads_bytes b = Ok (JObj d) →
  spec strict own w write (λ _ w1 o, o ∈ versions (objects w1) head ∧ o_contents o = b) →
  spec strict own w (settle_write path b write) (in_history d).
Proof.
  intros Hb Hw. unfold settle_write. apply spec_catch.
  - eapply spec_bind; [exact Hw|]. intros own1 w1 o Hk Hl Hi [Ho Hc]. apply spec_lift. intros w2 u Hl2 Hi2 _.
    destruct (head_bytes w1 o b d Hi Ho Hc Hb) as [i Hv]. exists i. eapply version_at_mono; [apply Hl2|done].
  - intros own1 w1 e Hk Hl Hi. destruct (isinst e OutcomeUnknownError); [|by apply spec_lift].
    apply then_read. intros w2 w3 o Hl2 Hi2 Hl3 Hi3 Ho%head_of_versions. case_bool_decide as Hc; [|by apply spec_lift].
    apply spec_lift. intros w4 u Hl4 Hi4 _. destruct (head_bytes w2 o b d Hi2 Ho Hc Hb) as [i Hv].
    exists i. eapply version_at_mono; [|done]. eapply extends_trans; [apply Hl3|apply Hl4].
Qed.

Lemma spec_write_head strict own w prior updated j o :
  head_version w j o prior → head_ok (S j) updated → transition foreign path (objects w) prior updated →
  spec strict own w (_write_head repr fromisoformat scope key prior updated) (in_history updated).
Proof using Hpath.
  intros Hv Hok Htr. unfold _write_head. apply then_lift. intros w1 p Hl1 Hi1 Hp.
  unfold key_path in Hp. rewrite Hpath in Hp. injection Hp as <-.
  eapply spec_bind; [apply spec_read_record|]. intros own2 w2 [d1 o1] Hk2 Hl2 Hi2 (Hval & j1 & Hv1). cbn [fst snd] in *.
  apply then_lift. intros w3 v Hl3 Hi3 Hload. apply then_lift. intros w4 cur Hl4 Hi4 Hcur.
  assert (cur = d1) as ->.
  { destruct Hv1 as (_ & Hdoc & _). unfold doc in Hdoc. rewrite Hload in Hdoc. destruct v; try done.
    injection Hcur as <-. by injection Hdoc. }
  apply then_lift. intros w5 u Hl5 Hi5 Heq%raise_if_Ok. apply negb_false_iff in Heq.
  pose proof (head_version_later w w2 _ _ _ (later_trans _ _ _ Hl1 Hl2) Hv) as Hv2.
  assert (Hj : j1 = j).
  { destruct Hv1 as (_ & _ & [Hp1 Hr1 _]), Hv2 as (_ & _ & [_ Hr2 _]).
    pose proof (same_revision d1 prior _ _ Hp1 Heq Hr1 Hr2). lia. }
  subst j1. assert (o1 = o) as -> by (destruct Hv1 as (? & _), Hv2 as (? & _); congruence).
  apply then_lift. intros w6 b Hl6 Hi6 Hb.
  assert (Hload' : loads_bytes b = Ok (JObj updated)) by (apply bytes_read; [apply Hok|done]).
  eapply spec_settle; [done|]. apply spec_await.
  2: { intros; apply keeps_refl. }
  - intros w7 Hl7 Hi7 Ho7. split; [done|].
    assert (Hw : later w2 w7) by (repeat (eapply later_trans; [eassumption|]); apply later_refl).
    pose proof (head_version_later w2 w7 _ _ _ Hw Hv2) as (Hj7 & Hd7 & _).
    exists j, o, prior, updated. split_and!; try done. eapply transition_mono; [|done].
    eapply extends_trans; [|apply Hw]. apply (later_trans _ _ _ Hl1 Hl2).
  - intros w7 x w8 w9 Hl7 Hi7 (f & Hd & Hw8) Hi8 Hl9 Hi9.
    destruct (swap_answered _ _ _ _ _ _ _ Hd) as [Hs ->]. split; [|done].
    destruct (proj1 Hl9 head) as [more ->]. rewrite Hs. apply elem_of_app. left. apply appended_object.
Qed.

(** ** The pieces of an exchange *)

Lemma py_eq_str v s : py_eq v (JStr s) = true → v = JStr s.
Proof.
  destruct v as [|b|z|f|t|l|d]; cbn [py_eq num_value]; try done. by intros ->%bool_decide_eq_true.
Qed.

Lemma status_is_of s d : status_is s d = true → status_of d = s.
Proof. intros H%py_eq_str. unfold status_of. by rewrite H. Qed.

Definition exchange_kind (k : pystr) : Prop := k = lit "REFRESHING" ∨ k = lit "AUTHORIZING".

(** What an admission that still holds says of the head. *)
Lemma require_admission_Ok record a : _require_admission record a = Ok () →
  status_of record = Admission.kind a ∧ py_eq (get "fence" record) (JInt (Admission.fence a)) = true ∧
  get "id" (mutation_of record) = JStr (Admission.attempt_id a).
Proof.
  unfold _require_admission, mutation_of. destruct (_ || _) eqn:Hc; [done|].
  apply orb_false_iff in Hc as [Hs%negb_false_iff Hf%negb_false_iff].
  destruct (get "mutation" record) as [| | | | | |m]; try done.
  destruct (_ || _) eqn:Hm; [done|]. apply orb_false_iff in Hm as [Hi%negb_false_iff _]. intros _.
  split; [by apply status_is_of|]. split; [done|]. by apply py_eq_str.
Qed.

Lemma fence_is j d f : head_ok j d → py_eq (get "fence" d) (JInt f) = true → fence_of d = f.
Proof. intros [_ _ [Hf _]]. rewrite Hf. apply py_eq_int. Qed.

(** The members a rewritten head takes over. *)
Lemma kept_reference d reference updated revision fence status mutation : plain (JObj d) = true →
  (if is_null (get "credential" d) then Ok None
   else c ← require_object (get "credential" d) "credential reference"; Ok (Some c)) = Ok reference →
  plain_option reference ∧
  (wired revision fence status reference mutation updated → credential_kept d updated).
Proof.
  intros Hp H. unfold credential_kept. pose proof (plain_get d "credential" Hp) as Hc.
  destruct (get "credential" d) as [| | | | | |r] eqn:E; cbn [is_null require_object mbind result_bind] in H; try done.
  - apply Ok_inj in H as <-. split; [done|]. intros Hw. split; [done|]. exact (wd_reference _ _ _ _ _ _ Hw).
  - apply Ok_inj in H as <-. split; [done|]. intros Hw. exact (wd_reference _ _ _ _ _ _ Hw).
Qed.

Lemma successor_revision j d : head_ok j d → num_int (get "revision" d) = (Z.of_nat j + 1)%Z.
Proof. intros [_ Hr _]. by rewrite Hr. Qed.

Lemma spec_finish_exchange strict own w a status : exchange_kind (Admission.kind a) →
  status = lit "READY" ∨ status = lit "REAUTHORIZATION_REQUIRED" →
  spec strict own w (_finish_exchange repr fromisoformat scope key a status) any.
Proof using Hpath.
  intros Hkind Hst. unfold _finish_exchange. eapply spec_bind; [apply spec_read_record|].
  intros own1 w1 [record o] Hk1 Hl1 Hi1 (_ & j & Hv). cbn [fst snd] in *. pose proof Hv as (_ & _ & Hok).
  apply then_lift. intros w2 [] Hl2 Hi2 (Hs & _ & _)%require_admission_Ok.
  apply then_lift. intros w3 expires Hl3 Hi3 _. apply then_lift. intros w4 auth Hl4 Hi4 Hauth.
  apply then_lift. intros w5 reference Hl5 Hi5 Href. apply then_lift. intros w6 updated Hl6 Hi6 Hupd.
  destruct (kept_reference _ _ updated (num_int (get "revision" record) + 1)
              (JInt (num_int (get "fence" record) + 1)) status None (ok_plain _ _ Hok) Href) as [Hpr Hkept].
  apply record_wired in Hupd; [|done..].
  assert (Hw6 : later w1 w6) by (repeat (eapply later_trans; [eassumption|]); apply later_refl).
  eapply spec_weaken; [|done]. eapply spec_write_head.
  - by eapply head_version_later.
  - eapply wired_ok; [done|rewrite (successor_revision j); [lia|done]|]. eexists; split; [done|].
    pose proof (ok_fence _ _ Hok) as [_ ?]. unfold fence_of in *. lia.
  - apply t_finish.
    + unfold in_exchange. rewrite Hs. exact Hkind.
    + unfold status_of. rewrite (wd_status _ _ _ _ _ _ Hupd). exact Hst.
    + unfold fence_of at 1. by rewrite (wd_fence _ _ _ _ _ _ Hupd).
    + by apply Hkept.
Qed.


(** ** Publishing a result *)

Definition in_store (w : state) (k : pystr) (o : Object) : Prop := o ∈ versions (objects w) k.

Lemma in_store_later w w' k o : later w w' → in_store w k o → in_store w' k o.
Proof. intros [He _] Ho. unfold in_store. destruct (He k) as [more ->]. apply elem_of_app. by left. Qed.

Lemma in_store_key w k o : inv w → in_store w k o → o_key o = k.
Proof.
  intros Hi [i Ho]%list_elem_of_lookup. by destruct (versions_stored _ k i o (inv_store w Hi) Ho) as (? & _).
Qed.

(** What a result's envelope says. *)
Lemma published_record_Ok record a result updated revision : published_record repr fromisoformat scope key record a result = Ok updated →
  num_int (get "revision" record) = revision → plain (get "fence" record) = true →
  wired (revision + 1) (get "fence" record) (lit "READY")
    (Some (reference_of (o_key result) (o_version result) (Sha256.hexdigest (o_contents result)))) None updated ∧
  ∃ envelope, doc result = Some envelope ∧ py_eq (get "fence" envelope) (JInt (Admission.fence a)) = true ∧
              py_eq (get "attemptId" envelope) (JStr (Admission.attempt_id a)) = true.
Proof.
  unfold published_record, result_invalid. intros H Hrev Hpf. apply bind_Ok in H as (v & Hv & H).
  apply bind_Ok in H as (envelope & Hreq & H). destruct v as [| | | | | |d]; try done. apply Ok_inj in Hreq as <-.
  apply bind_Ok in H as (bad & Hbad & H). apply bind_Ok in Hbad as (sc & _ & Hbad). apply Ok_inj in Hbad as <-.
  apply bind_Ok in H as ([] & Hb%raise_if_Ok & H). apply bind_Ok in H as (expires & _ & H).
  apply bind_Ok in H as (auth & _ & H). subst revision. split; [by apply record_wired in H|].
  apply orb_false_iff in Hb as [Hb Hatt%negb_false_iff]. apply orb_false_iff in Hb as [_ Hf%negb_false_iff].
  exists d. split; [|done]. unfold doc. by rewrite Hv.
Qed.

Lemma spec_publish_result strict own w a result : exchange_kind (Admission.kind a) →
  in_store w (exchange_result_key path (Admission.attempt_id a)) result →
  spec strict own w (_publish_result repr fromisoformat scope key a result) any.
Proof using Hpath.
  intros Hkind Hin. unfold _publish_result. eapply spec_bind; [apply spec_read_record|].
  intros own1 w1 [record o] Hk1 Hl1 Hi1 (_ & j & Hv). cbn [fst snd] in *. pose proof Hv as (_ & _ & Hok).
  apply then_lift. intros w2 already Hl2 Hi2 _. destruct already; [by apply spec_lift|].
  apply then_lift. intros w3 [] Hl3 Hi3 (Hs & Hf & Hid)%require_admission_Ok.
  apply then_lift. intros w4 updated Hl4 Hi4 Hupd.
  assert (Hw4 : later w1 w4) by (repeat (eapply later_trans; [eassumption|]); apply later_refl).
  destruct (published_record_Ok _ _ _ _ _ Hupd (successor_revision _ _ Hok) (plain_get _ _ (ok_plain _ _ Hok)))
    as [Hwired (envelope & Hdoc & Hef & Hea)].
  apply (in_store_later _ w4) in Hin; [|by eapply later_trans].
  pose proof (fence_is _ _ _ Hok Hf) as Hfence.
  apply spec_catch.
  - eapply spec_weaken; [|done]. eapply spec_write_head; [by eapply head_version_later| |].
    + eapply wired_ok; [done|lia|]. exists (fence_of record). apply (ok_fence _ _ Hok).
    + eapply t_publish; [| | |exact Hid|exact Hin|exact Hdoc|by rewrite Hfence|done|].
      * unfold in_exchange. rewrite Hs. exact Hkind.
      * unfold status_of. by rewrite (wd_status _ _ _ _ _ _ Hwired).
      * unfold fence_of. by rewrite (wd_fence _ _ _ _ _ _ Hwired).
      * pose proof (wd_reference _ _ _ _ _ _ Hwired) as Hr. rewrite (in_store_key _ _ _ Hi4 Hin) in Hr.
        apply Ok_inj in Hr. by symmetry.
  - intros own2 w5 e Hk2 Hl5 Hi5. destruct (isinst e ObjectConflictError); [|by apply spec_lift].
    eapply spec_bind; [apply spec_read_record|]. intros own3 w6 [observed o'] Hk3 Hl6 Hi6 _.
    apply then_lift. intros w7 published Hl7 Hi7 _. by destruct published; apply spec_lift.
Qed.

(** An immutable object that a task has written or found. *)
Lemma spec_create_or_read strict own w k b differs : k ≠ head →
  spec strict own w (create_or_read k b differs) (λ _ w1 o, in_store w1 k o ∧ o_contents o = b).
Proof.
  intros Hne. unfold create_or_read. apply spec_catch.
  - apply spec_await; [by left|intros; apply keeps_refl|].
    intros w1 o w2 w3 Hl1 Hi1 (f & Hd & _) Hi2 Hl3 Hi3. destruct (create_answered _ _ _ _ _ _ Hd) as [Hs ->].
    split; [|done]. eapply in_store_later; [done|]. unfold in_store. rewrite Hs. apply appended_object.
  - intros own1 w1 e Hk Hl Hi. destruct (_ || _); [|by apply spec_lift].
    apply then_read. intros w2 w3 o Hl2 Hi2 Hl3 Hi3 Ho%head_of_versions.
    apply then_lift. intros w4 [] Hl4 Hi4 Hc%raise_if_Ok. apply negb_false_iff, bool_decide_eq_true in Hc.
    apply spec_lift. intros w5 x Hl5 Hi5 [= <-]. split; [|done].
    eapply in_store_later; [eapply later_trans; [exact Hl3|eapply later_trans; eassumption]|done].
Qed.

(** An admission as this code makes it or reads it back. *)
Record proper (a : Admission.t) : Prop := {
  pr_kind : exchange_kind (Admission.kind a);
  pr_key : Admission.result_key a = exchange_result_key path (Admission.attempt_id a)
}.

Lemma result_key_not_head id : exchange_result_key path id ≠ head.
Proof. unfold exchange_result_key, head, head_key. intros H%app_inv_head. vm_compute in H. discriminate H. Qed.

Lemma spec_commit_refresh strict own w a material : proper a →
  spec strict own w (_commit_refresh repr fromisoformat scope key a material) any.
Proof using Hpath.
  intros [Hkind Hkey]. unfold _commit_refresh. apply then_lift. intros w1 envelope Hl1 Hi1 _.
  apply then_lift. intros w2 contents Hl2 Hi2 _. rewrite Hkey.
  eapply spec_bind; [apply spec_create_or_read, result_key_not_head|].
  intros own1 w3 o Hk3 Hl3 Hi3 [Ho _]. by apply spec_publish_result.
Qed.

(** ** The exchange of an observer *)

Lemma validated_mutation o d : validated o d → (status_is "REFRESHING" d || status_is "AUTHORIZING" d) = true →
  ∃ m id, get "mutation" d = JObj m ∧ get "id" m = JStr id ∧ get "resultKey" m = JStr (exchange_result_key path id).
Proof.
  unfold validate_head. intros H Hst. apply bind_Ok in H as (v & _ & H). apply bind_Ok in H as (r & _ & H).
  apply bind_Ok in H as (sc & _ & H).
  destruct (_ || _); [done|]. apply bind_Ok in H as (u & _ & H). destruct u; [done|].
  apply bind_Ok in H as (? & _ & H). apply bind_Ok in H as (? & _ & H). apply bind_Ok in H as (? & _ & H).
  apply bind_Ok in H as (? & Hm & H). apply Ok_inj in H as ->. rewrite Hst in Hm.
  destruct (get "mutation" d) as [| | | | | |m]; try done. apply bind_Ok in Hm as (bad & Hbad & Hb%raise_if_Ok).
  subst bad. unfold mutation_invalid in Hbad. destruct (get "id" m) as [| | | |id| |] eqn:Hid; try done.
  destruct (_ || _) eqn:Hc; [done|]. apply orb_false_iff in Hc as [_ Hc%negb_false_iff].
  exists m, id. split; [done|]. split; [done|]. by apply py_eq_str.
Qed.

Lemma observed_proper o d a : validated o d → (status_is "REFRESHING" d || status_is "AUTHORIZING" d) = true →
  observed_admission repr fromisoformat d = Ok a → proper a.
Proof.
  intros Hv Hst H. destruct (validated_mutation o d Hv Hst) as (m & id & Hm & Hid & Hkey).
  unfold observed_admission in H. rewrite Hm in H. cbn [require_object mbind result_bind] in H.
  apply bind_Ok in H as (x & Hx%item_get & H). apply bind_Ok in H as (y & _ & H).
  apply bind_Ok in H as (t & _ & H). apply bind_Ok in H as (z & Hz%item_get & H). apply Ok_inj in H as <-.
  rewrite Hid in Hx. rewrite Hkey in Hz. subst x z. split; cbn [Admission.kind Admission.result_key Admission.attempt_id].
  - unfold exchange_kind. apply orb_prop in Hst as [Hst%py_eq_str|Hst%py_eq_str]; rewrite Hst; [by left|by right].
  - done.
Qed.

Lemma spec_recover_or_wait strict own w o d : validated o d →
  (status_is "REFRESHING" d || status_is "AUTHORIZING" d) = true →
  spec strict own w (_recover_or_wait repr fromisoformat scope key d) any.
Proof using Hpath.
  intros Hv Hst. unfold _recover_or_wait. apply then_lift. intros w1 a Hl1 Hi1 Ha.
  pose proof (observed_proper o d a Hv Hst Ha) as [Hkind Hkey].
  eapply (spec_bind _ _ _ _ _ (λ _ w2 found, match found with
            | Some o => in_store w2 (exchange_result_key path (Admission.attempt_id a)) o | None => True end)).
  - apply spec_catch.
    + rewrite Hkey. apply then_read. intros w2 w3 x Hl2 Hi2 Hl3 Hi3 Hx%head_of_versions.
      apply spec_lift. intros w4 y Hl4 Hi4 [= <-]. eapply in_store_later; [exact (later_trans _ _ _ Hl3 Hl4)|exact Hx].
    + intros own1 w2 e Hk2 Hl2 Hi2. destruct (isinst e ObjectNotFoundError); [|by apply spec_lift].
      apply spec_lift. by intros w3 y Hl3 Hi3 [= <-].
  - intros own1 w2 [x|] Hk2 Hl2 Hi2 Hx; [by apply spec_publish_result|].
    apply then_now. intros w3 now Hl3 Hi3. apply then_lift. intros w4 waiting Hl4 Hi4 _.
    destruct waiting; [apply spec_sleep|]. apply spec_finish_exchange; [done|]. case_bool_decide; [by right|by left].
Qed.


(** ** Admitting and dispatching an exchange *)

Lemma mutation_wire_id m w : mutation_wire repr m = Ok w → ∃ m', w = JObj m' ∧ get "id" m' = get "id" m.
Proof.
  unfold mutation_wire. intros (? & _ & H)%bind_Ok. apply bind_Ok in H as (? & _ & H).
  apply bind_Ok in H as (id & Hid%item_get & H). apply bind_Ok in H as (? & _ & H). apply bind_Ok in H as (? & _ & H).
  apply bind_Ok in H as (? & _ & H). apply bind_Ok in H as (? & _ & H). apply bind_Ok in H as (? & _ & H).
  apply Ok_inj in H as <-. eexists. split; [done|]. by rewrite Hid.
Qed.

Lemma admission_mutation_Ok record attempt invocation deadline m : plain (JObj record) = true →
  admission_mutation record path attempt invocation deadline = Ok m →
  plain (JObj m) = true ∧ get "id" m = JStr attempt.
Proof.
  intros Hp. unfold admission_mutation. intros (s & _ & H)%bind_Ok. apply Ok_inj in H as <-. split; [|done].
  cbn [plain forallb snd]. rewrite (plain_get record "revision" Hp). by vm_compute.
Qed.

Lemma admitted_record_Ok record mutation updated revision fence : plain (JObj record) = true →
  plain (JObj mutation) = true → num_int (get "revision" record) = revision → num_int (get "fence" record) = fence →
  admitted_record repr fromisoformat scope key record mutation = Ok updated →
  ∃ r, wired (revision + 1) (JInt (fence + 1)) (lit "REFRESHING") (Some r) (Some mutation) updated ∧
       credential_kept record updated.
Proof.
  intros Hp Hpm <- <-. unfold admitted_record. intros (ex & _ & H)%bind_Ok. apply bind_Ok in H as (auth & Ha & H).
  apply bind_Ok in H as (c & Hc & H). apply bind_Ok in H as (r & Hr & H).
  destruct c as [| | | | | |c]; try done. apply Ok_inj in Hr as ->.
  exists r. assert (Hw := H). apply record_wired in Hw; [|done|exact (plain_item _ _ _ Hp Ha)|exact (plain_item _ _ _ Hp Hc)|done].
  split; [done|]. unfold credential_kept. rewrite (item_get _ _ _ Hc). exact (wd_reference _ _ _ _ _ _ Hw).
Qed.

Definition dispatchable (own : list pystr) (w : state) (a : Admission.t) : Prop :=
  Admission.attempt_id a ∈ own ∧ admitted (objects w) a ∧ proper a.

Lemma spec_admit_refresh own w record now j o : head_version w j o record → status_is "READY" record = true →
  spec true own w (_admit_refresh repr fromisoformat scope key record now) dispatchable.
Proof using Hpath.
  intros Hv Hst%status_is_of. pose proof Hv as (_ & _ & Hok). unfold _admit_refresh.
  apply then_token. intros w1 attempt Hl1 Hi1 _. apply then_lift. intros w2 p Hl2 Hi2 Hp.
  unfold key_path in Hp. rewrite Hpath in Hp. injection Hp as <-.
  apply then_lift. intros w3 deadline Hl3 Hi3 _. apply then_token. intros w4 invocation Hl4 Hi4 _.
  apply then_lift. intros w5 mutation Hl5 Hi5 Hm. apply then_lift. intros w6 updated Hl6 Hi6 Hu.
  destruct (admission_mutation_Ok _ _ _ _ _ (ok_plain _ _ Hok) Hm) as [Hpm Hmid].
  destruct (admitted_record_Ok _ _ _ _ _ (ok_plain _ _ Hok) Hpm (successor_revision _ _ Hok) eq_refl Hu)
    as (r & Hwired & Hkept).
  assert (Hw6 : later w w6) by (repeat (eapply later_trans; [eassumption|]); apply later_refl).
  assert (Hfence : fence_of updated = (num_int (get "fence" record) + 1)%Z)
    by (unfold fence_of; by rewrite (wd_fence _ _ _ _ _ _ Hwired)).
  assert (Hstatus : status_of updated = lit "REFRESHING")
    by (unfold status_of; by rewrite (wd_status _ _ _ _ _ _ Hwired)).
  eapply spec_bind; [eapply spec_write_head; [by eapply head_version_later| |]|].
  - eapply wired_ok; [done|lia|]. eexists. split; [done|]. pose proof (ok_fence _ _ Hok) as [_ ?].
    unfold fence_of in *. lia.
  - by apply t_admit.
  - intros own1 w7 [] Hk Hl7 Hi7 [i Hi]. apply spec_lift. intros w8 a Hl8 Hi8 [= <-]. split; [|split].
    + apply Hk. right. by left.
    + exists i, updated. split; [eapply version_at_mono; [apply Hl8|done]|]. split; [done|]. split; [done|].
      destruct (mutation_wire_id _ _ (wd_mutation _ _ _ _ _ _ Hwired)) as (m' & Hm' & Hid).
      unfold mutation_of. by rewrite Hm', Hid.
    + split; [by left|done].
Qed.

Lemma spec_exchange_failed {A} strict own w a e : proper a →
  spec strict own w (exchange_failed (A:=A) repr fromisoformat scope key a e) any.
Proof using Hpath.
  intros [Hk _]. unfold exchange_failed.
  destruct (isinst e ReauthorizationRequiredError).
  - eapply spec_bind; [apply spec_finish_exchange; [done|by right]|]. intros. by apply spec_lift.
  - eapply spec_bind; [apply spec_finish_exchange; [done|by left]|]. intros.
    by destruct (isinst e AddressRefusal); apply spec_lift.
Qed.

Lemma spec_refresh_admitted own w a prior c e now : dispatchable own w a →
  spec false own w (_refresh_admitted repr fromisoformat encode scope key a prior c e now) any.
Proof using Hpath.
  intros (Hin & Hadm & Hpr). pose proof Hpr as [Hkind _].
  assert (Hfin : ∀ own1 w1 m A, spec false (A:=A) own1 w1 (prog_bind
            (_finish_exchange repr fromisoformat scope key a "READY") (λ _, refresh_failed m)) any).
  { intros own1 w1 m A. eapply spec_bind; [apply spec_finish_exchange; [done|by left]|]. intros. by apply spec_lift. }
  unfold _refresh_admitted. eapply spec_bind; [apply spec_catch; [by apply spec_refresh|]|].
  - intros. by apply spec_exchange_failed.
  - intros own1 w1 result _ Hl1 Hi1 _. apply then_now. intros w2 t Hl2 Hi2. apply then_lift. intros w3 late Hl3 Hi3 _.
    destruct late; [apply Hfin|]. eapply (spec_bind _ _ _ _ _ any).
    + apply spec_catch; [by apply spec_lift|]. intros. destruct (_ || _); [apply Hfin|by apply spec_lift].
    + intros own2 w4 encoded _ Hl4 Hi4 _. eapply spec_bind; [by apply spec_commit_refresh|]. intros. by apply spec_lift.
Qed.

(** ** One turn of a refresh *)

Lemma spec_or_continue {A} strict own w (p : prog C A) P : spec strict own w p P →
  spec strict own w (or_continue p) (λ own1 w1 r, match r with Some a => ∃ w0, later w0 w1 ∧ P own1 w0 a | None => True end).
Proof.
  intros Hp. unfold or_continue. apply spec_catch.
  - eapply spec_bind; [exact Hp|]. intros own1 w1 a Hk Hl Hi Ha. apply spec_lift. intros w2 r Hl2 Hi2 [= <-]. by exists w1.
  - intros own1 w1 e Hk Hl Hi. destruct (isinst e ObjectConflictError); apply spec_lift; [|done]. by intros w2 r _ _ [= <-].
Qed.

Lemma spec_read_material strict own w record :
  spec strict own w (_read_material repr fromisoformat scope key record) any.
Proof.
  unfold _read_material. do 3 (apply then_lift; intros). apply then_read; intros. do 5 (apply then_lift; intros).
  by apply spec_lift.
Qed.

Lemma spec_resolve_ready own w record j o : head_version w j o record →
  status_is "READY" record = true →
  spec false own w (resolve_ready repr fromisoformat decode encode scope key refresh_required record) any.
Proof using Hpath.
  intros Hv Hst. unfold resolve_ready. eapply spec_bind; [apply spec_read_material|].
  intros own1 w1 material _ Hl1 Hi1 _. apply then_lift. intros w2 c Hl2 Hi2 _. apply then_now. intros w3 now Hl3 Hi3.
  apply then_lift. intros w4 current Hl4 Hi4 _. destruct (_ && _); [by apply spec_lift|].
  eapply spec_bind; [apply spec_relax, spec_or_continue; eapply spec_admit_refresh; [|done]|].
  - eapply head_version_later; [|exact Hv]. repeat (eapply later_trans; [eassumption|]). apply later_refl.
  - intros own2 w5 [a|] _ Hl5 Hi5 Ha; [|by apply spec_lift]. destruct Ha as (w0 & Hl0 & Hin & Hadm & Hpr).
    eapply spec_bind; [apply spec_refresh_admitted; split_and!; [done| |done]|].
    + eapply admitted_mono; [apply Hl0|done].
    + intros. by apply spec_lift.
Qed.

Lemma spec_resolve_round own w :
  spec false own w (resolve_round repr fromisoformat decode encode scope key refresh_required) any.
Proof using Hpath.
  unfold resolve_round. eapply spec_bind; [apply spec_read_record|].
  intros own1 w1 [record o] _ Hl1 Hi1 (Hval & j & Hv). cbn [fst snd] in *.
  destruct (_ || _); [apply spec_fail|].
  destruct (status_is "AUTHORIZING" record) eqn:Ha; [|destruct (status_is "REFRESHING" record) eqn:Hr].
  - eapply (spec_bind _ _ _ _ _ any).
    + unfold pending_exchange. do 2 (apply then_lift; intros). destruct a0; [|by apply spec_lift].
      apply then_now; intros. apply then_lift; intros. by destruct a0; apply spec_lift.
    + intros own2 w2 _ _ Hl2 Hi2 _. eapply spec_bind; [apply spec_or_continue; eapply spec_recover_or_wait; [done|]|].
      * by rewrite Ha, orb_true_r.
      * intros. by apply spec_lift.
  - eapply spec_bind; [apply spec_or_continue; eapply spec_recover_or_wait; [done|]|]; [by rewrite Hr|].
    intros. by apply spec_lift.
  - destruct (negb _) eqn:Hn; [apply spec_fail|]. apply negb_false_iff in Hn. by eapply spec_resolve_ready.
Qed.


(** ** A replacement *)

Lemma material_key_not_head digest : material_key path digest ≠ head.
Proof. unfold material_key, head, head_key. intros H%app_inv_head. vm_compute in H. discriminate H. Qed.

(** What a replacement found. *)
Definition found_head (w : state) (found : Z * Z * option Object) : Prop :=
  match found with
  | (revision, fence, None) => revision = 0%Z ∧ fence = 0%Z
  | (revision, fence, Some o) => ∃ j d, head_version w j o d ∧ revision = (Z.of_nat j + 1)%Z ∧ fence = fence_of d
  end.

Lemma spec_read_replaced strict own w expected :
  spec strict own w (read_replaced repr fromisoformat scope key expected) (λ _ w1 found, found_head w1 found).
Proof using Hpath.
  unfold read_replaced. apply spec_catch.
  - eapply spec_bind; [apply spec_read_record|]. intros own1 w1 [d o] Hk Hl Hi (_ & j & Hv). apply spec_lift.
    intros w2 found Hl2 Hi2 H. apply Ok_inj in H as <-. cbn [fst snd] in *. exists j, d.
    split; [by eapply head_version_later|]. split; [|done]. apply successor_revision, Hv.
  - intros own1 w1 e Hk Hl Hi. destruct (_ && _); apply spec_lift; [|done]. intros w2 found _ _ H.
    by apply Ok_inj in H as <-.
Qed.

Lemma spec_replace_credential strict own w expected material :
  spec strict own w (replace_credential repr fromisoformat scope key expected material) any.
Proof using Hpath.
  unfold replace_credential. apply then_lift. intros w1 _ Hl1 Hi1 _. apply then_lift. intros w2 p Hl2 Hi2 Hp.
  rewrite Hpath in Hp. injection Hp as <-. eapply spec_bind; [apply spec_read_replaced|].
  intros own1 w3 [[revision fence] found] Hk3 Hl3 Hi3 Hfound. apply then_lift. intros w4 _ Hl4 Hi4 Hrev%raise_if_Ok.
  apply negb_false_iff, Z.eqb_eq in Hrev as <-. apply then_lift. intros w5 envelope Hl5 Hi5 _.
  apply then_lift. intros w6 contents Hl6 Hi6 _.
  eapply spec_bind; [apply spec_create_or_read; exact (material_key_not_head (Sha256.hexdigest contents))|].
  intros own2 w7 o Hk7 Hl7 Hi7 [Ho <-]. apply then_lift. intros w8 updated Hl8 Hi8 Hwired.
  apply record_wired in Hwired; [|done..]. apply then_lift. intros w9 bytes Hl9 Hi9 Hbytes.
  assert (Hload : loads_bytes bytes = Ok (JObj updated)) by (apply bytes_read; [apply Hwired|done]).
  assert (Hl39 : later w3 w9) by (repeat (eapply later_trans; [eassumption|]); apply later_refl).
  assert (Hl79 : later w7 w9) by (by eapply later_trans).
  assert (Hfence : fence_of updated = (fence + 1)%Z) by (unfold fence_of; by rewrite (wd_fence _ _ _ _ _ _ Hwired)).
  eapply spec_bind; [eapply spec_settle; [exact Hload|]|intros; by apply spec_lift].
  destruct found as [h|]; cbn [found_head] in Hfound.
  - destruct Hfound as (j & d & Hv & -> & ->). apply spec_await; [|intros; apply keeps_refl|].
    + intros w10 Hl10 Hi10 _. split; [done|]. assert (Hl310 : later w3 w10) by (by eapply later_trans).
      destruct (head_version_later _ _ _ _ _ Hl310 Hv) as (Hj & Hd & Hok).
      exists j, h, d, updated. split_and!; try done.
      * eapply wired_ok; [done|lia|]. eexists. split; [done|]. pose proof (ok_fence _ _ Hok) as [_ ?]. lia.
      * eapply (t_replace _ _ _ _ _ o).
        -- unfold status_of. by rewrite (wd_status _ _ _ _ _ _ Hwired).
        -- done.
        -- eapply in_store_later; [exact (later_trans _ _ _ Hl79 Hl10)|exact Ho].
        -- pose proof (wd_reference _ _ _ _ _ _ Hwired) as Hr. apply Ok_inj in Hr. by symmetry.
    + intros w10 x w11 w12 _ _ (f & Hd & _) _ Hl12 _. destruct (swap_answered _ _ _ _ _ _ _ Hd) as [Hs ->].
      split; [|done]. eapply in_store_later; [exact Hl12|]. unfold in_store. rewrite Hs. apply appended_object.
  - destruct Hfound as [-> ->]. apply spec_await; [|intros; apply keeps_refl|].
    + intros w10 Hl10 Hi10 _. right. exists updated. split; [done|]. split; [eapply wired_ok; [done|lia|]; eexists; by split|].
      pose proof (wd_reference _ _ _ _ _ _ Hwired) as Hr. apply Ok_inj in Hr. unfold reference_resolves.
      rewrite <- Hr. exists (material_key path (Sha256.hexdigest (o_contents o))), o. split; [|done].
      eapply in_store_later; [exact (later_trans _ _ _ Hl79 Hl10)|exact Ho].
    + intros w10 x w11 w12 _ _ (f & Hd & _) _ Hl12 _. destruct (create_answered _ _ _ _ _ _ Hd) as [Hs ->].
      split; [|done]. eapply in_store_later; [exact Hl12|]. unfold in_store. rewrite Hs. apply appended_object.
Qed.

(** ** Worlds *)

Definition allowed (w : state) (own : list pystr) (t : task) : Prop :=
  match t with
  | Resolving p => wp p own w (λ _ _ _, True)
  | Replacing p => wp p own w (λ _ _ _, True)
  end.

Definition disjoint_tokens (owns : list (list pystr)) : Prop :=
  ∀ i j a b t, owns !! i = Some a → owns !! j = Some b → t ∈ a → t ∈ b → i = j.

Record world_inv (x : world) : Prop := {
  wi_inv : inv (shared_state x);
  wi_tasks : ∃ owns, Forall2 (allowed (shared_state x)) owns (tasks x) ∧
                     Forall (λ own, holds own (shared_state x)) owns ∧ disjoint_tokens owns
}.

Lemma allowed_later w w' own t : later w w' → allowed w own t → allowed w' own t.
Proof. intros Hl. destruct t; cbn [allowed]; by apply wp_later. Qed.

Lemma all_allowed w w' owns ts : later w w' → Forall2 (allowed w) owns ts → Forall2 (allowed w') owns ts.
Proof. intros Hl Ht. eapply Forall2_impl; [exact Ht|]. intros own t. by apply allowed_later. Qed.

Lemma spec_allowed {A} own w (p : prog C A) : spec false own w p any → wp p own w (λ _ _ _, True).
Proof. intros H. by apply H. Qed.

(** A task's own step. *)
Lemma task_step_keeps w t w' t' own : task_step w t w' t' → inv w → holds own w → allowed w own t →
  ∃ own', allowed w' own' t' ∧ inv w' ∧ later w w' ∧ holds own' w' ∧
    (∀ other, (∀ x, x ∈ other → x ∉ own) → holds other w → holds other w') ∧
    (∀ x, x ∈ own' → x ∈ own ∨ x ∉ used w).
Proof using Hpath Hforeign.
  intros Hstep Hi Ho Ha. destruct Hstep as [X w w' c k r Hact|X w w' c k r Hact|w]; cbn [allowed] in *.
  - destruct (Ha w (later_refl w) Hi Ho) as [Hpre Hk]. exists (own_after c r own).
    split; [by apply Hk|]. by apply (acts_inv c own w r w').
  - destruct (Ha w (later_refl w) Hi Ho) as [Hpre Hk]. exists (own_after c r own).
    split; [by apply Hk|]. by apply (acts_inv c own w r w').
  - exists own. split; [apply spec_allowed, spec_resolve_round|].
    split_and!; [done|apply later_refl|done|done|by left].
Qed.


Lemma disjoint_replaced o1 own own' o2 : disjoint_tokens (o1 ++ own :: o2) →
  (∀ x, x ∈ own' → x ∈ own ∨ ∀ other, other ∈ o1 ++ own :: o2 → x ∉ other) → disjoint_tokens (o1 ++ own' :: o2).
Proof.
  intros Hd Hnew. assert (Hins : o1 ++ own' :: o2 = <[length o1 := own']> (o1 ++ own :: o2)).
  { by rewrite insert_app_r_alt, Nat.sub_diag by lia. }
  assert (Hown : (o1 ++ own :: o2) !! length o1 = Some own) by (by rewrite list_lookup_middle).
  intros i j a b t. rewrite Hins. intros [(<- & <- & _)|[Hi Ha]]%list_lookup_insert_Some
    [(<- & <- & _)|[Hj Hb]]%list_lookup_insert_Some Hta Htb; [done| | |by eapply Hd].
  - destruct (Hnew t Hta) as [Ht|Ht]; [by eapply Hd|].
    exfalso. apply (Ht b); [by eapply list_elem_of_lookup_2|done].
  - destruct (Hnew t Htb) as [Ht|Ht]; [by eapply Hd|].
    exfalso. apply (Ht a); [by eapply list_elem_of_lookup_2|done].
Qed.

(** A step of something else than the tasks. *)
Lemma world_frame w w' ts : world_inv (mkWorld w ts) → inv w' → later w w' → log w' = log w → used w' = used w →
  world_inv (mkWorld w' ts).
Proof.
  intros [Hi (owns & Ht & Ho & Hd)] Hi' Hl Hlog Hused. cbn [shared_state tasks] in *. split; [done|].
  exists owns. split; [|split; [|done]].
  - by eapply all_allowed.
  - eapply Forall_impl; [exact Ho|]. intros own Hown t Hin. cbn [shared_state]. unfold attempts. rewrite Hlog, Hused. by apply Hown.
Qed.

Lemma world_new w ts t : world_inv (mkWorld w ts) → allowed w [] t → world_inv (mkWorld w (t :: ts)).
Proof.
  intros [Hi (owns & Ht & Ho & Hd)] Ha. split; [done|]. exists ([] :: owns). split; [by constructor|].
  split; [constructor; [by intros x ?%elem_of_nil|done]|].
  intros [|i] [|j] a b t' Hia Hjb Hta Htb; cbn in Hia, Hjb; [done| | |f_equal; by eapply Hd].
  - injection Hia as <-. by apply elem_of_nil in Hta.
  - injection Hjb as <-. by apply elem_of_nil in Htb.
Qed.

Lemma world_step_inv x y : step x y → world_inv x → world_inv y.
Proof using Hpath Hforeign.
  intros Hstep Hx. destruct Hstep as [w ts|w ts expected material|w w' ts1 t t' ts2 Hs|w ts k b Hk|w ts b d Hb Hok Hr
    |w ts j o d b d' Hj Hd Hb Hok Hf Hr].
  - apply world_new; [done|]. apply spec_allowed, spec_resolve_round.
  - apply world_new; [done|]. apply spec_allowed, spec_replace_credential.
  - destruct Hx as [Hi (owns & Ht & Ho & Hd)]. cbn [shared_state tasks] in *.
    apply Forall2_app_inv_r in Ht as (o1 & o2 & Ht1 & Ht2 & ->).
    apply Forall2_cons_inv_r in Ht2 as (own & o2' & Ha & Ht2 & ->).
    apply Forall_app in Ho as [Ho1 [Hown Ho2]%Forall_cons].
    destruct (task_step_keeps w t w' t' own Hs Hi Hown Ha) as (own' & Ha' & Hi' & Hl & Hown' & Hother & Hfresh).
    assert (Hall : Forall (λ other, holds other w) (o1 ++ own :: o2')) by (apply Forall_app; split; [done|by constructor]).
    assert (Hkeep : ∀ n other, n ≠ length o1 → (o1 ++ own :: o2') !! n = Some other → holds other w').
    { intros n other Hn Hlook. apply Hother; [|rewrite Forall_lookup in Hall; by eapply Hall].
      intros x Hx Hxo. apply Hn. eapply Hd; [exact Hlook|by apply list_lookup_middle|done|done]. }
    split; [done|]. exists (o1 ++ own' :: o2'). split; [|split].
    + apply Forall2_app; [|constructor; [done|]]; by eapply all_allowed.
    + apply Forall_lookup. intros n other Hlook. destruct (decide (n = length o1)) as [->|Hn].
      * rewrite list_lookup_middle in Hlook by done. by injection Hlook as <-.
      * apply (Hkeep n); [done|]. apply lookup_app_Some in Hlook as [Hl1|[Hge Hl2]].
        -- by apply lookup_app_l_Some.
        -- rewrite lookup_app_r by done. destruct (n - length o1)%nat eqn:E; [lia|]. exact Hl2.
    + eapply disjoint_replaced; [exact Hd|]. intros x Hx. destruct (Hfresh x Hx) as [Ho|Hu]; [by left|right].
      intros other Hin Hxo. rewrite Forall_forall in Hall. by destruct (Hall other Hin x Hxo).
  - destruct (create_grows () (objects w) k b) as [Hw He]; [apply Hx|].
    eapply world_frame; [exact Hx| |by split|done|done]. cbn [objects used log].
    eapply (inv_create w k b NoFault _ _ (wi_inv _ Hx)); [by left|by rewrite surjective_pairing at 1].
  - destruct (create_grows () (objects w) head b) as [Hw He]; [apply Hx|].
    eapply world_frame; [exact Hx| |by split|done|done]. cbn [objects used log].
    eapply (inv_create w head b NoFault _ _ (wi_inv _ Hx)); [right; by exists d|by rewrite surjective_pairing at 1].
  - destruct (swap_grows () (objects w) head (o_etag o) b) as [Hw He]; [apply Hx|].
    eapply world_frame; [exact Hx| |by split|done|done]. cbn [objects used log].
    eapply (inv_swap w b NoFault _ _ j o d d' (wi_inv _ Hx)); try done; [by apply t_foreign|].
    by rewrite surjective_pairing at 1.
Qed.

Lemma reachable_world_inv x : reachable x → world_inv x.
Proof using Hpath Hforeign.
  induction 1 as [|x y _ IH Hs]; [|by eapply world_step_inv].
  split; cbn [shared_state tasks].
  - split; cbn [objects used log].
    + intros k vs H. by rewrite lookup_empty in H.
    + by intros i o H.
    + by intros i d d' (o & Ho & _).
    + by intros i d (o & Ho & _).
    + by intros a ?%elem_of_nil.
    + constructor.
    + by intros t ?%elem_of_nil.
  - exists []. by split_and!; [constructor|constructor|intros i j a b t H].
Qed.

(** ** What every execution obeys *)

Lemma transition_fence s d d' : transition foreign path s d d' → fence_rule d d'.
Proof using Hforeign.
  intros [? ? Hf _|id o env He Hs Hf _ _ _ _ _ _|_ _ Hf _|o _ Hf _ _|Hf _]; [left; lia|by right|left; lia|left; lia|by apply Hforeign].
Qed.

Lemma fences_grow s i j d d' : (∀ i d d', version_at s i d → version_at s (S i) d' → transition foreign path s d d') →
  (∀ i, (S i < length (versions s head))%nat → ∃ d, version_at s i d) →
  version_at s i d → version_at s j d' → (i < j)%nat →
  (fence_of d < fence_of d')%Z ∨ (fence_of d' = fence_of d ∧ in_exchange d ∧ status_of d' = lit "READY").
Proof using Hforeign.
  intros Hchain Hdocs Hi Hj. revert d' Hj. induction j as [|j IH]; intros d' Hj Hij; [lia|].
  pose proof Hj as (o' & Ho' & _). apply lookup_lt_Some in Ho' as Hlen.
  destruct (Hdocs j Hlen) as [d1 H1]. pose proof (transition_fence _ _ _ (Hchain j _ _ H1 Hj)) as Hr.
  destruct (decide (i = j)) as [->|Hne]; [by rewrite (version_at_fun s j d d1)|].
  destruct (IH d1 H1 ltac:(lia)) as [Hlt|(Heq & Hex & Hrd)]; destruct Hr as [Hr|(Hr & Hx & Hs)]; [left; lia|left; lia|left; lia|].
  exfalso. unfold in_exchange in Hx. rewrite Hrd in Hx. by destruct Hx as [Hx|Hx]; vm_compute in Hx.
Qed.

(** Two exchange heads with one fence are the same version. *)
Lemma exchange_unique w i j d d' : inv w → version_at (objects w) i d → version_at (objects w) j d' →
  in_exchange d → in_exchange d' → fence_of d = fence_of d' → i = j.
Proof using Hforeign.
  intros Hi Hvi Hvj Hed Hed' Hf.
  assert (Hdocs : ∀ i, (S i < length (versions (objects w) head))%nat → ∃ d, version_at (objects w) i d).
  { intros n Hn. destruct (lookup_lt_is_Some_2 (versions (objects w) head) n) as [o Ho]; [lia|].
    destruct (inv_docs w Hi n o Ho) as (d0 & Hd0 & _). by exists d0, o. }
  assert (Hready : ∀ d, in_exchange d → status_of d ≠ lit "READY").
  { intros d0 [->| ->] H; by vm_compute in H. }
  destruct (Nat.lt_trichotomy i j) as [Hlt|[He|Hlt]]; [|done|].
  - destruct (fences_grow _ i j d d' (inv_chain w Hi) Hdocs Hvi Hvj Hlt) as [?|(_ & _ & Hs)]; [lia|].
    by destruct (Hready d').
  - destruct (fences_grow _ j i d' d (inv_chain w Hi) Hdocs Hvj Hvi Hlt) as [?|(_ & _ & Hs)]; [lia|].
    by destruct (Hready d).
Qed.

Lemma dispatched_fences w : inv w → NoDup (map Admission.fence (log w)).
Proof using Hforeign.
  intros Hi. pose proof (inv_log w Hi) as Hlog. pose proof (inv_once w Hi) as Honce. unfold attempts in Honce.
  apply NoDup_fmap_2_strong; [|by eapply NoDup_fmap_1]. intros a b Ha Hb Hf.
  destruct (Hlog a Ha) as (i & d & Hvi & Hsi & Hfi & Hidi), (Hlog b Hb) as (j & d' & Hvj & Hsj & Hfj & Hidj).
  assert (i = j) as <- by (eapply exchange_unique; try eassumption; [by left|by left|congruence]).
  assert (d' = d) as -> by (by eapply version_at_fun).
  assert (Hid : Admission.attempt_id a = Admission.attempt_id b) by (rewrite Hidi in Hidj; by injection Hidj).
  apply list_elem_of_lookup in Ha as [n Hn], Hb as [m Hm].
  assert (n = m) as ->; [|congruence].
  eapply (NoDup_lookup (Admission.attempt_id <$> log w)); [exact Honce| |].
  - by rewrite list_lookup_fmap, Hn.
  - by rewrite list_lookup_fmap, Hm, Hid.
Qed.

(** C4: in every execution of any number of refreshing and replacing tasks - interleaved at every
    await, with lost and unanswered writes, arbitrary clocks and crashes - the head of a connection
    is a sequence of revisions 1, 2, 3, ... in which every head follows the previous one by a step of
    the abstract protocol: an admission from READY, the publication of that admission's own result,
    an abandoned or failed exchange that keeps the credential, a replacement under a new fence, or
    what another client is known to do. *)
Theorem heads_follow_protocol x i o o' : reachable x →
  versions (objects (shared_state x)) (head_key path) !! i = Some o →
  versions (objects (shared_state x)) (head_key path) !! S i = Some o' →
  ∃ d d', doc o = Some d ∧ doc o' = Some d' ∧ get "revision" d = JInt (Z.of_nat i + 1) ∧
    get "revision" d' = JInt (Z.of_nat i + 2) ∧ transition foreign path (objects (shared_state x)) d d'.
Proof using Hpath Hforeign.
  intros [Hi _]%reachable_world_inv Ho Ho'. destruct (inv_docs _ Hi _ _ Ho) as (d & Hd & Hok).
  destruct (inv_docs _ Hi _ _ Ho') as (d' & Hd' & Hok'). exists d, d'. split_and!; try done; [apply Hok| |].
  - rewrite (ok_revision _ _ Hok'). f_equal. lia.
  - eapply (inv_chain _ Hi i); [by exists o|by exists o'].
Qed.

(** C2: in every such execution a provider exchange is dispatched at most once per fence, and only
    under a REFRESHING head that carries its fence and its attempt. *)
Theorem one_dispatch_per_fence x : reachable x →
  NoDup (map Admission.fence (log (shared_state x))) ∧
  ∀ a, a ∈ log (shared_state x) → ∃ i o d,
    versions (objects (shared_state x)) (head_key path) !! i = Some o ∧ doc o = Some d ∧
    status_of d = lit "REFRESHING" ∧ fence_of d = Admission.fence a ∧
    get "id" (mutation_of d) = JStr (Admission.attempt_id a).
Proof using Hpath Hforeign.
  intros [Hi _]%reachable_world_inv. split; [by apply dispatched_fences|]. intros a Ha.
  destruct (inv_log _ Hi a Ha) as (i & d & (o & Ho & Hd) & H). by exists i, o, d.
Qed.

(** C5: in every such execution the credential reference of every head resolves: the object it names
    can be read and has the digest it states, so the integrity check of a reader never fails. *)
Theorem references_resolve x i o d r : reachable x →
  versions (objects (shared_state x)) (head_key path) !! i = Some o → doc o = Some d →
  get "credential" d = JObj r →
  ∃ k v digest material, get "key" r = JStr k ∧ get "version" r = JStr v ∧ get "digest" r = JStr digest ∧
    Memory.read_object (objects (shared_state x)) k v = Ok material ∧ Sha256.hexdigest (o_contents material) = digest.
Proof using Hpath Hforeign.
  intros [Hi _]%reachable_world_inv Ho Hd Hr.
  assert (Hres : reference_resolves (objects (shared_state x)) d) by (apply (inv_reference _ Hi i); by exists o).
  unfold reference_resolves in Hres. rewrite Hr in Hres. destruct Hres as (k & m & Hm & Hk & Hv & Hg).
  exists k, (o_version m), (Sha256.hexdigest (o_contents m)), m. split_and!; try done.
  apply read_stored; [apply Hi|done].
Qed.

(** ** Executing a task alone *)

Definition fresh (taken tokens : list pystr) : Prop :=
  NoDup tokens ∧ ∀ t, t ∈ tokens → (t ∉ taken) ∧ secret_id_match t = true.

Definition seen (e : env (C:=C) fault Memory.store) (taken : list pystr) : state :=
  mkState (e_store e) taken (e_dispatched e).

Lemma perform_acts {X} epoch (c : cmd C X) e r e' taken : perform NoFault epoch c e = (r, e') →
  e_tokens e' ≠ [] → fresh taken (e_tokens e) →
  e_tokens e ≠ [] ∧ ∃ taken', fresh taken' (e_tokens e') ∧ acts c (seen e taken) r (seen e' taken').
Proof.
  destruct c as [k v|k b|k etag b| | | |a c ex now]; cbn [perform acts]; intros H Hne Hf.
  - injection H as <- <-. split; [done|]. exists taken. split; [done|]. split; [done|by left].
  - destruct (ProjectStorage.create_object _ _ _ _) as [r0 s0] eqn:E. injection H as <- <-. split; [done|].
    exists taken. split; [done|]. exists (hd NoFault (e_faults e)). by split.
  - destruct (ProjectStorage.compare_and_swap_object _ _ _ _ _) as [r0 s0] eqn:E. injection H as <- <-. split; [done|].
    exists taken. split; [done|]. exists (hd NoFault (e_faults e)). by split.
  - injection H as <- <-. split; [done|]. exists taken. split; [done|]. split; [done|by eexists].
  - injection H as <- <-. cbn [e_tokens] in *. destruct (e_tokens e) as [|t tokens] eqn:E; [done|]. split; [done|].
    destruct Hf as [[Hnt Hnd]%NoDup_cons Hf]. destruct (Hf t) as [Hu Hm]; [by left|].
    exists (t :: taken). split.
    + split; [done|]. intros x Hx. destruct (Hf x) as [? ?]; [by right|]. split; [|done].
      intros [->|?]%elem_of_cons; done.
    + exists t. by split_and!.
  - injection H as <- <-. split; [done|]. by exists taken.
  - injection H as <- <-. split; [done|]. by exists taken.
Qed.

(** Tokens are only used up. *)
Lemma run_tokens {A} (epoch : GoTime.datetime) (p : prog C A) (r : res A) (e e' : env (C:=C) fault Memory.store) :
  run NoFault epoch p e = (r, e') → e_tokens e' ≠ [] → e_tokens e ≠ [].
Proof.
  revert e. induction p as [x|X c k IH]; cbn [run]; intros e Hrun Hne; [by injection Hrun as _ ->|].
  destruct (perform NoFault epoch c e) as [r1 e1] eqn:E. intros Hn. apply (IH r1 e1 Hrun Hne).
  destruct c; cbn [perform] in E;
    try (destruct (ProjectStorage.create_object _ _ _ _)); try (destruct (ProjectStorage.compare_and_swap_object _ _ _ _ _));
    injection E as _ <-; cbn [e_tokens with_store]; by rewrite ?Hn.
Qed.

(** [run] is an execution of one task. *)
Lemma run_reaches {A} (T : prog C A → task) epoch ts1 ts2 (p : prog C A) :
  (∀ X w w' (c : cmd C X) k r, acts c w r w' → task_step w (T (Vis c k)) w' (T (k r))) →
  ∀ e r e' taken, run NoFault epoch p e = (r, e') → e_tokens e' ≠ [] → fresh taken (e_tokens e) →
  reachable (mkWorld (seen e taken) (ts1 ++ T p :: ts2)) →
  ∃ taken', fresh taken' (e_tokens e') ∧ reachable (mkWorld (seen e' taken') (ts1 ++ T (Ret r) :: ts2)).
Proof.
  intros HT. induction p as [r|X c k IH]; intros e r' e' taken Hrun Hne Hf Hr; cbn [run] in Hrun.
  - injection Hrun as <- <-. by exists taken.
  - destruct (perform NoFault epoch c e) as [r e1] eqn:E.
    pose proof (run_tokens epoch (k r) _ e1 _ Hrun Hne) as Hne1.
    destruct (perform_acts epoch c e r e1 taken E Hne1 Hf) as (_ & taken1 & Hf1 & Ha).
    eapply IH; [exact Hrun|done|exact Hf1|]. eapply reachable_step; [exact Hr|].
    apply step_task, HT, Ha.
Qed.

Lemma run_replaced epoch e r e' taken ts expected material :
  run NoFault epoch (replace_credential repr fromisoformat scope key expected material) e = (r, e') →
  e_tokens e' ≠ [] → fresh taken (e_tokens e) → reachable (mkWorld (seen e taken) ts) →
  ∃ taken', fresh taken' (e_tokens e') ∧ reachable (mkWorld (seen e' taken') (Replacing (Ret r) :: ts)).
Proof.
  intros Hrun Hne Hf Hr. eapply (run_reaches Replacing epoch [] ts _ ltac:(by constructor) _ _ _ taken); try done.
  eapply reachable_step; [exact Hr|]. constructor.
Qed.

Lemma run_resolved epoch e r e' taken ts :
  run NoFault epoch (resolve_round repr fromisoformat decode encode scope key refresh_required) e = (r, e') →
  e_tokens e' ≠ [] → fresh taken (e_tokens e) → reachable (mkWorld (seen e taken) ts) →
  ∃ taken', fresh taken' (e_tokens e') ∧ reachable (mkWorld (seen e' taken') (Resolving (Ret r) :: ts)).
Proof.
  intros Hrun Hne Hf Hr. eapply (run_reaches Resolving epoch [] ts _ ltac:(by constructor) _ _ _ taken); try done.
  eapply reachable_step; [exact Hr|]. constructor.
Qed.

End Executions.

(** ** A replacement and a refresh, executed *)

Module Sample.

Definition no_repr : json → pystr := λ _, [].
Definition scope : Scope.t := Scope.mk (lit "acme") (lit "live").
Definition key : ConnectionKey.t := ConnectionKey.mk (lit "github") (lit "main").
Definition path : pystr := match ConnectionKey.path key scope with Ok p => p | Err _ => [] end.
Definition credential : Type := dict json.
Definition decode (d : dict json) : res credential := Ok d.
Definition encode (c : credential) : res json := Ok (JObj c).
Definition always (_ : credential) (_ : option GoTime.datetime) (_ : GoTime.datetime) : bool := true.
Definition nobody (_ _ : dict json) : Prop := False.
Definition day (d : Z) : GoTime.datetime := GoTime.DT 2026 1 d 0 0 0 0 (Some 0%Z).
Definition token (n : N) : pystr := replicate 31 48%N ++ [(48 + n)%N].
Definition secret (text : pystr) : credential := [(lit "token", JStr text)].
Definition material (expiry : pystr) : CredentialMaterial :=
  mkMaterial (secret "first")
    (match GoTime.from_wire expiry with Ok t => Some (GoTime.TNano t) | Err _ => None end) (lit "oauth").

Definition start (exchanges : list (res (credential * GoTime.datetime))) : env (C:=credential) fault store :=
  mkEnv ∅ [] [day 1] [token 1; token 2; token 3; token 4; token 5] exchanges [].

Definition replace (m : CredentialMaterial) : prog credential Connection :=
  replace_credential no_repr GoTime.fromisoformat scope key 0 m.
Definition round : prog credential (option credential) :=
  resolve_round no_repr GoTime.fromisoformat decode encode scope key always.

Definition replaced : env (C:=credential) fault store :=
  snd (run NoFault (day 1) (replace (material "2026-01-02T00:00:00Z")) (start [Ok (secret "second", day 3)])).
Definition refreshed : env (C:=credential) fault store := snd (run NoFault (day 1) round replaced).

Abbreviation reached := (reachable no_repr GoTime.fromisoformat decode encode always scope key path nobody).

Lemma path_ok : ConnectionKey.path key scope = Ok path.
Proof. vm_compute. reflexivity. Qed.

Lemma nobody_ok d d' : nobody d d' → fence_rule d d'.
Proof. done. Qed.

(** The heads of an environment, and their references. *)
Definition reference_at (e : env (C:=credential) fault store) (n : nat) : option (dict json) :=
  o ← versions (e_store e) (head_key path) !! n;
  d ← doc o;
  match get "credential" d with JObj r => Some r | _ => None end.

(** What the witnesses need of the execution, evaluated once. *)
Definition as_expected (e : env (C:=credential) fault store) : bool :=
  truthy (hd [] (e_tokens e)) && (length (versions (e_store e) (head_key path)) =? 3)%nat
  && bool_decide (map Admission.fence (e_dispatched e) = [2%Z])
  && match reference_at e 2 with Some _ => true | None => false end.

Lemma refreshed_as_expected : as_expected refreshed = true.
Proof. vm_compute. reflexivity. Qed.

Lemma refreshed_tokens : e_tokens refreshed ≠ [].
Proof.
  intros H. pose proof refreshed_as_expected as He. unfold as_expected in He. rewrite H in He. discriminate He.
Qed.

Lemma refreshed_fences : map Admission.fence (e_dispatched refreshed) = [2%Z].
Proof.
  pose proof refreshed_as_expected as H. apply andb_prop in H as [H _]. apply andb_prop in H as [_ H].
  by apply bool_decide_eq_true in H.
Qed.

Lemma two_heads : ∃ o o', versions (e_store refreshed) (head_key path) !! 1%nat = Some o ∧
  versions (e_store refreshed) (head_key path) !! 2%nat = Some o'.
Proof.
  pose proof refreshed_as_expected as H. apply andb_prop in H as [H _]. apply andb_prop in H as [H _].
  apply andb_prop in H as [_ H]. apply Nat.eqb_eq in H.
  destruct (lookup_lt_is_Some_2 (versions (e_store refreshed) (head_key path)) 1) as [o Ho]; [rewrite H; lia|].
  destruct (lookup_lt_is_Some_2 (versions (e_store refreshed) (head_key path)) 2) as [o' Ho']; [rewrite H; lia|].
  exists o, o'. exact (conj Ho Ho').
Qed.

Lemma published_reference : ∃ o d r, versions (e_store refreshed) (head_key path) !! 2%nat = Some o ∧
  doc o = Some d ∧ get "credential" d = JObj r.
Proof.
  pose proof refreshed_as_expected as H. apply andb_prop in H as [_ H].
  destruct (reference_at refreshed 2) as [r|] eqn:E; [|discriminate H]. clear H. unfold reference_at in E.
  apply bind_Some in E as (o & Ho & E). apply bind_Some in E as (d & Hd & E).
  destruct (get "credential" d) as [| | | | | |r'] eqn:Hc; try discriminate E.
  exists o, d, r'. exact (conj Ho (conj Hd Hc)).
Qed.

Lemma tokens_fresh : fresh [] (e_tokens (start [Ok (secret "second", day 3)])).
Proof.
  split; [by apply (bool_decide_unpack _); vm_compute|]. intros t Ht. split; [by apply not_elem_of_nil|].
  revert t Ht. apply Forall_forall. repeat (constructor; [by vm_compute|]). constructor.
Qed.

Lemma refreshed_reachable : ∃ taken ts, reached (mkWorld (seen refreshed taken) ts).
Proof.
  destruct (run_replaced no_repr GoTime.fromisoformat decode encode always scope key path nobody (day 1)
              (start [Ok (secret "second", day 3)]) _ replaced [] [] 0 (material "2026-01-02T00:00:00Z")
              (surjective_pairing _)) as (taken & Hf & Hr).
  - eapply run_tokens; [apply (surjective_pairing (run _ _ _ replaced))|]. exact refreshed_tokens.
  - apply tokens_fresh.
  - constructor.
  - destruct (run_resolved no_repr GoTime.fromisoformat decode encode always scope key path nobody (day 1)
                replaced _ refreshed taken _ (surjective_pairing _) refreshed_tokens Hf Hr) as (taken' & _ & Hr').
    by eexists _, _.
Qed.

End Sample.

(** The refresh published the second credential under the fence of its admission. *)
Lemma heads_follow_protocol_witness :
  ∃ o o' d d', versions (e_store Sample.refreshed) (head_key Sample.path) !! 1%nat = Some o ∧
    versions (e_store Sample.refreshed) (head_key Sample.path) !! 2%nat = Some o' ∧
    doc o = Some d ∧ doc o' = Some d' ∧
    transition Sample.nobody Sample.path (e_store Sample.refreshed) d d'.
Proof.
  destruct Sample.refreshed_reachable as (taken & ts & Hr).
  destruct Sample.two_heads as (o & o' & Ho & Ho').
  destruct (heads_follow_protocol Sample.no_repr GoTime.fromisoformat Sample.decode Sample.encode Sample.always
              Sample.scope Sample.key Sample.path Sample.nobody Sample.nobody_ok Sample.path_ok _ 1 o o' Hr Ho Ho')
    as (d & d' & Hd & Hd' & _ & _ & Ht).
  exists o, o', d, d'. exact (conj Ho (conj Ho' (conj Hd (conj Hd' Ht)))).
Defined.

Lemma one_dispatch_per_fence_witness :
  map Admission.fence (e_dispatched Sample.refreshed) = [2%Z] ∧
  NoDup (map Admission.fence (e_dispatched Sample.refreshed)).
Proof.
  destruct Sample.refreshed_reachable as (taken & ts & Hr). split; [exact Sample.refreshed_fences|].
  exact (proj1 (one_dispatch_per_fence Sample.no_repr GoTime.fromisoformat Sample.decode Sample.encode Sample.always
           Sample.scope Sample.key Sample.path Sample.nobody Sample.nobody_ok Sample.path_ok _ Hr)).
Defined.

Lemma references_resolve_witness :
  ∃ o d r k v digest material, versions (e_store Sample.refreshed) (head_key Sample.path) !! 2%nat = Some o ∧
    doc o = Some d ∧ get "credential" d = JObj r ∧ get "key" r = JStr k ∧ get "version" r = JStr v ∧
    get "digest" r = JStr digest ∧ Memory.read_object (e_store Sample.refreshed) k v = Ok material ∧
    Sha256.hexdigest (o_contents material) = digest.
Proof.
  destruct Sample.refreshed_reachable as (taken & ts & Hr).
  destruct Sample.published_reference as (o & d & r & Ho & Hd & Hc).
  destruct (references_resolve Sample.no_repr GoTime.fromisoformat Sample.decode Sample.encode Sample.always
              Sample.scope Sample.key Sample.path Sample.nobody Sample.nobody_ok Sample.path_ok _ 2 o d r Hr Ho Hd Hc)
    as (k & v & g & m & H).
  exists o, d, r, k, v, g, m. exact (conj Ho (conj Hd (conj Hc H))).
Defined.

(** A stored expiry with digits below the microsecond does not survive an admission: the head is
    rewritten with the expiry cut to microseconds while the credential envelope keeps its own, so from
    then on every read of the kept credential fails, although a failed refresh reports that the current
    authorization is kept. *)
Theorem kept_credential_unreadable repr scope key record mutation updated s t s' auth digest o envelope :
  get "expiresAt" record = JStr s → GoTime.fromisoformat (replace_char 90 "+00:00" s) = Ok t →
  GoTime.format_rfc3339_nano (GoTime.TDate t) = Ok s' → s' ≠ s →
  admitted_record repr GoTime.fromisoformat scope key record mutation = Ok updated →
  loads_bytes (o_contents o) = Ok (JObj envelope) → get "expiresAt" envelope = JStr s →
  is_ok (check_envelope scope key auth (get "expiresAt" updated) digest o) = false.
Proof.
  intros Hs Ht Hs' Hne Hu Hload He. unfold admitted_record, _parse_time in Hu. rewrite Hs, Ht in Hu.
  cbn [mbind result_bind fmap option_fmap option_map] in Hu. apply bind_Ok in Hu as (a & _ & Hu).
  apply bind_Ok in Hu as (c & _ & Hu). apply bind_Ok in Hu as (r & _ & Hu). unfold _connection_record_wire in Hu.
  apply bind_Ok in Hu as (sc & _ & Hu). cbn [expiry_wire] in Hu. rewrite Hs' in Hu. cbn [mbind result_bind] in Hu.
  apply bind_Ok in Hu as (rw & _ & Hu). apply bind_Ok in Hu as (mw & _ & Hu). apply Ok_inj in Hu as <-.
  unfold check_envelope. rewrite Hload. destruct (raise_if _ _ _) as [[]|?]; [|done].
  cbn [mbind result_bind require_object]. destruct (Scope.to_wire scope) as [w|?]; [|done]. cbn [mbind result_bind].
  rewrite He. match goal with |- context [py_eq (JStr s) ?x] => change x with (JStr s') end.
  cbn [py_eq num_value]. rewrite (bool_decide_eq_false_2 (s = s')) by congruence. cbn [negb].
  by rewrite orb_true_r.
Qed.

Lemma kept_credential_unreadable_witness :
  let envelope : dict json := [(lit "expiresAt", JStr "2026-01-02T00:00:00.123456789Z")] in
  let record : dict json :=
    [(lit "revision", JInt 1); (lit "fence", JInt 1); (lit "expiresAt", JStr "2026-01-02T00:00:00.123456789Z");
     (lit "authMethod", JStr "oauth"); (lit "credential", JObj (reference_of "k" "1" "d"))] in
  let mutation : dict json :=
    [(lit "kind", JStr "REFRESHING"); (lit "invocationId", JStr "i"); (lit "id", JStr "a"); (lit "fence", JInt 2);
     (lit "baseRevision", JInt 1); (lit "deadline", JStr "2026-01-01T00:00:40Z"); (lit "resultKey", JStr "r")] in
  let updated := match admitted_record Sample.no_repr GoTime.fromisoformat Sample.scope Sample.key record mutation with
                 | Ok u => u | Err _ => [] end in
  let o := mkObject (lit "k") (lit "1") (lit "e")
             (match go_canonical_json_bytes (JObj envelope) with Ok b => b | Err _ => [] end) in
  get "expiresAt" updated = JStr "2026-01-02T00:00:00.123456Z" ∧
  is_ok (check_envelope Sample.scope Sample.key (JStr "oauth") (get "expiresAt" updated) (JStr "d") o) = false.
Proof.
  cbv zeta. split; [vm_compute; reflexivity|].
  apply (kept_credential_unreadable Sample.no_repr Sample.scope Sample.key
           [(lit "revision", JInt 1); (lit "fence", JInt 1); (lit "expiresAt", JStr "2026-01-02T00:00:00.123456789Z");
            (lit "authMethod", JStr "oauth"); (lit "credential", JObj (reference_of "k" "1" "d"))]
           [(lit "kind", JStr "REFRESHING"); (lit "invocationId", JStr "i"); (lit "id", JStr "a"); (lit "fence", JInt 2);
            (lit "baseRevision", JInt 1); (lit "deadline", JStr "2026-01-01T00:00:40Z"); (lit "resultKey", JStr "r")]
           _ (lit "2026-01-02T00:00:00.123456789Z") (GoTime.DT 2026 1 2 0 0 0 123456 (Some 0%Z))
           (lit "2026-01-02T00:00:00.123456Z") _ _ _ [(lit "expiresAt", JStr "2026-01-02T00:00:00.123456789Z")]);
    vm_compute; first [reflexivity|discriminate].
Defined.
