(* ===== verification/ConnectionFacts.v ===== *)
(** * What the connection store promises

    [replace_credential] and [read_credential_material] of
    sdkpython/src/dex_connectors/sdk/projectconfig/connections.py, executed one after the other on a
    store without faults: the material that was written is read back. *)

From S2P Require Import Prelude Sha1 Json JsonText Sha256 Timestamps Identity Definitions StructuredOutput.
From S2P Require Import ProjectModels CanonicalJson ProjectStorage StoreProgram ProjectConnections CredentialRefresh.
Import Memory MemoryFacts Faulty FaultyFacts.

(** ** Equality of documents *)

Lemma dget_unique {V} (d : dict V) k v : dict_ok d → (k, v) ∈ d → dget k d = Some v.
Proof.
  unfold dict_ok. induction d as [|[k' v'] d IH]; cbn [dkeys map fst dget]; [by intros _ ?%elem_of_nil|].
  intros [Hn Hd]%NoDup_cons [Heq|Hin]%elem_of_cons.
  - injection Heq as -> ->. by rewrite bool_decide_eq_true_2.
  - rewrite bool_decide_eq_false_2; [by apply IH|]. intros ->. apply Hn. apply list_elem_of_In.
    apply list_elem_of_In in Hin. by apply (in_map fst) in Hin.
Qed.

Lemma py_eq_plain v : plain v = true → py_eq v v = true.
Proof.
  induction v as [| | |f|s|l IH|d IH] using json_ind'; intros Hp; try done.
  - by destruct b.
  - cbn [py_eq num_value]. unfold feq. change (fcmp (FFin z 0) (FFin z 0)) with (fcmp (f_of_Z z) (FFin z 0)). by rewrite AnswerFacts.fcmp_int, Z.compare_refl.
  - cbn [py_eq num_value]. by apply bool_decide_eq_true_2.
  - cbn [py_eq num_value plain] in *. induction l as [|x l IHl]; [done|]. cbn [forallb] in Hp.
    apply andb_prop in Hp as [Hx Hl]. apply Forall_cons in IH as [IHx IH]. by rewrite (IHx Hx), (IHl IH Hl).
  - cbn [py_eq num_value plain] in *. apply andb_prop in Hp as [Hn%bool_decide_eq_true Hp]. rewrite Nat.eqb_refl. cbn [andb].
    assert (Hgen : ∀ e, (∀ kv, kv ∈ e → kv ∈ d) →
              (fix go (d0 : list (pystr * json)) : bool :=
                 match d0 with
                 | [] => true
                 | (k, v) :: d' => match dget k d with Some w => py_eq v w | None => false end && go d'
                 end) e = true).
    { induction e as [|[k v] e IHe]; intros Hsub; [done|].
      rewrite (dget_unique d k v Hn) by (apply Hsub; by left).
      rewrite Forall_forall in IH. rewrite forallb_forall in Hp.
      assert (Hin : (k, v) ∈ d) by (apply Hsub; by left).
      pose proof (IH (k, v) Hin (Hp (k, v) (proj1 (list_elem_of_In _ _) Hin))) as Hv. cbn [snd] in Hv. rewrite Hv. apply IHe.
      intros kv Hkv. apply Hsub. by right. }
    by apply Hgen.
Qed.

(** A new version has a name and an entity tag. *)
Lemma new_object_named s k contents : truthy (o_version (new_object s k contents)) = true ∧ truthy (o_etag (new_object s k contents)) = true.
Proof.
  unfold new_object. cbn [o_version o_etag]. cbv zeta. split.
  - replace (Z.of_nat (length (versions s k)) + 1)%Z with (Z.pos (Pos.of_succ_nat (length (versions s k)))) by lia.
    cbn [str_of_Z]. by destruct (str_of_N_shape (N.pos (Pos.of_succ_nat (length (versions s k))))) as (c & l & -> & _).
  - apply truthy_true. intros Hn. apply app_eq_nil in Hn as [_ Hn]. done.
Qed.

(** ** Steps without faults *)

Section Steps.
Context {C : Type}.

Abbreviation environment := (env (C:=C) fault Memory.store).

Definition faultless (e : environment) : Prop := e_faults e = [] ∧ MemoryFacts.well_formed (e_store e).

(** The store has grown, and still has no faults. *)
Definition onward (e e' : environment) : Prop := faultless e' ∧ extends (e_store e) (e_store e').

Lemma onward_refl e : faultless e → onward e e.
Proof. intros He. split; [done|apply extends_refl]. Qed.

Lemma onward_trans e1 e2 e3 : onward e1 e2 → onward e2 e3 → onward e1 e3.
Proof. intros [_ H1] [H2 H3]. split; [done|by eapply extends_trans]. Qed.

Context (epoch : GoTime.datetime).
Abbreviation run := (run NoFault epoch).

Lemma run_bind_Ok {A B} (p : prog C A) (f : A → prog C B) (e : environment) b e' :
  run (prog_bind p f) e = (Ok b, e') → ∃ a e1, run p e = (Ok a, e1) ∧ run (f a) e1 = (Ok b, e').
Proof. rewrite run_bind. destruct (run p e) as [[a|x] e1]; [|done]. intros H. by exists a, e1. Qed.

Lemma run_then {A B} (p : prog C A) (f : A → prog C B) (e e1 : environment) a :
  run p e = (Ok a, e1) → run (prog_bind p f) e = run (f a) e1.
Proof. intros H. by rewrite run_bind, H. Qed.

Lemma run_lift_Ok {A} (r : res A) (e : environment) a e' : run (lift r) e = (Ok a, e') → r = Ok a ∧ e' = e.
Proof. cbn. by intros [= -> ->]. Qed.

Lemma run_read (e : environment) k v o : Memory.read_object (e_store e) k v = Ok o →
  run (await (CRead k v)) e = (Ok o, e).
Proof. intros H. cbn. by rewrite H. Qed.

Lemma run_create_Ok (e : environment) k b o e' : faultless e → run (await (CCreate k b)) e = (Ok o, e') →
  onward e e' ∧ o = new_object (e_store e) k b ∧ e_store e' = snd (_append (e_store e) k b).
Proof.
  intros [Hf Hw]. cbn. rewrite Hf. cbn. pose proof (create_grows () (e_store e) k b Hw) as [Hw' He].
  destruct (Memory.create_object () (e_store e) k b) as [r s] eqn:E. intros [= -> <-]. cbn [snd] in *.
  destruct (create_answered NoFault (e_store e) k b o s) as [Hs Ho]; [exact E|].
  split; [split; [split; [cbn; by rewrite Hf|done]|done]|by split].
Qed.

Lemma run_swap_Ok (e : environment) k t b o e' : faultless e → run (await (CSwap k t b)) e = (Ok o, e') →
  onward e e' ∧ o = new_object (e_store e) k b ∧ e_store e' = snd (_append (e_store e) k b).
Proof.
  intros [Hf Hw]. cbn. rewrite Hf. cbn. pose proof (swap_grows () (e_store e) k t b Hw) as [Hw' He].
  destruct (Memory.compare_and_swap_object () (e_store e) k t b) as [r s] eqn:E. intros [= -> <-]. cbn [snd] in *.
  destruct (swap_answered NoFault (e_store e) k t b o s) as [Hs Ho]; [exact E|].
  split; [split; [split; [cbn; by rewrite Hf|done]|done]|by split].
Qed.

(** Without faults a write fails only when nothing was written. *)
Lemma run_create_Err (e : environment) k b x e' : faultless e → run (await (CCreate k b)) e = (Err x, e') →
  onward e e' ∧ isinst x OutcomeUnknownError = false.
Proof.
  intros [Hf Hw]. cbn. rewrite Hf. cbn. pose proof (create_grows () (e_store e) k b Hw) as [Hw' He].
  destruct (Memory.create_object () (e_store e) k b) as [r s] eqn:E. intros [= -> <-]. cbn [snd] in *.
  split; [by split; [split; [cbn; by rewrite Hf|]|]|]. unfold Memory.create_object in E.
  destruct (validate_object_key k ≫= λ _, _validate_contents b) as [[]|y] eqn:Hv.
  - destruct (e_store e !! k); [by injection E as <- _|done].
  - injection E as <- _. apply bind_Err in Hv as [Hv|([] & _ & Hv)].
    + unfold validate_object_key in Hv. by apply raise_if_Err in Hv as [_ ->].
    + unfold _validate_contents in Hv. by apply raise_if_Err in Hv as [_ ->].
Qed.

End Steps.

(** ** Replacing, then reading *)

Section Store.
Context (repr : json → pystr) (fromisoformat : pystr → res GoTime.datetime).
Context {C : Type} (scope : Scope.t) (key : ConnectionKey.t) (path : pystr).
Context (Hpath : ConnectionKey.path key scope = Ok path) (epoch : GoTime.datetime).

Abbreviation environment := (env (C:=C) fault Memory.store).
Abbreviation run := (run NoFault epoch).

Lemma create_or_read_Ok (e : environment) k b differs o e' : faultless e →
  run (create_or_read k b differs) e = (Ok o, e') → onward e e' ∧ o ∈ versions (e_store e') k ∧ o_contents o = b.
Proof.
  intros He. unfold create_or_read. rewrite run_catch. destruct (run (await (CCreate k b)) e) as [[o1|x] e1] eqn:E.
  - intros [= <- <-]. destruct (run_create_Ok epoch e k b o1 e1 He E) as (Hon & -> & Hs). split; [done|].
    split; [|done]. rewrite Hs. apply appended_object.
  - destruct (run_create_Err epoch e k b x e1 He E) as [Hon _]. destruct (_ || _); [|done].
    intros (o2 & e2 & Hr & H)%run_bind_Ok. cbn in Hr. injection Hr as Hr <-.
    apply run_bind_Ok in H as ([] & e3 & Hc & H). apply (run_lift_Ok epoch) in Hc as [Hc%raise_if_Ok ->].
    apply (run_lift_Ok epoch) in H as [Ho ->]. apply Ok_inj in Ho as <-. apply negb_false_iff, bool_decide_eq_true in Hc.
    split; [done|]. split; [by eapply head_of_versions|done].
Qed.

(** A head write. *)
Definition writes (k : pystr) (b : list N) (p : prog C Object) : Prop := ∀ e r e', faultless e → run p e = (r, e') →
  match r with
  | Ok o => onward e e' ∧ o = new_object (e_store e) k b ∧ e_store e' = snd (_append (e_store e) k b)
  | Err x => isinst x OutcomeUnknownError = false
  end.

Lemma writes_create k b : writes k b (await (CCreate k b)).
Proof.
  intros e [o|x] e' He H; [by apply (run_create_Ok epoch)|]. by apply (run_create_Err epoch) in H as [_ H].
Qed.

Lemma writes_swap k t b : writes k b (await (CSwap k t b)).
Proof.
  intros e [o|x] e' He H; [by apply (run_swap_Ok epoch) in H|]. destruct He as [Hf Hw]. cbn in H. rewrite Hf in H. cbn in H.
  destruct (Memory.compare_and_swap_object () (e_store e) k t b) as [r s] eqn:E. injection H as -> _.
  unfold Memory.compare_and_swap_object in E.
  destruct (validate_object_key k ≫= λ _, _validate_contents b) as [[]|y] eqn:Hv.
  - destruct (last _) as [c|]; [|by injection E as <- _]. destruct (_ && _); [done|by injection E as <- _].
  - injection E as <- _. apply bind_Err in Hv as [Hv|([] & _ & Hv)].
    + unfold validate_object_key in Hv. by apply raise_if_Err in Hv as [_ ->].
    + unfold _validate_contents in Hv. by apply raise_if_Err in Hv as [_ ->].
Qed.

Lemma settle_Ok (b : list N) (p : prog C Object) (e e' : environment) u : writes (head_key path) b p → faultless e →
  run (settle_write path b p) e = (Ok u, e') →
  onward e e' ∧ last (versions (e_store e') (head_key path)) = Some (new_object (e_store e) (head_key path) b).
Proof.
  intros Hp He. unfold settle_write. rewrite run_catch, run_bind. destruct (run p e) as [[o|x] e1] eqn:E.
  - cbn. intros [= _ <-]. destruct (Hp e _ e1 He E) as (Hon & -> & Hs). split; [done|].
    rewrite Hs, versions_append, decide_True by done. by rewrite last_snoc.
  - rewrite (Hp e _ e1 He E). by intros [= _ _].
Qed.

Lemma hexdigest_matches b : sha_hex_match (Sha256.hexdigest b) = true.
Proof.
  unfold sha_hex_match. rewrite Sha256.hexdigest_length, Nat.eqb_refl, andb_true_r. apply Sha1.Sha1.hex_bytes_is_hex.
  unfold Sha256.Sha256.sha256. cbv zeta.
  match goal with |- Forall _ (flat_map _ ?l) => generalize l as ws end.
  induction ws as [|w ws IH]; [constructor|]. cbn [flat_map]. apply Forall_app. split; [apply Sha1.Sha1.be_byte|done].
Qed.

(** The head that [_connection_record_wire] builds for a READY connection passes the checks of its
    readers. *)
Lemma ready_record revision fence expires auth r_key r_version r_digest d o :
  _connection_record_wire repr scope key revision (JInt fence) "READY" expires (JStr auth)
    (Some (reference_of r_key r_version r_digest)) None = Ok d →
  (0 < revision)%Z → (0 < fence)%Z → starts_with (path ++ "/") r_key = true → truthy r_version = true →
  sha_hex_match r_digest = true → truthy (o_version o) = true → truthy (o_etag o) = true →
  loads_bytes (o_contents o) = Ok (JObj d) →
  validate_head repr fromisoformat scope key path o = Ok d ∧
  get "credential" d = JObj (reference_of r_key r_version r_digest) ∧
  (∃ ex, expiry_wire expires = Ok ex ∧ get "expiresAt" d = default JNull ex) ∧
  get "revision" d = JInt revision ∧ get "status" d = JStr "READY" ∧ get_or "authMethod" (JStr []) d = JStr auth.
Proof.
  intros Hw Hrev Hfence Hkey Hver Hdig Hov Hoe Hload. unfold _connection_record_wire in Hw.
  apply bind_Ok in Hw as (sc & Hsc & Hw). apply bind_Ok in Hw as (ex & Hex & Hw). cbn [mbind result_bind] in Hw.
  apply bind_Ok in Hw as (rw & Hrw & Hw). apply Ok_inj in Hw.
  assert (rw = Some (JObj (reference_of r_key r_version r_digest))) as -> by (by apply Ok_inj in Hrw).
  assert (Hpsc : plain sc = true).
  { unfold Scope.to_wire in Hsc. apply bind_Ok in Hsc as (? & _ & Hs). by apply Ok_inj in Hs as <-. }
  assert (Hgets : get "schemaVersion" d = JStr CONNECTION_SCHEMA_VERSION ∧ get "scope" d = sc ∧
            get "connection" d = ConnectionKey.to_wire key ∧ get "revision" d = JInt revision ∧
            get "fence" d = JInt fence ∧ get "status" d = JStr "READY" ∧
            get "credential" d = JObj (reference_of r_key r_version r_digest) ∧ get "mutation" d = JNull ∧
            get "expiresAt" d = default JNull ex ∧ get_or "authMethod" (JStr []) d = JStr auth ∧
            keys_within d record_fields = true).
  { rewrite <- Hw. destruct ex; repeat split; reflexivity. }
  destruct Hgets as (G1 & G2 & G3 & G4 & G5 & G6 & G7 & G8 & G9 & G10 & G11).
  split; [|by split_and!; eauto].
  unfold validate_head. rewrite Hload. cbn [mbind result_bind require_object]. rewrite Hsc. cbn [mbind result_bind].
  unfold status_is. rewrite G1, G2, G3, G4, G5, G6, G7, G8, G11, Hov, Hoe, (py_eq_plain sc Hpsc), (py_eq_plain (ConnectionKey.to_wire key) eq_refl).
  cbn [int_value negb orb]. rewrite (proj2 (Z.ltb_lt _ _) Hrev), (proj2 (Z.ltb_lt _ _) Hfence).
  assert (Hr : reference_invalid repr path (reference_of r_key r_version r_digest) = false).
  { unfold reference_invalid. set (r := reference_of r_key r_version r_digest).
    change (get_or "key" (JStr []) r) with (JStr r_key). change (get "version" r) with (JStr r_version).
    change (get "digest" r) with (JStr r_digest). cbn [py_str]. by rewrite Hkey, Hver, Hdig. }
  cbn [is_null]. cbn [mbind result_bind require_object]. rewrite Hr. vm_compute. reflexivity.
Qed.

Lemma validated_positive o d : validate_head repr fromisoformat scope key path o = Ok d →
  (0 < num_int (get "revision" d))%Z ∧ (0 < num_int (get "fence" d))%Z.
Proof.
  unfold validate_head. intros (v & _ & H)%bind_Ok. apply bind_Ok in H as (r & _ & H). apply bind_Ok in H as (sc & _ & H).
  destruct (_ || _) eqn:Hc; [done|]. apply bind_Ok in H as (u & _ & H). destruct u; [done|].
  apply bind_Ok in H as (? & _ & H). apply bind_Ok in H as (? & _ & H). apply bind_Ok in H as (? & _ & H).
  apply bind_Ok in H as (? & _ & H). apply Ok_inj in H as ->. apply orb_false_iff in Hc as [Hc Hf%negb_false_iff].
  apply orb_false_iff in Hc as [_ Hr%negb_false_iff]. unfold num_int.
  destruct (int_value (get "revision" d)) as [n|], (int_value (get "fence" d)) as [f|]; try done. cbn [default].
  by apply Z.ltb_lt in Hr, Hf.
Qed.

(** Reading the head changes nothing. *)
Lemma read_record_run (e : environment) r e' : run (_read_record repr fromisoformat scope key) e = (r, e') →
  e' = e ∧ ∀ d o, r = Ok (d, o) → validate_head repr fromisoformat scope key path o = Ok d.
Proof using Hpath.
  unfold _read_record. rewrite Hpath. cbn. destruct (Memory.read_object (e_store e) (head_key path) []) as [o|x].
  - destruct (validate_head repr fromisoformat scope key path o) as [d|x] eqn:E; intros [= <- <-]; (split; [done|]); [|done].
    intros d' o' H. apply Ok_inj in H. injection H as <- <-. exact E.
  - intros [= <- <-]. done.
Qed.

Lemma read_replaced_run (e : environment) expected rev f h e' :
  run (read_replaced repr fromisoformat scope key expected) e = (Ok (rev, f, h), e') →
  e' = e ∧ (0 <= rev)%Z ∧ (0 <= f)%Z.
Proof using Hpath.
  unfold read_replaced. rewrite run_catch, run_bind.
  destruct (run (_read_record repr fromisoformat scope key) e) as [[[d o]|x] e1] eqn:E;
    apply read_record_run in E as [-> Hval].
  - intros H. apply (run_lift_Ok epoch) in H as [H ->]. apply Ok_inj in H. injection H as <- <- _.
    pose proof (validated_positive o d (Hval d o eq_refl)) as [Hr Hf]. cbn [fst]. split_and!; [done|lia|lia].
  - destruct (_ && _); [|done]. intros H. apply (run_lift_Ok epoch) in H as [H ->]. apply Ok_inj in H. injection H as <- <- _. done.
Qed.

(** The envelope that was stored passes the checks of a reader. *)
Lemma envelope_checked fence material contents attempt envelope d o :
  _credential_envelope_wire scope key fence (credentials material) (m_expires_at material) (auth_method material)
    attempt = Ok envelope →
  go_canonical_json_bytes (JObj envelope) = Ok contents → plain (JObj (credentials material)) = true →
  (∃ ex, expiry_wire (m_expires_at material) = Ok ex ∧ get "expiresAt" d = default JNull ex) →
  o_contents o = contents →
  check_envelope scope key (JStr (auth_method material)) (get "expiresAt" d) (JStr (Sha256.hexdigest contents)) o
    = Ok envelope ∧
  get "credentials" envelope = JObj (credentials material) ∧ get "expiresAt" envelope = get "expiresAt" d.
Proof.
  intros He Hb Hp (ex & Hex & Hd) <-. unfold _credential_envelope_wire in He.
  apply bind_Ok in He as (sc & Hsc & He). rewrite Hex in He. cbn [mbind result_bind] in He. apply Ok_inj in He.
  assert (Hpsc : plain sc = true).
  { unfold Scope.to_wire in Hsc. apply bind_Ok in Hsc as (? & _ & Hs). by apply Ok_inj in Hs as <-. }
  assert (Hpex : plain (default JNull ex) = true).
  { destruct (m_expires_at material); cbn [expiry_wire] in Hex; [|by apply Ok_inj in Hex as <-].
    apply bind_Ok in Hex as (? & _ & Hx). by apply Ok_inj in Hx as <-. }
  assert (Hgets : get "schemaVersion" envelope = JStr CONNECTION_SCHEMA_VERSION ∧ get "scope" envelope = sc ∧
            get "connection" envelope = ConnectionKey.to_wire key ∧
            get "authMethod" envelope = JStr (auth_method material) ∧
            get "expiresAt" envelope = default JNull ex ∧
            get "credentials" envelope = JObj (credentials material) ∧ plain (JObj envelope) = true).
  { rewrite <- He. destruct attempt, ex as [ex|]; cbn [truthy optional_member]; repeat split; try reflexivity;
      cbn [app plain forallb snd default] in *; unfold id in *; rewrite ?Hpsc, ?Hp, ?Hpex; vm_compute; reflexivity. }
  destruct Hgets as (G1 & G2 & G3 & G4 & G5 & G6 & G7). rewrite Hd, G5, G6. split; [|done].
  assert (Hload : loads_bytes (o_contents o) = Ok (JObj envelope)) by (by apply bytes_read).
  unfold check_envelope. cbn [py_eq num_value]. rewrite bool_decide_eq_true_2 by done. cbn [negb raise_if mbind result_bind].
  rewrite Hload. cbn [mbind result_bind require_object]. rewrite Hsc. cbn [mbind result_bind].
  rewrite G1, G2, G3, G4, G5, (py_eq_plain _ Hpsc), (py_eq_plain _ Hpex), (py_eq_plain (ConnectionKey.to_wire key) eq_refl),
    (py_eq_plain (JStr (auth_method material)) eq_refl).
  vm_compute. reflexivity.
Qed.

(** The material a reader is given: the expiry in its canonical form. *)
Definition read_back (material : CredentialMaterial) (expiry : json) : res CredentialMaterial :=
  expires ← match expiry with
            | JNull => Ok None
            | e => t ← GoTime.from_wire (py_str repr e); Ok (Some (GoTime.TNano t))
            end;
  Ok (mkMaterial (credentials material) expires (auth_method material)).

(** Reading a head whose record and envelope are known. *)
Lemma read_material_run (e : environment) head d conn k v o digest envelope material :
  Memory.read_object (e_store e) (head_key path) [] = Ok head →
  validate_head repr fromisoformat scope key path head = Ok d →
  _connection repr fromisoformat scope key d = Ok conn → cn_status conn = lit "READY" →
  get "credential" d = JObj (reference_of k v digest) → Memory.read_object (e_store e) k v = Ok o →
  cn_auth_method conn = auth_method material →
  check_envelope scope key (JStr (auth_method material)) (get "expiresAt" d) (JStr digest) o = Ok envelope →
  get "credentials" envelope = JObj (credentials material) → get "expiresAt" envelope = get "expiresAt" d →
  run (read_credential_material repr fromisoformat scope key) e =
    ((m ← read_back material (get "expiresAt" d); Ok (m, conn)), e).
Proof using Hpath.
  intros Hhead Hval Hconn Hst Hcred Ho Hauth Hcheck Hc Hex. unfold read_credential_material, _read_record.
  rewrite Hpath. cbn -[Memory.read_object check_envelope validate_head _connection bool_decide lit]. rewrite Hhead. cbn -[Memory.read_object check_envelope validate_head _connection bool_decide lit]. rewrite Hval. cbn -[Memory.read_object check_envelope validate_head _connection bool_decide lit]. rewrite Hconn. cbn -[Memory.read_object check_envelope validate_head _connection bool_decide lit].
  rewrite Hst, bool_decide_eq_true_2 by done. cbn -[Memory.read_object check_envelope validate_head _connection bool_decide lit]. rewrite Hcred. cbn -[Memory.read_object check_envelope validate_head _connection bool_decide lit item].
  change (item "key" (reference_of k v digest)) with (Ok (E:=exn) (JStr k)).
  change (item "version" (reference_of k v digest)) with (Ok (E:=exn) (JStr v)).
  change (item "digest" (reference_of k v digest)) with (Ok (E:=exn) (JStr digest)).
  cbn -[Memory.read_object check_envelope validate_head _connection bool_decide lit item]. rewrite Ho. cbn -[Memory.read_object check_envelope validate_head _connection bool_decide lit]. rewrite Hauth, Hcheck. cbn -[Memory.read_object check_envelope validate_head _connection bool_decide lit].
  rewrite Hc. cbn. rewrite Hex. unfold read_back. destruct (get "expiresAt" d); cbn [py_str];
    try (destruct (GoTime.from_wire _)); reflexivity.
Qed.

(** The store holds a READY head of the connection and the credential object it refers to. *)
Definition holds_material (s : Memory.store) (material : CredentialMaterial) (conn : Connection) : Prop :=
  ∃ head d k v o digest envelope ex,
    Memory.read_object s (head_key path) [] = Ok head ∧ validate_head repr fromisoformat scope key path head = Ok d ∧
    _connection repr fromisoformat scope key d = Ok conn ∧ cn_status conn = lit "READY" ∧
    cn_auth_method conn = auth_method material ∧ get "credential" d = JObj (reference_of k v digest) ∧
    starts_with (path ++ "/") k = true ∧ Memory.read_object s k v = Ok o ∧
    check_envelope scope key (JStr (auth_method material)) (get "expiresAt" d) (JStr digest) o = Ok envelope ∧
    get "credentials" envelope = JObj (credentials material) ∧ get "expiresAt" envelope = get "expiresAt" d ∧
    expiry_wire (m_expires_at material) = Ok ex ∧ get "expiresAt" d = default JNull ex.

Lemma material_read (material : CredentialMaterial) (conn : Connection) (e : environment) : holds_material (e_store e) material conn →
  ∃ ex, expiry_wire (m_expires_at material) = Ok ex ∧
    run (read_credential_material repr fromisoformat scope key) e =
      ((m ← read_back material (default JNull ex); Ok (m, conn)), e).
Proof using Hpath.
  intros (head & d & k & v & o & digest & envelope & ex & H1 & H2 & H3 & H4 & H5 & H6 & _ & H7 & H8 & H9 & H10 & Hex & Hd).
  exists ex. split; [done|]. rewrite <- Hd. by eapply read_material_run.
Qed.

(** Only the objects under the path of the connection matter. *)
Lemma material_frame (material : CredentialMaterial) (conn : Connection) (s s' : Memory.store) :
  (∀ k, starts_with (path ++ "/") k = true → versions s' k = versions s k) →
  holds_material s material conn → holds_material s' material conn.
Proof.
  intros Hf (head & d & k & v & o & digest & envelope & ex & H1 & H2 & H3 & H4 & H5 & H6 & Hk & H7 & H).
  assert (Hr : ∀ k v, starts_with (path ++ "/") k = true → Memory.read_object s' k v = Memory.read_object s k v).
  { intros k' v' Hk'. pose proof (Hf k' Hk') as Hv. unfold Memory.read_object. by rewrite Hv. }
  exists head, d, k, v, o, digest, envelope, ex. split_and!; try tauto; [|by rewrite Hr].
  rewrite Hr; [done|]. unfold head_key.
  replace (path ++ "/head") with ((path ++ "/") ++ "head") by (rewrite <- app_assoc; reflexivity). apply starts_with_app.
Qed.

(** What a replacement leaves in the store. *)
Lemma replace_stores (expected : Z) (material : CredentialMaterial) (e e' : environment) (conn : Connection) :
  faultless e → plain (JObj (credentials material)) = true →
  run (replace_credential repr fromisoformat scope key expected material) e = (Ok conn, e') →
  cn_revision conn = JInt (expected + 1) ∧ holds_material (e_store e') material conn ∧ onward e e'.
Proof using Hpath.
  intros He Hplain Hrun. unfold replace_credential in Hrun.
  apply run_bind_Ok in Hrun as ([] & e0 & H0 & Hrun). apply (run_lift_Ok epoch) in H0 as [_ ->].
  apply run_bind_Ok in Hrun as (p & e0 & H0 & Hrun). apply (run_lift_Ok epoch) in H0 as [Hp ->].
  rewrite Hpath in Hp. injection Hp as <-.
  apply run_bind_Ok in Hrun as ([[rev f] found] & e0 & H0 & Hrun). apply read_replaced_run in H0 as (-> & Hrev & Hf).
  apply run_bind_Ok in Hrun as ([] & e0 & H0 & Hrun). apply (run_lift_Ok epoch) in H0 as [Heq%raise_if_Ok ->].
  apply negb_false_iff, Z.eqb_eq in Heq. subst rev. cbv zeta in Hrun.
  apply run_bind_Ok in Hrun as (envelope & e0 & H0 & Hrun). apply (run_lift_Ok epoch) in H0 as [Henv ->].
  apply run_bind_Ok in Hrun as (contents & e0 & H0 & Hrun). apply (run_lift_Ok epoch) in H0 as [Hcon ->].
  apply run_bind_Ok in Hrun as (o & e1 & H0 & Hrun). apply create_or_read_Ok in H0 as (Hon1 & Ho & Hoc); [|done].
  apply run_bind_Ok in Hrun as (d & e0 & H0 & Hrun). apply (run_lift_Ok epoch) in H0 as [Hd ->].
  apply run_bind_Ok in Hrun as (bytes & e0 & H0 & Hrun). apply (run_lift_Ok epoch) in H0 as [Hbytes ->].
  apply run_bind_Ok in Hrun as (u & e2 & H0 & Hrun). apply (run_lift_Ok epoch) in Hrun as [Hconn ->].
  apply (settle_Ok bytes) in H0 as [Hon2 Hlast]; [|destruct found; [apply writes_swap|apply writes_create]|apply Hon1].
  pose proof Hon2 as [[_ Hwf2] Hext].
  set (k := path ++ "/credentials/" ++ Sha256.hexdigest contents) in *.
  assert (Ho2 : o ∈ versions (e_store e2) k) by (destruct (Hext k) as [more ->]; apply elem_of_app; by left).
  set (head := new_object (e_store e1) (head_key path) bytes) in *.
  assert (Hread : Memory.read_object (e_store e2) (head_key path) [] = Ok head).
  { pose proof (head_of_last (e_store e2) (head_key path) Hwf2) as H. rewrite Hlast in H. unfold head_of in H. cbn in H.
    destruct (Memory.read_object _ _ _); [|done]. by injection H as ->. }
  assert (Hver : truthy (o_version o) = true).
  { apply list_elem_of_lookup in Ho2 as [i Hi]. destruct (versions_stored _ _ _ _ Hwf2 Hi) as (_ & -> & _).
    unfold version_text. replace (Z.of_nat i + 1)%Z with (Z.pos (Pos.of_succ_nat i)) by lia. cbn [str_of_Z].
    by destruct (str_of_N_shape (N.pos (Pos.of_succ_nat i))) as (c & l & -> & _). }
  assert (Hload : loads_bytes (o_contents head) = Ok (JObj d)).
  { apply bytes_read; [|exact Hbytes]. eapply wd_plain. by eapply record_wired. }
  destruct (ready_record _ _ _ _ _ _ _ d head Hd) as (Hval & Hcred & Hexp & Hdrev & Hdst & Hdauth);
    [lia|lia| |exact Hver|apply hexdigest_matches| | |exact Hload|].
  { unfold k. replace (path ++ "/credentials/" ++ Sha256.hexdigest contents)
      with ((path ++ "/") ++ "credentials/" ++ Sha256.hexdigest contents) by (rewrite <- !app_assoc; reflexivity).
    apply starts_with_app. }
  { apply new_object_named. }
  { apply new_object_named. }
  assert (Hst : cn_status conn = lit "READY" ∧ cn_auth_method conn = auth_method material ∧
            cn_revision conn = JInt (expected + 1)).
  { unfold _connection in Hconn. apply bind_Ok in Hconn as (t & _ & Hconn). apply Ok_inj in Hconn as <-.
    cbn [cn_status cn_auth_method cn_revision]. by rewrite Hdst, Hdauth, Hdrev. }
  destruct Hst as (Hst & Hauth & Hcrev). split; [done|]. split; [|by eapply onward_trans].
  destruct (envelope_checked _ _ contents _ envelope d o Henv Hcon Hplain Hexp Hoc) as (Hcheck & Hec & Hee).
  pose proof Hexp as (ex & Hex & Hdex).
  exists head, d, k, (o_version o), o, (Sha256.hexdigest contents), envelope, ex.
  split_and!; try done; [|by apply read_stored].
  unfold k. replace (path ++ "/credentials/" ++ Sha256.hexdigest contents)
    with ((path ++ "/") ++ "credentials/" ++ Sha256.hexdigest contents) by (rewrite <- !app_assoc; reflexivity).
  apply starts_with_app.
Qed.

(** The expiry a reader gets for the one that was stored: none for none, the same preserved timestamp,
    and for a datetime the timestamp that formats it, which converts back to it exactly whenever the
    datetime can be constructed and its offset has whole minutes. *)
Definition same_expiry (stored read : option GoTime.timestamp) : Prop :=
  match stored, read with
  | None, None => True
  | Some (GoTime.TNano t), Some (GoTime.TNano t') => t' = t
  | Some (GoTime.TDate d), Some (GoTime.TNano t) =>
      GoTime.from_datetime d = Ok t ∧ ∀ off, GoTime.datetime_ok d off → GoTime.parsed t = Ok d
  | _, _ => False
  end.

(** What an RFC3339NanoTimestamp holds when it was read from text. *)
Definition preserved (stored : option GoTime.timestamp) : Prop :=
  ∀ t, stored = Some (GoTime.TNano t) → ∃ text, GoTime.from_wire text = Ok t.

Lemma expiry_read_back (material : CredentialMaterial) ex : preserved (m_expires_at material) →
  expiry_wire (m_expires_at material) = Ok ex →
  ∃ expires, same_expiry (m_expires_at material) expires ∧
    read_back material (default JNull ex) = Ok (mkMaterial (credentials material) expires (auth_method material)).
Proof.
  unfold preserved, read_back. destruct (m_expires_at material) as [[t|d]|]; cbn [expiry_wire GoTime.format_rfc3339_nano].
  - intros (text & Ht%GoTime.from_wire_canonical)%(λ H, H t eq_refl) Hex. apply Ok_inj in Hex as <-.
    cbn [default from_option id py_str]. rewrite Ht. by exists (Some (GoTime.TNano t)).
  - intros _ Hex. destruct (GoTime.from_datetime d) as [t|x] eqn:Hd; [|done]. apply Ok_inj in Hex as <-.
    assert (Ht : GoTime.from_wire (GoTime.wire t) = Ok t).
    { unfold GoTime.from_datetime in Hd. destruct (GoTime.dt_offset d); [|done]. by eapply GoTime.from_wire_canonical. }
    cbn [default from_option id py_str]. rewrite Ht. exists (Some (GoTime.TNano t)). split; [|done]. split; [done|].
    intros off (t' & Ht' & Hp)%GoTime.from_datetime_parsed. congruence.
  - intros _ Hex. apply Ok_inj in Hex as <-. by exists None.
Qed.

(** C9: a credential that [replace_credential] has stored is the one that [read_credential_material]
    returns next: the read succeeds and gives, under the connection that the replacement reported (the
    next revision, READY), the same private material and method, and the expiry it was given, to the
    nanosecond or the datetime's microsecond ([same_expiry]).  The storage has no faults and nobody writes
    in between.  Material with floats is outside, as their decimal form is not read back by value here. *)
Theorem replace_then_read (expected : Z) (material : CredentialMaterial) (e e' : environment) (conn : Connection) :
  faultless e → plain (JObj (credentials material)) = true → preserved (m_expires_at material) →
  run (replace_credential repr fromisoformat scope key expected material) e = (Ok conn, e') →
  cn_revision conn = JInt (expected + 1) ∧ cn_status conn = lit "READY" ∧ cn_auth_method conn = auth_method material ∧
  ∃ expires, same_expiry (m_expires_at material) expires ∧
    run (read_credential_material repr fromisoformat scope key) e' =
      (Ok (mkMaterial (credentials material) expires (auth_method material), conn), e').
Proof using Hpath.
  intros He Hplain Hpres Hrun. apply replace_stores in Hrun as (Hrev & Hst & _); [|done..].
  pose proof Hst as (? & ? & ? & ? & ? & ? & ? & ? & _ & _ & _ & Hs & Ha & _).
  split_and!; [done..|]. destruct (material_read material conn e' Hst) as (ex & Hex & Hr).
  destruct (expiry_read_back material ex Hpres Hex) as (expires & Hsame & Hb). exists expires. split; [done|].
  by rewrite Hr, Hb.
Qed.

End Store.

(** A first credential, stored and read back. *)
Lemma sample_replaced :
  match fst (run NoFault (Sample.day 1) (Sample.replace (Sample.material "2026-01-02T00:00:00Z")) (Sample.start [])) with
  | Ok _ => true | Err _ => false end = true.
Proof. vm_compute. reflexivity. Qed.

Lemma replace_then_read_witness :
  ∃ conn e', run NoFault (Sample.day 1) (Sample.replace (Sample.material "2026-01-02T00:00:00Z")) (Sample.start [])
               = (Ok conn, e') ∧
    run NoFault (Sample.day 1) (read_credential_material Sample.no_repr GoTime.fromisoformat Sample.scope Sample.key) e'
      = (Ok (Sample.material "2026-01-02T00:00:00Z", conn), e').
Proof.
  pose proof sample_replaced as Hok.
  destruct (run NoFault (Sample.day 1) (Sample.replace (Sample.material "2026-01-02T00:00:00Z")) (Sample.start []))
    as [[conn|x] e'] eqn:E; [|discriminate Hok].
  exists conn, e'. split; [reflexivity|].
  destruct (replace_then_read Sample.no_repr GoTime.fromisoformat Sample.scope Sample.key Sample.path Sample.path_ok
              (Sample.day 1) 0 (Sample.material "2026-01-02T00:00:00Z") (Sample.start []) e' conn) as (_ & _ & _ & expires & Hsame & Hr).
  - split; [reflexivity|]. intros k vs H. change ((∅ : Memory.store) !! k = Some vs) in H. by rewrite lookup_empty in H.
  - reflexivity.
  - intros t Ht. exists (lit "2026-01-02T00:00:00Z"). vm_compute in Ht. injection Ht as <-. vm_compute. reflexivity.
  - exact E.
  - rewrite Hr. assert (He : m_expires_at (Sample.material "2026-01-02T00:00:00Z") =
      Some (GoTime.TNano (GoTime.Nano "2026-01-02T00:00:00Z"))) by (vm_compute; reflexivity).
    rewrite He in Hsame. destruct expires as [[t|d]|]; [|exact (False_ind _ Hsame)..]. cbn in Hsame. rewrite Hsame. vm_compute. reflexivity.
Defined.
