(* ===== verification/RefreshOutcomes.v ===== *)
(** * What becomes of an exchange

    Two ends of a credential exchange of
    sdkpython/src/dex_connectors/sdk/projectconfig/provider.py, executed without faults: the next
    process releases a connection whose exchange was abandoned, and the result of the manifest driver
    (oauthtoken/manifest_refresh.py) is refused when it carries no expiry. *)

From S2P Require Import Prelude Json JsonText Sha256 Timestamps Identity Calls Definitions OAuth StructuredOutput.
From S2P Require Import ProjectModels CanonicalJson ProviderHttp ManifestValues ManifestGrants JwtBearer ManifestRefresh ManifestFacts.
From S2P Require Import ProjectStorage StoreProgram ProjectConnections ProjectProvider CredentialRefresh ConnectionFacts.
Import Memory MemoryFacts Faulty FaultyFacts.

Module OutcomeFacts.

Section Runs.
Context (repr : json → pystr) (fromisoformat : pystr → res GoTime.datetime).
Context {C : Type} (decode : dict json → res C) (encode : C → res json).
Context (refresh_required : C → option GoTime.datetime → GoTime.datetime → bool).
Context (scope : Scope.t) (key : ConnectionKey.t) (path : pystr) (Hpath : ConnectionKey.path key scope = Ok path).
Context (epoch : GoTime.datetime).

Abbreviation environment := (env (C:=C) fault Memory.store).
Abbreviation run := (run NoFault epoch).
Abbreviation validated o d := (validate_head repr fromisoformat scope key path o = Ok d).
Abbreviation parse_expiry := (_parse_time fromisoformat).
Abbreviation record_wire := (_connection_record_wire repr scope key).

(** ** Runs that go through *)

(** The head of a connection: the last version of its object. *)
Definition head_is (s : Memory.store) (o : Object) : Prop :=
  validate_object_key (head_key path) = Ok () ∧ last (versions s (head_key path)) = Some o.

Lemma read_head s o : head_is s o → Memory.read_object s (head_key path) [] = Ok o.
Proof.
  intros [Hk Hl]. unfold Memory.read_object. rewrite Hk. cbn [mbind result_bind].
  change (λ o, negb (truthy []) || _) with (λ o : Object, true). rewrite find_all.
  destruct (versions s (head_key path)) as [|x vs] using rev_ind; [done|]. rewrite rev_app_distr. cbn [rev app head].
  rewrite last_snoc in Hl. by injection Hl as ->.
Qed.

Lemma run_read_record (e : environment) o d : head_is (e_store e) o → validated o d →
  run (_read_record repr fromisoformat scope key) e = (Ok (d, o), e).
Proof using Hpath.
  intros Ho Hv. unfold _read_record. rewrite Hpath. cbn -[Memory.read_object validate_head].
  rewrite (read_head _ _ Ho). cbn -[validate_head]. by rewrite Hv.
Qed.

(** A conditional write of the head that was read. *)
Lemma run_swap (e : environment) o b : e_faults e = [] → head_is (e_store e) o → truthy (o_etag o) = true →
  _validate_contents b = Ok () →
  run (await (CSwap (head_key path) (o_etag o) b)) e =
    (Ok (new_object (e_store e) (head_key path) b), with_store (snd (_append (e_store e) (head_key path) b)) e).
Proof.
  intros Hf [Hk Hl] He Hb. cbn. rewrite Hf. cbn [hd]. unfold disturb.
  change (ProjectStorage.compare_and_swap_object _ _ _ _ _) with
    (Memory.compare_and_swap_object () (e_store e) (head_key path) (o_etag o) b).
  unfold Memory.compare_and_swap_object. rewrite Hk. cbn [mbind result_bind]. rewrite Hb, Hl, He.
  by rewrite bool_decide_eq_true_2.
Qed.

Lemma run_write_head (e : environment) o d updated b : e_faults e = [] → head_is (e_store e) o → validated o d →
  plain (JObj d) = true → go_canonical_json_bytes (JObj updated) = Ok b → _validate_contents b = Ok () →
  run (_write_head repr fromisoformat scope key d updated) e =
    (Ok (), with_store (snd (_append (e_store e) (head_key path) b)) e).
Proof using Hpath.
  intros Hf Ho Hv Hp Hb Hc. unfold _write_head, key_path. rewrite Hpath. cbn [lift prog_bind].
  rewrite (run_then epoch _ _ e e (d, o)) by by apply run_read_record. cbn [fst snd].
  assert (Hdoc : loads_bytes (o_contents o) = Ok (JObj d) ∧ truthy (o_etag o) = true).
  { unfold validate_head in Hv. apply bind_Ok in Hv as (v & Hl & Hv). apply bind_Ok in Hv as (r & Hr & Hv).
    apply bind_Ok in Hv as (sc & _ & Hv). destruct (_ || _) eqn:Hc' in Hv; [done|].
    apply bind_Ok in Hv as (? & _ & Hv). destruct x; [done|]. repeat (apply bind_Ok in Hv as (? & _ & Hv)).
    apply Ok_inj in Hv as ->. destruct v; try done. apply Ok_inj in Hr as ->. split; [done|].
    by repeat (apply orb_false_iff in Hc' as [Hc' ?%negb_false_iff]). }
  destruct Hdoc as [Hload Htag]. rewrite Hload. cbn [lift prog_bind require_object].
  rewrite py_eq_plain by done. cbn [negb raise_if lift prog_bind]. rewrite Hb. cbn [lift prog_bind].
  unfold settle_write. rewrite run_catch, (run_then epoch _ _ e _ _ (run_swap e o b Hf Ho Htag Hc)). reflexivity.
Qed.

(** ** An abandoned exchange *)

(** The admission in a head in exchange, as an observer reads it. *)
Lemma observed_refresh o d m t : validated o d → status_is "REFRESHING" d = true → get "mutation" d = JObj m →
  parse_expiry (get "deadline" m) = Ok (Some t) →
  ∃ a id, observed_admission repr fromisoformat d = Ok a ∧ Admission.kind a = lit "REFRESHING" ∧ Admission.deadline a = t ∧
    get "id" m = JStr id ∧ Admission.result_key a = exchange_result_key path id ∧ _require_admission d a = Ok ().
Proof.
  intros Hv Hst Hm Ht. assert (Hboth : (status_is "REFRESHING" d || status_is "AUTHORIZING" d) = true) by by rewrite Hst.
  destruct (validated_mutation repr fromisoformat scope key path o d Hv Hboth) as (m' & id & Hm' & Hid & Hkey).
  rewrite Hm in Hm'. injection Hm' as <-. pose proof (py_eq_str _ _ Hst) as Hstatus.
  assert (Hitem : ∀ k v, get k m = v → v ≠ JNull → item k m = Ok v).
  { intros k v Hk Hn. unfold item. by rewrite (dget_get k m v Hk Hn). }
  assert (Hdl : get "deadline" m ≠ JNull) by (intros E; by rewrite E in Ht).
  exists (Admission.mk (lit "REFRESHING") id (num_int (get "fence" d)) t (exchange_result_key path id)), id.
  assert (Hobs : observed_admission repr fromisoformat d = Ok (Admission.mk (lit "REFRESHING") id (num_int (get "fence" d)) t
            (exchange_result_key path id))).
  { unfold observed_admission. rewrite Hm. cbn [require_object mbind result_bind].
    rewrite (Hitem _ _ Hid) by done. cbn [mbind result_bind]. rewrite (Hitem _ _ eq_refl Hdl). cbn [mbind result_bind].
    rewrite Ht. cbn [mbind result_bind]. rewrite (Hitem _ _ Hkey) by done. cbn [mbind result_bind Definitions.py_str default].
    by rewrite Hstatus. }
  do 5 (split; [done|]). unfold _require_admission. cbn [Admission.kind Admission.fence Admission.attempt_id]. rewrite Hst, Hm, Hid.
  assert (Hf : py_eq (get "fence" d) (JInt (num_int (get "fence" d))) = true ∧ py_eq (get "kind" m) (JStr (lit "REFRESHING")) = true).
  { unfold validate_head in Hv. apply bind_Ok in Hv as (v & _ & Hv). apply bind_Ok in Hv as (r & _ & Hv).
    apply bind_Ok in Hv as (sc & _ & Hv). destruct (_ || _) eqn:Hc in Hv; [done|].
    apply bind_Ok in Hv as (x & _ & Hv). destruct x; [done|]. apply bind_Ok in Hv as (? & _ & Hv).
    apply bind_Ok in Hv as (? & _ & Hv). apply bind_Ok in Hv as (? & _ & Hv). apply bind_Ok in Hv as (? & Hmut & Hv).
    apply Ok_inj in Hv as ->. apply orb_false_iff in Hc as [_ Hfence%negb_false_iff]. split.
    - unfold num_int. destruct (get "fence" d) as [|b|z| | | |]; try done; cbn [int_value default] in *;
        [by destruct b|exact (py_eq_plain (JInt z) eq_refl)].
    - rewrite Hboth, Hm in Hmut. apply bind_Ok in Hmut as (bad & Hbad & Hb%raise_if_Ok). subst bad.
      unfold mutation_invalid in Hbad. rewrite Hid in Hbad. destruct (_ || _) eqn:Hc in Hbad; [done|].
      repeat (apply orb_false_iff in Hc as [Hc ?%negb_false_iff]).
      assert (Hk : py_eq (get "kind" m) (get "status" d) = true) by assumption. rewrite Hstatus in Hk. exact Hk. }
  destruct Hf as [-> ->]. cbn [py_eq num_value]. by rewrite !bool_decide_eq_true_2.
Qed.

Context (e : environment) (o : Object) (d m : dict json) (t : GoTime.datetime) (id r_key r_version r_digest auth : pystr).
Context (expires : option GoTime.datetime) (updated : dict json) (b : list N).

(** A connection in the middle of a refresh nobody runs any more: its head is the last version of its
    object, the deadline of the admission is [t], and no result has been stored. *)
Record abandoned : Prop := {
  ab_faults : e_faults e = [];
  ab_head : head_is (e_store e) o;
  ab_valid : validated o d;
  ab_plain : plain (JObj d) = true;
  ab_status : status_is "REFRESHING" d = true;
  ab_mutation : get "mutation" d = JObj m ∧ get "id" m = JStr id ∧ parse_expiry (get "deadline" m) = Ok (Some t);
  ab_credential : get "credential" d = JObj (reference_of r_key r_version r_digest);
  ab_no_result : Memory.read_object (e_store e) (exchange_result_key path id) [] = Err not_found;
  ab_late : dt_lt (hd epoch (e_clock e)) t = Ok false
}.

(** The READY head that keeps the credential, and the bytes it is written as. *)
Record releasable : Prop := {
  re_expires : parse_expiry (get "expiresAt" d) = Ok expires;
  re_auth : item "authMethod" d = Ok (JStr auth);
  re_record : record_wire (num_int (get "revision" d) + 1) (JInt (num_int (get "fence" d) + 1)) "READY"
                (GoTime.TDate <$> expires) (JStr auth) (Some (reference_of r_key r_version r_digest)) None = Ok updated;
  re_bytes : go_canonical_json_bytes (JObj updated) = Ok b;
  re_size : _validate_contents b = Ok ()
}.

Lemma run_finish (e1 : environment) a : abandoned → releasable → e_faults e1 = [] → e_store e1 = e_store e →
  _require_admission d a = Ok () →
  run (_finish_exchange repr fromisoformat scope key a "READY") e1 =
    (Ok (), with_store (snd (_append (e_store e) (head_key path) b)) e1).
Proof using Hpath.
  intros Ha Hr Hf Hs Hreq. unfold _finish_exchange.
  rewrite (run_then epoch _ _ e1 e1 (d, o)) by (apply run_read_record; [rewrite Hs; apply Ha|apply Ha]). cbn [fst snd].
  rewrite Hreq. cbn [lift prog_bind]. rewrite (re_expires Hr). cbn [lift prog_bind]. rewrite (re_auth Hr). cbn [lift prog_bind].
  rewrite (ab_credential Ha). cbn [is_null require_object mbind result_bind lift prog_bind Definitions.py_str].
  rewrite (re_record Hr). cbn [lift prog_bind]. rewrite <- Hs.
  apply run_write_head with (o := o); [done|rewrite Hs; apply Ha|apply Ha|apply Ha|apply Hr|apply Hr].
Qed.

Lemma run_release : abandoned → releasable →
  ∃ e', run (resolve_round repr fromisoformat decode encode scope key refresh_required) e = (Ok None, e') ∧
    e_store e' = snd (_append (e_store e) (head_key path) b) ∧ e_dispatched e' = e_dispatched e.
Proof using Hpath.
  intros Ha Hr. destruct (ab_mutation Ha) as (Hm & Hid & Ht).
  destruct (observed_refresh o d m t (ab_valid Ha) (ab_status Ha) Hm Ht) as (a & id' & Hobs & Hkind & Hdl & Hid' & Hkey & Hreq).
  rewrite Hid in Hid'. injection Hid' as <-. pose proof (py_eq_str _ _ (ab_status Ha)) as Hstatus.
  unfold resolve_round. rewrite (run_then epoch _ _ e e (d, o)) by (apply run_read_record; apply Ha). cbn [fst snd].
  assert (Hs : ∀ s, status_is s d = bool_decide (lit "REFRESHING" = s)) by (intros s; unfold status_is; by rewrite Hstatus).
  rewrite !Hs. rewrite (bool_decide_eq_false_2 (lit "REFRESHING" = lit "REVOKED")) by done.
  rewrite (bool_decide_eq_false_2 (lit "REFRESHING" = lit "REAUTHORIZATION_REQUIRED")) by done.
  rewrite (bool_decide_eq_false_2 (lit "REFRESHING" = lit "AUTHORIZING")) by done.
  rewrite (bool_decide_eq_true_2 (lit "REFRESHING" = lit "REFRESHING")) by done. cbn [orb].
  unfold or_continue, _recover_or_wait. rewrite Hobs. cbn [lift prog_bind]. rewrite run_bind, run_catch, run_bind, run_bind, run_catch, run_bind.
  rewrite Hkey. cbn -[hd Memory.read_object dt_lt _finish_exchange]. rewrite (ab_no_result Ha).
  change (isinst not_found ObjectNotFoundError) with true. cbn -[hd Memory.read_object dt_lt _finish_exchange bool_decide lit]. rewrite Hdl, (ab_late Ha).
  cbn -[Memory.read_object _finish_exchange bool_decide lit]. rewrite Hkind.
  rewrite (bool_decide_eq_false_2 (lit "REFRESHING" = lit "AUTHORIZING")) by done.
  set (e1 := mkEnv _ _ _ _ _ _).
  rewrite (run_finish e1 a Ha Hr (ab_faults Ha) eq_refl Hreq). cbn. by eexists.
Qed.

(** The credential reference of a head names an object of the connection. *)
Lemma validated_reference : validated o d → get "credential" d = JObj (reference_of r_key r_version r_digest) →
  starts_with (path ++ "/") r_key = true ∧ truthy r_version = true ∧ sha_hex_match r_digest = true.
Proof.
  intros H Hc. unfold validate_head in H. apply bind_Ok in H as (v & _ & H). apply bind_Ok in H as (r & _ & H).
  apply bind_Ok in H as (sc & _ & H). destruct (_ || _); [done|]. apply bind_Ok in H as (u & _ & H). destruct u; [done|].
  apply bind_Ok in H as (? & _ & H). apply bind_Ok in H as (? & _ & H). apply bind_Ok in H as (? & Href & H).
  apply bind_Ok in H as (? & _ & H). apply Ok_inj in H as ->. rewrite Hc in Href. cbn [is_null require_object mbind result_bind] in Href.
  apply raise_if_Ok in Href. unfold reference_invalid in Href.
  change (get_or "key" (JStr []) (reference_of r_key r_version r_digest)) with (JStr r_key) in Href.
  change (get "version" (reference_of r_key r_version r_digest)) with (JStr r_version) in Href.
  change (get "digest" (reference_of r_key r_version r_digest)) with (JStr r_digest) in Href. cbn [Definitions.py_str] in Href.
  by apply orb_false_iff in Href as [[?%negb_false_iff ?%negb_false_iff]%orb_false_iff ?%negb_false_iff].
Qed.

(** C6: an exchange that nobody runs any more does not block its connection.  Take a valid head in
    REFRESHING, without floats or repeated keys, whose credential reference has its three fields alone;
    the deadline of the admission has passed and no result was stored.  If the READY head with the same
    credential can be written at all (the expiry and the auth method of the head can be read, and the new
    record encodes within the size limit: [releasable]), one turn of [resolve_with_refresh], by any process
    while no other writes and the storage has no faults, makes the connection READY again with the same
    credential and the next revision and fence, dispatches nothing, and the loop goes on from there. *)
Theorem abandoned_refresh_released : abandoned → releasable →
  ∃ e' o', run (resolve_round repr fromisoformat decode encode scope key refresh_required) e = (Ok None, e') ∧
    e_dispatched e' = e_dispatched e ∧ head_is (e_store e') o' ∧ validated o' updated ∧
    get "status" updated = JStr "READY" ∧ get "credential" updated = get "credential" d ∧
    num_int (get "revision" updated) = (num_int (get "revision" d) + 1)%Z ∧
    num_int (get "fence" updated) = (num_int (get "fence" d) + 1)%Z ∧
    ∀ n, run (resolve_loop repr fromisoformat decode encode scope key refresh_required (S n)) e
       = run (resolve_loop repr fromisoformat decode encode scope key refresh_required n) e'.
Proof using Hpath.
  intros Ha Hr. destruct (run_release Ha Hr) as (e' & Hrun & Hs & Hlog).
  set (o' := new_object (e_store e) (head_key path) b). exists e', o'. split; [done|]. split; [done|].
  pose proof (re_record Hr) as Hw. pose proof (validated_positive repr fromisoformat scope key path o d (ab_valid Ha)) as [Hrev Hfence].
  destruct (validated_reference (ab_valid Ha) (ab_credential Ha)) as (Hk & Hv & Hd).
  destruct (new_object_named (e_store e) (head_key path) b) as [Hov Hoe].
  pose proof (record_wired repr scope key _ _ _ _ _ _ _ _ Hw eq_refl eq_refl eq_refl I) as Hwired.
  assert (Hload : loads_bytes (o_contents o') = Ok (JObj updated)) by (apply bytes_read; [apply Hwired|apply Hr]).
  destruct (ready_record repr fromisoformat scope key path _ _ _ _ _ _ _ updated o' Hw) as (Hval & Hcred & _ & Hur & Hus & _);
    [lia|lia|done|done|done|done|done|done|].
  split; [|split; [done|split; [done|split; [by rewrite Hcred, (ab_credential Ha)|split; [by rewrite Hur|]]]]].
  - split; [apply Ha|]. by rewrite Hs, versions_append, decide_True, last_snoc.
  - split; [destruct Hwired as [_ _ Hwf _ _ _]; by rewrite Hwf|]. intros n. cbn [resolve_loop]. by rewrite run_bind, Hrun.
Qed.

End Runs.

(** *** An abandoned refresh, released *)

Module Abandoned.
Import Sample.

Definition id : pystr := lit "attempt-1".
Definition digest : pystr := replicate 64 48%N.
Definition r_key : pystr := path ++ "/credentials/" ++ digest.

Definition mutation : dict json :=
  [(lit "kind", JStr "REFRESHING"); (lit "invocationId", JStr "run-1"); (lit "id", JStr id); (lit "fence", JInt 2);
   (lit "baseRevision", JInt 1); (lit "deadline", JStr "2026-01-02T00:00:00Z");
   (lit "resultKey", JStr (exchange_result_key path id))].

Definition record_of (revision fence : Z) (status : string) (mutation : dict json) : dict json :=
  [(lit "schemaVersion", JStr CONNECTION_SCHEMA_VERSION); (lit "connection", ConnectionKey.to_wire key);
   (lit "scope", match Scope.to_wire scope with Ok s => s | Err _ => JNull end); (lit "revision", JInt revision);
   (lit "fence", JInt fence); (lit "status", JStr status); (lit "expiresAt", JStr "2026-01-04T00:00:00Z");
   (lit "authMethod", JStr "oauth"); (lit "credential", JObj (reference_of r_key "1" digest))] ++ mutation.

Definition head : dict json := record_of 2 2 "REFRESHING" [(lit "mutation", JObj mutation)].
Definition released : dict json := record_of 3 3 "READY" [].
Definition bytes (d : dict json) : list N := match go_canonical_json_bytes (JObj d) with Ok b => b | Err _ => [] end.
Definition object : Object := mkObject (head_key path) "2" "e-2" (bytes head).

(** The refresh was admitted on January 1, and its process is gone; it is the fifth now. *)
Definition start : env (C:=credential) fault store := mkEnv {[head_key path := [object]]} [] [day 5] [] [] [].

Lemma start_abandoned :
  abandoned no_repr GoTime.fromisoformat scope key path (day 1) start object head mutation (day 2) id r_key "1" digest.
Proof.
  split; try (vm_compute; reflexivity); split_and!; vm_compute; reflexivity.
Qed.

Lemma start_releasable :
  releasable no_repr GoTime.fromisoformat scope key head r_key "1" digest "oauth" (Some (day 4)) released (bytes released).
Proof. split; vm_compute; reflexivity. Qed.

End Abandoned.

Lemma abandoned_refresh_released_witness :
  ∃ e', run NoFault (Sample.day 1) Sample.round Abandoned.start = (Ok None, e') ∧ e_dispatched e' = [].
Proof.
  destruct (abandoned_refresh_released Sample.no_repr GoTime.fromisoformat Sample.decode Sample.encode Sample.always
              Sample.scope Sample.key Sample.path Sample.path_ok (Sample.day 1) _ _ _ _ _ _ _ _ _ _ _ _ _
              Abandoned.start_abandoned Abandoned.start_releasable) as (e' & o' & Hrun & Hlog & _).
  exists e'. split; [exact Hrun|exact Hlog].
Defined.

(** ** A result without an expiry *)

(** The driver of a method whose [missingExpiry] is [keep]. *)
Definition keep_method : dict json :=
  match ManifestFacts.sample_method (JStr "keep") with
  | [fields; (k, JObj client)] => [fields; (k, JObj (client ++ [(lit "missingExpiry", JStr "keep")]))]
  | m => m
  end.

Definition undated_answer (n : nat) (client : option client_config) (timeout : option pyfloat) (r : token_request) : send_result :=
  Responded 200 [Chunk (JsonText.quoted "{'access_token':'tok','token_type':'Bearer'}")].

Definition keep_refresh : outcome (ManifestGrants.credential * Z) :=
  let driver := ManifestFacts.sample_driver keep_method in
  refresh (λ _, None) (λ (_ : unit) b, b) (λ _, true) false undated_answer ManifestFacts.sample_clock ManifestFacts.sample_credential.

Definition unix_epoch : GoTime.datetime := GoTime.DT 1970 1 1 0 0 0 0 (Some 0%Z).

Definition no_future_expiry : exn := Exn RefreshFailedError "refreshed credential has no future expiry".

Section Undated.
Context (repr : json → pystr) (fromisoformat : pystr → res GoTime.datetime).
Context {C : Type} (encode : C → res json) (scope : Scope.t) (key : ConnectionKey.t) (epoch : GoTime.datetime).

Abbreviation run := (run NoFault epoch).

(** A token without an expiry that the manifest says to keep is thrown away.  The manifest driver
    gives such a token [datetime.min] as its expiry, and the provider that runs the driver refuses every
    result whose expiry is not in the future: whatever the clock says, the exchange ends READY with the
    old credential, or with the failure of that write, and the new one is neither returned nor stored. *)
Theorem undated_refresh_refused (e : env (C:=C) fault Memory.store) c rest a prior credentials expires now :
  e_exchanges e = Ok (c, GoTime.datetime_min_utc) :: rest →
  (∃ z, GoTime.dt_offset (hd epoch (e_clock e)) = Some z) → (0 <= GoTime.instant (hd epoch (e_clock e)))%Z →
  (∃ kept, keep_refresh = Ok (kept, (GoTime.instant GoTime.datetime_min_utc - GoTime.instant unix_epoch)%Z)) ∧
  ∃ e1, e_store e1 = e_store e ∧
    run (_refresh_admitted repr fromisoformat encode scope key a prior credentials expires now) e =
    match run (_finish_exchange repr fromisoformat scope key a "READY") e1 with
    | (Ok _, e2) => (Err no_future_expiry, e2)
    | (Err x, e2) => (Err x, e2)
    end.
Proof.
  intros He [z Hz] Hnow. split.
  { assert (Hk : match keep_refresh with Ok (_, t) => (t =? GoTime.instant GoTime.datetime_min_utc - GoTime.instant unix_epoch)%Z
                 | Err _ => false end = true) by (vm_compute; reflexivity).
    destruct keep_refresh as [[kept t]|]; [|done]. exists kept. by apply Z.eqb_eq in Hk as <-. }
  unfold _refresh_admitted. rewrite run_bind, run_catch. cbn -[hd dt_le _finish_exchange GoTime.datetime_min_utc]. rewrite He.
  change (hd (raise TimeoutError []) (?x :: _)) with x. cbn [snd e_clock]. unfold dt_le, compare_datetimes. rewrite Hz.
  change (GoTime.dt_offset GoTime.datetime_min_utc) with (Some 0%Z). cbn iota.
  change (GoTime.instant GoTime.datetime_min_utc) with 0%Z. destruct (Z.leb_spec 0 (GoTime.instant (hd epoch (e_clock e)))); [|lia].
  cbn -[hd dt_le _finish_exchange GoTime.datetime_min_utc]. eexists. split; [|rewrite run_bind; reflexivity]. reflexivity.
Qed.

End Undated.

Definition undated_start : env (C:=Sample.credential) fault Memory.store :=
  mkEnv ∅ [] [Sample.day 5] [] [Ok (Sample.secret "fresh", GoTime.datetime_min_utc)] [].

Lemma undated_refresh_refused_witness :
  let a := Admission.mk (lit "REFRESHING") Abandoned.id 2 (Sample.day 6) (exchange_result_key Sample.path Abandoned.id) in
  ∃ x e2, run NoFault (Sample.day 1)
    (_refresh_admitted Sample.no_repr GoTime.fromisoformat Sample.encode Sample.scope Sample.key a
       (Sample.material "2026-01-04T00:00:00Z") (Sample.secret "old") None (Sample.day 5)) undated_start = (Err x, e2).
Proof.
  intros a. destruct (undated_refresh_refused Sample.no_repr GoTime.fromisoformat Sample.encode Sample.scope Sample.key
    (Sample.day 1) undated_start (Sample.secret "fresh") [] a (Sample.material "2026-01-04T00:00:00Z") (Sample.secret "old")
    None (Sample.day 5) eq_refl) as (_ & e1 & _ & Hrun).
  - exists 0%Z. reflexivity.
  - apply Z.leb_le. vm_compute. reflexivity.
  - rewrite Hrun. destruct (run _ _ _ e1) as [[u|x] e2]; by eexists _, _.
Defined.

End OutcomeFacts.
