(* ===== verification/ConnectionFrames.v ===== *)
(** * Connections do not share objects

    sdkpython/src/dex_connectors/sdk/projectconfig/connections.py: the paths of two connections of a
    scope are apart, as base64 and UTF-8 are injective, and replacing the credential of one writes
    only under its own path, so what is stored for the others stays. *)

From S2P Require Import Prelude Sha1 Json JsonText Sha256 Timestamps Identity Definitions StructuredOutput.
From S2P Require Import ProjectModels CanonicalJson ProjectStorage StoreProgram ProjectConnections CredentialRefresh ConnectionFacts.
Import Memory MemoryFacts Faulty FaultyFacts.

(** ** Connections are apart *)

Definition is_byte (n : N) : Prop := (n < 256)%N.

Lemma base64_char_inj m n : (m < 64)%N → (n < 64)%N → base64_char m = base64_char n → m = n.
Proof.
  unfold base64_char. intros Hm Hn.
  destruct (N.ltb_spec m 26), (N.ltb_spec n 26), (N.ltb_spec m 52), (N.ltb_spec n 52), (N.ltb_spec m 62), (N.ltb_spec n 62),
    (N.eqb_spec m 62), (N.eqb_spec n 62); lia.
Qed.

Lemma base64_char_slash n : (n < 64)%N → base64_char n ≠ 47%N.
Proof.
  unfold base64_char. destruct (N.ltb_spec n 26), (N.ltb_spec n 52), (N.ltb_spec n 62), (N.eqb_spec n 62); lia.
Qed.

(** The sextets of three bytes. *)
Lemma sextets a b c : is_byte a → is_byte b → is_byte c →
  (a / 4 < 64 ∧ a mod 4 * 16 + b / 16 < 64 ∧ b mod 16 * 4 + c / 64 < 64 ∧ c mod 64 < 64 ∧
   a mod 4 * 16 < 64 ∧ b mod 16 * 4 < 64)%N.
Proof.
  unfold is_byte. intros.
  pose proof (N.Div0.div_lt_upper_bound a 4 64). pose proof (N.Div0.div_lt_upper_bound b 16 16). pose proof (N.Div0.div_lt_upper_bound c 64 4).
  pose proof (N.mod_lt a 4). pose proof (N.mod_lt b 16). pose proof (N.mod_lt c 64). lia.
Qed.

Lemma urlsafe_b64_inj n : ∀ x y, (length x <= n)%nat → Forall is_byte x → Forall is_byte y →
  urlsafe_b64 x = urlsafe_b64 y → x = y.
Proof.
  induction n as [|n IH]; intros x y Hn Hx Hy.
  { destruct x; [|cbn in Hn; lia]. destruct y as [|? [|? [|? ?]]]; [done|..]; discriminate. }
  assert (Hsplit : ∀ x k, (k ≠ 0 → x = k * (x / k) + x mod k)%N) by (intros; by apply N.div_mod).
  assert (Hlt : ∀ x k, (k ≠ 0 → x mod k < k)%N) by (intros; by apply N.mod_lt).
  assert (H0 : is_byte 0) by done.
  destruct x as [|a [|b [|c x]]], y as [|a' [|b' [|c' y]]]; try (cbn [urlsafe_b64 app]; discriminate); try done;
    repeat match goal with H : Forall _ (_ :: _) |- _ => apply Forall_cons in H as [? H] end;
    cbn [urlsafe_b64 app].
  - intros [= E1 E2]. destruct (sextets a 0 0), (sextets a' 0 0); try done.
    apply base64_char_inj in E1; [|lia..]. apply base64_char_inj in E2; [|lia..].
    f_equal. pose proof (Hsplit a 4%N ltac:(done)). pose proof (Hsplit a' 4%N ltac:(done)). lia.
  - intros [= E1 E2 E3]. destruct (sextets a b 0), (sextets a' b' 0); try done.
    apply base64_char_inj in E1; [|lia..]. apply base64_char_inj in E2; [|lia..]. apply base64_char_inj in E3; [|lia..].
    pose proof (Hsplit a 4%N ltac:(done)). pose proof (Hsplit a' 4%N ltac:(done)). 
    pose proof (Hsplit b 16%N ltac:(done)). pose proof (Hsplit b' 16%N ltac:(done)).
    pose proof (N.Div0.div_lt_upper_bound b 16 16). pose proof (N.Div0.div_lt_upper_bound b' 16 16). unfold is_byte in *.
    assert (a = a') as -> by lia. assert (b = b') as -> by lia. done.
  - intros [= E1 E2 E3 E4 E5]. destruct (sextets a b c), (sextets a' b' c'); try done.
    apply base64_char_inj in E1; [|lia..]. apply base64_char_inj in E2; [|lia..]. apply base64_char_inj in E3; [|lia..].
    apply base64_char_inj in E4; [|lia..].
    pose proof (Hsplit a 4%N ltac:(done)). pose proof (Hsplit a' 4%N ltac:(done)).
    pose proof (Hsplit b 16%N ltac:(done)). pose proof (Hsplit b' 16%N ltac:(done)).
    pose proof (Hsplit c 64%N ltac:(done)). pose proof (Hsplit c' 64%N ltac:(done)).
    pose proof (N.Div0.div_lt_upper_bound b 16 16). pose proof (N.Div0.div_lt_upper_bound b' 16 16).
    pose proof (N.Div0.div_lt_upper_bound c 64 4). pose proof (N.Div0.div_lt_upper_bound c' 64 4). unfold is_byte in *.
    assert (a = a') as -> by lia. assert (b = b') as -> by lia. assert (c = c') as -> by lia.
    f_equal. f_equal. f_equal. cbn [length] in Hn. apply IH; [lia|done..].
Qed.

Lemma urlsafe_b64_slash n : ∀ x, (length x <= n)%nat → Forall is_byte x → 47%N ∉ urlsafe_b64 x.
Proof.
  assert (H0 : is_byte 0) by done.
  induction n as [|n IH]; intros x Hn Hx; [destruct x; [apply not_elem_of_nil|cbn in Hn; lia]|].
  destruct x as [|a [|b [|c x]]];
    repeat match goal with H : Forall _ (_ :: _) |- _ => apply Forall_cons in H as [? H] end;
    cbn [urlsafe_b64]; [apply not_elem_of_nil|..].
  - destruct (sextets a 0 0); try done.
    rewrite !not_elem_of_cons. split_and!; try apply not_elem_of_nil; apply not_eq_sym, base64_char_slash; lia.
  - destruct (sextets a b 0); try done.
    rewrite !not_elem_of_cons. split_and!; try apply not_elem_of_nil; apply not_eq_sym, base64_char_slash; lia.
  - destruct (sextets a b c); try done. rewrite not_elem_of_app, !not_elem_of_cons. cbn [length] in Hn.
    split_and!; try apply not_elem_of_nil; try (apply not_eq_sym, base64_char_slash; lia). apply IH; [lia|done].
Qed.

Lemma split_slash (a b r r' : pystr) : 47%N ∉ a → 47%N ∉ b → a ++ 47%N :: r = b ++ 47%N :: r' → a = b ∧ r = r'.
Proof.
  revert b. induction a as [|x a IH]; intros [|y b] Ha Hb; cbn [app]; intros Heq.
  - by injection Heq.
  - injection Heq as Hx _. destruct Hb. rewrite Hx. by left.
  - injection Heq as Hx _. destruct Ha. rewrite <- Hx. by left.
  - injection Heq as Hx Heq. apply not_elem_of_cons in Ha as [_ Ha], Hb as [_ Hb]. subst y. by destruct (IH b Ha Hb Heq) as [-> ->].
Qed.

Lemma connector_id_slash s : connector_id_match s = true → 47%N ∉ s.
Proof.
  unfold connector_id_match. destruct s as [|c s]; [done|]. rewrite !andb_true_iff. intros [[[Hc Hs] _] _] Hin.
  rewrite forallb_forall in Hs. apply elem_of_cons in Hin as [<-|Hin]; [done|]. apply list_elem_of_In in Hin. by apply Hs in Hin.
Qed.

(** Different connections of a scope keep their objects under different paths. *)
Lemma paths_apart scope k1 k2 p1 p2 x : ConnectionKey.path k1 scope = Ok p1 → ConnectionKey.path k2 scope = Ok p2 →
  starts_with (p1 ++ "/") x = true → starts_with (p2 ++ "/") x = true → k1 = k2.
Proof.
  assert (Hshape : ∀ k p, ConnectionKey.path k scope = Ok p → ∃ bytes prefix,
            connector_id_match (ConnectionKey.connector_id k) = true ∧ utf8 (ConnectionKey.connection_name k) = Some bytes ∧
            Scope.prefix scope = Ok prefix ∧
            p = prefix ++ "/connections/" ++ ConnectionKey.connector_id k ++ "/" ++ urlsafe_b64 bytes).
  { intros k p H. unfold ConnectionKey.path in H. apply bind_Ok in H as ([] & Hc%raise_if_Ok & H).
    apply bind_Ok in H as (bytes & Hb & H). apply bind_Ok in H as (prefix & Hp & H). apply Ok_inj in H as <-.
    exists bytes, prefix. repeat (apply orb_false_iff in Hc as [Hc _]). apply negb_false_iff in Hc.
    split_and!; [done| |done|done]. unfold CallID.encode in Hb. by destruct (utf8 _); [injection Hb as ->|]. }
  intros (b1 & pre & Hc1 & Hu1 & Hp & ->)%Hshape (b2 & pre' & Hc2 & Hu2 & Hp' & ->)%Hshape.
  rewrite Hp in Hp'. apply Ok_inj in Hp' as <-. intros [r1 ->]%starts_with_split [r2 Heq]%starts_with_split.
  rewrite <- !app_assoc in Heq. apply app_inv_head in Heq. apply (app_inv_head (lit "/connections/")) in Heq.
  cbn [app] in Heq. apply split_slash in Heq as [Hid Heq]; [|by apply connector_id_slash..].
  apply CallID.utf8_bytes in Hu1 as Hb1. apply CallID.utf8_bytes in Hu2 as Hb2.
  apply split_slash in Heq as [Hn _]; [|by eapply urlsafe_b64_slash..].
  apply urlsafe_b64_inj with (n := length b1) in Hn; [|done..]. subst b2.
  destruct k1, k2. cbn in *. subst. f_equal. by eapply CallID.utf8_inj.
Qed.

(** ** What a program can change *)

Section Frames.
Context {C : Type} (P : pystr → Prop).
Abbreviation environment := (env (C:=C) fault Memory.store).

(** Every write of the program goes to a key that satisfies [P]. *)
Fixpoint confined {A} (p : prog C A) : Prop :=
  match p with
  | Ret _ => True
  | Vis c k =>
      match c with CCreate key _ | CSwap key _ _ => P key | _ => True end ∧ ∀ r, confined (k r)
  end.

Lemma confined_bind {A B} (p : prog C A) (f : A → prog C B) :
  confined p → (∀ a, confined (f a)) → confined (prog_bind p f).
Proof. intros Hp Hf. induction p as [[a|x]|X c k IH]; [apply Hf|done|]. destruct Hp as [Hc Hk]. split; [done|naive_solver]. Qed.

Lemma confined_lift {A B} (r : res A) (f : A → prog C B) :
  (∀ a, r = Ok a → confined (f a)) → confined (prog_bind (lift r) f).
Proof. destruct r; [intros H; by apply H|done]. Qed.

Lemma confined_catch {A} (p : prog C A) h : confined p → (∀ x, confined (h x)) → confined (catch p h).
Proof. intros Hp Hf. induction p as [[a|x]|X c k IH]; [done|apply Hf|]. destruct Hp as [Hc Hk]. split; [done|naive_solver]. Qed.

Lemma create_elsewhere (f : fault) (s : Memory.store) (key : pystr) (b : list N) (k : pystr) : k ≠ key →
  versions (snd (disturb f s (Memory.create_object () s key b))) k = versions s k.
Proof.
  intros Hne. destruct (disturb_snd f s (Memory.create_object () s key b)) as [->| ->]; [done|].
  unfold Memory.create_object. destruct (_ ≫= _); [|done]. destruct (s !! key); [done|].
  cbn [snd _append]. unfold versions. by rewrite lookup_insert_ne.
Qed.

Lemma swap_elsewhere (f : fault) (s : Memory.store) (key t : pystr) (b : list N) (k : pystr) : k ≠ key →
  versions (snd (disturb f s (Memory.compare_and_swap_object () s key t b))) k = versions s k.
Proof.
  intros Hne. destruct (disturb_snd f s (Memory.compare_and_swap_object () s key t b)) as [->| ->]; [done|].
  unfold Memory.compare_and_swap_object. destruct (_ ≫= _); [|done]. destruct (last _); [|done].
  destruct (_ && _); [|done]. cbn [snd _append]. unfold versions.
  by rewrite lookup_insert_ne.
Qed.

Lemma run_confined {A} (p : prog C A) (epoch : GoTime.datetime) (e : environment) (k : pystr) : confined p → ¬ P k →
  versions (e_store (snd (run NoFault epoch p e))) k = versions (e_store e) k.
Proof.
  intros Hp Hk. revert e. induction p as [r|X c kont IH]; intros e; [done|]. destruct Hp as [Hc Hp]. cbn [run].
  destruct (perform NoFault epoch c e) as [r e1] eqn:E. rewrite (IH r (Hp r)).
  replace e1 with (snd (perform NoFault epoch c e)) by (by rewrite E). clear E IH Hp.
  assert (Hne : ∀ key, P key → k ≠ key) by (intros key Hkey ->; done).
  destruct c; cbn [perform]; try done.
  - pose proof (create_elsewhere (hd NoFault (e_faults e)) (e_store e) key contents k (Hne _ Hc)) as H.
    cbn [ProjectStorage.create_object Faulty.object_store]. by destruct (disturb _ _ _).
  - pose proof (swap_elsewhere (hd NoFault (e_faults e)) (e_store e) key etag contents k (Hne _ Hc)) as H.
    cbn [ProjectStorage.compare_and_swap_object Faulty.object_store]. by destruct (disturb _ _ _).
Qed.

Lemma run_readonly {A} (p : prog C A) (epoch : GoTime.datetime) (e : environment) : (∀ k, ¬ P k) → confined p →
  e_store (snd (run NoFault epoch p e)) = e_store e.
Proof.
  intros HP Hp. revert e. induction p as [r|X c kont IH]; intros e; [done|]. destruct Hp as [Hc Hp]. cbn [run].
  destruct c; try (by apply HP in Hc); cbn [perform]; by rewrite IH.
Qed.

(** Without faults the store only grows. *)
Lemma run_onward {A} (p : prog C A) (epoch : GoTime.datetime) (e : environment) :
  faultless e → onward e (snd (run NoFault epoch p e)).
Proof.
  revert e. induction p as [r|X c kont IH]; intros e He; [by apply onward_refl|]. cbn [run].
  assert (H : onward e (snd (perform NoFault epoch c e))).
  { destruct He as [Hf Hw]. destruct c; cbn [perform snd]; try (by split; [|apply extends_refl]);
      rewrite Hf; cbn [hd].
    - pose proof (create_grows () (e_store e) key contents Hw) as [Hw' Hext].
      cbn [ProjectStorage.create_object Faulty.object_store disturb]. destruct (Memory.create_object _ _ _ _).
      split; [split; [cbn; by rewrite Hf|done]|done].
    - pose proof (swap_grows () (e_store e) key etag contents Hw) as [Hw' Hext].
      cbn [ProjectStorage.compare_and_swap_object Faulty.object_store disturb].
      destruct (Memory.compare_and_swap_object _ _ _ _ _). split; [split; [cbn; by rewrite Hf|done]|done]. }
  destruct (perform NoFault epoch c e) as [r e1]. cbn [snd] in H. eapply onward_trans; [done|]. apply IH, H.
Qed.

End Frames.

Section Replace.
Context (repr : json → pystr) (fromisoformat : pystr → res GoTime.datetime).
Context {C : Type} (scope : Scope.t) (key : ConnectionKey.t) (path : pystr).
Context (Hpath : ConnectionKey.path key scope = Ok path).

Abbreviation mine := (λ k, starts_with (path ++ "/") k = true).

Lemma head_mine : mine (head_key path).
Proof.
  unfold head_key. replace (path ++ "/head") with ((path ++ "/") ++ "head") by (rewrite <- app_assoc; reflexivity).
  apply starts_with_app.
Qed.

Lemma material_mine digest : mine (path ++ "/credentials/" ++ digest).
Proof.
  replace (path ++ "/credentials/" ++ digest) with ((path ++ "/") ++ "credentials/" ++ digest)
    by (rewrite <- !app_assoc; reflexivity). apply starts_with_app.
Qed.

(** Replacing a credential writes only under the path of its connection. *)
Lemma replace_confined expected material :
  confined mine (replace_credential (C:=C) repr fromisoformat scope key expected material).
Proof using Hpath.
  unfold replace_credential. apply confined_lift. intros _ _. apply confined_lift. rewrite Hpath. intros p [= <-].
  apply confined_bind.
  { apply confined_catch; [|by intros x; destruct (_ && _)].
    apply confined_bind; [|done]. unfold _read_record. apply confined_lift. intros p _.
    apply confined_bind; [done|]. intros h. by apply confined_lift. }
  intros [[rev f] found]. apply confined_lift. intros _ _. apply confined_lift. intros envelope _.
  apply confined_lift. intros contents _. apply confined_bind.
  { apply confined_catch; [split; [apply material_mine|done]|].
    intros x. destruct (_ || _); [|done]. apply confined_bind; [done|]. intros o. by apply confined_lift. }
  intros o. apply confined_lift. intros d _. apply confined_lift. intros b _. apply confined_bind; [|done].
  apply confined_catch.
  - apply confined_bind; [|done]. destruct found; (split; [apply head_mine|done]).
  - intros x. destruct (isinst _ _); [|done]. apply confined_bind; [done|]. intros y. by destruct (bool_decide _).
Qed.

End Replace.

(** Reading writes nothing. *)
Lemma read_record_confined (P : pystr → Prop) repr fromisoformat {C : Type} scope key :
  confined P (_read_record (C:=C) repr fromisoformat scope key).
Proof.
  unfold _read_record. apply confined_lift. intros p _. apply confined_bind; [done|]. intros h. by apply confined_lift.
Qed.

Lemma read_connection_confined (P : pystr → Prop) repr fromisoformat {C : Type} scope key :
  confined P (read_connection (C:=C) repr fromisoformat scope key).
Proof. apply confined_bind; [apply read_record_confined|done]. Qed.

Lemma read_material_confined (P : pystr → Prop) repr fromisoformat {C : Type} scope key :
  confined P (read_credential_material (C:=C) repr fromisoformat scope key).
Proof.
  unfold read_credential_material. repeat first
    [ apply confined_bind; [apply read_record_confined|intros ?]
    | apply confined_lift; intros ? _
    | apply confined_bind; [done|intros ?]
    | progress cbv zeta | done ].
Qed.

(** What is stored for a connection survives the replacement of another one's credential. *)
Lemma replace_spares (repr : json → pystr) (fromisoformat : pystr → res GoTime.datetime) {C : Type} (scope : Scope.t)
    (key other : ConnectionKey.t) (path other_path : pystr) (epoch : GoTime.datetime) (expected : Z) (material : CredentialMaterial)
    (e : env (C:=C) fault Memory.store) (m : CredentialMaterial) (conn : Connection) :
  ConnectionKey.path key scope = Ok path → ConnectionKey.path other scope = Ok other_path → key ≠ other →
  holds_material repr fromisoformat scope other other_path (e_store e) m conn →
  holds_material repr fromisoformat scope other other_path
    (e_store (snd (run NoFault epoch (replace_credential repr fromisoformat scope key expected material) e))) m conn.
Proof.
  intros Hp Ho Hne. apply material_frame. intros k Hk.
  apply (run_confined (λ k, starts_with (path ++ "/") k = true)); [by apply replace_confined|].
  intros Hmine. apply Hne. exact (paths_apart scope key other path other_path k Hp Ho Hmine Hk).
Qed.
