(* ===== verification/Broker.v ===== *)
(** * The credential broker client and its cache

    sdkpython/src/dex_connectors/sdk/projectconfig/broker.py: reading a shared credential with a scope
    token that is renewed once after a 401, the checks of the answer, and [SharedConnection], which
    caches one credential, remembers which revision every call received, and serves calls from the
    cache while a read is in flight.  The HTTP exchange, the token source and [datetime.fromisoformat]
    are parameters. *)

From S2P Require Import Prelude Json JsonText Timestamps OAuth ProjectModels JsonDumps ProjectConnections.
From S2P Require Import ProjectProvider.

Definition MAXIMUM_BROKER_RESPONSE_BYTES : Z := 1048576.
Definition MAXIMUM_BROKER_CREDENTIAL_BYTES : Z := 65536.

Record BrokerCredential := mkCredential {
  credential : dict json;
  revision : Z;
  issued_at : option GoTime.datetime;
  expires_at : option GoTime.datetime;
  read_at : GoTime.datetime
}.

(** An answer as it streams in: its status, its chunks, and the exception that cut it short. *)
Record reply := mkReply { r_status : Z; r_chunks : list (list N); r_broken : option exn }.

Section Broker.
Context (fromisoformat : pystr → res GoTime.datetime).

(** ** Answers *)

Definition unavailable {A} (message : pystr) : res A := raise CredentialBrokerUnavailableError message.
Definition rejected {A} (message : pystr) : res A := raise CredentialBrokerRejectedError message.

(** The chunks of a body, up to the limit. *)
Fixpoint read_body (size : Z) (body : list N) (chunks : list (list N)) (broken : option exn) : res (list N) :=
  match chunks with
  | [] => match broken with Some e => Err e | None => Ok body end
  | c :: chunks =>
      let size := (size + Z.of_nat (length c))%Z in
      if (MAXIMUM_BROKER_RESPONSE_BYTES <? size)%Z then rejected "credential broker response is too large"
      else read_body size (body ++ c) chunks broken
  end.

(** What [_post] makes of the exchange; [HTTPError] stands for [httpx.TransportError]. *)
Definition received (r : res reply) : res (Z * list N) :=
  let answer :=
    a ← r;
    if negb (r_status a =? 200)%Z then Ok (r_status a, [])
    else b ← read_body 0 [] (r_chunks a) (r_broken a); Ok (200%Z, b) in
  match answer with
  | Err e => if isinst e HTTPError then unavailable "credential broker is unavailable" else Err e
  | ok => ok
  end.

(** [datetime.fromisoformat(answer[name].replace("Z", "+00:00")) if answer.get(name) else None]. *)
Definition answer_time (answer : dict json) (name : pystr) : res (option GoTime.datetime) :=
  if jtruthy (get name answer) then
    match get name answer with
    | JStr s => t ← fromisoformat (replace_char 90 "+00:00" s); Ok (Some t)
    | _ => raise AttributeError "replace"
    end
  else Ok None.

Definition answer_times (answer : dict json) : res (option GoTime.datetime * option GoTime.datetime) :=
  match (issued ← answer_time answer "issuedAt"; expires ← answer_time answer "expiresAt"; Ok (issued, expires)) with
  | Err e => if isinst e ValueError || isinst e AttributeError
             then rejected "credential broker timestamps are invalid" else Err e
  | ok => ok
  end.

(** The object of a 200 answer. *)
Definition answer_object (content : list N) : res (dict json) :=
  match (v ← loads_bytes content; require_object v "broker answer") with
  | Err e => if isinst e ValueError then rejected "credential broker answer is invalid" else Err e
  | ok => ok
  end.

Definition too_large (material : dict json) : res bool :=
  text ← dumps_ascii ", " ": " true (JObj material);
  Ok (MAXIMUM_BROKER_CREDENTIAL_BYTES <? Z.of_nat (length text))%Z.

(** The credential and revision of a READY answer. *)
Definition ready_answer (answer : dict json) : res (dict json * Z) :=
  let invalid {A} : res A := rejected "credential broker READY answer is invalid" in
  match get "credential" answer, int_value (get "revision" answer) with
  | JObj c, Some n =>
      if (n <=? 0)%Z then invalid else big ← too_large c; if big : bool then invalid else Ok (c, n)
  | _, _ => invalid
  end.

(** [_decode]. *)
Definition _decode (now : GoTime.datetime) (status_code : Z) (content : list N) : res BrokerCredential :=
  let http {A} (f : pystr → res A) := f ("credential broker HTTP " ++ str_of_Z status_code) in
  if existsb (Z.eqb status_code) [408; 425; 429]%Z || (500 <=? status_code)%Z then http unavailable
  else if negb (status_code =? 200)%Z then http rejected
  else if (MAXIMUM_BROKER_RESPONSE_BYTES <? Z.of_nat (length content))%Z
  then rejected "credential broker response is too large"
  else
    answer ← answer_object content;
    if py_eq (get "status" answer) (JStr "REAUTHORIZATION_REQUIRED") then raise ReauthorizationRequiredError []
    else if py_eq (get "status" answer) (JStr "CONNECTION_NOT_SELECTED")
    then raise ConnectionNotSelectedError "project connection is not selected by this scope"
    else if negb (py_eq (get "status" answer) (JStr "READY"))
    then rejected "credential broker status is unknown"
    else
      ready ← ready_answer answer;
      times ← answer_times answer;
      Ok (mkCredential (fst ready) (snd ready) (fst times) (snd times) now).

(** ** The client *)

Section Client.
(** The rest of the world: stored tokens, the accepted configuration, and the broker's endpoint. *)
Context {W : Type} (read_token : SecretRef.t → W → res pystr * W) (current_token_reference : W → res SecretRef.t * W)
        (post : pystr → dict json → W → res reply * W) (clock : W → GoTime.datetime).

Record Client := mkClient { token : pystr; token_reference : SecretRef.t }.

Definition st (A : Type) : Type := Client * W → res A * (Client * W).

(** [_get_token]; the lock keeps other tasks out until it returns. *)
Definition _get_token : st pystr := λ '(c, w),
  if truthy (token c) then (Ok (token c), (c, w))
  else
    match read_token (token_reference c) w with
    | (Ok t, w) => (Ok t, (mkClient t (token_reference c), w))
    | (Err e, w) => (Err e, (c, w))
    end.

(** [_renew_token]. *)
Definition _renew_token (refused : pystr) : st pystr := λ '(c, w),
  if truthy (token c) && negb (bool_decide (token c = refused)) then (Ok (token c), (c, w))
  else
    match current_token_reference w with
    | (Err e, w) => (Err e, (mkClient [] (token_reference c), w))
    | (Ok r, w) =>
        match read_token r w with
        | (Err e, w) => (Err e, (mkClient [] r, w))
        | (Ok t, w) => (Ok t, (mkClient t r, w))
        end
    end.

(** [_post]. *)
Definition _post (t : pystr) (body : dict json) : st (Z * list N) := λ '(c, w),
  let '(r, w) := post t body w in (received r, (c, w)).

Definition read_request (shared_connection_id : pystr) (rejected_revision : Z) : res (dict json) :=
  raise_if (negb (truthy shared_connection_id) || (rejected_revision <? 0)%Z)
    ValueError "invalid shared credential read" ≫= λ _,
  Ok ((lit "sharedConnectionId", JStr shared_connection_id)
        :: (if (rejected_revision =? 0)%Z then [] else [(lit "rejectedRevision", JInt rejected_revision)])).

(** [read]; [others] is what other tasks do to the client while the first exchange runs. *)
Definition read (others : Client * W → Client * W) (shared_connection_id : pystr) (rejected_revision : Z)
    : st BrokerCredential := λ s,
  let decoded (r : res (Z * list N)) (s : Client * W) : res BrokerCredential * (Client * W) :=
    (a ← r; _decode (clock (snd s)) (fst a) (snd a), s) in
  match read_request shared_connection_id rejected_revision with
  | Err e => (Err e, s)
  | Ok body =>
      match _get_token s with
      | (Err e, s) => (Err e, s)
      | (Ok t, s) =>
          let '(r, s) := _post t body s in
          if match r with Ok (status_code, _) => (status_code =? 401)%Z | Err _ => false end then
            match _renew_token t (others s) with
            | (Err e, s) => (Err e, s)
            | (Ok renewed, s) =>
                if bool_decide (renewed = t)
                then (rejected "credential broker refused scope token", s)
                else let '(r, s) := _post renewed body s in decoded r s
            end
          else decoded r s
      end
  end.

End Client.
End Broker.

(** ** The cache *)

(** [a - b] of two datetimes, in microseconds. *)
Definition dt_minus (a b : GoTime.datetime) : res Z :=
  match GoTime.dt_offset a, GoTime.dt_offset b with
  | Some _, Some _ | None, None => Ok (GoTime.instant a - GoTime.instant b)%Z
  | _, _ => raise TypeError "can't subtract offset-naive and offset-aware datetimes"
  end.

Module SharedConnection.

Definition MAXIMUM_CALLS : nat := 4096.

Record t := mk {
  shared_connection_id : pystr;
  cached : option BrokerCredential;
  issued_by_call : dict (Z * GoTime.datetime);
  next_read_after : GoTime.datetime
}.

(** [__init__]. *)
Definition init (shared_connection_id : pystr) : res t :=
  raise_if (negb (truthy shared_connection_id)) ValueError "shared connection ID is required" ≫= λ _,
  Ok (mk shared_connection_id None [] GoTime.datetime_min_utc).

Definition with_cached (c : BrokerCredential) (s : t) : t :=
  mk (shared_connection_id s) (Some c) (issued_by_call s) (next_read_after s).
Definition with_issued (d : dict (Z * GoTime.datetime)) (s : t) : t :=
  mk (shared_connection_id s) (cached s) d (next_read_after s).
Definition with_next_read (after : GoTime.datetime) (s : t) : t :=
  mk (shared_connection_id s) (cached s) (issued_by_call s) after.

(** [_is_expired] and [_is_stale]. *)
Definition _is_expired (c : BrokerCredential) (now : GoTime.datetime) : res bool :=
  match expires_at c with None => Ok false | Some e => dt_le e now end.

Definition _is_stale (c : BrokerCredential) (now : GoTime.datetime) : res bool :=
  match expires_at c with
  | None => age ← dt_minus now (read_at c); Ok (900000000 <=? age)%Z
  | Some e =>
      lifetime ← dt_minus e (default (read_at c) (issued_at c));
      let skew := if (0 <? lifetime)%Z then Z.min 300000000 (timedelta_div lifetime 4) else 0%Z in
      due ← GoTime.add_micros e (- skew);
      dt_le due now
  end.

(** [_record_issued]: the calls of the last ten minutes when there are too many, and never more than
    4096; every time in the table is [datetime.now(UTC)]. *)
Definition recent (cutoff : GoTime.datetime) (d : dict (Z * GoTime.datetime)) : dict (Z * GoTime.datetime) :=
  List.filter (λ kv, GoTime.instant cutoff <? GoTime.instant (snd (snd kv)))%Z d.

Definition _record_issued (call_id : pystr) (revision : Z) (now : GoTime.datetime) (s : t) : res unit * t :=
  if negb (truthy call_id) then (Ok (), s)
  else
    let d := dset call_id (revision, now) (issued_by_call s) in
    if (length d <=? MAXIMUM_CALLS)%nat then (Ok (), with_issued d s)
    else
      match GoTime.add_micros now (-600000000) with
      | Err e => (Err e, with_issued d s)
      | Ok cutoff =>
          let d := recent cutoff d in
          (Ok (), with_issued (if (length d <=? MAXIMUM_CALLS)%nat then d else tail d) s)
      end.

(** [self._record_issued(...); return current.credential]. *)
Definition issue (call_id : pystr) (c : BrokerCredential) (now : GoTime.datetime) (s : t) : res (dict json) * t :=
  let '(r, s) := _record_issued call_id (revision c) now s in ((_ ← r; Ok (credential c)), s).

(** What the cache serves without the lock. *)
Definition usable (s : t) (now : GoTime.datetime) : res (option BrokerCredential) :=
  match cached s with
  | None => Ok None
  | Some c =>
      expired ← _is_expired c now;
      waiting ← (if expired : bool then Ok false else dt_lt now (next_read_after s));
      if waiting : bool then Ok (Some c)
      else stale ← _is_stale c now; Ok (if stale : bool then None else Some c)
  end.

(** The broker is asked when nothing is cached, or when the credential is stale and no backoff runs. *)
Definition needs_read (s : t) (now : GoTime.datetime) : res bool :=
  match cached s with
  | None => Ok true
  | Some c => stale ← _is_stale c now; if stale : bool then dt_le (next_read_after s) now else Ok false
  end.

(** The end of the locked section. *)
Definition serve (call_id : pystr) (current : option BrokerCredential) (now : GoTime.datetime) (s : t)
    : res (dict json) * t :=
  let expired := unavailable "shared credential is expired" in
  match current with
  | None => (expired, s)
  | Some c =>
      match _is_expired c now with
      | Err e => (Err e, s)
      | Ok true => (expired, s)
      | Ok false => issue call_id c now s
      end
  end.

(** The locked section of [resolve]: [answer] is what the broker answers, [meanwhile] what the tasks
    that do not need the lock do until then. *)
Definition resolve_locked (call_id : pystr) (now : GoTime.datetime) (answer : res BrokerCredential)
    (meanwhile : t → t) (s : t) : res (dict json) * t :=
  match needs_read s now with
  | Err e => (Err e, s)
  | Ok false => serve call_id (cached s) now s
  | Ok true =>
      let current := cached s in
      let s := meanwhile s in
      match answer with
      | Ok c => serve call_id (Some c) now (with_cached c s)
      | Err e =>
          if isinst e CredentialBrokerUnavailableError then
            match GoTime.add_micros now 10000000 with
            | Err e' => (Err e', s)
            | Ok after =>
                let s := with_next_read after s in
                match current with
                | None => (Err e, s)
                | Some c =>
                    match _is_expired c now with
                    | Err e' => (Err e', s)
                    | Ok true => (Err e, s)
                    | Ok false => serve call_id current now s
                    end
                end
            end
          else (Err e, s)
      end
  end.

(** [resolve]: [waited] is what happens until the lock is taken, at [later]. *)
Definition resolve (call_id : pystr) (now later : GoTime.datetime) (answer : res BrokerCredential)
    (waited meanwhile : t → t) (s : t) : res (dict json) * t :=
  match usable s now with
  | Err e => (Err e, s)
  | Ok (Some c) => issue call_id c now s
  | Ok None => resolve_locked call_id later answer meanwhile (waited s)
  end.

(** The revision that a call was given, or else the cached one. *)
Definition rejected_revision (call_id : pystr) (s : t) : Z :=
  match dget call_id (issued_by_call s), cached s with
  | Some (r, _), _ => r
  | None, Some c => revision c
  | None, None => 0%Z
  end.

(** [resolve_after_rejection], from the moment the lock is taken. *)
Definition resolve_after_rejection (call_id : pystr) (now : GoTime.datetime)
    (answer : Z → res BrokerCredential) (meanwhile : t → t) (s : t) : res (dict json) * t :=
  let rejected := rejected_revision call_id s in
  let finish (c : BrokerCredential) (s : t) : res (dict json) * t :=
    if (revision c =? rejected)%Z
    then (raise RejectedCredentialNotRefreshedError "the rejected credential was not refreshed", s)
    else issue call_id c now s in
  let read : res (dict json) * t :=
    let s := meanwhile s in
    match answer rejected with
    | Ok c => finish c (with_cached c s)
    | Err e => (Err e, s)
    end in
  match cached s with
  | Some c => if (revision c =? rejected)%Z then read else finish c s
  | None => read
  end.

End SharedConnection.

(** ** Theorems *)

Module BrokerFacts.
Import SharedConnection.

(** A credential that is not stale has not expired. *)
Lemma fresh_unexpired c now : _is_stale c now = Ok false → _is_expired c now = Ok false.
Proof.
  unfold _is_stale, _is_expired. destruct (expires_at c) as [e|]; [|done].
  intros (lifetime & Hl & H)%bind_Ok. apply bind_Ok in H as (due & Hdue & H).
  set (skew := if (0 <? lifetime)%Z then Z.min 300000000 (timedelta_div lifetime 4) else 0%Z) in Hdue.
  assert (Hskew : (0 <= skew)%Z).
  { unfold skew. destruct (Z.ltb_spec 0 lifetime); [|lia].
    pose proof (half_even_nonneg lifetime 4 ltac:(lia) ltac:(lia)). unfold timedelta_div. lia. }
  destruct (GoTime.add_micros_instant _ _ _ Hdue) as (Hi & Ho).
  unfold dt_le, compare_datetimes in *. rewrite Ho in H.
  destruct (GoTime.dt_offset e), (GoTime.dt_offset now); try done; apply Ok_inj in H; f_equal;
    apply Z.leb_gt in H; apply Z.leb_gt; lia.
Qed.

(** What the cache serves without the lock has not expired. *)
Lemma usable_unexpired s now c : usable s now = Ok (Some c) → cached s = Some c ∧ _is_expired c now = Ok false.
Proof.
  unfold usable. destruct (cached s) as [c'|]; [|done]. intros (expired & He & H)%bind_Ok.
  apply bind_Ok in H as (waiting & Hw & H). destruct waiting.
  - apply Ok_inj in H. injection H as ->. destruct expired; [done|]. done.
  - apply bind_Ok in H as (stale & Hs & H). apply Ok_inj in H. destruct stale; [done|]. injection H as ->.
    split; [done|]. by apply fresh_unexpired.
Qed.

(** ** The table of issued revisions *)

Definition bounded (s : t) : Prop := (length (issued_by_call s) <= MAXIMUM_CALLS)%nat ∧ dict_ok (issued_by_call s).

Lemma dset_new {V} k (v : V) d : dhas k d = false → dset k v d = d ++ [(k, v)].
Proof.
  unfold dhas. induction d as [|[k' v'] d IH]; [done|]. cbn [dkeys map fst dset].
  intros H%bool_decide_eq_false. rewrite not_elem_of_cons in H. destruct H as [Hne Hn].
  rewrite bool_decide_eq_false_2 by done. cbn [app]. f_equal. apply IH. by apply bool_decide_eq_false_2.
Qed.

Lemma dset_length {V} k (v : V) d : dhas k d = true → length (dset k v d) = length d.
Proof.
  unfold dhas. induction d as [|[k' v'] d IH]; cbn [dkeys map fst dset]; intros H%bool_decide_eq_true.
  - by apply elem_of_nil in H.
  - destruct (bool_decide (k = k')) eqn:Hk; [done|]. apply bool_decide_eq_false in Hk. cbn [length]. f_equal. apply IH, bool_decide_eq_true_2.
    apply elem_of_cons in H as [->|H]; [by destruct Hk|exact H].
Qed.

Lemma dget_app_new {V} k (v : V) d : k ∉ dkeys d → dget k (d ++ [(k, v)]) = Some v.
Proof.
  induction d as [|[k' v'] d IH]; cbn [dkeys map fst app dget]; [by rewrite bool_decide_eq_true_2|].
  rewrite not_elem_of_cons. intros [Hne Hn]. rewrite bool_decide_eq_false_2 by done. by apply IH.
Qed.

Lemma recent_keys cutoff d k : k ∉ dkeys d → k ∉ dkeys (recent cutoff d).
Proof.
  unfold dkeys, recent. intros Hn Hin. apply Hn. apply list_elem_of_In in Hin. apply list_elem_of_In.
  apply in_map_iff in Hin as (x & <- & Hx%filter_In). apply in_map, Hx.
Qed.

Lemma recent_ok cutoff d : dict_ok d → dict_ok (recent cutoff d).
Proof.
  unfold dict_ok. induction d as [|[k v] d IH]; [done|]. cbn [dkeys map fst]. intros [Hn Hd]%NoDup_cons.
  unfold recent. cbn [List.filter]. destruct (_ <? _)%Z; [|by apply IH]. cbn [dkeys map fst].
  apply NoDup_cons. split; [by apply recent_keys|by apply IH].
Qed.

Lemma recent_app cutoff d1 d2 : recent cutoff (d1 ++ d2) = recent cutoff d1 ++ recent cutoff d2.
Proof. apply List.filter_app. Qed.

(** Recording an issue keeps the table within its limit and ends with the call in it. *)
Lemma record_issued call_id revision now s r s' : bounded s → _record_issued call_id revision now s = (r, s') →
  cached s' = cached s ∧ (r = Ok () → bounded s' ∧
    (truthy call_id = true → dget call_id (issued_by_call s') = Some (revision, now))).
Proof.
  intros [Hlen Hok]. unfold _record_issued. destruct (truthy call_id) eqn:Ht; cbn [negb].
  2: { intros [= <- <-]. by split. }
  set (d := dset call_id (revision, now) (issued_by_call s)).
  assert (Hd : dict_ok d) by (by apply dict_ok_dset).
  destruct (Nat.leb_spec (length d) MAXIMUM_CALLS) as [Hle|Hgt].
  { intros [= <- <-]. split; [done|]. intros _. split; [done|]. intros _. apply dget_dset_eq. }
  destruct (GoTime.add_micros now (-600000000)) as [cutoff|e] eqn:Hcut; intros [= <- <-]; (split; [done|]); [|done].
  intros _. assert (Hnew : dhas call_id (issued_by_call s) = false).
  { destruct (dhas call_id (issued_by_call s)) eqn:E; [|done]. apply (dset_length _ (revision, now)) in E.
    fold d in E. lia. }
  assert (Hn : call_id ∉ dkeys (issued_by_call s)) by (by apply bool_decide_eq_false in Hnew).
  assert (Hrec : recent cutoff d = recent cutoff (issued_by_call s) ++ [(call_id, (revision, now))]).
  { unfold d. rewrite dset_new by done. rewrite recent_app. f_equal. unfold recent. cbn [List.filter snd].
    destruct (GoTime.add_micros_instant _ _ _ Hcut) as [-> _]. by rewrite (proj2 (Z.ltb_lt _ _)) by lia. }
  assert (Hnr : call_id ∉ dkeys (recent cutoff (issued_by_call s))) by (by apply recent_keys).
  assert (Hokr : dict_ok (recent cutoff d)) by (by apply recent_ok).
  destruct (Nat.leb_spec (length (recent cutoff d)) MAXIMUM_CALLS) as [Hle|Hgt'].
  - split; [by split|]. intros _. cbn [issued_by_call with_issued]. rewrite Hrec. by apply dget_app_new.
  - rewrite Hrec in *. destruct (recent cutoff (issued_by_call s)) as [|[k v] rest] eqn:Er.
    { cbn [app length] in Hgt'. unfold MAXIMUM_CALLS in Hgt'. lia. }
    assert (Hrest : (length rest < MAXIMUM_CALLS)%nat).
    { assert (length (recent cutoff (issued_by_call s)) <= length (issued_by_call s))%nat by apply List.filter_length_le.
      rewrite Er in H. cbn [length] in H. lia. }
    cbn [app tail]. split.
    + split; cbn [issued_by_call with_issued]; [rewrite length_app; cbn [length]; lia|].
      unfold dict_ok in *. cbn [app dkeys map] in Hokr. by apply NoDup_cons in Hokr as [_ Hokr].
    + intros _. apply dget_app_new. cbn [dkeys map fst] in Hnr. rewrite not_elem_of_cons in Hnr. apply Hnr.
Qed.

Lemma issue_Ok call_id c now s d s' : bounded s → issue call_id c now s = (Ok d, s') →
  d = credential c ∧ bounded s' ∧ cached s' = cached s ∧
  (truthy call_id = true → dget call_id (issued_by_call s') = Some (revision c, now)).
Proof.
  intros Hs. unfold issue. destruct (_record_issued call_id (revision c) now s) as [r s1] eqn:E.
  destruct (record_issued _ _ _ _ _ _ Hs E) as [Hc H]. intros [= Hr <-]. destruct r as [[]|e]; [|done].
  apply Ok_inj in Hr. destruct (H eq_refl) as [Hb Hd]. done.
Qed.

Lemma serve_Ok call_id current now s d s' : bounded s → serve call_id current now s = (Ok d, s') →
  ∃ c, current = Some c ∧ _is_expired c now = Ok false ∧ issue call_id c now s = (Ok d, s').
Proof.
  intros Hs. unfold serve. destruct current as [c|]; [|done]. destruct (_is_expired c now) as [[]|e] eqn:He; try done.
  intros H. by exists c.
Qed.

Lemma locked_Ok call_id now answer meanwhile s d s' : bounded s → (∀ x, bounded x → bounded (meanwhile x)) →
  resolve_locked call_id now answer meanwhile s = (Ok d, s') →
  ∃ c x, bounded x ∧ _is_expired c now = Ok false ∧ issue call_id c now x = (Ok d, s').
Proof.
  intros Hs Hm. unfold resolve_locked. destruct (needs_read s now) as [[]|e]; [| |done].
  - destruct answer as [c|e].
    + intros (c' & _ & He & Hi)%serve_Ok; [|by apply Hm]. exists c', (with_cached c (meanwhile s)).
      split; [by apply Hm|done].
    + destruct (isinst e _); [|done]. destruct (GoTime.add_micros now 10000000) as [after|e']; [|done].
      destruct (cached s) as [c|]; [|done]. destruct (_is_expired c now) as [[]|e']; try done.
      intros (c' & _ & He & Hi)%serve_Ok; [|by apply Hm]. exists c', (with_next_read after (meanwhile s)).
      split; [by apply Hm|done].
  - intros (c & _ & He & Hi)%serve_Ok; [|done]. by exists c, s.
Qed.

(** [SharedConnection.resolve] only returns a credential that has not expired when it looked, from
    the cache or from the broker, whatever the other tasks do while it waits for the lock and for the
    broker; the call is then recorded with the revision it was given, and the table of calls keeps
    within its limit. *)
Theorem resolve_serves_unexpired call_id now later answer waited meanwhile s d s' :
  bounded s → (∀ x, bounded x → bounded (waited x)) → (∀ x, bounded x → bounded (meanwhile x)) →
  resolve call_id now later answer waited meanwhile s = (Ok d, s') →
  ∃ c at_time, d = credential c ∧ (at_time = now ∨ at_time = later) ∧ _is_expired c at_time = Ok false ∧
    bounded s' ∧ (truthy call_id = true → dget call_id (issued_by_call s') = Some (revision c, at_time)).
Proof.
  intros Hs Hw Hm. unfold resolve. destruct (usable s now) as [[c|]|e] eqn:Hu; [| |done].
  - intros (-> & Hb & _ & Hd)%issue_Ok; [|done]. apply usable_unexpired in Hu as [_ Hu]. exists c, now. auto.
  - intros (c & x & Hx & He & Hi)%locked_Ok; [|by apply Hw|done].
    apply issue_Ok in Hi as (-> & Hb & _ & Hd); [|done]. exists c, later. auto.
Qed.

(** The credential that a call was given came from the cache or from the broker. *)
Definition offered (s : t) (waited : t → t) (answer : res BrokerCredential) (c : BrokerCredential) : Prop :=
  cached s = Some c ∨ cached (waited s) = Some c ∨ answer = Ok c.

Lemma issue_exact call_id c now s : bounded s → truthy call_id = true →
  ∃ r s', issue call_id c now s = (r, s') ∧ cached s' = cached s ∧
    ((r = Ok (credential c) ∧ dget call_id (issued_by_call s') = Some (revision c, now)) ∨
     ∃ e, GoTime.add_micros now (-600000000) = Err e ∧ r = Err e).
Proof.
  intros Hs Ht. destruct (issue call_id c now s) as [r s'] eqn:E. exists r, s'. split; [done|].
  destruct r as [d|e].
  - destruct (issue_Ok _ _ _ _ _ _ Hs E) as (-> & _ & Hc & Hd). split; [done|]. left. auto.
  - revert E. unfold issue, _record_issued. rewrite Ht. cbn [negb].
    destruct (length _ <=? MAXIMUM_CALLS)%nat; [done|].
    destruct (GoTime.add_micros now (-600000000)) as [x|e']; [done|]. intros [= <- <-].
    split; [done|]. right. by exists e'.
Qed.

(** What a call gets for a credential [c]: the credential, recorded as the one it was given, unless ten
    minutes before [now] is no date. *)
Definition given (call_id : pystr) (now : GoTime.datetime) (c : BrokerCredential) (r : res (dict json)) (s' : t) : Prop :=
  cached s' = Some c ∧
  ((r = Ok (credential c) ∧ dget call_id (issued_by_call s') = Some (revision c, now)) ∨
   ∃ e, GoTime.add_micros now (-600000000) = Err e ∧ r = Err e).

(** What a call gets that reports revision [n]: a cached credential of another revision, or what the
    broker answers when it is asked to replace [n], which is refused when it is [n] again. *)
Definition replaced (call_id : pystr) (now : GoTime.datetime) (n : Z) (answer : Z → res BrokerCredential)
    (known : option BrokerCredential) (r : res (dict json)) (s' : t) : Prop :=
  (∃ c, known = Some c ∧ revision c ≠ n ∧ given call_id now c r s') ∨
  ((∀ c, known = Some c → revision c = n) ∧
   ((∃ e, answer n = Err e ∧ r = Err e) ∨
    (∃ c, answer n = Ok c ∧ revision c = n ∧ cached s' = Some c ∧
       r = raise RejectedCredentialNotRefreshedError "the rejected credential was not refreshed") ∨
    (∃ c, answer n = Ok c ∧ revision c ≠ n ∧ given call_id now c r s'))).

Lemma resolve_gives call_id now later answer waited meanwhile s d s' :
  bounded s → (∀ x, bounded x → bounded (waited x)) → (∀ x, bounded x → bounded (meanwhile x)) → truthy call_id = true →
  resolve call_id now later answer waited meanwhile s = (Ok d, s') →
  ∃ c at_time, d = credential c ∧ offered s waited answer c ∧ dget call_id (issued_by_call s') = Some (revision c, at_time).
Proof.
  intros Hs Hw Hm Ht. unfold resolve, offered. destruct (usable s now) as [[c|]|e] eqn:Hu; [| |done].
  - intros (-> & _ & _ & Hd)%issue_Ok; [|done]. apply usable_unexpired in Hu as [Hu _]. exists c, now. auto.
  - unfold resolve_locked. assert (Hws := Hw _ Hs). assert (Hms := Hm _ Hws).
    destruct (needs_read (waited s) later) as [[]|e]; [| |done].
    + destruct answer as [c|e].
      * intros (c' & [= <-] & _ & Hi)%serve_Ok; [|done]. apply issue_Ok in Hi as (-> & _ & _ & Hd); [|done]. exists c, later. auto.
      * destruct (isinst e _); [|done]. destruct (GoTime.add_micros later 10000000) as [after|e']; [|done].
        destruct (cached (waited s)) as [c|] eqn:Hc; [|done]. destruct (_is_expired c later) as [[]|e']; try done.
        intros (c' & [= <-] & _ & Hi)%serve_Ok; [|done]. apply issue_Ok in Hi as (-> & _ & _ & Hd); [|done]. exists c, later. auto.
    + intros (c & Hc & _ & Hi)%serve_Ok; [|done]. apply issue_Ok in Hi as (-> & _ & _ & Hd); [|done]. exists c, later. auto.
Qed.

(** C29: a call that reports the credential it was given rejected is never given that revision again.
    After [resolve] gave a call with an id a credential [c], and while the table of calls keeps its entry
    (whatever else other tasks do to the cache: [s2] is any state with that entry), the forced read either
    returns a cached credential of another revision, or asks the broker to replace [c]'s revision: its
    error is passed on, the same revision is refused with RejectedCredentialNotRefreshedError, and another
    revision is cached, returned and recorded as the call's.  (The one other error is the OverflowError of
    subtracting ten minutes from the first minutes of year 1.) *)
Theorem rejected_never_served call_id now later answer waited meanwhile s d s1 s2 now' answer' meanwhile' r s3 :
  truthy call_id = true →
  bounded s → (∀ x, bounded x → bounded (waited x)) → (∀ x, bounded x → bounded (meanwhile x)) →
  resolve call_id now later answer waited meanwhile s = (Ok d, s1) →
  bounded s2 → dget call_id (issued_by_call s2) = dget call_id (issued_by_call s1) →
  (∀ x, bounded x → bounded (meanwhile' x)) →
  resolve_after_rejection call_id now' answer' meanwhile' s2 = (r, s3) →
  ∃ c, d = credential c ∧ offered s waited answer c ∧ replaced call_id now' (revision c) answer' (cached s2) r s3.
Proof.
  intros Ht Hs Hw Hm H1 Hs2 Hkept Hm' H2.
  destruct (resolve_gives _ _ _ _ _ _ _ _ _ Hs Hw Hm Ht H1) as (c & tm & -> & Ho & Hd). exists c. split_and!; [done..|].
  rewrite Hd in Hkept. revert H2. unfold resolve_after_rejection.
  replace (rejected_revision call_id s2) with (revision c) by (unfold rejected_revision; by rewrite Hkept).
  assert (Hgive : ∀ c' x, bounded x → cached x = Some c' → issue call_id c' now' x = (r, s3) → given call_id now' c' r s3).
  { intros c' x Hx Hc' E. destruct (issue_exact call_id c' now' x Hx Ht) as (r1 & x1 & E1 & Hc1 & Hcase).
    rewrite E in E1. injection E1 as <- <-. split; [congruence|done]. }
  unfold replaced. destruct (cached s2) as [c2|] eqn:Hc2.
  - destruct (Z.eqb_spec (revision c2) (revision c)) as [He|Hne].
    + intros H2. right. split; [by intros ? [= <-]|]. revert H2.
      destruct (answer' (revision c)) as [c'|e]; [|intros [= <- <-]; left; by exists e].
      destruct (Z.eqb_spec (revision c') (revision c)) as [He'|Hne']; intros H2; right; [left|right]; exists c'.
      * injection H2 as <- <-. by split_and!.
      * split_and!; [done..|]. eapply Hgive, H2; [apply Hm', Hs2|done].
    + intros H2. left. exists c2. split_and!; [done..|]. eapply Hgive, H2; done.
  - intros H2. right. split; [done|]. revert H2.
    destruct (answer' (revision c)) as [c'|e]; [|intros [= <- <-]; left; by exists e].
    destruct (Z.eqb_spec (revision c') (revision c)) as [He'|Hne']; intros H2; right; [left|right]; exists c'.
    + injection H2 as <- <-. by split_and!.
    + split_and!; [done..|]. eapply Hgive, H2; [apply Hm', Hs2|done].
Qed.

(** ** Concrete calls *)

Definition at_hour (h : Z) : GoTime.datetime := GoTime.DT 2026 1 1 h 0 0 0 (Some 0%Z).
Definition sample (n : Z) (expiry : option GoTime.datetime) : BrokerCredential :=
  mkCredential [(lit "token", JInt n)] n (Some (at_hour 0)) expiry (at_hour 0).
Definition empty_cache : t := mk (lit "shared") None [] GoTime.datetime_min_utc.
Definition holding (c : BrokerCredential) : t := with_cached c empty_cache.

Lemma empty_bounded c : bounded (holding c).
Proof. split; [vm_compute; lia|constructor]. Qed.

Lemma resolve_serves_unexpired_witness :
  let r := resolve (lit "call") (at_hour 1) (at_hour 1) (Ok (sample 2 (Some (at_hour 9)))) id id
             (holding (sample 1 (Some (at_hour 1)))) in
  fst r = Ok [(lit "token", JInt 2)] ∧ dget (lit "call") (issued_by_call (snd r)) = Some (2%Z, at_hour 1).
Proof.
  cbv zeta. assert (H : resolve (lit "call") (at_hour 1) (at_hour 1) (Ok (sample 2 (Some (at_hour 9)))) id id
             (holding (sample 1 (Some (at_hour 1)))) = (Ok [(lit "token", JInt 2)],
             with_issued [(lit "call", (2%Z, at_hour 1))] (holding (sample 2 (Some (at_hour 9))))))
    by (vm_compute; reflexivity).
  destruct (resolve_serves_unexpired (lit "call") (at_hour 1) (at_hour 1) (Ok (sample 2 (Some (at_hour 9)))) id id
             (holding (sample 1 (Some (at_hour 1)))) _ _ (empty_bounded _) (λ x Hx, Hx) (λ x Hx, Hx) H)
    as (c & at_time & _ & _ & _ & _ & Hd).
  rewrite H. split; [reflexivity|]. reflexivity.
Defined.

(** A call that was given revision 1 from the cache asks again: the broker is asked to replace revision 1. *)
Lemma rejected_never_served_witness :
  let s1 := snd (resolve (lit "call") (at_hour 0) (at_hour 0) (raise ValueError "not asked") id id (holding (sample 1 None))) in
  let r := resolve_after_rejection (lit "call") (at_hour 1) (λ n, Ok (sample (n + 1) None)) id s1 in
  fst r = Ok [(lit "token", JInt 2)] ∧
  ∃ c, [(lit "token", JInt 1)] = credential c ∧
    replaced (lit "call") (at_hour 1) (revision c) (λ n, Ok (sample (n + 1) None)) (cached s1) (fst r) (snd r).
Proof.
  cbv zeta.
  set (s1 := snd (resolve _ _ _ _ _ _ _)).
  assert (H : resolve (lit "call") (at_hour 0) (at_hour 0) (raise ValueError "not asked") id id (holding (sample 1 None))
              = (Ok [(lit "token", JInt 1)], s1)) by (vm_compute; reflexivity).
  set (r := resolve_after_rejection _ _ _ _ s1). split; [vm_compute; reflexivity|].
  destruct (rejected_never_served (lit "call") (at_hour 0) (at_hour 0) (raise ValueError "not asked") id id
              (holding (sample 1 None)) _ s1 s1 (at_hour 1) (λ n, Ok (sample (n + 1) None)) id (fst r) (snd r)
              eq_refl (empty_bounded _) (λ x Hx, Hx) (λ x Hx, Hx) H)
    as (c & Hd & _ & Hc).
  - split; [vm_compute; lia|vm_compute; repeat constructor; set_solver].
  - reflexivity.
  - exact (λ x Hx, Hx).
  - apply surjective_pairing.
  - exists c. exact (conj Hd Hc).
Defined.

(** After a rejection a credential that has already expired is returned, be it the cached one or
    the broker's answer: [resolve] refuses both. *)
Theorem expired_after_rejection :
  let expired := sample 2 (Some (at_hour 1)) in
  _is_expired expired (at_hour 5) = Ok true ∧
  fst (resolve_after_rejection (lit "call") (at_hour 5) (λ _, Ok expired) id (holding (sample 1 None)))
    = Ok (credential expired) ∧
  fst (resolve (lit "call") (at_hour 5) (at_hour 5) (Ok expired) id id empty_cache)
    = raise CredentialBrokerUnavailableError "shared credential is expired".
Proof. vm_compute. done. Qed.

(** ** The requests of a read *)

Section Requests.
Context (fromisoformat : pystr → res GoTime.datetime).
Context {W : Type} (read_token : SecretRef.t → W → res pystr * W) (current_token_reference : W → res SecretRef.t * W)
        (post : pystr → dict json → W → res reply * W) (clock : W → GoTime.datetime)
        (others : Client * W → Client * W).
(** The tokens this task has sent to the broker; only [post] adds to them. *)
Context (sent : W → list pystr).
Context (Hpost : ∀ t body w, sent (snd (post t body w)) = sent w ++ [t])
        (Htoken : ∀ r w, sent (snd (read_token r w)) = sent w)
        (Hreference : ∀ w, sent (snd (current_token_reference w)) = sent w)
        (Hothers : ∀ s, sent (snd (others s)) = sent (snd s)).

Lemma get_token_sends s r s' : _get_token read_token s = (r, s') → sent (snd s') = sent (snd s).
Proof using Htoken.
  destruct s as [c w]. unfold _get_token. destruct (truthy (token c)); [by intros [= <- <-]|].
  pose proof (Htoken (token_reference c) w) as H. destruct (read_token (token_reference c) w) as [[t|e] w'];
    intros [= <- <-]; exact H.
Qed.

Lemma renew_token_sends refused s r s' : _renew_token read_token current_token_reference refused s = (r, s') →
  sent (snd s') = sent (snd s).
Proof using Htoken Hreference.
  destruct s as [c w]. unfold _renew_token. destruct (_ && _); [by intros [= <- <-]|].
  pose proof (Hreference w) as Hr. destruct (current_token_reference w) as [[ref|e] w1]; [|intros [= <- <-]; exact Hr].
  pose proof (Htoken ref w1) as Ht. destruct (read_token ref w1) as [[t|e] w2]; intros [= <- <-]; cbn [snd] in *; congruence.
Qed.

Lemma post_sends t body s r s' : _post post t body s = (r, s') → sent (snd s') = sent (snd s) ++ [t].
Proof using Hpost.
  destruct s as [c w]. unfold _post. pose proof (Hpost t body w) as H. destruct (post t body w) as [x w'].
  intros [= <- <-]. exact H.
Qed.

(** One read of the broker sends at most two requests: one with the token it holds, and after a
    401 one more, never with the token that was refused. *)
Theorem read_sends_at_most_two id rejected s r s' :
  read fromisoformat read_token current_token_reference post clock others id rejected s = (r, s') →
  ∃ tokens, sent (snd s') = sent (snd s) ++ tokens ∧ NoDup tokens ∧ (length tokens <= 2)%nat.
Proof using Hpost Htoken Hreference Hothers.
  unfold read. destruct (read_request id rejected) as [body|e]; [|intros [= <- <-]; exists []; by rewrite app_nil_r; split_and!; [|constructor|cbn; lia]].
  destruct (_get_token read_token s) as [[t|e] s1] eqn:Hg; apply get_token_sends in Hg.
  2: { intros [= <- <-]. exists []. rewrite Hg, app_nil_r. split_and!; [done|constructor|cbn; lia]. }
  destruct (_post post t body s1) as [a s2] eqn:Hp. apply post_sends in Hp. rewrite Hg in Hp.
  assert (Hone : ∀ s3 : Client * W, sent (snd s3) = sent (snd s2) → ∃ tokens,
            sent (snd s3) = sent (snd s) ++ tokens ∧ NoDup tokens ∧ (length tokens <= 2)%nat).
  { intros s3 H3. exists [t]. rewrite H3, Hp. split_and!; [done|apply NoDup_singleton|cbn; lia]. }
  assert (Hdecoded : ∀ x, (x, s2) = (r, s') → ∃ tokens,
            sent (snd s') = sent (snd s) ++ tokens ∧ NoDup tokens ∧ (length tokens <= 2)%nat).
  { intros x [= _ <-]. by apply Hone. }
  destruct (match a with Ok (code, _) => _ | Err _ => _ end); [|apply Hdecoded].
  destruct (_renew_token read_token current_token_reference t (others s2)) as [[renewed|e] s3] eqn:Hr;
    apply renew_token_sends in Hr; rewrite Hothers in Hr.
  2: { intros [= _ <-]. by apply Hone. }
  case_bool_decide as Heq; [intros [= _ <-]; by apply Hone|].
  destruct (_post post renewed body s3) as [a2 s4] eqn:Hp2. apply post_sends in Hp2. intros [= _ <-].
  exists [t; renewed]. rewrite Hp2, Hr, Hp, <- app_assoc. split_and!; [done| |cbn; lia].
  apply NoDup_cons. split; [|apply NoDup_singleton]. intros ?%list_elem_of_singleton. congruence.
Qed.

End Requests.

(** A world in which every token is refused, then a newly read one is sent. *)
Lemma read_sends_at_most_two_witness :
  let reference := SecretRef.mk [] [] [] in
  let r := read GoTime.fromisoformat (W:=list pystr) (λ _ w, (Ok (lit "new"), w)) (λ w, (Ok reference, w))
             (λ t _ w, (Ok (mkReply 401 [] None), w ++ [t])) (λ _, at_hour 1) id (lit "shared") 0
             (mkClient (lit "old") reference, []) in
  snd (snd r) = [lit "old"; lit "new"] ∧
  ∃ tokens, snd (snd r) = [] ++ tokens ∧ NoDup tokens ∧ (length tokens <= 2)%nat.
Proof.
  cbv zeta. split; [vm_compute; reflexivity|].
  apply (read_sends_at_most_two GoTime.fromisoformat (W:=list pystr) (λ _ w, (Ok (lit "new"), w))
           (λ w, (Ok (SecretRef.mk [] [] []), w)) (λ t _ w, (Ok (mkReply 401 [] None), w ++ [t])) (λ _, at_hour 1) id id
           (λ _ _ _, eq_refl) (λ _ _, eq_refl) (λ _, eq_refl) (λ _, eq_refl) (lit "shared") 0
           (mkClient (lit "old") (SecretRef.mk [] [] []), []) _ _ (surjective_pairing _)).
Defined.

End BrokerFacts.
