(* ===== verification/Loading.v ===== *)
(** * Loading a project

    sdkpython/src/dex_connectors/sdk/projectconfig/__init__.py: choosing between local files and hosted
    storage from the environment, loading a pinned snapshot with its shared connections, the local
    credential document, and the reads of a loaded project.  [repr] of containers,
    [datetime.fromisoformat], [urlsplit]'s Unicode test and the private ranges of the installed
    [ipaddress] are parameters; files are read by the caller. *)

From S2P Require Import Prelude Json JsonText Timestamps Identity AddressPolicy Url ProjectModels ProjectStorage.
From S2P Require Import Definitions StoreProgram ProjectConnections ProjectProvider Broker.

Definition LOCAL_CONNECTIONS_SCHEMA_VERSION : pystr := "connectors.dex.dev/local-connections/v1alpha1".
Definition LOCAL_CONNECTIONS_FILE_ENVIRONMENT : pystr := "DEX_CONNECTOR_CONFIG_FILE".

Definition local_scope : Scope.t := Scope.mk (lit "local") (lit "preview").

(** ** Selecting a project *)

Section Endpoints.
Context (netloc_ok : pystr → bool) (stdlib_is_private : ip → bool).

Definition local_host (host : pystr) : bool :=
  bool_decide (host = lit "localhost") || bool_decide (host = lit "host.docker.internal")
  || ends_with ".svc.cluster.local" host
  || match ip_address host with Some a => is_loopback a || stdlib_is_private a | None => false end.

(** [_is_local_storage_endpoint]. *)
Definition _is_local_storage_endpoint (value : pystr) : res bool :=
  parsed ← urlsplit netloc_ok value;
  Ok ((bool_decide (scheme parsed = lit "http") || bool_decide (scheme parsed = lit "https"))
      && opt_truthy (hostname parsed) && negb (opt_truthy (username parsed)) && negb (opt_truthy (password parsed))
      && negb (truthy (query parsed)) && negb (truthy (fragment parsed))
      && (bool_decide (Url.path parsed = []) || bool_decide (Url.path parsed = lit "/"))
      && local_host (default [] (hostname parsed))).

(** What [load_from_environment] goes on with: Dex Web's files, or a pinned snapshot in S3. *)
Inductive selection :=
  | LocalFiles (path : pystr)
  | Hosted (scope : Scope.t) (endpoint bucket prefix kms_key_arn : pystr) (allow_unencrypted : bool)
      (reference : SnapshotRef.t).

Definition env_or (name default : pystr) (values : dict pystr) : pystr :=
  match dget name values with Some v => v | None => default end.
Definition env (name : pystr) (values : dict pystr) : pystr := env_or name [] values.

Definition hosted_selectors : list pystr :=
  [lit "DEX_PROJECT_ID"; lit "DEX_PROJECT_SCOPE"; lit "DEX_PROJECT_CONFIG_KEY"; lit "DEX_PROJECT_STORAGE_BUCKET"].

(** The checks of [load_from_environment]. *)
Definition select_project (values : dict pystr) : res selection :=
  let local_path := env LOCAL_CONNECTIONS_FILE_ENVIRONMENT values in
  if truthy local_path then
    raise_if (existsb (λ name, truthy (env name values)) hosted_selectors)
      ValueError "local and hosted project configuration selectors conflict" ≫= λ _,
    Ok (LocalFiles local_path)
  else
    let scope := Scope.mk (env "DEX_PROJECT_ID" values) (env "DEX_PROJECT_SCOPE" values) in
    Scope.prefix scope ≫= λ _,
    let allow_local := env_or "DEX_PROJECT_ALLOW_LOCAL_STORAGE" "false" values in
    let opted := bool_decide (allow_local = lit "true") in
    raise_if (negb opted && negb (bool_decide (allow_local = lit "false")))
      ValueError "project local storage opt-in must be true or false" ≫= λ _,
    let endpoint := env "DEX_PROJECT_STORAGE_ENDPOINT" values in
    refused ← (if truthy endpoint then
                 if negb opted then Ok true else local ← _is_local_storage_endpoint endpoint; Ok (negb local)
               else Ok false);
    raise_if refused ValueError "custom project storage endpoint requires explicit local opt-in" ≫= λ _,
    raise_if (opted && negb (truthy endpoint)) ValueError "local project storage requires an endpoint" ≫= λ _,
    let bucket := env "DEX_PROJECT_STORAGE_BUCKET" values in
    raise_if (negb (truthy bucket)) ValueError "project storage bucket is required" ≫= λ _,
    Ok (Hosted scope endpoint bucket (env "DEX_PROJECT_STORAGE_PREFIX" values)
          (env "DEX_PROJECT_STORAGE_KMS_KEY_ARN" values) opted
          (SnapshotRef.mk (env "DEX_PROJECT_CONFIG_KEY" values) (env "DEX_PROJECT_CONFIG_VERSION" values)
             (env "DEX_PROJECT_CONFIG_DIGEST" values) "application/json")).

(** The stores that [load_from_environment] opens for a hosted selection. *)
Definition hosted_store (versioning_status : option pystr) (s : selection) : res S3.t :=
  match s with
  | Hosted _ _ bucket prefix kms_key_arn allow_unencrypted _ =>
      S3.create versioning_status (S3.init true bucket prefix kms_key_arn allow_unencrypted)
  | LocalFiles _ => raise ValueError "local files have no store"
  end.

End Endpoints.

(** ** Local credentials *)

Section Credentials.
Context (repr : json → pystr) (fromisoformat : pystr → res GoTime.datetime).

Definition record_text (name : pystr) (record : dict json) : pystr := py_str repr (get_or name (JStr []) record).

Definition local_key (record : dict json) : ConnectionKey.t :=
  ConnectionKey.mk (record_text "connectorId" record) (record_text "connectionName" record).

(** [str(record.get("authMethodId") or (methods[0] if ... else "local"))]. *)
Definition local_auth_method (record : dict json) : pystr :=
  py_str repr
    (if jtruthy (get "authMethodId" record) then get "authMethodId" record
     else match get_or "authMethodIds" (JArr []) record with
          | JArr [m] => m
          | _ => JStr "local"
          end).

Definition local_expiry (record : dict json) : res (option GoTime.datetime) :=
  match get "credentialExpiresAt" record with
  | JNull => Ok None
  | JStr s => if truthy s then t ← fromisoformat (replace_char 90 "+00:00" s); Ok (Some t) else Ok None
  | _ => raise ValueError "local credential expiry is invalid"
  end.

(** One entry of the document. *)
Definition local_entry (known : list ConnectionKey.t) (index : nat) (raw : json)
    : res (ConnectionKey.t * CredentialMaterial) :=
  record ← require_object raw ("connection " ++ str_of_Z (Z.of_nat index));
  let key := local_key record in
  ConnectionKey.path key local_scope ≫= λ _,
  raise_if (bool_decide (key ∈ known)) ValueError "duplicate local connection" ≫= λ _,
  material ← require_object (get "credentials" record) "credentials";
  expires ← local_expiry record;
  Ok (key, mkMaterial material (GoTime.TDate <$> expires) (local_auth_method record)).

Fixpoint local_entries (known : list ConnectionKey.t) (index : nat) (raw : list json)
    : res (list (ConnectionKey.t * CredentialMaterial)) :=
  match raw with
  | [] => Ok []
  | x :: raw =>
      entry ← local_entry known index x;
      rest ← local_entries (fst entry :: known) (S index) raw;
      Ok (entry :: rest)
  end.

(** [_decode_local_credentials]. *)
Definition _decode_local_credentials (source : dict json) : res (list (ConnectionKey.t * CredentialMaterial)) :=
  raise_if (negb (py_eq (get "schemaVersion" source) (JStr LOCAL_CONNECTIONS_SCHEMA_VERSION)))
    ValueError "unsupported connector configuration schema version" ≫= λ _,
  match get "connections" source with
  | JArr raw => local_entries [] 0 raw
  | _ => raise ValueError "connections.json requires connections"
  end.

(** [_read_private_file] of a file: its type and permission bits, and its bytes. *)
Definition _read_private_file (regular : bool) (mode : N) (contents : list N) (name : pystr) : res (dict json) :=
  raise_if (negb regular || negb (mode =? 384)%N) ValueError (name ++ " must be a regular 0600 file") ≫= λ _,
  value ← loads_bytes contents; require_object value name.

End Credentials.

Fixpoint key_get {V} (key : ConnectionKey.t) (d : list (ConnectionKey.t * V)) : option V :=
  match d with
  | [] => None
  | (k, v) :: d => if bool_decide (key = k) then Some v else key_get key d
  end.

(** ** A loaded project *)

Section Loaded.
Context {F S : Type} `{VersionedStore F S}.
Context (json_loads : list N → res json).
Context (repr : json → pystr) (netloc_ok : pystr → bool) (stdlib_is_private : ip → bool).
Context (scope : Scope.t).

Record LoadedProject := mkLoaded {
  configuration : Configuration.t;
  snapshot : SnapshotRef.t;
  local_credentials : option (list (ConnectionKey.t * CredentialMaterial));
  shared_connections : list (ConnectionKey.t * SharedConnection.t)
}.

(** The connections of a configuration that the broker serves, as the dict comprehension builds them. *)
Definition shared_entries (c : Configuration.t) : list (ConnectionKey.t * pystr) :=
  map (λ e, (ConnectionKey.mk (Connection.connector_id e) (Connection.connection_name e),
             Connection.shared_connection_id e))
    (List.filter Configuration.is_shared (Configuration.connections c)).

Fixpoint open_shared (entries : list (ConnectionKey.t * pystr)) : res (list (ConnectionKey.t * SharedConnection.t)) :=
  match entries with
  | [] => Ok []
  | (k, id) :: rest => s ← SharedConnection.init id; r ← open_shared rest; Ok ((k, s) :: r)
  end.

(** [load_project_from_object_store]; [own_connections] when the caller supplies a connection store. *)
Definition load_project_from_object_store (s : S) (key : pystr) (reference : SnapshotRef.t) (own_connections : bool)
    : res LoadedProject :=
  c ← read_snapshot json_loads repr netloc_ok stdlib_is_private scope s key reference;
  raise_if (own_connections && existsb Configuration.is_shared (Configuration.connections c))
    ValueError "an externally supplied connection store cannot bind shared connections" ≫= λ _,
  shared ← (match Configuration.credential_broker c with
            | Some b => validate_broker_endpoint netloc_ok stdlib_is_private (Broker.endpoint b) ≫= λ _,
                        open_shared (shared_entries c)
            | None => Ok []
            end);
  Ok (mkLoaded c reference None shared).

(** Where [resolve_credential] takes a credential from: a shared connection, local files, or the store. *)
Inductive credential_source := FromShared (s : SharedConnection.t) | FromLocal (c : dict json) | FromStore.

(** [resolve_credential]; [file] is what reading [local_connections_path] gives, where there is one. *)
Definition resolve_credential (fromisoformat : pystr → res GoTime.datetime) (p : LoadedProject)
    (file : option (res (dict json))) (key : ConnectionKey.t) : res credential_source :=
  match key_get key (shared_connections p) with
  | Some s => Ok (FromShared s)
  | None =>
      match local_credentials p with
      | None => Ok FromStore
      | Some held =>
          local ← match file with
                  | Some source => d ← source; _decode_local_credentials repr fromisoformat d
                  | None => Ok held
                  end;
          match key_get key local with
          | Some m => Ok (FromLocal (credentials m))
          | None => raise LookupError "project connection not found"
          end
      end
  end.

Definition resolve_after_rejection (p : LoadedProject) (key : ConnectionKey.t) : res SharedConnection.t :=
  match key_get key (shared_connections p) with
  | Some s => Ok s
  | None => raise ValueError "connection does not use a shared credential broker"
  end.

(** [resolve_application_environment]. *)
Definition environment_entry (s : S) (kv : pystr * EnvironmentValue.t) : res (option (pystr * pystr)) :=
  let '(name, value) := kv in
  match EnvironmentValue.value value, EnvironmentValue.secret_ref value with
  | Some v, _ => Ok (Some (name, v))
  | None, Some r => v ← read_secret_value json_loads scope s r name; Ok (Some (name, v))
  | None, None => Ok None
  end.

Fixpoint resolve_environment (s : S) (entries : dict EnvironmentValue.t) : res (dict pystr) :=
  match entries with
  | [] => Ok []
  | kv :: rest =>
      e ← environment_entry s kv;
      r ← resolve_environment s rest;
      Ok (match e with Some x => x :: r | None => r end)
  end.

Definition resolve_application_environment (s : S) (p : LoadedProject) : res (dict pystr) :=
  resolve_environment s (Configuration.environment (configuration p)).

End Loaded.

(** ** Theorems *)

Module LoadingFacts.

(** What the environment selects is guarded: local files exclude every hosted selector, and hosted
    storage that is opened without a customer key is a versioned bucket behind an explicitly opted-in
    endpoint on a local or cluster host. *)
Theorem selection_guarded netloc_ok stdlib_is_private values sel :
  select_project netloc_ok stdlib_is_private values = Ok sel →
  match sel with
  | LocalFiles path => path ≠ [] ∧ ∀ name, name ∈ hosted_selectors → env name values = []
  | Hosted scope endpoint bucket prefix kms allow reference =>
      is_ok (Scope.prefix scope) = true ∧ (allow = true ↔ endpoint ≠ []) ∧
      ∀ versioning store, hosted_store versioning sel = Ok store →
        versioning = Some (lit "Enabled") ∧ S3.bucket store ≠ [] ∧
        (S3.kms_key_arn_match kms = true ∨
         kms = [] ∧ _is_local_storage_endpoint netloc_ok stdlib_is_private endpoint = Ok true)
  end.
Proof.
  unfold select_project. destruct (truthy (env LOCAL_CONNECTIONS_FILE_ENVIRONMENT values)) eqn:Hl.
  - intros ([] & Hc%raise_if_Ok & H)%bind_Ok. apply Ok_inj in H as <-. split; [by apply truthy_true|].
    intros name Hin. apply truthy_false. destruct (truthy (env name values)) eqn:Ht; [|done].
    rewrite <- Hc. symmetry. apply existsb_exists. exists name. split; [by apply list_elem_of_In|done].
  - intros (p & Hp & H)%bind_Ok. apply bind_Ok in H as ([] & Ho%raise_if_Ok & H).
    apply bind_Ok in H as (refused & Hr & H). apply bind_Ok in H as ([] & Hr'%raise_if_Ok & H). subst refused.
    apply bind_Ok in H as ([] & He%raise_if_Ok & H). apply bind_Ok in H as ([] & Hb%raise_if_Ok & H).
    apply Ok_inj in H as <-. cbn [hosted_store].
    set (opted := bool_decide (env_or "DEX_PROJECT_ALLOW_LOCAL_STORAGE" "false" values = lit "true")) in *.
    split; [by rewrite Hp|]. split.
    + rewrite <- truthy_true. destruct opted, (truthy (env "DEX_PROJECT_STORAGE_ENDPOINT" values)); try done.
    + intros versioning store Hs. unfold S3.create in Hs. apply bind_Ok in Hs as (st & Hi & Hs).
      apply bind_Ok in Hs as ([] & Hv%raise_if_Ok & Hs). apply Ok_inj in Hs as <-.
      apply negb_false_iff, bool_decide_eq_true in Hv. split; [done|].
      unfold S3.init in Hi. apply bind_Ok in Hi as ([] & Hg%raise_if_Ok & Hi).
      apply bind_Ok in Hi as ([] & _ & Hi). apply Ok_inj in Hi as <-. cbn [S3.bucket].
      apply orb_false_iff in Hg as [Hg Hk%negb_false_iff]. split.
      * apply negb_false_iff in Hb. by apply truthy_true.
      * apply orb_prop in Hk as [Hk|[Ha Hk]%andb_prop]; [by left|right]. apply negb_true_iff, truthy_false in Hk.
        split; [done|]. rewrite Ha in Hr, He. cbn [andb negb] in *. apply negb_false_iff in He. rewrite He in Hr.
        apply bind_Ok in Hr as (local & Hlocal & Hr). apply Ok_inj in Hr. apply negb_false_iff in Hr. by subst local.
Qed.

(** The entries of the document, the keys before them known. *)
Lemma local_entries_ok repr fromisoformat raw : ∀ known n l,
  local_entries repr fromisoformat known n raw = Ok l →
  length l = length raw ∧ NoDup (map fst l) ∧ (∀ k, k ∈ map fst l → k ∉ known) ∧
  ∀ k m, key_get k l = Some m → is_ok (ConnectionKey.path k local_scope) = true.
Proof.
  induction raw as [|x raw IH]; intros known n l H; cbn [local_entries] in H.
  - apply Ok_inj in H as <-. split_and!; [done|constructor|by intros k ?%elem_of_nil|done].
  - apply bind_Ok in H as ([k m] & He & H). apply bind_Ok in H as (rest & Hr & H). apply Ok_inj in H as <-.
    destruct (IH _ _ _ Hr) as (Hlen & Hnd & Hnew & Hpath). cbn [fst] in *.
    unfold local_entry in He. apply bind_Ok in He as (record & _ & He). apply bind_Ok in He as (p & Hp & He).
    apply bind_Ok in He as ([] & Hd%raise_if_Ok & He). apply bind_Ok in He as (mat & _ & He).
    apply bind_Ok in He as (ex & _ & He). apply Ok_inj in He. injection He as <- _.
    apply bool_decide_eq_false in Hd. cbn [length map fst]. split_and!.
    + by rewrite Hlen.
    + apply NoDup_cons. split; [|done]. intros Hin. apply (Hnew _ Hin). by left.
    + intros k' [->|Hk]%elem_of_cons; [done|]. intros Hin. apply (Hnew k' Hk). by right.
    + intros k' m' Hk. cbn [key_get] in Hk. case_bool_decide as E; [|by eapply Hpath]. subst k'. by rewrite Hp.
Qed.

Lemma decoded_entries repr fromisoformat source l :
  _decode_local_credentials repr fromisoformat source = Ok l →
  ∃ raw, get "connections" source = JArr raw ∧ local_entries repr fromisoformat [] 0 raw = Ok l.
Proof.
  unfold _decode_local_credentials. intros ([] & _ & H)%bind_Ok.
  destruct (get "connections" source) as [| | | | |raw|]; try done. by exists raw.
Qed.

(** A local credential document is read completely or not at all: one material per entry, the keys
    distinct and every key with a valid path. *)
Theorem local_credentials_complete repr fromisoformat source l :
  _decode_local_credentials repr fromisoformat source = Ok l →
  ∃ raw, get "connections" source = JArr raw ∧ length l = length raw ∧ NoDup (map fst l) ∧
    ∀ k m, key_get k l = Some m → is_ok (ConnectionKey.path k local_scope) = true.
Proof.
  intros (raw & Hraw & Hl)%decoded_entries. apply local_entries_ok in Hl as (H1 & H2 & _ & H4). by exists raw.
Qed.

Section Pinned.
Context {F S : Type} {ops : ObjectStore F S} {laws : VersionedStore F S}.
Context (json_loads : list N → res json).
Context (repr : json → pystr) (netloc_ok : pystr → bool) (stdlib_is_private : ip → bool).
Context (scope : Scope.t).

(** A version that was read once is read for ever. *)
Lemma write_keeps_version (r : res Object * S) s key contents allowed k v o :
  write_outcome (F:=F) r s key contents allowed → v ≠ [] → read_object s k v = Ok o → read_object (snd r) k v = Ok o.
Proof.
  assert (Hw : ∀ s' o', written (F:=F) s s' key contents o' → v ≠ [] → read_object s k v = Ok o →
            read_object s' k v = Ok o).
  { intros s' o' (_ & _ & _ & Hother & Hsame) Hv Hr. destruct (decide (k = key)) as [->|Hne]; [by apply Hsame|].
    by rewrite Hother. }
  destruct r as [[o'|e] s']; cbn [snd write_outcome].
  - intros [_ Hwr]. by apply (Hw s' o').
  - intros [->|(_ & _ & o' & Hwr)]; [done|]. by apply (Hw s' o').
Qed.

Lemma version_persists s s' k v o : well_formed s → evolves s s' → v ≠ [] → read_object s k v = Ok o →
  read_object s' k v = Ok o.
Proof.
  intros Hs He Hv. induction He as [s|f s s' key contents He IH|f s s' key etag contents He IH]; [done|..];
    intros Hr; assert (Hs' : well_formed s') by (by eapply evolves_well_formed).
  - eapply write_keeps_version; [by apply create_law|done|by apply IH].
  - eapply write_keeps_version; [by apply swap_law|done|by apply IH].
Qed.

Lemma snapshot_persists s s' key reference c : well_formed s → evolves s s' →
  read_snapshot json_loads repr netloc_ok stdlib_is_private scope s key reference = Ok c →
  read_snapshot json_loads repr netloc_ok stdlib_is_private scope s' key reference = Ok c.
Proof.
  intros Hs He. unfold read_snapshot. intros ([] & Hv & Hr)%bind_Ok. rewrite Hv. cbn [mbind result_bind].
  apply bind_Ok in Hr as (item & Hitem & Hr). erewrite version_persists; [exact Hr|exact Hs|exact He| |exact Hitem].
  unfold SnapshotRef.validate in Hv. apply bind_Ok in Hv as (p & _ & Hc%raise_if_Ok).
  intros Hn. rewrite Hn in Hc. cbn [truthy negb] in Hc. by rewrite orb_true_r in Hc.
Qed.

Lemma secret_persists s s' r name v : well_formed s → evolves s s' →
  read_secret_value json_loads scope s r name = Ok v → read_secret_value json_loads scope s' r name = Ok v.
Proof.
  intros Hs He. unfold read_secret_value. intros ([] & Hv & Hr)%bind_Ok. rewrite Hv. cbn [mbind result_bind].
  apply bind_Ok in Hr as (item & Hitem & Hr). erewrite version_persists; [exact Hr|exact Hs|exact He| |exact Hitem].
  unfold validate_secret_reference in Hv. apply bind_Ok in Hv as (p & _ & Hc%raise_if_Ok).
  intros Hn. rewrite Hn in Hc. cbn [truthy negb] in Hc. by rewrite !orb_true_r in Hc.
Qed.

Lemma environment_persists s s' entries d : well_formed s → evolves s s' →
  resolve_environment json_loads scope s entries = Ok d → resolve_environment json_loads scope s' entries = Ok d.
Proof.
  intros Hs He. revert d. induction entries as [|[name e] entries IH]; intros d; [done|]. cbn [resolve_environment].
  intros (x & Hx & H)%bind_Ok. apply bind_Ok in H as (r & Hr & H).
  assert (environment_entry json_loads scope s' (name, e) = Ok x) as ->.
  { unfold environment_entry in *. destruct (EnvironmentValue.value e); [done|].
    destruct (EnvironmentValue.secret_ref e); [|done]. apply bind_Ok in Hx as (v & Hv & Hx).
    by rewrite (secret_persists s s' _ _ _ Hs He Hv). }
  cbn [mbind result_bind]. rewrite (IH r Hr). exact H.
Qed.

(** C30: a loaded project is pinned: whatever any client writes to the store afterwards, loading the same
    reference again gives the same project, and the application environment resolves to the same
    values. *)
Theorem project_pinned s s' key reference own p d :
  well_formed s → evolves s s' →
  load_project_from_object_store json_loads repr netloc_ok stdlib_is_private scope s key reference own = Ok p →
  resolve_application_environment json_loads scope s p = Ok d →
  load_project_from_object_store json_loads repr netloc_ok stdlib_is_private scope s' key reference own = Ok p ∧
  resolve_application_environment json_loads scope s' p = Ok d.
Proof.
  intros Hs He Hload Hd. split; [|by eapply environment_persists].
  unfold load_project_from_object_store in *. apply bind_Ok in Hload as (c & Hc & Hload).
  by rewrite (snapshot_persists s s' _ _ _ Hs He Hc).
Qed.

(** The application environment of a project has exactly the names of its configuration, in order,
    each with its literal value or with the checked value of its pinned secret. *)
Theorem environment_exact s p d :
  (∀ kv, kv ∈ Configuration.environment (configuration p) →
     is_ok (Configuration.check_environment scope kv) = true) →
  resolve_application_environment json_loads scope s p = Ok d →
  Forall2 (λ kv nv, fst nv = fst kv ∧
      match EnvironmentValue.value (snd kv), EnvironmentValue.secret_ref (snd kv) with
      | Some v, None => snd nv = v
      | None, Some r => read_secret_value json_loads scope s r (fst kv) = Ok (snd nv)
      | _, _ => False
      end) (Configuration.environment (configuration p)) d.
Proof.
  unfold resolve_application_environment. generalize (Configuration.environment (configuration p)) as entries.
  intros entries. revert d. induction entries as [|[name e] entries IH]; intros d Hok; cbn [resolve_environment].
  - intros H. apply Ok_inj in H as <-. constructor.
  - intros (x & Hx & H)%bind_Ok. apply bind_Ok in H as (r & Hr & H). apply Ok_inj in H as <-.
    assert (Hrest : ∀ kv, kv ∈ entries → is_ok (Configuration.check_environment scope kv) = true)
      by (intros kv Hin; apply Hok; by right).
    specialize (IH r Hrest Hr). assert (Hhere := Hok (name, e) ltac:(by left)).
    unfold Configuration.check_environment in Hhere. destruct (raise_if _ _ _) as [[]|]; [|done].
    cbn [mbind result_bind] in Hhere. unfold EnvironmentValue.to_wire in Hhere. unfold environment_entry in Hx.
    destruct (EnvironmentValue.value e) as [v|] eqn:Hv, (EnvironmentValue.secret_ref e) as [ref|] eqn:Href; try done.
    + apply Ok_inj in Hx as <-. constructor; [|done]. cbn [fst snd]. by rewrite Hv, Href.
    + apply bind_Ok in Hx as (v & Hread & Hx). apply Ok_inj in Hx as <-. constructor; [|done]. cbn [fst snd].
      by rewrite Hv, Href.
Qed.

End Pinned.

(** ** A project with one literal, loaded from a store *)

Definition sample_env : dict pystr :=
  [(lit "DEX_PROJECT_ID", lit "acme"); (lit "DEX_PROJECT_SCOPE", lit "live");
   (lit "DEX_PROJECT_ALLOW_LOCAL_STORAGE", lit "true"); (lit "DEX_PROJECT_STORAGE_ENDPOINT", lit "http://localhost:9000");
   (lit "DEX_PROJECT_STORAGE_BUCKET", lit "projects")].
Definition every_netloc (_ : pystr) : bool := true.
Definition no_private (_ : ip) : bool := false.
Definition no_repr (_ : json) : pystr := [].

Lemma selection_guarded_witness :
  select_project every_netloc no_private sample_env =
    Ok (Hosted (Scope.mk (lit "acme") (lit "live")) (lit "http://localhost:9000") (lit "projects") [] [] true
          (SnapshotRef.mk [] [] [] (lit "application/json"))) ∧
  _is_local_storage_endpoint every_netloc no_private (lit "http://localhost:9000") = Ok true.
Proof.
  assert (H : select_project every_netloc no_private sample_env =
    Ok (Hosted (Scope.mk (lit "acme") (lit "live")) (lit "http://localhost:9000") (lit "projects") [] [] true
          (SnapshotRef.mk [] [] [] (lit "application/json")))) by (vm_compute; reflexivity).
  split; [exact H|].
  destruct (selection_guarded every_netloc no_private sample_env _ H) as (_ & _ & Hg).
  destruct (Hg (Some (lit "Enabled")) (S3.mk (lit "projects") [] []) ltac:(vm_compute; reflexivity)) as (_ & _ & [Hk|[_ Hl]]).
  - vm_compute in Hk. discriminate Hk.
  - exact Hl.
Defined.

Definition sample_source : dict json :=
  [(lit "schemaVersion", JStr LOCAL_CONNECTIONS_SCHEMA_VERSION);
   (lit "connections", JArr [JObj [(lit "connectorId", JStr "github"); (lit "connectionName", JStr "main");
                                   (lit "credentials", JObj [(lit "token", JStr "t")])]])].

Lemma local_credentials_complete_witness :
  let k := ConnectionKey.mk (lit "github") (lit "main") in
  let l := [(k, mkMaterial [(lit "token", JStr "t")] None (lit "local"))] in
  _decode_local_credentials no_repr GoTime.fromisoformat sample_source = Ok l ∧ NoDup (map fst l).
Proof.
  cbv zeta. assert (H : _decode_local_credentials no_repr GoTime.fromisoformat sample_source =
    Ok [(ConnectionKey.mk (lit "github") (lit "main"), mkMaterial [(lit "token", JStr "t")] None (lit "local"))])
    by (vm_compute; reflexivity).
  split; [exact H|]. destruct (local_credentials_complete _ _ _ _ H) as (raw & _ & _ & Hnd & _). exact Hnd.
Defined.

Import MemoryFacts.
Definition sample_scope : Scope.t := Scope.mk (lit "acme") (lit "live").
Definition sample_key : pystr := "projects/acme/live/configuration/head".
Definition sample_document : Configuration.t :=
  Configuration.mk sample_scope 1 [] [] [] [(lit "MODE", EnvironmentValue.mk (Some (lit "fast")) None)] None
    PREVIOUS_CONFIGURATION_SCHEMA_VERSION.
Definition sample_bytes : list N :=
  match Configuration.to_wire no_repr every_netloc no_private sample_document ≫= go_canonical_json_bytes with
  | Ok b => b | Err _ => [] end.
Definition sample_store : Memory.store := snd (Memory.create_object () ∅ sample_key sample_bytes).
Definition sample_reference : SnapshotRef.t :=
  SnapshotRef.mk sample_key (lit "1") (digest_bytes sample_bytes) (lit "application/json").
Definition sample_project : LoadedProject := mkLoaded sample_document sample_reference None [].

Lemma sample_loaded :
  load_project_from_object_store (F:=unit) loads_bytes no_repr every_netloc no_private sample_scope sample_store
    sample_key sample_reference false = Ok sample_project.
Proof. vm_compute. reflexivity. Qed.

Lemma sample_well_formed : ProjectStorage.well_formed (F:=unit) sample_store.
Proof. apply (MemoryFacts.create_grows () ∅ sample_key sample_bytes). intros k vs H. by rewrite lookup_empty in H. Qed.

Lemma project_pinned_witness :
  let later := snd (Memory.create_object () sample_store (lit "other") [1%N]) in
  load_project_from_object_store (F:=unit) loads_bytes no_repr every_netloc no_private sample_scope later
    sample_key sample_reference false = Ok sample_project ∧
  resolve_application_environment (F:=unit) loads_bytes sample_scope later sample_project = Ok [(lit "MODE", lit "fast")].
Proof.
  cbv zeta. apply (project_pinned (F:=unit) loads_bytes no_repr every_netloc no_private sample_scope sample_store).
  - exact sample_well_formed.
  - exact (evolves_create (F:=unit) () _ _ (lit "other") [1%N] (evolves_refl _)).
  - exact sample_loaded.
  - reflexivity.
Defined.

Lemma environment_exact_witness :
  Forall2 (λ kv nv, fst nv = fst kv ∧
      match EnvironmentValue.value (snd kv), EnvironmentValue.secret_ref (snd kv) with
      | Some v, None => snd nv = v
      | None, Some r => read_secret_value (F:=unit) loads_bytes sample_scope (∅ : Memory.store) r (fst kv) = Ok (snd nv)
      | _, _ => False
      end) [(lit "MODE", EnvironmentValue.mk (Some (lit "fast")) None)] [(lit "MODE", lit "fast")].
Proof.
  apply (environment_exact (F:=unit) loads_bytes sample_scope (∅ : Memory.store) sample_project).
  - intros kv Hin. apply list_elem_of_singleton in Hin as ->. vm_compute. reflexivity.
  - reflexivity.
Defined.

End LoadingFacts.
