(* ===== verification/DexWebStore.v ===== *)
(** * Dex Web's local credential file as an object store

    sdkpython/src/dex_connectors/sdk/projectconfig/dexweb_store.py: the process-local store that adopts
    the credentials Dex Web saves in its file, and writes a refreshed credential back only over the one
    it imported.  The operations on heads hold the store's lock, so each is one step; the file is its
    parsed document, and Dex Web, another process, may save it at any time: before the write-back reads it
    again and between that read and the replacement.  [repr] of containers, [datetime.fromisoformat] and
    the conversion of naive datetimes are parameters. *)

From S2P Require Import Prelude Json JsonText Sha256 Timestamps Identity Definitions AddressPolicy Url ProjectModels ProjectStorage.
From S2P Require Import CanonicalJson StoreProgram ProjectConnections CredentialRefresh ConnectionFacts ConnectionFrames Broker Loading.
Import Memory Faulty.

(** ** Digests of credentials *)

(** [sort_keys=True]. *)
Fixpoint sort_keys (value : json) : json :=
  match value with
  | JArr l => JArr (map sort_keys l)
  | JObj d => JObj (sort_by fst (map (λ kv, (fst kv, sort_keys (snd kv))) d))
  | v => v
  end.

Section Store.
Context (repr : json → pystr) (fromisoformat : pystr → res GoTime.datetime).
(** [naive.astimezone(UTC)]: the zone of the process. *)
Context (naive_to_utc : GoTime.datetime → res GoTime.datetime).
Context (scope : Scope.t).

(** [value.astimezone(UTC)]. *)
Definition to_utc (t : GoTime.datetime) : res GoTime.datetime :=
  match GoTime.dt_offset t with
  | None => naive_to_utc t
  | Some _ => GoTime.add_micros GoTime.datetime_min_utc (GoTime.instant t)
  end.

Definition expiry_datetime (t : GoTime.timestamp) : res GoTime.datetime :=
  match t with GoTime.TNano n => GoTime.parsed n | GoTime.TDate d => Ok d end.

Definition expiry_text (t : GoTime.timestamp) : res pystr :=
  d ← expiry_datetime t; u ← to_utc d; GoTime.format_rfc3339_nano (GoTime.TDate u).

(** [_credential_digest]. *)
Definition _credential_digest (material : CredentialMaterial) : res pystr :=
  canonical ← go_canonical_json_bytes (sort_keys (JObj (credentials material)));
  suffix ← (match m_expires_at material with
            | None => Ok []
            | Some t => text ← expiry_text t; b ← CallID.encode text; Ok (124%N :: b)
            end);
  Ok (Sha256.hexdigest (canonical ++ suffix)).

(** ** The store *)

Record state := mkState {
  file : res (dict json);
  memory : store;
  imported : list (ConnectionKey.t * pystr)
}.

Definition with_memory (m : store) (s : state) : state := mkState (file s) m (imported s).
Definition with_file (f : dict json) (s : state) : state := mkState (Ok f) (memory s) (imported s).

Fixpoint key_set {V} (key : ConnectionKey.t) (v : V) (d : list (ConnectionKey.t * V)) : list (ConnectionKey.t * V) :=
  match d with
  | [] => [(key, v)]
  | (k, x) :: d => if bool_decide (key = k) then (k, v) :: d else (k, x) :: key_set key v d
  end.

Definition with_imported (key : ConnectionKey.t) (digest : pystr) (s : state) : state :=
  mkState (file s) (memory s) (key_set key digest (imported s)).

(** An operation of [self._connections] on the memory, which has no faults. *)
Definition on_memory {A} (p : prog unit A) (s : state) : res A * state :=
  let '(r, e) := run NoFault GoTime.datetime_min_utc p (mkEnv (memory s) [] [] [] [] []) in
  (r, with_memory (e_store e) s).

Abbreviation read_connection := (read_connection repr fromisoformat scope).
Abbreviation replace_credential := (replace_credential repr fromisoformat scope).
Abbreviation read_material := (read_credential_material repr fromisoformat scope).

(** One entry of the file: adopted unless it was imported already. *)
Definition sync_entry (entry : ConnectionKey.t * CredentialMaterial) (s : state) : res unit * state :=
  let '(key, material) := entry in
  match _credential_digest material with
  | Err e => (Err e, s)
  | Ok digest =>
      if bool_decide (key_get key (imported s) = Some digest) then (Ok (), s)
      else
        let '(found, s) := on_memory (read_connection key) s in
        let revision := match found with
                        | Ok c => Ok (num_int (cn_revision c))
                        | Err e => if isinst e ObjectNotFoundError then Ok 0%Z else Err e
                        end in
        match revision with
        | Err e => (Err e, s)
        | Ok n =>
            match on_memory (replace_credential key n material) s with
            | (Ok _, s) => (Ok (), with_imported key digest s)
            | (Err e, s) => (Err e, s)
            end
        end
  end.

Fixpoint sync_entries (entries : list (ConnectionKey.t * CredentialMaterial)) (s : state) : res unit * state :=
  match entries with
  | [] => (Ok (), s)
  | entry :: rest => match sync_entry entry s with (Ok _, s) => sync_entries rest s | (Err e, s) => (Err e, s) end
  end.

(** [_sync]. *)
Definition _sync (s : state) : res unit * state :=
  match (source ← file s; _decode_local_credentials repr fromisoformat source) with
  | Err e => (Err e, s)
  | Ok entries => sync_entries entries s
  end.

Definition _is_connection_head (key : pystr) : bool := contains "/connections/" key && ends_with "/head" key.

(** ** Writing back *)

Definition record_is (key : ConnectionKey.t) (record : dict json) : bool :=
  py_eq (get "connectorId" record) (JStr (ConnectionKey.connector_id key))
  && py_eq (get "connectionName" record) (JStr (ConnectionKey.connection_name key)).

(** The record with the refreshed credential, when it still holds the imported one. *)
Definition refreshed_record (key : ConnectionKey.t) (material : CredentialMaterial) (known : option pystr)
    (record : dict json) : res (dict json) :=
  prior ← require_object (get "credentials" record) "credentials";
  expiry ← local_expiry fromisoformat record;
  digest ← _credential_digest (mkMaterial prior (GoTime.TDate <$> expiry) (auth_method material));
  raise_if (negb (bool_decide (Some digest = known))) ValueError "the file holds a newer credential" ≫= λ _,
  let record := dset "credentials" (JObj (credentials material)) record in
  match m_expires_at material with
  | None => Ok (ddel "credentialExpiresAt" record)
  | Some t => text ← expiry_text t; Ok (dset "credentialExpiresAt" (JStr text) record)
  end.

(** The first record of the connection, replaced. *)
Fixpoint replace_record (key : ConnectionKey.t) (material : CredentialMaterial) (known : option pystr)
    (records : list json) : res (list json) :=
  match records with
  | [] => raise ValueError "the connection is no longer in the file"
  | JObj record :: rest =>
      if record_is key record
      then r ← refreshed_record key material known record; Ok (JObj r :: rest)
      else rest ← replace_record key material known rest; Ok (JObj record :: rest)
  | x :: rest => rest ← replace_record key material known rest; Ok (x :: rest)
  end.

(** [_replace_in_file] up to the write: the file is read again and the new document is made of what was
    read; it is encoded before it is written, which fails for text that UTF-8 cannot hold. *)
Definition replacement (key : ConnectionKey.t) (material : CredentialMaterial) (s : state) : res (dict json) :=
  source ← file s;
  match get "connections" source with
  | JArr records =>
      records ← replace_record key material (key_get key (imported s)) records;
      let updated := dset "connections" (JArr records) source in
      go_canonical_json_bytes (JObj updated) ≫= λ _, Ok updated
  | _ => raise ValueError "connections.json requires connections"
  end.

(** [_replace_in_file] with its write: [during] is what Dex Web does to the file after it was read again
    and before [os.replace], which puts the new document in place of whatever is there then; [disk] is
    whether the temporary file can be written and moved. *)
Definition _replace_in_file (during : res (dict json) → res (dict json)) (disk : res unit)
    (key : ConnectionKey.t) (material : CredentialMaterial) (s : state) : res unit * state :=
  let later := mkState (during (file s)) (memory s) (imported s) in
  match (updated ← replacement key material s; disk ≫= λ _, Ok updated) with
  | Err e => (Err e, later)
  | Ok updated => (Ok (), with_file updated later)
  end.

(** The part of [_write_back] whose errors are logged; [others] is what Dex Web did to the file since
    [_sync] read it. *)
Definition write_back_material (others during : res (dict json) → res (dict json)) (disk : res unit)
    (key : ConnectionKey.t) (s : state) : res unit * state :=
  match on_memory (read_material key) s with
  | (Err e, s) => (Err e, s)
  | (Ok (material, _), s) =>
      match _credential_digest material with
      | Err e => (Err e, s)
      | Ok digest =>
          if bool_decide (key_get key (imported s) = Some digest) then (Ok (), s)
          else
            match _replace_in_file during disk key material (mkState (others (file s)) (memory s) (imported s)) with
            | (Err e, s) => (Err e, s)
            | (Ok _, s) => (Ok (), with_imported key digest s)
            end
      end
  end.

(** The connection of a head whose credential is to be written back. *)
Definition write_back_key (head : Object) : res (option ConnectionKey.t) :=
  value ← loads_bytes (o_contents head);
  record ← require_object value "connection head";
  if negb (status_is "READY" record) || negb (is_dict (get "credential" record)) then Ok None
  else
    connection ← item "connection" record;
    identity ← require_object connection "connection identity";
    id ← item "connectorId" identity;
    name ← item "connectionName" identity;
    Ok (Some (ConnectionKey.mk (py_str repr id) (py_str repr name))).

(** [_write_back]. *)
Definition _write_back (others during : res (dict json) → res (dict json)) (disk : res unit) (head : Object) (s : state) : res unit * state :=
  match write_back_key head with
  | Err e => (Err e, s)
  | Ok None => (Ok (), s)
  | Ok (Some key) =>
      match write_back_material others during disk key s with
      | (Err e, s) =>
          if isinst e OSError || isinst e ValueError || isinst e KeyError || isinst e TypeError
          then (Ok (), s) else (Err e, s)
      | ok => ok
      end
  end.

(** ** The operations *)

Definition initialize : state → res unit * state := _sync.

Definition read_object (s : state) (key version : pystr) : res Object * state :=
  if _is_connection_head key then
    match _sync s with
    | (Err e, s) => (Err e, s)
    | (Ok _, s) => (Memory.read_object (memory s) key version, s)
    end
  else (Memory.read_object (memory s) key version, s).

Definition create_object (s : state) (key : pystr) (contents : list N) : res Object * state :=
  let '(r, m) := Memory.create_object () (memory s) key contents in (r, with_memory m s).

Definition swap (s : state) (key expected_etag : pystr) (contents : list N) : res Object * state :=
  let '(r, m) := Memory.compare_and_swap_object () (memory s) key expected_etag contents in (r, with_memory m s).

Definition compare_and_swap_object (others during : res (dict json) → res (dict json)) (disk : res unit) (s : state)
    (key expected_etag : pystr) (contents : list N) : res Object * state :=
  if _is_connection_head key then
    match _sync s with
    | (Err e, s) => (Err e, s)
    | (Ok _, s) =>
        match swap s key expected_etag contents with
        | (Err e, s) => (Err e, s)
        | (Ok o, s) => match _write_back others during disk o s with (Err e, s) => (Err e, s) | (Ok _, s) => (Ok o, s) end
        end
    end
  else swap s key expected_etag contents.

End Store.

(** ** A project from Dex Web's files *)

Definition LOCAL_USE_CONFIGURATIONS_SCHEMA_VERSION : pystr := "connectors.dex.dev/local-use-configurations/v1alpha1".

(** The items of [for item in value]: the characters of a string, the keys of a dict. *)
Definition items_of (value : json) : res (list json) :=
  match value with
  | JArr l => Ok l
  | JStr s => Ok (map (λ c, JStr [c]) s)
  | JObj d => Ok (map (λ kv, JStr (fst kv)) d)
  | _ => raise TypeError "object is not iterable"
  end.

(** [tuple(require_object(item, what) for item in document.get(name, []))]. *)
Definition objects_of (name what : pystr) (document : dict json) : res (list (dict json)) :=
  items ← items_of (get_or name (JArr []) document); mapR (λ item, require_object item what) items.

Definition local_members : list pystr :=
  [lit "connectorId"; lit "connectionName"; lit "modulePath"; lit "provider"; lit "configuration";
   lit "authMethodId"; lit "sharedConnectionId"].

Section LocalProject.
Context (repr : json → pystr) (fromisoformat : pystr → res GoTime.datetime).
Context (naive_to_utc : GoTime.datetime → res GoTime.datetime).
Context (netloc_ok : pystr → bool) (stdlib_is_private : ip → bool).

Definition local_connection (index : nat) (raw : json) : res ProjectModels.Connection.t :=
  record ← require_object raw ("connection " ++ str_of_Z (Z.of_nat index));
  entry ← ProjectModels.Connection.from_wire repr
            (JObj (List.filter (λ kv, bool_decide (fst kv ∈ local_members)) record));
  raise_if (negb (forallb truthy [ProjectModels.Connection.connector_id entry; ProjectModels.Connection.connection_name entry;
                                  ProjectModels.Connection.module_path entry; ProjectModels.Connection.provider entry]))
    ValueError "local connection identity is incomplete" ≫= λ _,
  Ok entry.

Fixpoint local_connections (index : nat) (raw : list json) : res (list ProjectModels.Connection.t) :=
  match raw with
  | [] => Ok []
  | x :: raw => c ← local_connection index x; rest ← local_connections (S index) raw; Ok (c :: rest)
  end.

(** The document that the two files make. *)
Definition local_configuration (source uses : dict json) : res Configuration.t :=
  raise_if (negb (bool_decide (uses = []))
            && negb (py_eq (get "schemaVersion" uses) (JStr LOCAL_USE_CONFIGURATIONS_SCHEMA_VERSION)))
    ValueError "unsupported connector use configuration schema version" ≫= λ _,
  match get "connections" source with
  | JArr raw =>
      entries ← local_connections 0 raw;
      triggers ← objects_of "triggerBindings" "trigger binding" source;
      operations ← objects_of "operationConfigurations" "operation configuration" uses;
      Ok (Configuration.mk local_scope 1 entries triggers operations [] None CONFIGURATION_SCHEMA_VERSION)
  | _ => raise ValueError "connections.json requires connections"
  end.

(** [load_dex_web_project]: what reading the two files gives, [connections] again when the credentials are
    imported ([current]), and the store of the credentials. *)
Definition load_dex_web_project (connections : res (dict json)) (uses : option (res (dict json)))
    (current : res (dict json)) : res (LoadedProject * state) :=
  source ← connections;
  raise_if (negb (py_eq (get "schemaVersion" source) (JStr LOCAL_CONNECTIONS_SCHEMA_VERSION)))
    ValueError "unsupported connector configuration schema version" ≫= λ _,
  uses ← default (Ok []) uses;
  document ← local_configuration source uses;
  key ← configuration_key local_scope;
  let '(written, configurations) :=
    write_configuration (F:=unit) loads_bytes repr netloc_ok stdlib_is_private local_scope () id id key
      (∅ : Memory.store) 0 document in
  w ← written;
  reference ← freeze_configuration (F:=unit) loads_bytes repr netloc_ok stdlib_is_private local_scope configurations key
                (Configuration.revision (fst w));
  match initialize repr fromisoformat naive_to_utc local_scope (mkState current ∅ []) with
  | (Err e, _) => Err e
  | (Ok _, objects) =>
      p ← load_project_from_object_store (F:=unit) loads_bytes repr netloc_ok stdlib_is_private local_scope configurations
            key reference true;
      Ok (p, objects)
  end.

End LocalProject.

(** ** Theorems *)

Module DexWebFacts.
Import MemoryFacts FaultyFacts LoadingFacts.

Lemma key_get_set {V} k k' (v : V) d :
  key_get k' (key_set k v d) = if bool_decide (k' = k) then Some v else key_get k' d.
Proof.
  induction d as [|[k1 v1] d IH]; cbn [key_set key_get]; [done|].
  destruct (decide (k = k1)) as [->|Hne].
  - rewrite bool_decide_eq_true_2 by done. cbn [key_get]. by destruct (bool_decide (k' = k1)).
  - rewrite (bool_decide_eq_false_2 (k = k1)) by done. cbn [key_get]. rewrite IH.
    destruct (decide (k' = k1)) as [->|Hk]; [|by rewrite (bool_decide_eq_false_2 (k' = k1))].
    rewrite bool_decide_eq_true_2 by done. by rewrite bool_decide_eq_false_2 by congruence.
Qed.

Section Adoption.
Context (repr : json → pystr) (fromisoformat : pystr → res GoTime.datetime).
Context (naive_to_utc : GoTime.datetime → res GoTime.datetime) (scope : Scope.t).

Abbreviation digest_of := (_credential_digest naive_to_utc).
Abbreviation sync_entry := (sync_entry repr fromisoformat naive_to_utc scope).
Abbreviation sync_entries := (sync_entries repr fromisoformat naive_to_utc scope).
Abbreviation sync := (_sync repr fromisoformat naive_to_utc scope).
Abbreviation decode := (_decode_local_credentials repr fromisoformat).

(** The memory holds a connection with this material. *)
Definition adopted (s : state) (k : ConnectionKey.t) (m : CredentialMaterial) : Prop :=
  ∃ path conn, ConnectionKey.path k scope = Ok path ∧ holds_material repr fromisoformat scope k path (memory s) m conn.

(** What reading the material of a connection answers. *)
Definition serves (s : state) (k : ConnectionKey.t) (m : CredentialMaterial) : Prop :=
  ∃ conn ex, expiry_wire (m_expires_at m) = Ok ex ∧
    on_memory (read_credential_material repr fromisoformat scope k) s =
      ((m' ← read_back repr m (default JNull ex); Ok (m', conn)), s).

Lemma adopted_serves s k m : adopted s k m → serves s k m.
Proof.
  intros (path & conn & Hp & Hst). exists conn.
  destruct (material_read (C:=unit) repr fromisoformat scope k path Hp GoTime.datetime_min_utc m conn
              (mkEnv (memory s) [] [] [] [] []) Hst) as (ex & Hex & Hrun).
  exists ex. split; [done|]. unfold on_memory. rewrite Hrun. cbn [e_store]. by destruct s.
Qed.

Lemma readonly_memory {A} (p : prog unit A) s r s' : confined (λ _, False) p → on_memory p s = (r, s') → s' = s.
Proof.
  intros Hp. unfold on_memory. set (e0 := mkEnv _ _ _ _ _ _).
  pose proof (run_readonly (λ _, False) p GoTime.datetime_min_utc e0 (λ _ H, H) Hp) as H.
  destruct (run _ _ _ e0) as [r' e]. intros [= _ <-]. cbn [snd] in H. unfold with_memory. rewrite H. by destruct s.
Qed.

Lemma replaced_memory k n m s c s' : MemoryFacts.well_formed (memory s) →
  on_memory (replace_credential repr fromisoformat scope k n m) s = (Ok c, s') →
  file s' = file s ∧ imported s' = imported s ∧ MemoryFacts.well_formed (memory s') ∧
  (plain (JObj (credentials m)) = true → adopted s' k m) ∧ (∀ k' m', k' ≠ k → adopted s k' m' → adopted s' k' m').
Proof.
  intros Hw. unfold on_memory. set (e0 := mkEnv _ _ _ _ _ _).
  destruct (run _ _ _ e0) as [r e] eqn:E. intros [= -> <-]. cbn [file imported memory with_memory].
  assert (Hf : faultless e0) by done.
  assert (Hpath : ∃ path, ConnectionKey.path k scope = Ok path).
  { unfold replace_credential in E. apply run_bind_Ok in E as (u & e1 & _ & E).
    apply run_bind_Ok in E as (path & e2 & Hp & _). apply (run_lift_Ok GoTime.datetime_min_utc) in Hp as [Hp _]. by exists path. }
  destruct Hpath as [path Hp]. split_and!; [done..| | |].
  - pose proof (run_onward (replace_credential repr fromisoformat scope k n m) GoTime.datetime_min_utc e0 Hf) as [[_ H] _].
    by rewrite E in H.
  - intros Hplain. exists path, c. split; [done|]. by eapply replace_stores in E as (_ & Hst & _).
  - intros k' m' Hne (path' & conn' & Hp' & Hst). exists path', conn'. split; [done|].
    replace e with (snd (run NoFault GoTime.datetime_min_utc (replace_credential repr fromisoformat scope k n m) e0)) by (by rewrite E).
    by eapply replace_spares.
Qed.

(** After an entry: its digest is the imported one, and what was not imported before is adopted. *)
Record settled (s s' : state) (k : ConnectionKey.t) (m : CredentialMaterial) (digest : pystr) : Prop := {
  settled_digest : digest_of m = Ok digest;
  settled_file : file s' = file s;
  settled_memory : MemoryFacts.well_formed (memory s');
  settled_imported : key_get k (imported s') = Some digest;
  settled_others : ∀ k', k' ≠ k → key_get k' (imported s') = key_get k' (imported s);
  settled_adopted : key_get k (imported s) ≠ Some digest → plain (JObj (credentials m)) = true → adopted s' k m;
  settled_kept : ∀ k' m', k' ≠ k → adopted s k' m' → adopted s' k' m'
}.

Lemma sync_entry_ok k m s s' : MemoryFacts.well_formed (memory s) → sync_entry (k, m) s = (Ok (), s') →
  ∃ digest, settled s s' k m digest.
Proof.
  intros Hw. unfold DexWebStore.sync_entry. destruct (digest_of m) as [digest|x] eqn:Hd; [|done].
  destruct (bool_decide _) eqn:Hknown.
  - apply bool_decide_eq_true in Hknown. intros [= <-]. exists digest. by split.
  - apply bool_decide_eq_false in Hknown.
    destruct (on_memory (read_connection repr fromisoformat scope k) s) as [found s1] eqn:Hr.
    apply readonly_memory in Hr as ->; [|apply read_connection_confined].
    destruct (match found with Ok c => _ | Err e => _ end) as [n|x]; [|done].
    destruct (on_memory (replace_credential repr fromisoformat scope k n m) s) as [[c|x] s2] eqn:Hrep; [|done].
    intros [= <-]. apply replaced_memory in Hrep as (Hf & Hi & Hw2 & Ha & Hk); [|done].
    exists digest. split; cbn [file memory imported with_imported]; try done.
    + by rewrite key_get_set, bool_decide_eq_true_2.
    + intros k' Hne. by rewrite key_get_set, bool_decide_eq_false_2, Hi.
Qed.

Lemma sync_entries_ok entries s s' : NoDup (map fst entries) → MemoryFacts.well_formed (memory s) →
  sync_entries entries s = (Ok (), s') →
  file s' = file s ∧ MemoryFacts.well_formed (memory s') ∧
  (∀ k, k ∉ map fst entries → key_get k (imported s') = key_get k (imported s)) ∧
  (∀ k m, k ∉ map fst entries → adopted s k m → adopted s' k m) ∧
  ∀ k m, (k, m) ∈ entries → ∃ digest, digest_of m = Ok digest ∧ key_get k (imported s') = Some digest ∧
    (key_get k (imported s) ≠ Some digest → plain (JObj (credentials m)) = true → adopted s' k m).
Proof.
  revert s. induction entries as [|[k m] entries IH]; cbn [DexWebStore.sync_entries map fst]; intros s Hnd Hw.
  { intros [= <-]. split_and!; try done. intros k m H. by apply elem_of_nil in H. }
  apply NoDup_cons in Hnd as [Hnew Hnd]. destruct (sync_entry (k, m) s) as [[[]|x] s1] eqn:He; [|done].
  intros Hrest. apply sync_entry_ok in He as [digest [Hd Hf Hw1 Hi Ho Ha Hk]]; [|done].
  destruct (IH s1 Hnd Hw1 Hrest) as (Hf' & Hw' & Ho' & Hk' & Hin'). split_and!; [congruence|done|..].
  - intros k' [Hne Hn]%not_elem_of_cons. by rewrite Ho', Ho.
  - intros k' m' [Hne Hn]%not_elem_of_cons Had. apply Hk', Hk; done.
  - intros k' m' [Heq|Hin]%elem_of_cons.
    + injection Heq as -> ->. exists digest. split_and!; [done|by rewrite Ho'|]. intros Hne Hp. by apply Hk', Ha.
    + destruct (Hin' k' m' Hin) as (digest' & Hd' & Hi' & Ha'). exists digest'. split_and!; [done..|].
      assert (k' ≠ k) as Hne. { intros ->. apply Hnew. apply list_elem_of_In. apply list_elem_of_In in Hin. by apply (in_map fst) in Hin. }
      by rewrite <- (Ho k' Hne).
Qed.

(** What is imported already is skipped. *)
Lemma sync_entries_skip entries s :
  (∀ k m, (k, m) ∈ entries → ∃ digest, digest_of m = Ok digest ∧ key_get k (imported s) = Some digest) →
  sync_entries entries s = (Ok (), s).
Proof.
  induction entries as [|[k m] entries IH]; intros H; [done|]. cbn [DexWebStore.sync_entries].
  destruct (H k m ltac:(by left)) as (digest & Hd & Hi). unfold DexWebStore.sync_entry. rewrite Hd, bool_decide_eq_true_2 by done.
  apply IH. intros k' m' Hin. apply H. by right.
Qed.

(** Synchronizing adopts the whole file and settles: every entry's digest is then the imported one, an
    entry that was not imported before is what reading its connection answers from then on, whatever
    other entries were adopted after it, the file is unchanged, and synchronizing again does nothing. *)
Theorem sync_adopts_file s s' : MemoryFacts.well_formed (memory s) → sync s = (Ok (), s') →
  sync s' = (Ok (), s') ∧ file s' = file s ∧
  ∃ source entries, file s = Ok source ∧ decode source = Ok entries ∧
    ∀ k m, (k, m) ∈ entries → ∃ digest, digest_of m = Ok digest ∧ key_get k (imported s') = Some digest ∧
      (key_get k (imported s) ≠ Some digest → plain (JObj (credentials m)) = true → serves s' k m).
Proof.
  intros Hw. unfold DexWebStore._sync. destruct (source ← file s; decode source) as [entries|x] eqn:Hsrc; [|done].
  intros Hs. pose proof Hsrc as (source & Hfile & Hdec)%bind_Ok.
  pose proof (decoded_entries _ _ _ _ Hdec) as (raw & _ & Hl). apply local_entries_ok in Hl as (_ & Hnd & _).
  destruct (sync_entries_ok entries s s' Hnd Hw Hs) as (Hf & Hw' & _ & _ & Hin). split_and!; [|done|].
  - rewrite Hf, Hsrc. apply sync_entries_skip. intros k m H. destruct (Hin k m H) as (d & Hd & Hi & _). by exists d.
  - exists source, entries. split_and!; [done..|]. intros k m H. destruct (Hin k m H) as (d & Hd & Hi & Ha).
    exists d. split_and!; [done..|]. intros Hne Hp. by apply adopted_serves, Ha.
Qed.

(** *** Writing back *)

Lemma get_dset k k' v d : get k (dset k' v d) = if bool_decide (k = k') then v else get k d.
Proof.
  unfold get, get_or. destruct (decide (k = k')) as [->|Hne].
  - by rewrite dget_dset_eq, bool_decide_eq_true_2.
  - by rewrite dget_dset_ne, bool_decide_eq_false_2.
Qed.

Lemma get_ddel k k' (d : dict json) : k ≠ k' → get k (ddel k' d) = get k d.
Proof.
  intros Hne. unfold get, get_or, ddel. induction d as [|[k1 v1] d IH]; [done|]. cbn [List.filter fst].
  destruct (decide (k1 = k')) as [->|H1].
  - rewrite bool_decide_eq_true_2 by done. cbn [negb dget]. by rewrite bool_decide_eq_false_2.
  - rewrite (bool_decide_eq_false_2 (k1 = k')) by done. cbn [negb dget]. by destruct (bool_decide (k = k1)).
Qed.

(** The record whose place is taken still held the imported credential. *)
Record superseded (k : ConnectionKey.t) (known : option pystr) (m : CredentialMaterial) (record record' : dict json) : Prop := {
  sup_key : record_is k record = true;
  sup_imported : ∃ prior expiry digest, get "credentials" record = JObj prior ∧
    local_expiry fromisoformat record = Ok expiry ∧
    digest_of (mkMaterial prior (GoTime.TDate <$> expiry) (auth_method m)) = Ok digest ∧ known = Some digest;
  sup_credentials : get "credentials" record' = JObj (credentials m);
  sup_rest : ∀ name, name ≠ lit "credentials" → name ≠ lit "credentialExpiresAt" → get name record' = get name record
}.

Lemma refreshed_superseded k m known record record' : record_is k record = true →
  refreshed_record fromisoformat naive_to_utc k m known record = Ok record' → superseded k known m record record'.
Proof.
  intros Hk. unfold refreshed_record. intros (prior & Hprior & H)%bind_Ok. apply bind_Ok in H as (expiry & Hex & H).
  apply bind_Ok in H as (digest & Hd & H). apply bind_Ok in H as ([] & Hg%raise_if_Ok & H).
  apply negb_false_iff, bool_decide_eq_true in Hg.
  assert (Hp : get "credentials" record = JObj prior).
  { unfold require_object in Hprior. destruct (get "credentials" record); try done. by apply Ok_inj in Hprior as ->. }
  destruct (m_expires_at m) as [t|]; [apply bind_Ok in H as (text & _ & H)|]; apply Ok_inj in H as <-; split; try done.
  - exists prior, expiry, digest. by split_and!.
  - rewrite get_dset, bool_decide_eq_false_2 by done. by rewrite get_dset, bool_decide_eq_true_2.
  - intros name H1 H2. by rewrite get_dset, bool_decide_eq_false_2, get_dset, bool_decide_eq_false_2.
  - exists prior, expiry, digest. by split_and!.
  - rewrite get_ddel by done. by rewrite get_dset, bool_decide_eq_true_2.
  - intros name H1 H2. by rewrite get_ddel, get_dset, bool_decide_eq_false_2.
Qed.

(** One record of the list takes the new credential; the records before it are of other connections. *)
Lemma replaced_record k m known records records' :
  replace_record fromisoformat naive_to_utc k m known records = Ok records' →
  ∃ before record record' after, records = before ++ JObj record :: after ∧ records' = before ++ JObj record' :: after ∧
    (∀ r, JObj r ∈ before → record_is k r = false) ∧ superseded k known m record record'.
Proof.
  revert records'. induction records as [|x records IH]; intros records'; [done|].
  assert (Hcons : (∀ r, x = JObj r → record_is k r = false) →
    (rest ← replace_record fromisoformat naive_to_utc k m known records; Ok (x :: rest)) = Ok records' →
    ∃ before record record' after, x :: records = before ++ JObj record :: after ∧ records' = before ++ JObj record' :: after ∧
      (∀ r, JObj r ∈ before → record_is k r = false) ∧ superseded k known m record record').
  { intros Hx (rest & Hrest & H)%bind_Ok. apply Ok_inj in H as <-.
    destruct (IH rest Hrest) as (before & record & record' & after & -> & -> & Hb & Hs).
    exists (x :: before), record, record', after. split_and!; [done..| |done].
    intros r [H|H]%elem_of_cons; [by apply Hx|by apply Hb]. }
  cbn [replace_record]. destruct x as [| | | | | |record]; try (by apply Hcons).
  destruct (record_is k record) eqn:Hk; [|apply Hcons; by intros r [= ->]].
  intros (r & Hr & H)%bind_Ok. apply Ok_inj in H as <-. exists [], record, r, records.
  split_and!; [done..| |by apply refreshed_superseded]. intros y H. by apply elem_of_nil in H.
Qed.

Lemma replaced_file k m s source' :
  replacement fromisoformat naive_to_utc k m s = Ok source' →
  ∃ source before record record' after, file s = Ok source ∧
    get "connections" source = JArr (before ++ JObj record :: after) ∧
    source' = dset "connections" (JArr (before ++ JObj record' :: after)) source ∧
    (∀ r, JObj r ∈ before → record_is k r = false) ∧ superseded k (key_get k (imported s)) m record record'.
Proof.
  unfold replacement. intros (source & Hf & H)%bind_Ok.
  destruct (get "connections" source) as [| | | | |records|] eqn:Hc; try done.
  apply bind_Ok in H as (records' & Hr & H). apply bind_Ok in H as (b & _ & H). apply Ok_inj in H as <-.
  apply replaced_record in Hr as (before & record & record' & after & -> & -> & Hb & Hs).
  by exists source, before, record, record', after.
Qed.

Lemma sync_file s r s' : sync s = (r, s') → file s' = file s.
Proof.
  unfold DexWebStore._sync. destruct (_ ≫= _) as [entries|x]; [|by intros [= _ <-]].
  revert s. induction entries as [|[k m] entries IH]; intros s; cbn [DexWebStore.sync_entries]; [by intros [= _ <-]|].
  assert (He : file (snd (sync_entry (k, m) s)) = file s).
  { unfold DexWebStore.sync_entry. destruct (digest_of m); [|done]. destruct (bool_decide _); [done|].
    destruct (on_memory (read_connection repr fromisoformat scope k) s) as [found s1] eqn:E.
    apply readonly_memory in E as ->; [|apply read_connection_confined]. destruct (match found with Ok c => _ | Err e => _ end); [|done].
    unfold on_memory. by destruct (run _ _ _ _) as [[c|x] e]. }
  destruct (sync_entry (k, m) s) as [[u|x] s1]; cbn [snd] in He; [|intros [= _ <-]; done].
  intros H. by rewrite (IH s1 H).
Qed.

(** C28: the write-back of a refreshed credential replaces only a record that still held the imported
    credential when the file was read again.  Whatever Dex Web did to the file since it was imported
    ([others]), a swap leaves the document as Dex Web has it, or writes the document that was read with
    one record changed: the first record of the connection, and that only if it still holds the
    credential that was imported; then the record gets the credential that reading the connection
    answers, and its other members and the other records stay.  So what Dex Web saved before that read
    is kept.  It does not cover what Dex Web saves between that read and the replacement ([during]): the
    document written does not depend on it, and replaces it. *)
Theorem newer_file_kept others during disk s key etag contents r s' :
  compare_and_swap_object repr fromisoformat naive_to_utc scope others during disk s key etag contents = (r, s') →
  file s' = file s ∨ file s' = during (others (file s)) ∨
  ∃ s1 source before record record' after k m conn,
    sync s = (Ok (), s1) ∧ others (file s) = Ok source ∧
    get "connections" source = JArr (before ++ JObj record :: after) ∧
    file s' = Ok (dset "connections" (JArr (before ++ JObj record' :: after)) source) ∧
    (∀ x, JObj x ∈ before → record_is k x = false) ∧ superseded k (key_get k (imported s1)) m record record' ∧
    fst (on_memory (read_credential_material repr fromisoformat scope k) s') = Ok (m, conn).
Proof.
  unfold compare_and_swap_object. destruct (_is_connection_head key).
  2:{ unfold swap. destruct (Memory.compare_and_swap_object _ _ _ _ _). intros [= _ <-]. by left. }
  destruct (sync s) as [[[]|x] s1] eqn:Hs; apply sync_file in Hs as Hf; [|intros [= _ <-]; by left].
  unfold swap. destruct (Memory.compare_and_swap_object () (memory s1) key etag contents) as [[o|x] mem];
    [|intros [= _ <-]; by left]. set (s2 := with_memory mem s1).
  assert (Hf2 : file s2 = file s) by done. unfold _write_back.
  destruct (write_back_key repr o) as [[k|]|x]; [|intros [= _ <-]; by left..].
  unfold write_back_material. destruct (on_memory (read_credential_material repr fromisoformat scope k) s2) as [[[m conn]|x] s3] eqn:Hr;
    apply readonly_memory in Hr as E; try apply read_material_confined; subst s3;
    [|destruct (_ || _); intros [= _ <-]; by left].
  destruct (digest_of m) as [digest|x]; [|destruct (_ || _); intros [= _ <-]; by left].
  destruct (bool_decide _); [intros [= _ <-]; by left|]. unfold _replace_in_file. cbn zeta. rewrite Hf2.
  destruct (updated ← _; _) as [updated|x] eqn:Hu; [|destruct (_ || _); intros [= _ <-]; right; by left].
  intros [= _ <-]. right. right. apply bind_Ok in Hu as (source' & Hu & H). apply bind_Ok in H as (u & _ & H).
  apply Ok_inj in H as <-. apply replaced_file in Hu as (source & before & record & record' & after & H1 & H2 & -> & H3 & H4).
  exists s1, source, before, record, record', after, k, m, conn. split_and!; try done.
  revert Hr. unfold on_memory. cbn [memory with_imported with_file].
  destruct (run _ _ _ _) as [r' e]. by intros [= -> _].
Qed.

End Adoption.
(** *** A credential that is refreshed, published and written back *)

Definition no_zone (t : GoTime.datetime) : res GoTime.datetime := raise ValueError "no zone".
Definition github_main : ConnectionKey.t := ConnectionKey.mk (lit "github") (lit "main").
Definition secret (text : pystr) : dict json := [(lit "token", JStr text)].
Definition sample_state : state := mkState (Ok sample_source) ∅ [].
Abbreviation sample_sync := (_sync no_repr GoTime.fromisoformat no_zone local_scope).
Definition synced : state := snd (sample_sync sample_state).
(** The objects of a refreshed credential, made aside. *)
Definition refreshed : state :=
  snd (on_memory (replace_credential no_repr GoTime.fromisoformat local_scope github_main 1
                    (mkMaterial (secret "u") None (lit "local"))) synced).
Definition head_at (s : state) : option Object :=
  match ConnectionKey.path github_main local_scope with
  | Ok p => match Memory.read_object (memory s) (head_key p) [] with Ok o => Some o | Err _ => None end
  | Err _ => None
  end.
Definition path : pystr := match ConnectionKey.path github_main local_scope with Ok p => p | Err _ => [] end.
Definition envelope : list N :=
  match (e ← _credential_envelope_wire local_scope github_main 2 (secret "u") None (lit "local") []; go_canonical_json_bytes (JObj e))
  with Ok b => b | Err _ => [] end.
Definition prepared : state :=
  snd (DexWebStore.create_object synced (path ++ "/credentials/" ++ Sha256.hexdigest envelope) envelope).
Definition contents_of (o : option Object) : list N := match o with Some o => o_contents o | None => [] end.
Definition etag_of (o : option Object) : pystr := match o with Some o => o_etag o | None => [] end.
Definition new_head : list N := contents_of (head_at refreshed).
Definition old_etag : pystr := etag_of (head_at synced).
Definition meanwhile (f : res (dict json)) : res (dict json) := f.
(** The refreshed credential is published while Dex Web does [during] between the read and the
    replacement, and nothing before. *)
Definition published_while (during : res (dict json) → res (dict json)) : res Object * state :=
  DexWebStore.compare_and_swap_object no_repr GoTime.fromisoformat no_zone local_scope meanwhile during (Ok ()) prepared (head_key path) old_etag new_head.
Definition published : res Object * state := published_while meanwhile.

Definition token_in (s : state) (text : pystr) : bool :=
  match file s with
  | Ok d => match get "connections" d with JArr [JObj r] => py_eq (get "credentials" r) (JObj (secret text)) | _ => false end
  | Err _ => false
  end.

Lemma published_ok : is_ok (fst (sample_sync sample_state)) && is_ok (fst published) && token_in (snd published) "u" = true.
Proof. vm_compute. reflexivity. Qed.

(** What Dex Web saves: another credential of the connection. *)
Definition dex_web_saves (f : res (dict json)) : res (dict json) :=
  source ← f;
  match get "connections" source with
  | JArr [JObj record] => Ok (dset "connections" (JArr [JObj (dset "credentials" (JObj (secret "newer")) record)]) source)
  | _ => f
  end.

(** A credential that Dex Web saves between the read and the replacement is overwritten: the operation
    succeeds and the file holds the refreshed credential. *)
Theorem save_in_window_lost :
  is_ok (fst (published_while dex_web_saves)) = true ∧
  token_in (mkState (dex_web_saves (file prepared)) ∅ []) "newer" = true ∧
  token_in (snd (published_while dex_web_saves)) "newer" = false ∧
  token_in (snd (published_while dex_web_saves)) "u" = true.
Proof. vm_compute. repeat split. Qed.

Lemma empty_well_formed : MemoryFacts.well_formed (∅ : Memory.store).
Proof. intros k vs H. by rewrite lookup_empty in H. Qed.

Lemma synced_file : file synced = Ok sample_source.
Proof. unfold synced. destruct (sample_sync sample_state) as [r s] eqn:E. by apply sync_file in E. Qed.

#[local] Opaque synced.

Lemma prepared_file : file prepared = Ok sample_source.
Proof. unfold prepared, DexWebStore.create_object. destruct (Memory.create_object _ _ _ _). cbn [file with_memory snd]. exact synced_file. Qed.

#[local] Opaque prepared old_etag new_head path.

Lemma sample_decoded : _decode_local_credentials no_repr GoTime.fromisoformat sample_source =
  Ok [(github_main, mkMaterial (secret "t") None (lit "local"))].
Proof. vm_compute. reflexivity. Qed.

Lemma sync_adopts_file_witness :
  ∃ s', sample_sync sample_state = (Ok (), s') ∧ sample_sync s' = (Ok (), s') ∧
    serves no_repr GoTime.fromisoformat local_scope s' github_main (mkMaterial (secret "t") None (lit "local")).
Proof.
  pose proof published_ok as H. apply andb_prop in H as [H _]. apply andb_prop in H as [H _].
  destruct (sample_sync sample_state) as [[[]|x] s'] eqn:E; [|discriminate H]. exists s'.
  destruct (sync_adopts_file no_repr GoTime.fromisoformat no_zone local_scope sample_state s' empty_well_formed E)
    as (Hagain & _ & source & entries & Hf & Hd & Hin).
  apply Ok_inj in Hf as <-. rewrite sample_decoded in Hd. apply Ok_inj in Hd as <-.
  destruct (Hin _ _ (list_elem_of_here _ _)) as (digest & _ & _ & Hs).
  refine (conj eq_refl (conj Hagain (Hs _ _))); [discriminate|reflexivity].
Defined.

Lemma newer_file_kept_witness :
  ∃ s' source record record' k m conn, snd published = s' ∧ file prepared = Ok source ∧ file s' ≠ file prepared ∧
    superseded GoTime.fromisoformat no_zone k (key_get k (imported (snd (sample_sync prepared)))) m record record' ∧
    fst (on_memory (read_credential_material no_repr GoTime.fromisoformat local_scope k) s') = Ok (m, conn).
Proof.
  pose proof published_ok as H. apply andb_prop in H as [_ H]. destruct published as [r s'] eqn:E. cbn [snd] in H.
  assert (Hne : file s' ≠ file prepared).
  { rewrite prepared_file. intros Hf. unfold token_in in H. rewrite Hf in H. discriminate H. }
  unfold published, published_while in E.
  destruct (newer_file_kept no_repr GoTime.fromisoformat no_zone local_scope meanwhile meanwhile (Ok ()) prepared (head_key path) old_etag
    new_head r s' E) as [Hf|[Hf|(s1 & source & before & record & record' & after & k & m & conn & Hs & Hf & _ & _ & _ & Hsup & Hr)]].
  - exfalso. exact (Hne Hf).
  - exfalso. exact (Hne Hf).
  - exists s', source, record, record', k, m, conn.
    refine (conj eq_refl (conj Hf (conj Hne (conj _ Hr)))). rewrite Hs. exact Hsup.
Defined.

End DexWebFacts.
