(* ===== verification/MailProgram.v ===== *)
(** * Programs of the email connector

    What the operations of connectors/superdurable/email/python do to their surroundings: Dex's
    heartbeat, the clock, the credential provider, and the sessions of the standard library's
    [imaplib] and [smtplib].  Every call that leaves the process is a node of a program tree whose
    answer, exceptions included, is the other side's choice; a session method counts as one call.
    [keeps] states an invariant of every run, cut short anywhere, against every server. *)

From S2P Require Import Prelude Errors Timestamps.

(** ** Exceptions *)

(** [MailFailure.outcome]: the six words client.py and operations.py use. *)
Inductive Outcome := ORejected | ORetry | OInvalid | ONotFound | OUncertain | ODefect.

#[global] Instance Outcome_eq_dec : EqDecision Outcome.
Proof. solve_decision. Defined.

Record MailFailure := mkMailFailure {
  outcome : Outcome;
  failure : Failure.t
}.

(** The exceptions [classify_mail_error] tells apart.  [EPy] are all other classes: a lost connection is
    an [OSError] or one of its subclasses, as [smtplib.SMTPServerDisconnected] is. *)
Inductive error :=
  | EMail (f : MailFailure)
  | EGai (errno : Z)
  | ECertVerification
  | ESSLEOF
  | ESSL
  | ERecipientsRefused (recipients : list (pystr * Z))
  | ESMTPResponse (smtp_code : Z)
  | EAbort
  | EImap (message : pystr)
  | EPy (e : exn).

Abbreviation mres := (result error).

Definition of_res {A} (r : res A) : mres A := match r with Ok a => Ok a | Err e => Err (EPy e) end.

(** ** What leaves the process *)

Record Credentials := mkCredentials {
  username : pystr;
  password : pystr;
  smtp_username : pystr;
  smtp_password : pystr
}.

(** What [Client.__init__] looks at in an [ssl.SSLContext]; the versions are those of [ssl.TLSVersion]. *)
Record TlsContext := mkTls {
  verifies : bool;
  check_hostname : bool;
  minimum_version : Z
}.

(** An item of an IMAP response as [imaplib] keeps it. *)
Inductive item := IBytes (b : list N) | INone | IPair (prefix literal : list N).

(** An argument of [IMAP4.uid]: text, or bytes that are sent as they are. *)
Inductive arg := AText (s : pystr) | ABytes (b : list N).

Inductive cmd : Type → Type :=
  (* Dex and the project *)
  | Resolve : cmd Credentials
  | HasHeartbeat : cmd bool
  | Heartbeat (value : option pystr) : cmd unit
  | Now : cmd GoTime.datetime
  (* imaplib; connecting and STARTTLS answer the capabilities read afterwards *)
  | ImapConnect (tls : option TlsContext) (host : pystr) (port : Z) : cmd (list pystr)
  | ImapStartTls (tls : TlsContext) : cmd (list pystr)
  | ImapShutdown : cmd unit
  | ImapLogin (user pass : pystr) : cmd unit
  | ImapAuthenticate (mechanism payload : pystr) : cmd unit
  | ImapSelect (mailbox : pystr) (readonly : bool) : cmd (pystr * list item)
  | ImapResponse (code : pystr) : cmd (list item)
  | ImapUid (command : pystr) (arguments : list arg) : cmd (pystr * list item)
  | ImapLogout : cmd unit
  (* smtplib; [ehlo] answers the code and the extensions of the reply *)
  | SmtpConnect (tls : option TlsContext) (host : pystr) (port : Z) : cmd unit
  | SmtpSetTimeout (seconds : Z) : cmd unit
  | SmtpEhlo (name : pystr) : cmd (Z * list (pystr * pystr))
  | SmtpStartTls (tls : TlsContext) : cmd unit
  | SmtpLogin (mechanism user pass : pystr) : cmd unit
  | SmtpMail (sender : pystr) (options : list pystr) : cmd Z
  | SmtpRcpt (recipient : pystr) : cmd Z
  | SmtpPutCmd (command : pystr) : cmd unit
  | SmtpGetReply : cmd Z
  | SmtpSend (bytes : list N) : cmd unit
  | SmtpQuit : cmd unit
  | SmtpClose : cmd unit.

(** What the libraries answer: no exception of the connector's own. *)
Definition answers {X} (r : mres X) : Prop := match r with Err (EMail _) => False | _ => True end.

(** ** Programs *)

Inductive prog (A : Type) : Type :=
  | Ret (r : mres A)
  | Vis {X} (c : cmd X) (k : mres X → prog A).
Arguments Ret {A} r.
Arguments Vis {A X} c k.

(** What follows [p], whether it returns or raises. *)
Fixpoint andthen {A B} (p : prog A) (k : mres A → prog B) : prog B :=
  match p with
  | Ret r => k r
  | Vis c f => Vis c (λ r, andthen (f r) k)
  end.

#[global] Instance prog_mbind : MBind prog := λ A B (f : A → prog B) (p : prog A),
  andthen p (λ r, match r with Ok a => f a | Err e => Ret (Err e) end).

Definition call_ {X} (c : cmd X) : prog X := Vis c Ret.
Definition lift {A} (r : res A) : prog A := Ret (of_res r).
Definition fail {A} (e : error) : prog A := Ret (Err e).

(** [try: p] with the handler of its exceptions, and with a [finally] block. *)
Definition catch {A} (p : prog A) (h : error → prog A) : prog A :=
  andthen p (λ r, match r with Ok a => Ret (Ok a) | Err e => h e end).
Definition finally {A} (p : prog A) (f : prog unit) : prog A :=
  andthen p (λ r, andthen f (λ u, match u with Ok _ => Ret r | Err e => Ret (Err e) end)).

(** ** Runs *)

(** One call with its answer; a history holds the newest call first. *)
Inductive call :=
  | mkCall {X : Type} (c : cmd X) (r : mres X).
Abbreviation history := (list call).

Section Runs.
(** The answers that are possible after a history. *)
Context (possible : history → ∀ X, cmd X → mres X → Prop).

(** Running [p] after [h]: all of it, or cut short between two calls ([None]). *)
Inductive runs {A} : prog A → history → history → option (mres A) → Prop :=
  | runs_stop p h : runs p h h None
  | runs_ret r h : runs (Ret r) h h (Some r)
  | runs_vis {X} (c : cmd X) k r h h' o :
      possible h X c r → runs (k r) (mkCall c r :: h) h' o → runs (Vis c k) h h' o.

Section Keeps.
Context (I : history → Prop).

(** Every run of [p] keeps [I] at every call, and ends in [Q]. *)
Fixpoint keeps {A} (p : prog A) (h : history) (Q : mres A → history → Prop) : Prop :=
  match p with
  | Ret r => Q r h
  | @Vis _ X c k => ∀ r, possible h X c r → I (mkCall c r :: h) ∧ keeps (k r) (mkCall c r :: h) Q
  end.

Lemma keeps_runs {A} (p : prog A) h h' o Q :
  runs p h h' o → I h → keeps p h Q → I h' ∧ ∀ r, o = Some r → Q r h'.
Proof.
  induction 1 as [p h|r h|X c k r h h' o Hp _ IH]; intros HI Hk.
  - done.
  - split; [done|]. intros r' [= <-]. exact Hk.
  - destruct (Hk r Hp) as [HI' Hk']. by apply IH.
Qed.

Lemma keeps_andthen {A B} (p : prog A) (k : mres A → prog B) h Q :
  keeps p h (λ r h', keeps (k r) h' Q) → keeps (andthen p k) h Q.
Proof.
  revert h. induction p as [r|X c f IH]; intros h; [done|]. cbn [keeps andthen].
  intros H r Hp. destruct (H r Hp). split; [done|]. by apply IH.
Qed.

Lemma keeps_weaken {A} (p : prog A) h (Q Q' : mres A → history → Prop) :
  (∀ r h', Q r h' → Q' r h') → keeps p h Q → keeps p h Q'.
Proof.
  intros HQ. revert h. induction p as [r|X c f IH]; intros h; [apply HQ|]. cbn [keeps].
  intros H r Hp. destruct (H r Hp). split; [done|]. by apply IH.
Qed.

Lemma keeps_bind {A B} (p : prog A) (f : A → prog B) h Q :
  keeps p h (λ r h', match r with Ok a => keeps (f a) h' Q | Err e => Q (Err e) h' end) → keeps (p ≫= f) h Q.
Proof. intros H. apply keeps_andthen. eapply keeps_weaken; [|exact H]. by intros [a|e] h'. Qed.

Lemma keeps_catch {A} (p : prog A) (f : error → prog A) h Q :
  keeps p h (λ r h', match r with Ok a => Q (Ok a) h' | Err e => keeps (f e) h' Q end) → keeps (catch p f) h Q.
Proof. intros H. apply keeps_andthen. eapply keeps_weaken; [|exact H]. by intros [a|e] h'. Qed.

Lemma keeps_finally {A} (p : prog A) (f : prog unit) h Q :
  keeps p h (λ r h', keeps f h' (λ u h'', Q (match u with Ok _ => r | Err e => Err e end) h'')) →
  keeps (finally p f) h Q.
Proof.
  intros H. apply keeps_andthen. eapply keeps_weaken; [|exact H]. intros r h' H'. apply keeps_andthen.
  eapply keeps_weaken; [|exact H']. by intros [u|e] h''.
Qed.

Lemma keeps_call {X} (c : cmd X) h Q :
  (∀ r, possible h X c r → I (mkCall c r :: h) ∧ Q r (mkCall c r :: h)) → keeps (call_ c) h Q.
Proof. done. Qed.

(** [p] keeps [I], whatever it ends with. *)
Definition preserves {A} (p : prog A) : Prop := ∀ h, I h → keeps p h (λ _ h', I h').

Lemma preserves_andthen {A B} (p : prog A) (k : mres A → prog B) :
  preserves p → (∀ r, preserves (k r)) → preserves (andthen p k).
Proof.
  intros Hp Hk h Hh. apply keeps_andthen. eapply keeps_weaken; [|by apply Hp]. intros r h' Hh'. by apply Hk.
Qed.

Lemma preserves_ret {A} (r : mres A) : preserves (Ret r).
Proof. by intros h Hh. Qed.

Lemma preserves_lift {A} (r : res A) : preserves (lift r).
Proof. by intros h Hh. Qed.

Lemma preserves_fail {A} e : preserves (A:=A) (fail e).
Proof. by intros h Hh. Qed.

Lemma preserves_bind {A B} (p : prog A) (f : A → prog B) :
  preserves p → (∀ a, preserves (f a)) → preserves (p ≫= f).
Proof. intros Hp Hf. apply preserves_andthen; [done|]. intros [a|e]; [done|]. apply preserves_ret. Qed.

Lemma preserves_catch {A} (p : prog A) (f : error → prog A) :
  preserves p → (∀ e, preserves (f e)) → preserves (catch p f).
Proof. intros Hp Hf. apply preserves_andthen; [done|]. intros [a|e]; [|done]. apply preserves_ret. Qed.

Lemma preserves_finally {A} (p : prog A) (f : prog unit) : preserves p → preserves f → preserves (finally p f).
Proof.
  intros Hp Hf. apply preserves_andthen; [done|]. intros r. apply preserves_andthen; [done|].
  intros [u|e]; apply preserves_ret.
Qed.

Lemma preserves_call {X} (c : cmd X) :
  (∀ h r, possible h X c r → I h → I (mkCall c r :: h)) → preserves (call_ c).
Proof. intros Hc h Hh r Hr. split; by apply Hc. Qed.

Lemma preserves_runs {A} (p : prog A) h h' o : preserves p → I h → runs p h h' o → I h'.
Proof. intros Hp Hh Hr. by apply (keeps_runs p h h' o _ Hr Hh (Hp h Hh)). Qed.

(** [p] keeps [I], and what it returns satisfies [P]. *)
Definition ensures {A} (P : A → Prop) (p : prog A) : Prop :=
  ∀ h, I h → keeps p h (λ r h', I h' ∧ match r with Ok a => P a | Err _ => True end).

Lemma ensures_bind {A B} (P : A → Prop) (Q : B → Prop) (p : prog A) (f : A → prog B) :
  ensures P p → (∀ a, P a → ensures Q (f a)) → ensures Q (p ≫= f).
Proof.
  intros Hp Hf h Hh. apply keeps_bind. eapply keeps_weaken; [|by apply Hp]. intros [a|e] h' [Hh' Ha]; [by apply Hf|done].
Qed.

Lemma ensures_catch {A} (P : A → Prop) (p : prog A) (f : error → prog A) :
  ensures P p → (∀ e, ensures P (f e)) → ensures P (catch p f).
Proof.
  intros Hp Hf h Hh. apply keeps_catch. eapply keeps_weaken; [|by apply Hp]. intros [a|e] h' [Hh' Ha]; [done|by apply Hf].
Qed.

Lemma ensures_finally {A} (P : A → Prop) (p : prog A) (f : prog unit) :
  ensures P p → ensures (λ _, True) f → ensures P (finally p f).
Proof.
  intros Hp Hf h Hh. apply keeps_finally. eapply keeps_weaken; [|by apply Hp]. intros r h' [Hh' Hr].
  eapply keeps_weaken; [|by apply Hf]. by intros [u|e] h'' [? _].
Qed.

Lemma ensures_ret {A} (P : A → Prop) (r : mres A) : (∀ a, r = Ok a → P a) → ensures P (Ret r).
Proof. intros Hr h Hh. split; [done|]. destruct r; [by apply Hr|done]. Qed.

Lemma ensures_lift {A} (P : A → Prop) (r : res A) : (∀ a, r = Ok a → P a) → ensures P (lift r).
Proof. intros Hr. apply ensures_ret. intros a Ha. apply Hr. by destruct r; [apply Ok_inj in Ha as ->|]. Qed.

Lemma ensures_fail {A} (P : A → Prop) e : ensures P (fail (A:=A) e).
Proof. by intros h Hh. Qed.

Lemma ensures_call {X} (P : X → Prop) (c : cmd X) :
  (∀ h r, possible h X c r → I h → I (mkCall c r :: h) ∧ match r with Ok a => P a | Err _ => True end) → ensures P (call_ c).
Proof. intros Hc h Hh r Hr. destruct (Hc h r Hr Hh). by split. Qed.

Lemma ensures_weaken {A} (P Q : A → Prop) (p : prog A) : (∀ a, P a → Q a) → ensures P p → ensures Q p.
Proof.
  intros HPQ Hp h Hh. eapply keeps_weaken; [|by apply Hp]. intros [a|e] h' [? ?]; split; auto.
Qed.

Lemma preserves_bind_ensures {A B} (P : A → Prop) (p : prog A) (f : A → prog B) :
  ensures P p → (∀ a, P a → preserves (f a)) → preserves (p ≫= f).
Proof.
  intros Hp Hf h Hh. apply keeps_bind. eapply keeps_weaken; [|by apply Hp]. intros [a|e] h' [Hh' Ha]; [by apply Hf|done].
Qed.

Lemma preserves_lift_bind {A B} (r : res A) (f : A → prog B) :
  (∀ a, r = Ok a → preserves (f a)) → preserves (lift r ≫= f).
Proof. intros Hf. apply (preserves_bind_ensures (λ a, r = Ok a)); [by apply ensures_lift|done]. Qed.

Lemma preserves_ret_bind {A B} (r : mres A) (f : A → prog B) :
  (∀ a, r = Ok a → preserves (f a)) → preserves (Ret r ≫= f).
Proof. intros Hf. apply (preserves_bind_ensures (λ a, r = Ok a)); [by apply ensures_ret|done]. Qed.

Lemma ensures_runs {A} (P : A → Prop) (p : prog A) h h' o :
  ensures P p → I h → runs p h h' o → I h' ∧ ∀ a, o = Some (Ok a) → P a.
Proof.
  intros Hp Hh Hr. destruct (keeps_runs p h h' o _ Hr Hh (Hp h Hh)) as [HI HQ]. split; [done|].
  intros a Ho. by destruct (HQ _ Ho).
Qed.

End Keeps.

(** A program that only makes calls [ok] accepts keeps every invariant such calls keep. *)
Section Only.
Context (ok : ∀ X, cmd X → bool).

Fixpoint only {A} (p : prog A) : Prop :=
  match p with
  | Ret _ => True
  | @Vis _ X c k => ok X c = true ∧ ∀ r, only (k r)
  end.

Lemma only_andthen {A B} (p : prog A) (k : mres A → prog B) :
  only p → (∀ r, only (k r)) → only (andthen p k).
Proof.
  intros Hp Hk. induction p as [r|X c f IH]; [apply Hk|]. destruct Hp as [Hc Hp].
  split; [done|]. intros r. by apply IH.
Qed.

Lemma only_bind {A B} (p : prog A) (f : A → prog B) : only p → (∀ a, only (f a)) → only (p ≫= f).
Proof. intros Hp Hf. apply only_andthen; [done|]. by intros [a|e]. Qed.

Lemma only_catch {A} (p : prog A) (f : error → prog A) : only p → (∀ e, only (f e)) → only (catch p f).
Proof. intros Hp Hf. apply only_andthen; [done|]. by intros [a|e]. Qed.

Lemma only_finally {A} (p : prog A) (f : prog unit) : only p → only f → only (finally p f).
Proof. intros Hp Hf. apply only_andthen; [done|]. intros r. apply only_andthen; [done|]. by intros [u|e]. Qed.

Lemma only_ret {A} (r : mres A) : only (Ret r).
Proof. done. Qed.

Lemma only_lift {A} (r : res A) : only (lift r).
Proof. done. Qed.

Lemma only_fail {A} e : only (A:=A) (fail e).
Proof. done. Qed.

Lemma only_call {X} (c : cmd X) : ok X c = true → only (call_ c).
Proof. done. Qed.

Lemma only_keeps {A} (p : prog A) (I : history → Prop) (R : history → Prop) h :
  (∀ h X (c : cmd X) r, R h → I h → ok X c = true → I (mkCall c r :: h) ∧ R (mkCall c r :: h)) →
  only p → R h → I h → keeps I p h (λ _ h', R h' ∧ I h').
Proof.
  intros Hstep. revert h. induction p as [r|X c f IH]; intros h Hp HR HI; [done|]. cbn [keeps].
  destruct Hp as [Hc Hp]. intros r Hr. destruct (Hstep h X c r HR HI Hc). split; [done|]. by apply IH.
Qed.

End Only.

(** ** Running against one server *)

(** A server that answers every call; [exec] runs a program to its end. *)
Definition server := history → ∀ X, cmd X → mres X.

Fixpoint exec {A} (s : server) (p : prog A) (h : history) : mres A * history :=
  match p with
  | Ret r => (r, h)
  | @Vis _ X c k => let r := s h X c in exec s (k r) (mkCall c r :: h)
  end.

Lemma exec_runs {A} (s : server) (p : prog A) h :
  (∀ h X c, possible h X c (s h X c)) → runs p h (snd (exec s p h)) (Some (fst (exec s p h))).
Proof.
  intros Hs. revert h. induction p as [r|X c k IH]; intros h; [constructor|]. cbn [exec].
  eapply runs_vis; [apply Hs|]. apply IH.
Qed.

End Runs.

(** Follow a program that only makes some calls, or preserves an invariant; [tac] solves what is left. *)
Ltac only_step :=
  lazymatch goal with
  | |- only _ (_ ≫= _) => apply only_bind
  | |- only _ (catch _ _) => apply only_catch
  | |- only _ (finally _ _) => apply only_finally
  | |- only _ (Ret _) => apply only_ret
  | |- only _ (lift _) => apply only_lift
  | |- only _ (fail _) => apply only_fail
  | |- only _ (call_ _) => apply only_call
  | |- only _ (match ?x with _ => _ end) => let E := fresh "E" in destruct x eqn:E
  | |- ∀ _, _ => intro
  end; cbn beta iota zeta.

Ltac preserve_step :=
  lazymatch goal with
  | |- preserves _ _ (lift _ ≫= _) => apply preserves_lift_bind
  | |- preserves _ _ (Ret _ ≫= _) => apply preserves_ret_bind
  | |- preserves _ _ (_ ≫= _) => apply preserves_bind
  | |- preserves _ _ (catch _ _) => apply preserves_catch
  | |- preserves _ _ (finally _ _) => apply preserves_finally
  | |- preserves _ _ (Ret _) => apply preserves_ret
  | |- preserves _ _ (lift _) => apply preserves_lift
  | |- preserves _ _ (fail _) => apply preserves_fail
  | |- preserves _ _ (match ?x with _ => _ end) => let E := fresh "E" in destruct x eqn:E
  | |- ∀ _, _ => intro
  end; cbn beta iota zeta.
