(* ===== verification/EmailClient.v ===== *)
(** * The email client: configuration checks, error classes and TLS sessions

    connectors/superdurable/email/python/src/dex_connectors/superdurable_email/client.py.  [Client.init]
    are the checks of the constructor, [resolve_credentials] and [sender] those of every operation,
    [open_imap] and [open_smtp] the way to an authenticated session, and [classify_mail_error] turns
    whatever a session raised into a [MailFailure]. *)

From S2P Require Import Prelude Errors Timestamps AddressPolicy MailProgram.

(** A call of an [HTMLParser] handler. *)
Inductive html_event := HStart (tag : pystr) | HEnd (tag : pystr) | HData (data : pystr).

(** The parts of Python's [email] package and codecs the connector calls.  An answer [None] or [Err] is an
    exception. *)
Class EmailLibrary := {
  (** [Address(addr_spec=value).addr_spec]. *)
  addr_spec_of : pystr → option pystr;
  (** [email.message_from_bytes(headers, policy=default).get(name)]. *)
  header : list N → pystr → res (option pystr);
  (** [getaddresses([value])]. *)
  getaddresses : pystr → res (list (pystr * pystr));
  (** [parsedate_to_datetime(value)]. *)
  parsedate_to_datetime : pystr → res GoTime.datetime;
  (** [data.decode(charset, errors="replace")]. *)
  decode : pystr → list N → res pystr;
  (** [text.lower()], [text.upper()] and [text.casefold()]. *)
  lower : pystr → pystr;
  upper : pystr → pystr;
  casefold : pystr → pystr;
  (** [decode_header(value)]: chunks of bytes with their charset, or of text. *)
  decode_header : pystr → res (list (pystr + list N * option pystr));
  (** [base64.b64decode(data, validate=False)] and [quopri.decodestring(data)]. *)
  b64decode : list N → res (list N);
  quopri_decodestring : list N → list N;
  (** What [HTMLParser(convert_charrefs=True).feed(text)] calls its handlers with. *)
  html_events : pystr → list html_event;
  (** [EmailMessage(policy=SMTP)] with these headers, in order, and this text, [as_bytes()]. *)
  as_bytes : list (pystr * pystr) → pystr → res (list N);
  (** The text of [Address(display_name, addr_spec)] as a header. *)
  address_text : pystr → pystr → res pystr
}.

(** ** Server names and addresses *)

Definition host_word (c : N) : bool := is_alnum c || (c =? 95)%N.

(** [_HOST_LABEL.fullmatch(label)]. *)
Definition _HOST_LABEL (label : pystr) : bool :=
  match label with
  | [] => false
  | c :: rest =>
      host_word c && (length rest <=? 62)%nat && forallb (λ c, host_word c || (c =? 45)%N) rest
      && match last rest with Some z => host_word z | None => true end
  end.

(** [host.removesuffix(".")]. *)
Definition without_dot (host : pystr) : pystr :=
  match rev host with 46%N :: r => rev r | _ => host end.

Definition is_server_host_name (host : pystr) : bool :=
  if negb (truthy host) || (253 <? length host)%nat || negb (bool_decide (py_strip host = host)) then false
  else match ip_address host with
       | Some _ => true
       | None => forallb _HOST_LABEL (split_char 46 (without_dot host))
       end.

(** [value.rsplit("@", 1)] for a value that holds an at sign. *)
Definition rsplit_at (value : pystr) : pystr * pystr :=
  let parts := split_char 64 value in (join [64%N] (removelast parts), List.last parts []).

Definition count_char (c : N) (s : pystr) : nat := length (List.filter (N.eqb c) s).

Section Addresses.
Context `{EmailLibrary}.

Definition is_bare_email_address (value : pystr) : bool :=
  if negb (truthy value) || (254 <? length value)%nat
     || existsb (λ c, (127 <? c)%N || py_isspace c || (c <? 32)%N) value then false
  else match addr_spec_of value with
       | None => false
       | Some spec =>
           if negb (bool_decide (spec = value)) || negb (count_char 64 value =? 1)%nat then false
           else let '(loc, domain) := rsplit_at value in
                truthy loc && has_char 46 domain && is_server_host_name domain
       end.

End Addresses.

Definition _has_control (value : pystr) : bool :=
  existsb (λ c, (c <? 32)%N || in_range 127 159 c || in_range 0x2028 0x2029 c) value.

Definition mail_failure (kind : FailureKind) (operation message : pystr) : Failure.t :=
  Failure.mk kind "email" operation message.

Definition mail_error (o : Outcome) (kind : FailureKind) (operation message : pystr) : MailFailure :=
  mkMailFailure o (mail_failure kind operation message).

(** ** Errors of a session *)

(** The first group of [re.search(r"\[([A-Z]+)\]", text)], or the empty text. *)
Fixpoint upper_run (s : pystr) : pystr * pystr :=
  match s with
  | c :: s' => if is_upper c then let '(a, b) := upper_run s' in (c :: a, b) else ([], s)
  | [] => ([], [])
  end.

Fixpoint bracketed_code (s : pystr) : pystr :=
  match s with
  | [] => []
  | c :: s' =>
      match upper_run s' with
      | ((_ :: _) as code, 93%N :: _) => if (c =? 91)%N then code else bracketed_code s'
      | _ => bracketed_code s'
      end
  end.

Definition one_of (s : pystr) (l : list string) : bool := existsb (λ t, bool_decide (s = lit t)) l.

Definition EAI_NONAME : Z := -2.

(** The answer to an SMTP reply code. *)
Definition classify_code (code : Z) (operation command : pystr) : MailFailure :=
  let '(kind, outcome) :=
    if (code / 100 =? 4)%Z then (AVAILABILITY, ORetry)
    else if (code =? 535)%Z || (code =? 534)%Z || (code =? 530)%Z || (code =? 538)%Z then (AUTHENTICATION, ORejected)
    else if (code =? 552)%Z then (RESPONSE_TOO_LARGE, ORejected)
    else (PROVIDER_REJECTION, ORejected) in
  mail_error outcome kind operation ("the SMTP server rejected " ++ command ++ " with " ++ str_of_Z code).

(** The answer to [imaplib.IMAP4.error]. *)
Definition classify_imap (response operation command : pystr) : MailFailure :=
  let code := bracketed_code response in
  if bool_decide (command = lit "SELECT") && one_of code ["NONEXISTENT"; "TRYCREATE"] then
    mail_error ONotFound NOT_FOUND operation "the mailbox does not exist"
  else if one_of code ["UNAVAILABLE"; "INUSE"; "SERVERBUG"; "LIMIT"] then
    mail_error ORetry (if one_of code ["LIMIT"] then RATE_LIMIT else AVAILABILITY) operation
      ("the IMAP server answered " ++ command ++ " with NO [" ++ code ++ "]")
  else
    let kind :=
      if one_of code ["AUTHENTICATIONFAILED"; "EXPIRED"; "PRIVACYREQUIRED"; "CONTACTADMIN"] then AUTHENTICATION
      else if one_of code ["AUTHORIZATIONFAILED"; "NOPERM"] then AUTHORIZATION
      else if one_of code ["NONEXISTENT"; "TRYCREATE"] then NOT_FOUND
      else if one_of code ["OVERQUOTA"] then QUOTA_EXHAUSTED
      else if contains "BAD" response then PROTOCOL
      else if bool_decide (command = lit "LOGIN") then AUTHENTICATION else PROVIDER_REJECTION in
    mail_error ORejected kind operation ("the IMAP server answered " ++ command ++ " with NO").

Definition connection_lost (operation protocol command : pystr) : MailFailure :=
  mail_error ORetry TRANSPORT operation
    ("the " ++ protocol ++ " connection was lost during " ++ command).

(** A [MailFailure] itself is an [Exception] of no class the function looks for. *)
Definition classify_mail_error (e : error) (operation protocol command : pystr) : MailFailure :=
  let unparsed := mail_error OInvalid PROTOCOL operation
    ("the " ++ protocol ++ " server answered " ++ command ++ " with a response the connector cannot parse") in
  match e with
  | EGai errno =>
      if (errno =? EAI_NONAME)%Z then
        mail_error ORejected VALIDATION operation ("the " ++ protocol ++ " host name does not resolve")
      else connection_lost operation protocol command
  | ECertVerification =>
      mail_error ORejected PROTOCOL operation
        ("the " ++ protocol ++ " server certificate failed verification for the configured host")
  | ESSLEOF => mail_error ORetry TRANSPORT operation ("the " ++ protocol ++ " TLS connection was lost")
  | ESSL => mail_error ORejected PROTOCOL operation ("the " ++ protocol ++ " server refused TLS")
  | ERecipientsRefused ((_, code) :: _) => classify_code code operation command
  | ERecipientsRefused [] => connection_lost operation protocol command
  | ESMTPResponse code => classify_code code operation command
  | EAbort => mail_error ORetry TRANSPORT operation ("the IMAP connection was lost during " ++ command)
  | EImap message => classify_imap message operation command
  | EPy x => if isinst x OSError then connection_lost operation protocol command else unparsed
  | EMail _ => unparsed
  end.

(** [except MailFailure: raise] followed by [except Exception: raise classify_mail_error(...)]. *)
Definition classified {A} (operation protocol command : pystr) (p : prog A) : prog A :=
  catch p (λ e, match e with
    | EMail f => fail (EMail f)
    | _ => fail (EMail (classify_mail_error e operation protocol command))
    end).

(** [except Exception: raise classify_mail_error(...)] alone. *)
Definition reclassified {A} (operation protocol command : pystr) (p : prog A) : prog A :=
  catch p (λ e, fail (EMail (classify_mail_error e operation protocol command))).

(** ** The client *)

Record Config := mkEmailConfig {
  imap_host : pystr;
  smtp_host : pystr;
  from_address : pystr;
  from_name : pystr;
  imap_port : Z;
  imap_security : pystr;
  smtp_port : Z;
  smtp_security : pystr
}.

Record Client := mkClient {
  config : Config;
  tls_context : TlsContext
}.

Definition TLSv1_2 : Z := 0x0303.

(** [ssl.create_default_context()]: it verifies, checks host names and starts at TLS 1.2. *)
Definition default_context : TlsContext := mkTls true true TLSv1_2.

Definition endpoint_checks (protocol host : pystr) (port : Z) (security : pystr) : res unit :=
  raise_if (negb (is_server_host_name host)) ValueError
    ("email " ++ protocol ++ " host must be a host name or IP address without a scheme or port") ≫= λ _,
  raise_if (negb ((1 <=? port)%Z && (port <=? 65535)%Z)) ValueError
    ("email " ++ protocol ++ " port must be from 1 through 65535") ≫= λ _,
  raise_if (negb (one_of security ["implicitTLS"; "startTLS"])) ValueError
    ("email " ++ protocol ++ " security must be implicitTLS or startTLS").

Section Client.
Context `{EmailLibrary}.

(** [Client.__init__]; a port is an [int] by its type here. *)
Definition init (c : Config) (tls : option TlsContext) : res Client :=
  endpoint_checks "IMAP" (imap_host c) (imap_port c) (imap_security c) ≫= λ _,
  endpoint_checks "SMTP" (smtp_host c) (smtp_port c) (smtp_security c) ≫= λ _,
  raise_if (truthy (from_address c) && negb (is_bare_email_address (from_address c))) ValueError
    "email fromAddress must be one bare ASCII address" ≫= λ _,
  raise_if (truthy (from_name c) && (negb (bool_decide (py_strip (from_name c) = from_name c))
              || (128 <? length (from_name c))%nat || _has_control (from_name c))) ValueError
    "email fromName must be at most 128 characters without surrounding spaces or line breaks" ≫= λ _,
  raise_if (match tls with
            | Some t => negb (verifies t) || negb (check_hostname t) || (minimum_version t <? TLSv1_2)%Z
            | None => false
            end) ValueError
    "email TLS context must verify certificates and host names with TLS 1.2 or later" ≫= λ _,
  Ok (mkClient c (default default_context tls)).

Definition resolve_credentials (operation : pystr) : prog Credentials :=
  catch
    (credentials ← call_ Resolve;
     if negb (truthy (username credentials)) || negb (truthy (password credentials))
        || existsb _has_control [username credentials; password credentials; smtp_username credentials;
                                 smtp_password credentials]
     then lift (raise ValueError "invalid credentials") else Ret (Ok credentials))
    (λ _, fail (EMail (mail_error ODefect AUTHENTICATION operation "connection credentials are unavailable"))).

Definition sender (cl : Client) (credentials : Credentials) (operation : pystr) : mres pystr :=
  let sender := if truthy (from_address (config cl)) then from_address (config cl) else username credentials in
  if is_bare_email_address sender then Ok sender
  else Err (EMail (mail_error ODefect VALIDATION operation
    "fromAddress is blank and username is not a complete address, so the sender is unknown")).

(** [open_imap]: the capabilities of the session it returns. *)
Definition open_imap (cl : Client) (credentials : Credentials) (operation : pystr) : prog (list pystr) :=
  let c := config cl in
  classified operation "IMAP" "LOGIN"
    (capabilities ←
       (if bool_decide (imap_security c = lit "implicitTLS") then
          call_ (ImapConnect (Some (tls_context cl)) (imap_host c) (imap_port c))
        else
          plain ← call_ (ImapConnect None (imap_host c) (imap_port c));
          catch
            (if negb (bool_decide (lit "STARTTLS" ∈ plain)) then
               fail (EMail (mail_error ORejected PROTOCOL operation
                 "the IMAP server did not accept STARTTLS, so the connector did not log in"))
             else call_ (ImapStartTls (tls_context cl)))
            (λ e, call_ ImapShutdown ≫= λ _, fail e));
     (if bool_decide (lit "LOGINDISABLED" ∈ capabilities) then
        if negb (bool_decide (lit "AUTH=PLAIN" ∈ capabilities)) then
          fail (EMail (mail_error ORejected AUTHENTICATION operation
            "the IMAP server disables LOGIN and offers no AUTH=PLAIN over this TLS connection"))
        else
          call_ (ImapAuthenticate "PLAIN" ([0%N] ++ username credentials ++ [0%N] ++ password credentials))
      else call_ (ImapLogin (username credentials) (password credentials))) ≫= λ _,
     Ret (Ok capabilities)).

Definition ehlo (operation : pystr) : prog (list (pystr * pystr)) :=
  '(code, features) ← call_ (SmtpEhlo "localhost");
  if negb (code =? 250)%Z then
    fail (EMail (classify_mail_error (ESMTPResponse code) operation "SMTP" "EHLO"))
  else Ret (Ok features).

(** [text.split()]. *)
Definition py_split (s : pystr) : list pystr :=
  List.filter truthy (split_char 32 (map (λ c, if py_isspace c then 32%N else c) s)).

Definition feature (name : pystr) (features : list (pystr * pystr)) : option pystr := dget name features.

(** [open_smtp]: the extensions of the session it returns, [esmtp_features].  A successful STARTTLS makes
    the socket a TLS socket; the library has an open socket wherever [sock] is read. *)
Definition open_smtp (cl : Client) (credentials : Credentials) (operation : pystr) : prog (list (pystr * pystr)) :=
  let c := config cl in
  classified operation "SMTP" "AUTH"
    (is_ssl ←
       (if bool_decide (smtp_security c = lit "implicitTLS") then
          call_ (SmtpConnect (Some (tls_context cl)) (smtp_host c) (smtp_port c)) ≫= λ _, Ret (Ok true)
        else
          call_ (SmtpConnect None (smtp_host c) (smtp_port c)) ≫= λ _,
          call_ (SmtpSetTimeout 30) ≫= λ _,
          features ← ehlo operation;
          (if negb (dhas "starttls" features) then
             fail (EMail (mail_error ORejected PROTOCOL operation
               "the SMTP server does not offer STARTTLS, so the connector did not authenticate"))
           else
             call_ (SmtpSetTimeout 15) ≫= λ _,
             call_ (SmtpStartTls (tls_context cl)) ≫= λ _, Ret (Ok true)));
     call_ (SmtpSetTimeout 30) ≫= λ _,
     features ← ehlo operation;
     if negb is_ssl then
       fail (EMail (mail_error ORejected PROTOCOL operation
         "the SMTP connection is not encrypted, so the connector did not authenticate"))
     else
       let auth := py_split (lower (default [] (feature "auth" features))) in
       if negb (bool_decide (lit "plain" ∈ auth) || bool_decide (lit "login" ∈ auth)) then
         fail (EMail (mail_error ORejected AUTHENTICATION operation
           "the SMTP server offers neither AUTH PLAIN nor AUTH LOGIN over this TLS connection"))
       else
         let user := if truthy (smtp_username credentials) then smtp_username credentials else username credentials in
         let pass := if truthy (smtp_password credentials) then smtp_password credentials else password credentials in
         let mechanism : pystr := if bool_decide (lit "plain" ∈ auth) then "PLAIN" else "LOGIN" in
         call_ (SmtpLogin mechanism user pass) ≫= λ _,
         Ret (Ok (dset "auth" mechanism features))).

End Client.
