(* ===== verification/EmailBody.v ===== *)
(** * MIME parts from a BODYSTRUCTURE

    connectors/superdurable/email/python/src/dex_connectors/superdurable_email/imap_bodystructure.py:
    the parser of IMAP lists, the parameters and file names of a part, and the walk that lists the
    leaves of a structure with their section paths.  A position in the source is the rest of it. *)

From S2P Require Import Prelude Errors Timestamps Identity AddressPolicy MailProgram EmailClient.

(** ** Searching bytes *)

(** [re.search]: the first position at which [m] matches; [m] is given the byte before it. *)
Fixpoint search {A} (m : option N → list N → option A) (prev : option N) (s : list N) : option A :=
  match m prev s with
  | Some a => Some a
  | None => match s with [] => None | c :: s' => search m (Some c) s' end
  end.

Definition re_space (c : N) : bool := in_range 9 13 c || (c =? 32)%N.
Definition re_word (c : N) : bool := is_alnum c || (c =? 95)%N.
Definition boundary (prev : option N) : bool := match prev with Some c => negb (re_word c) | None => true end.

(** The rest after [p], letters compared without case; [p] is in lower case. *)
Fixpoint expect_ci (p s : list N) : option (list N) :=
  match p, s with
  | [], _ => Some s
  | a :: p', b :: s' => if bool_decide ([a] = ascii_lower [b]) then expect_ci p' s' else None
  | _ :: _, [] => None
  end.

Definition expect_text (p s : list N) : option (list N) :=
  if starts_with p s then Some (drop (length p) s) else None.

(** ** The parser *)

Inductive node := NList (values : list node) | NText (s : pystr) | NInt (n : Z) | NNil.

Definition imap_space (c : N) : bool := existsb (N.eqb c) [32; 9; 13; 10]%N.
Definition atom_end (c : N) : bool := existsb (N.eqb c) [32; 40; 41; 9; 13; 10]%N.

Definition skip_spaces (s : list N) : list N := drop_while imap_space s.

Fixpoint atom_span (s : list N) : list N * list N :=
  match s with
  | c :: s' => if atom_end c then ([], s) else let '(a, b) := atom_span s' in (c :: a, b)
  | [] => ([], [])
  end.

(** The body of a quoted string and the rest after its closing quote. *)
Fixpoint quoted_string (s : list N) : res (list N * list N) :=
  match s with
  | [] => raise ValueError "unclosed IMAP quoted string"
  | 34%N :: s' => Ok ([], s')
  | 92%N :: s' =>
      match s' with
      | [] => raise ValueError "incomplete IMAP quoted string"
      | c :: s'' => '(value, rest) ← quoted_string s''; Ok (c :: value, rest)
      end
  | c :: s' => '(value, rest) ← quoted_string s'; Ok (c :: value, rest)
  end.

(** [int(token)] for a run of ASCII digits: the interpreter's limit on the number of digits. *)
Definition int_of_digits (digits : list N) : res Z :=
  raise_if (4300 <? N.of_nat (length digits))%N ValueError "Exceeds the limit for integer string conversion" ≫= λ _,
  Ok (digits_value digits).

Definition is_digits (s : list N) : bool := truthy s && forallb is_digit s.

Definition atom (s : list N) : res (node * list N) :=
  let '(token, rest) := atom_span s in
  raise_if (negb (truthy token)) ValueError "invalid IMAP BODYSTRUCTURE atom" ≫= λ _,
  raise_if (existsb (λ c, (127 <? c)%N) token) ValueError "ordinal not in range(128)" ≫= λ _,
  if bool_decide (ascii_lower token = lit "nil") then Ok (NNil, rest)
  else if is_digits token then n ← int_of_digits token; Ok (NInt n, rest)
  else Ok (NText token, rest).

Section Body.
Context `{EmailLibrary}.

(** [_value], and the loop of its parenthesized case. *)
Fixpoint _value (fuel : nat) (depth : nat) (source : list N) : res (node * list N) :=
  match fuel with
  | O => raise RuntimeError "out of fuel"
  | S fuel =>
      let s := skip_spaces source in
      if (64 <? depth)%nat then raise ValueError "IMAP BODYSTRUCTURE nesting is too deep"
      else match s with
           | [] => raise ValueError "incomplete IMAP BODYSTRUCTURE"
           | 40%N :: s' => '(values, rest) ← _values fuel depth s'; Ok (NList values, rest)
           | 34%N :: s' =>
               '(value, rest) ← quoted_string s';
               text ← decode "utf-8" value;
               Ok (NText text, rest)
           | _ => atom s
           end
  end
with _values (fuel : nat) (depth : nat) (source : list N) : res (list node * list N) :=
  match fuel with
  | O => raise RuntimeError "out of fuel"
  | S fuel =>
      match skip_spaces source with
      | [] => raise ValueError "unclosed IMAP BODYSTRUCTURE"
      | 41%N :: rest => Ok ([], rest)
      | s => '(v, s') ← _value fuel (S depth) s;
             '(vs, rest) ← _values fuel depth s';
             Ok (v :: vs, rest)
      end
  end.

(** Every call consumes a byte of the source before the next call of its kind. *)
Definition parse_fuel (source : list N) : nat := 2 * length source + 2.

Definition parse (source : list N) : res node :=
  '(value, rest) ← _value (parse_fuel source) 0 (skip_spaces source);
  raise_if (truthy (skip_spaces rest)) ValueError "trailing IMAP BODYSTRUCTURE data" ≫= λ _,
  Ok value.

(** [_extract_parenthesized(source, start)] on the source from [start]. *)
Fixpoint extract_from (depth : Z) (quoted escaped : bool) (s : list N) : option (list N) :=
  match s with
  | [] => None
  | c :: s' =>
      cons c <$>
        (if escaped then extract_from depth quoted false s'
         else if quoted && (c =? 92)%N then extract_from depth quoted true s'
         else if (c =? 34)%N then extract_from depth (negb quoted) false s'
         else if quoted then extract_from depth quoted false s'
         else if (c =? 40)%N then extract_from (depth + 1) quoted false s'
         else if (c =? 41)%N then
           if (depth - 1 =? 0)%Z then Some [] else extract_from (depth - 1) quoted false s'
         else extract_from depth quoted false s')
  end.

Definition _extract_parenthesized (source : list N) : res (list N) :=
  match extract_from 0 false false source with
  | Some e => Ok e
  | None => raise ValueError "incomplete IMAP BODYSTRUCTURE"
  end.

(** ** Parameters and file names *)

Fixpoint parameter_pairs (l : list node) (result : dict pystr) : dict pystr :=
  match l with
  | NText key :: NText value :: l' => parameter_pairs l' (dset (lower key) value result)
  | _ :: _ :: l' => parameter_pairs l' result
  | _ => result
  end.

Definition _parameters (value : option node) : dict pystr :=
  match value with
  | Some (NList l) => if Nat.odd (length l) then [] else parameter_pairs l []
  | _ => []
  end.

(** [decode_rfc2231(value)]: its first and third result. *)
Definition decode_rfc2231 (s : pystr) : pystr * pystr :=
  match split_char 39 s with
  | charset :: _ :: (_ :: _) as rest => (charset, join [39%N] rest)
  | _ => ([], s)
  end.

Definition nibble (c : N) : N :=
  (if is_digit c then c - 48 else if is_lower c then c - 87 else c - 55)%N.

Fixpoint unquoted (s : list N) : list N :=
  match s with
  | 37%N :: (a :: b :: s'') as s' => if is_hex a && is_hex b then (nibble a * 16 + nibble b)%N :: unquoted s'' else 37%N :: unquoted s'
  | c :: s' => c :: unquoted s'
  | [] => []
  end.

(** [urllib.parse.unquote_to_bytes(text)]. *)
Definition unquote_to_bytes (s : pystr) : res (list N) := unquoted <$> CallID.encode s.

(** [data.decode(charset, errors="replace")], as UTF-8 when the charset is unknown. *)
Definition decode_or_utf8 (charset : pystr) (data : list N) : res pystr :=
  match decode charset data with
  | Err x => if isinst x LookupError then decode "utf-8" data else Err x
  | r => r
  end.

Definition nonempty_or (s default : pystr) : pystr := if truthy s then s else default.

(** [parameters.get(a) or parameters.get(b)]. *)
Definition get_either (a b : pystr) (parameters : dict pystr) : pystr :=
  nonempty_or (default [] (dget a parameters)) (default [] (dget b parameters)).

(** The loop over the numbered segments of one name; every round finds another parameter. *)
Fixpoint segments_from (fuel : nat) (base : pystr) (index : N) (charset : pystr) (parameters : dict pystr) :
    res (list (list N) * pystr) :=
  match fuel with
  | O => raise RuntimeError "out of fuel"
  | S fuel =>
      let key := base ++ "*" ++ str_of_N index in
      match dget (key ++ "*") parameters, dget key parameters with
      | None, None => Ok ([], charset)
      | Some extended, _ =>
          let '(charset', value) :=
            if (index =? 0)%N then let '(declared, v) := decode_rfc2231 extended in (nonempty_or declared "utf-8", v)
            else (charset, extended) in
          segment ← unquote_to_bytes value;
          '(rest, final) ← segments_from fuel base (index + 1) charset' parameters;
          Ok (segment :: rest, final)
      | None, Some plain =>
          segment ← CallID.encode plain;
          '(rest, final) ← segments_from fuel base (index + 1) charset parameters;
          Ok (segment :: rest, final)
      end
  end.

Definition chunk_text (chunk : pystr + list N * option pystr) : res pystr :=
  match chunk with
  | inl text => Ok text
  | inr (data, charset) => decode (nonempty_or (default [] charset) "utf-8") data
  end.

Definition decode_direct (direct : pystr) : res pystr :=
  match chunks ← decode_header direct; texts ← mapR chunk_text chunks; Ok (concat texts) with
  | Err x => if isinst x LookupError || isinst x UnicodeEncodeError then Ok direct else Err x
  | r => r
  end.

Definition _decode_filename (parameters : dict pystr) : res pystr :=
  let encoded := get_either "filename*" "name*" parameters in
  if truthy encoded then
    let '(charset, value) := decode_rfc2231 encoded in
    decoded ← unquote_to_bytes value;
    decode_or_utf8 (nonempty_or charset "utf-8") decoded
  else
    let fuel := S (length parameters) in
    '(first, charset) ← segments_from fuel "filename" 0 "utf-8" parameters;
    if (0 <? length first)%nat then decode_or_utf8 charset (concat first)
    else
      '(second, charset) ← segments_from fuel "name" 0 "utf-8" parameters;
      if (0 <? length second)%nat then decode_or_utf8 charset (concat second)
      else
        let direct := get_either "filename" "name" parameters in
        if truthy direct then decode_direct direct else Ok [].

(** ** The parts *)

Record BodyPart := mkBodyPart {
  path : list N;
  media_type : pystr;
  transfer_encoding : pystr;
  encoded_size : Z;
  charset : pystr;
  filename : pystr;
  is_inline : bool;
  is_attachment : bool
}.

Fixpoint disposition_in (items : list node) : pystr * dict pystr :=
  match items with
  | [] => ([], [])
  | NList (NText name :: rest) :: items' =>
      if one_of (upper name) ["ATTACHMENT"; "INLINE"] then (lower name, _parameters (hd_error rest))
      else disposition_in items'
  | _ :: items' => disposition_in items'
  end.

Definition _disposition (structure : list node) : pystr * dict pystr := disposition_in (drop 7 structure).

(** One leaf: the code from [media_type = ...] to [result.append(...)]. *)
Definition leaf (structure : list node) (kind subtype : pystr) (parameters encoding size : node) (p : list N) : res BodyPart :=
  match encoding, size with
  | NText encoding, NInt size =>
      raise_if (size <? 0)%Z ValueError "invalid IMAP BODYSTRUCTURE encoding or size" ≫= λ _,
      let media_type := lower (kind ++ "/" ++ subtype) in
      let type_parameters := _parameters (Some parameters) in
      let '(disposition, disposition_parameters) := _disposition structure in
      first ← _decode_filename disposition_parameters;
      filename ← (if truthy first then Ok first else _decode_filename type_parameters);
      Ok (mkBodyPart p media_type (lower encoding) size (default [] (dget "charset" type_parameters)) filename
            (bool_decide (disposition = lit "inline"))
            (bool_decide (disposition = lit "attachment") || truthy filename
             || bool_decide (media_type = lit "message/rfc822")))
  | _, _ => raise ValueError "invalid IMAP BODYSTRUCTURE encoding or size"
  end.

(** The loop over the parts of a multipart structure. *)
Definition walk_children (walk : node → list N → list BodyPart → res (list BodyPart)) (p : list N) :=
  fix each (index : N) (l : list node) (result : list BodyPart) : res (list BodyPart) :=
    match l with
    | (NList _ as child) :: l' => result ← walk child (p ++ [index + 1]%N) result; each (index + 1)%N l' result
    | NText _ :: _ => Ok result
    | _ => raise ValueError "multipart IMAP BODYSTRUCTURE lacks subtype"
    end.

Fixpoint _walk (structure : node) (p : list N) (result : list BodyPart) : res (list BodyPart) :=
  if (64 <? length p)%nat || (1000 <? length result)%nat then raise ValueError "IMAP BODYSTRUCTURE has too many parts"
  else match structure with
       | NList ((NList _ :: _) as children) => walk_children _walk p 0 children result
       | NList ((NText kind :: NText subtype :: parameters :: _ :: _ :: encoding :: size :: _) as items) =>
           part ← leaf items kind subtype parameters encoding size p; Ok (result ++ [part])
       | NList (_ :: _) => raise ValueError "invalid single-part IMAP BODYSTRUCTURE"
       | _ => raise ValueError "invalid IMAP BODYSTRUCTURE part"
       end.

(** ** FETCH metadata *)

(** [\bBODYSTRUCTURE\s+NIL\b] without case. *)
Definition nil_structure (prev : option N) (s : list N) : option unit :=
  if boundary prev then
    s1 ← expect_ci "bodystructure" s;
    match s1 with
    | c :: _ =>
        if re_space c then
          s2 ← expect_ci "nil" (drop_while re_space s1);
          if boundary (hd_error s2) then Some () else None
        else None
    | [] => None
    end
  else None.

(** [\bBODYSTRUCTURE\s*(\()] without case: the source from the parenthesis. *)
Definition structure_start (prev : option N) (s : list N) : option (list N) :=
  if boundary prev then
    s1 ← expect_ci "bodystructure" s;
    match drop_while re_space s1 with
    | 40%N :: _ => Some (drop_while re_space s1)
    | _ => None
    end
  else None.

Definition parse_bodystructure (fetch_metadata : list N) : res (list BodyPart) :=
  match search nil_structure None fetch_metadata with
  | Some _ => Ok []
  | None =>
      match search structure_start None fetch_metadata with
      | None => raise ValueError "IMAP FETCH response has no BODYSTRUCTURE"
      | Some source =>
          expression ← _extract_parenthesized source;
          raise_if (1048576 <? N.of_nat (length expression))%N ValueError "IMAP BODYSTRUCTURE is too large" ≫= λ _,
          structure ← parse expression;
          _walk structure [] []
      end
  end.

End Body.
