(* ===== verification/EmailMessages.v ===== *)
(** * Reading messages over IMAP

    connectors/superdurable/email/python/src/dex_connectors/superdurable_email/operations.py up to
    [GetMessageOperation]: mailbox names as IMAP arguments, selecting a mailbox, fetching a message's
    metadata, headers and text, and the two Queries.  Regular expressions are written out as searches. *)

From S2P Require Import Prelude Sha1 Json Errors Timestamps Identity Results Steps Base64 AddressPolicy MailProgram EmailClient EmailBody.

(** ** Attempts *)

Definition receipt_for (object_id : pystr) : Receipt.t :=
  Receipt.mk [] [] (GoTime.TDate GoTime.datetime_min_utc) [] (JStr object_id) (JStr []) [].

(** [branch_result(branch, None, _receipt(), failure)]. *)
Definition failed_branch {V} (branch : pystr) (f : Failure.t) : Attempt V :=
  mkAttempt KBranch branch None (Some (receipt_for [])) (Some f) (FFin 0 0).

Definition query_failure {V} (e : MailFailure) (missing_branch : bool) : res (Attempt V) :=
  match outcome e with
  | ORetry => QueryAttempt (retry (failure e) (FFin 0 0))
  | o =>
      let branch := match o with
        | ONotFound => if missing_branch then "notFound" else "providerRejected"
        | OInvalid => "invalidResponse"
        | _ => "providerRejected" end in
      QueryAttempt (failed_branch (lit branch) (failure e))
  end.

Definition mutation_failure {V} (e : MailFailure) (missing_branch : bool) : res (Attempt V) :=
  match outcome e with
  | ORetry | OInvalid => MutationAttempt (retry (failure e) (FFin 0 0))
  | o =>
      let branch := if missing_branch && bool_decide (o = ONotFound) then "notFound" else "providerRejected" in
      MutationAttempt (failed_branch (lit branch) (failure e))
  end.

(** [except MailFailure as error: return answer(error)]. *)
Definition on_mail_failure {A} (p : prog A) (answer : MailFailure → prog A) : prog A :=
  catch p (λ e, match e with EMail f => answer f | _ => fail e end).

(** ** Mailbox names *)

Definition _valid_mailbox (value : pystr) : res bool :=
  if negb (truthy value) then Ok false
  else
    b ← CallID.encode value;
    Ok ((length b <=? 255)%nat && bool_decide (py_strip value = value)
        && negb (existsb (λ c, (c <? 32)%N || (c =? 127)%N || (c =? 42)%N || (c =? 37)%N || in_range 0x2028 0x2029 c) value)).

(** [text.encode("utf-16-be")]; a surrogate cannot be encoded. *)
Fixpoint utf16_be (s : pystr) : option (list N) :=
  match s with
  | [] => Some []
  | c :: s' =>
      if in_range 0xD800 0xDFFF c || (0x10FFFF <? c)%N then None
      else
        rest ← utf16_be s';
        Some ((if (c <? 0x10000)%N then [c / 256; c mod 256]
               else let d := c - 0x10000 in
                    let high := 0xD800 + d / 1024 in
                    let low := 0xDC00 + d mod 1024 in
                    [high / 256; high mod 256; low / 256; low mod 256])%N ++ rest)
  end.

(** [base64.b64encode(data)] without its padding. *)
Definition b64encode (data : list N) : pystr :=
  map (λ c, if (c =? 45)%N then 43%N else if (c =? 95)%N then 47%N else c) (urlsafe_b64encode data).

(** A run of non-ASCII characters: [&], its UTF-16 in base64 with commas, and a hyphen. *)
Definition shifted (run : pystr) : res pystr :=
  match run with
  | [] => Ok []
  | _ => match utf16_be run with
         | Some b => Ok ("&" ++ replace_char 47 "," (b64encode b) ++ "-")
         | None => raise UnicodeEncodeError "surrogates not allowed"
         end
  end.

(** The loop of [_imap_mailbox_argument]; [run] are the non-ASCII characters before [s]. *)
Fixpoint mailbox_text (run s : pystr) : res pystr :=
  match s with
  | [] => shifted run
  | c :: s' =>
      if (127 <? c)%N then mailbox_text (run ++ [c]) s'
      else
        before ← shifted run;
        rest ← mailbox_text [] s';
        Ok (before ++ (if (c =? 38)%N then "&-" else [c]) ++ rest)
  end.

(** [text.replace("\\", "\\\\").replace(quote, "\\" + quote)] between two quotes. *)
Definition escape_quoted (s : pystr) : pystr := replace_char 34 [92; 34]%N (replace_char 92 [92; 92]%N s).
Definition quote_argument (s : pystr) : pystr := [34%N] ++ escape_quoted s ++ [34%N].

Definition _imap_mailbox_argument (mailbox : pystr) : res pystr := quote_argument <$> mailbox_text [] mailbox.

Record MessageReference := mkReference {
  mailbox : pystr;
  uid_validity : Z;
  uid : Z
}.

Definition uid_ok (n : Z) : bool := (0 <? n)%Z && (n <=? 0xFFFFFFFF)%Z.

Definition _valid_reference (r : MessageReference) : res bool :=
  ok ← _valid_mailbox (mailbox r);
  Ok (ok && uid_ok (uid_validity r) && uid_ok (uid r)).

(** ** Responses *)

(** [repr] of the bytes and of a response, for the text of an [imaplib] error. *)
Definition byte_repr (quote : N) (c : N) : pystr :=
  if (c =? quote)%N || (c =? 92)%N then [92%N; c]
  else if (c =? 9)%N then "\t" else if (c =? 10)%N then "\n" else if (c =? 13)%N then "\r"
  else if (c <? 32)%N || (126 <? c)%N then "\x" ++ Sha1.hex_byte c else [c].

Definition bytes_repr (b : list N) : pystr :=
  let quote := if has_char 39 b && negb (has_char 34 b) then 34%N else 39%N in
  "b" ++ [quote] ++ flat_map (byte_repr quote) b ++ [quote].

Definition item_repr (i : item) : pystr :=
  match i with
  | IBytes b => bytes_repr b
  | INone => "None"
  | IPair a b => "(" ++ bytes_repr a ++ ", " ++ bytes_repr b ++ ")"
  end.

Definition data_repr (data : list item) : pystr := "[" ++ join ", " (map item_repr data) ++ "]".

(** [if status != "OK": raise imaplib.IMAP4.error(f"{status} {data!r}")]. *)
Definition expect_ok (answer : pystr * list item) : mres (list item) :=
  if bool_decide (fst answer = lit "OK") then Ok (snd answer)
  else Err (EImap (fst answer ++ " " ++ data_repr (snd answer))).

Fixpoint digit_run (s : list N) : list N * list N :=
  match s with
  | c :: s' => if is_digit c then let '(a, b) := digit_run s' in (c :: a, b) else ([], s)
  | [] => ([], [])
  end.

(** [\{(\d+)\}\s*$] on the prefix of a literal: what precedes it, and the digits. *)
Fixpoint literal_marker (s : list N) : option (list N * list N) :=
  match s with
  | [] => None
  | c :: s' =>
      match digit_run s' with
      | ((_ :: _) as digits, 125%N :: rest) =>
          if (c =? 123)%N && forallb re_space rest then Some ([], digits)
          else '(before, d) ← literal_marker s'; Some (c :: before, d)
      | _ => '(before, d) ← literal_marker s'; Some (c :: before, d)
      end
  end.

(** [BODY(?:\.PEEK)?\[HEADER\]\s*$] without case. *)
Definition header_section (_ : option N) (s : list N) : option unit :=
  s1 ← expect_ci "body" s;
  s2 ← expect_ci "[header]" (default s1 (expect_ci ".peek" s1));
  if forallb re_space s2 then Some () else None.

(** The items of a FETCH response: the metadata with literals as quoted strings, and the headers. *)
Fixpoint fetch_items (data : list item) (metadata : list N) (headers : option (list N)) :
    res (list N * option (list N)) :=
  match data with
  | [] => Ok (metadata, headers)
  | IPair prefix literal :: data' =>
      match literal_marker prefix with
      | None => raise ValueError "invalid IMAP FETCH literal"
      | Some (before, digits) =>
          n ← int_of_digits digits;
          raise_if (negb (n =? Z.of_nat (length literal))%Z) ValueError "invalid IMAP FETCH literal" ≫= λ _,
          match search header_section None before with
          | Some _ => fetch_items data' (metadata ++ before ++ [34; 34]%N) (Some literal)
          | None => fetch_items data' (metadata ++ before ++ quote_argument literal) headers
          end
      end
  | IBytes b :: data' => fetch_items data' (metadata ++ b) headers
  | INone :: data' => fetch_items data' metadata headers
  end.

(** The digits after a text: [(\d+)] with what must precede it. *)
Definition digits_after (before : list N → option (list N)) (s : list N) : option (list N) :=
  s1 ← before s;
  match digit_run s1 with ((_ :: _) as digits, _) => Some digits | _ => None end.

Definition uid_pattern (prev : option N) (s : list N) : option (list N) :=
  if boundary prev then digits_after (expect_text "UID ") s else None.

(** [RFC822.SIZE (\d+)]: the dot is any byte but a line feed. *)
Definition size_pattern (_ : option N) (s : list N) : option (list N) :=
  digits_after (λ s, s1 ← expect_text "RFC822" s;
    match s1 with c :: s2 => if (c =? 10)%N then None else expect_text "SIZE " s2 | [] => None end) s.

(** What precedes the first [stop]. *)
Fixpoint until (stop : N) (s : list N) : option (list N) :=
  match s with
  | [] => None
  | c :: s' => if (c =? stop)%N then Some [] else cons c <$> until stop s'
  end.

Definition flags_pattern (_ : option N) (s : list N) : option (list N) :=
  s1 ← expect_text "FLAGS (" s; until 41 s1.

Definition date_pattern (_ : option N) (s : list N) : option (list N) :=
  s1 ← expect_text ("INTERNALDATE " ++ [34%N]) s;
  date ← until 34 s1;
  if truthy date then Some date else None.

(** [flags.upper().split()]. *)
Definition flag_words (flags : list N) : list (list N) :=
  List.filter truthy (split_char 32 (map (λ c, if re_space c then 32%N else if is_lower c then (c - 32)%N else c) flags)).

Definition has_flag (name : string) (flags : list (list N)) : bool := bool_decide (lit name ∈ flags).

(** ** Headers *)

Definition id_char (c : N) : bool := negb ((c =? 60)%N || (c =? 62)%N || py_isspace c).

Fixpoint id_run (s : pystr) : pystr * pystr :=
  match s with
  | c :: s' => if id_char c then let '(a, b) := id_run s' in (c :: a, b) else ([], s)
  | [] => ([], [])
  end.

(** An at sign that is neither first nor last. *)
Definition has_inner_at (s : pystr) : bool :=
  match s with _ :: s' => has_char 64 (removelast s') | [] => false end.

(** [<([^<>\s]+@[^<>\s]+)>] at the front: the identifier and what follows it. *)
Definition message_id_at (s : pystr) : option (pystr * pystr) :=
  match s with
  | 60%N :: s' =>
      match id_run s' with
      | (run, 62%N :: rest) => if has_inner_at run then Some (run, rest) else None
      | _ => None
      end
  | _ => None
  end.

(** [re.findall]: every match, each after the one before it. *)
Fixpoint message_ids (fuel : nat) (s : pystr) : list pystr :=
  match fuel, s with
  | O, _ | _, [] => []
  | S fuel, _ :: s' =>
      match message_id_at s with
      | Some (i, rest) => i :: message_ids fuel rest
      | None => message_ids fuel s'
      end
  end.

Definition _message_id (value : option pystr) : pystr :=
  default [] (fst <$> search (λ _, message_id_at) None (default [] value)).

Record EmailAddress := mkEmailAddress { name : pystr; address : pystr }.

Definition last_n {A} (n : nat) (l : list A) : list A := drop (length l - n) l.

Section Messages.
Context `{EmailLibrary}.

(** [_parse_date]; [astimezone(UTC)] may overflow. *)
Definition _parse_date (value : option pystr) : GoTime.datetime :=
  match value with
  | None | Some [] => GoTime.datetime_min_utc
  | Some text =>
      match parsed ← parsedate_to_datetime text;
            GoTime.add_micros GoTime.datetime_min_utc (GoTime.instant parsed) with
      | Ok t => t
      | Err _ => GoTime.datetime_min_utc
      end
  end.

Definition _addresses (value : option pystr) : res (list EmailAddress) :=
  match value with
  | None | Some [] => Ok []
  | Some text => pairs ← getaddresses text; Ok (map (λ p, mkEmailAddress (take 512 (fst p)) (snd p)) (take 50 pairs))
  end.

(** ** The text of a part *)

(** [_VisibleHTMLText]: the runs and the depth of skipped elements. *)
Definition skipped_tag (tag : pystr) : bool := one_of tag ["script"; "style"; "head"; "title"].
Definition block_tag (tag : pystr) : bool :=
  one_of tag ["p"; "div"; "li"; "tr"; "h1"; "h2"; "h3"; "h4"; "h5"; "h6"; "blockquote"; "table"].

Definition html_step (st : list pystr * Z) (e : html_event) : list pystr * Z :=
  let '(runs, depth) := st in
  match e with
  | HStart tag =>
      if skipped_tag tag then (runs, depth + 1)%Z
      else if one_of tag ["br"] || block_tag tag then (runs ++ [[10%N]], depth) else st
  | HEnd tag =>
      if skipped_tag tag then (runs, Z.max 0 (depth - 1))
      else if block_tag tag then (runs ++ [[10%N]], depth) else st
  | HData data =>
      if negb (depth =? 0)%Z then st
      else match py_split data with
           | [] => if truthy data then (runs ++ [lit " "], depth) else st
           | words =>
               let edge (c : option N) : list pystr :=
                 match c with Some c => if py_isspace c then [lit " "] else [] | None => [] end in
               (runs ++ edge (hd_error data) ++ [join " " words] ++ edge (last data), depth)
           end
  end.

(** The lines kept by [text()]: no second empty line in a row, and none first. *)
Fixpoint visible_lines (lines result : list pystr) : list pystr :=
  match lines with
  | [] => result
  | line :: lines' =>
      visible_lines lines'
        (if truthy line || match last result with Some l => truthy l | None => false end then result ++ [line] else result)
  end.

Definition html_text (runs : list pystr) : pystr :=
  py_strip (join [10%N] (visible_lines (map py_strip (split_char 10 (concat runs))) [])).

Fixpoint replace_crlf (s : pystr) : pystr :=
  match s with
  | 13%N :: (10%N :: s'') => 10%N :: replace_crlf s''
  | c :: s' => c :: replace_crlf s'
  | [] => []
  end.

Definition _MAX_TEXT : N := 524288.
Definition _MAX_READ_TEXT : N := 65536.
Definition _MAX_ENCODED_TEXT : N := 1048576.

Definition b64_alphabet (c : N) : bool := is_alnum c || (c =? 43)%N || (c =? 47)%N || (c =? 61)%N.

Definition transfer_decoded (encoded : list N) (part : BodyPart) : res (list N) :=
  if bool_decide (transfer_encoding part = lit "base64") then
    let alphabet := List.filter b64_alphabet encoded in
    let alphabet :=
      if (Z.of_nat (length encoded) <? encoded_size part)%Z then
        let a := drop_while_end (N.eqb 61) alphabet in take (length a / 4 * 4) a
      else alphabet in
    b64decode alphabet
  else if bool_decide (transfer_encoding part = lit "quoted-printable") then Ok (quopri_decodestring encoded)
  else Ok encoded.

Definition _decode_text_part (encoded : list N) (part : BodyPart) : res (pystr * bool) :=
  let encoded := take (N.to_nat _MAX_ENCODED_TEXT) encoded in
  decoded ← transfer_decoded encoded part;
  text ← decode_or_utf8 (nonempty_or (charset part) "us-ascii") decoded;
  let text :=
    if bool_decide (media_type part = lit "text/html") then
      html_text (fst (fold_left html_step (html_events text) ([], 0%Z)))
    else text in
  let text := replace_crlf text in
  rendered ← CallID.encode text;
  let is_truncated :=
    (Z.of_nat (length encoded) <? encoded_size part)%Z || (_MAX_READ_TEXT <? N.of_nat (length rendered))%N in
  Ok (utf8_prefix (N.to_nat _MAX_READ_TEXT) text, is_truncated).

(** ** A session *)

Definition _imap_close : prog unit := catch (call_ ImapLogout) (λ _, Ret (Ok ())).

Definition _imap_select (mailbox : pystr) (read_only : bool) (expected_uid_validity : Z) (operation : pystr) : prog Z :=
  classified operation "IMAP" "SELECT"
    (argument ← lift (_imap_mailbox_argument mailbox);
     answer ← call_ (ImapSelect argument read_only);
     Ret (expect_ok answer) ≫= λ _,
     response ← call_ (ImapResponse "UIDVALIDITY");
     match response with
     | IBytes b :: _ =>
         if is_digits b then
           uid_validity ← lift (int_of_digits b);
           if negb (expected_uid_validity =? 0)%Z && negb (expected_uid_validity =? uid_validity)%Z then
             fail (EMail (mail_error ONotFound NOT_FOUND operation
               "the mailbox's UIDVALIDITY changed, so the UID no longer identifies the message"))
           else Ret (Ok uid_validity)
         else fail (EMail (mail_error OInvalid PROTOCOL operation
                "the IMAP server selected the mailbox without reporting UIDVALIDITY"))
     | IPair _ _ :: _ => lift (raise AttributeError "'tuple' object has no attribute 'isdigit'")
     | _ => fail (EMail (mail_error OInvalid PROTOCOL operation
              "the IMAP server selected the mailbox without reporting UIDVALIDITY"))
     end).

Definition uid_text (uid : Z) : arg := AText (str_of_Z uid).

Definition _fetch (uid : Z) (operation : pystr) : prog (option (list N * list N)) :=
  reclassified operation "IMAP" "FETCH"
    (answer ← call_ (ImapUid "FETCH"
       [uid_text uid; AText "(UID FLAGS INTERNALDATE RFC822.SIZE BODYSTRUCTURE BODY.PEEK[HEADER])"]);
     data ← Ret (expect_ok answer);
     '(metadata, headers) ← lift (fetch_items data [] None);
     Ret (Ok (match headers with Some h => Some (metadata, h) | None => None end))).

Definition section_text (part : BodyPart) : pystr := join [46%N] (map str_of_N (path part)).

Definition _fetch_text (uid : Z) (part : BodyPart) (operation : pystr) : prog (list N) :=
  let section := nonempty_or (section_text part) "TEXT" in
  classified operation "IMAP" "FETCH"
    (answer ← call_ (ImapUid "FETCH"
       [uid_text uid; AText ("(UID BODY.PEEK[" ++ section ++ "]<0." ++ str_of_N _MAX_ENCODED_TEXT ++ ">)")]);
     data ← Ret (expect_ok answer);
     match omap (λ i, match i with IPair _ literal => Some literal | _ => None end) data with
     | literal :: _ => Ret (Ok literal)
     | [] => fail (EMail (mail_error ONotFound NOT_FOUND operation "the message was removed while it was read"))
     end).

(** ** Messages *)

Record Attachment := mkAttachment {
  part : pystr;
  file_name : pystr;
  a_media_type : pystr;
  encoded_size_bytes : Z;
  a_is_inline : bool
}.

(** [MessageSummary], and the members [Message] adds. *)
Record MessageSummary := mkSummary {
  reference : MessageReference;
  message_id : pystr;
  in_reply_to : pystr;
  from_ : EmailAddress;
  reply_to : list EmailAddress;
  to : list EmailAddress;
  cc : list EmailAddress;
  subject : pystr;
  sent_at : GoTime.datetime;
  received_at : GoTime.datetime;
  is_seen : bool;
  is_flagged : bool;
  is_answered : bool;
  size_bytes : Z;
  has_attachments : bool
}.

Record Message := mkMessage {
  summary : MessageSummary;
  references : list pystr;
  text : pystr;
  text_source : pystr;
  is_text_truncated : bool;
  attachments : list Attachment;
  has_more_attachments : bool
}.

Definition attachment_of (p : BodyPart) : res Attachment :=
  _ ← CallID.encode (filename p);
  Ok (mkAttachment (nonempty_or (section_text p) "1") (utf8_prefix 255 (filename p)) (media_type p) (encoded_size p)
        (is_inline p)).

Definition text_part_of (parts : list BodyPart) : option BodyPart :=
  let find (kind : string) := List.find (λ p, bool_decide (media_type p = lit kind) && negb (is_attachment p)) parts in
  match find "text/plain" with Some p => Some p | None => find "text/html" end.

(** The metadata of a FETCH answer: flags, the digits of the size, and the date. *)
Definition fetch_metadata (reference : MessageReference) (metadata : list N) : res (list (list N) * list N * list N) :=
  let missing {A} : res A := raise ValueError "missing or mismatched IMAP FETCH metadata" in
  match search uid_pattern None metadata with
  | None => missing
  | Some digits =>
      n ← int_of_digits digits;
      if negb (n =? uid reference)%Z then missing
      else match search flags_pattern None metadata, search size_pattern None metadata, search date_pattern None metadata with
           | Some flags, Some size, Some date => Ok (flag_words flags, size, date)
           | _, _, _ => missing
           end
  end.

Definition ascii_replaced (b : list N) : pystr := map (λ c, if (127 <? c)%N then 0xFFFD%N else c) b.

(** [_parse_message]; with [session] false there is no session to read the text part from. *)
Definition _parse_message (reference : MessageReference) (metadata headers : list N) (include_text session : bool)
    (operation : pystr) : prog Message :=
  let get name := lift (header headers name) in
  '(flags, size, date) ← lift (fetch_metadata reference metadata);
  parts ← lift (match parse_bodystructure metadata with Ok p => Ok p | Err _ => raise ValueError "invalid IMAP BODYSTRUCTURE" end);
  let received_at := _parse_date (Some (ascii_replaced date)) in
  if GoTime.datetime_eqb received_at GoTime.datetime_min_utc then lift (raise ValueError "invalid IMAP internal date")
  else
    from ← get "From"; from_addresses ← lift (_addresses from);
    answer_to ← get "Reply-To"; answer_addresses ← lift (_addresses answer_to);
    let attachment_parts := List.filter is_attachment parts in
    attachments ← lift (mapR attachment_of (take 50 attachment_parts));
    let text_part := text_part_of parts in
    let text_source :=
      match text_part with
      | None => "none"
      | Some p => if bool_decide (media_type p = lit "text/html") then "html" else "plain"
      end in
    '(text, is_truncated) ←
      match text_part with
      | Some p =>
          if include_text then
            if negb session then lift (raise ValueError "an IMAP session is required to read the text part")
            else encoded ← _fetch_text (uid reference) p operation; lift (_decode_text_part encoded p)
          else Ret (Ok ([], false))
      | None => Ret (Ok ([], false))
      end;
    references ← get "References";
    message_id ← get "Message-ID"; in_reply_to ← get "In-Reply-To";
    to ← get "To"; to ← lift (_addresses to);
    cc ← get "Cc"; cc ← lift (_addresses cc);
    subject ← get "Subject"; _ ← lift (CallID.encode (default [] subject));
    sent ← get "Date";
    size_bytes ← lift (int_of_digits size);
    let found := default [] references in
    Ret (Ok (mkMessage
      (mkSummary reference (_message_id message_id) (_message_id in_reply_to)
         (default (mkEmailAddress [] []) (hd_error from_addresses))
         (match answer_addresses with [] => from_addresses | _ => answer_addresses end)
         to cc (utf8_prefix 998 (default [] subject)) (_parse_date sent) received_at
         (has_flag "\SEEN" flags) (has_flag "\FLAGGED" flags) (has_flag "\ANSWERED" flags) size_bytes
         (match attachment_parts with [] => false | _ => true end))
      (last_n 20 (message_ids (S (length found)) found)) text (lit text_source) is_truncated attachments
      (50 <? length attachment_parts)%nat)).

(** An exception of the parser that is no [MailFailure] becomes an invalid answer of the server. *)
Definition or_invalid {A} (operation : pystr) (p : prog A) : prog A :=
  catch p (λ e, match e with
    | EMail f => fail (EMail f)
    | _ => fail (EMail (mail_error OInvalid PROTOCOL operation "the IMAP server returned an invalid message"))
    end).

Definition _read_message (cl : Client) (credentials : Credentials) (reference : MessageReference) (operation : pystr)
    (include_text : bool) : prog Message :=
  _ ← open_imap cl credentials operation;
  finally
    (_imap_select (mailbox reference) true (uid_validity reference) operation ≫= λ _,
     fetched ← _fetch (uid reference) operation;
     match fetched with
     | None => fail (EMail (mail_error ONotFound NOT_FOUND operation "no message in the mailbox has the UID"))
     | Some (metadata, headers) =>
         or_invalid operation (_parse_message reference metadata headers include_text true operation)
     end)
    _imap_close.

(** ** getMessage *)

Definition zero_summary : MessageSummary :=
  let zero := GoTime.datetime_min_utc in
  mkSummary (mkReference [] 0 0) [] [] (mkEmailAddress [] []) [] [] [] [] zero zero false false false 0 false.

Definition no_message : Message := mkMessage zero_summary [] [] "none" false [] false.

(** [branch_result("defect", zero, _receipt(), _failure(VALIDATION, operation, message))]. *)
Definition defect_branch {V} (make : Attempt V → res (Attempt V)) (zero : V) (operation message : pystr) : res (Attempt V) :=
  make (branch_result "defect" zero (receipt_for []) (Some (mail_failure VALIDATION operation message))).

Definition get_message (cl : Client) (input : MessageReference) : prog (Attempt Message) :=
  let operation : pystr := "getMessage" in
  valid ← lift (_valid_reference input);
  if negb valid then lift (defect_branch QueryAttempt no_message operation "invalid message reference")
  else on_mail_failure
    (credentials ← resolve_credentials operation;
     message ← _read_message cl credentials input operation true;
     lift (QueryAttempt (branch_result "found" message (receipt_for (message_id (summary message))) None)))
    (λ f, lift (query_failure f true)).

End Messages.
