(* ===== verification/EmailOperations.v ===== *)
(** * The operations of the email connector

    connectors/superdurable/email/python/src/dex_connectors/superdurable_email/operations.py: searching,
    sending and replying with the heartbeat claim, setting flags and moving.  Each [invoke] is a
    program; whether the call has a Dex context is an argument of the Mutations that submit. *)

From S2P Require Import Prelude Json Errors Timestamps Identity Results Calls Steps AddressPolicy ProjectModels MailProgram EmailClient EmailBody EmailMessages.
From stdpp Require Import sorting.

(** ** Dates *)

(** [strptime(text, "%Y-%m-%d")]: a month or day may have one digit, and [\d] is any decimal digit. *)
Definition strptime_month (s : pystr) : option (Z * pystr) :=
  match s with
  | a :: b :: 45%N :: rest =>
      if ((a =? 49)%N && in_range 48 50 b) || ((a =? 48)%N && in_range 49 57 b) then Some (digits_value [a; b], rest) else None
  | a :: 45%N :: rest => if in_range 49 57 a then Some (digits_value [a], rest) else None
  | _ => None
  end.

Definition strptime_day (s : pystr) : option Z :=
  match s with
  | [a] => if in_range 49 57 a then Some (digits_value [a]) else None
  | [a; b] =>
      if (a =? 51)%N && in_range 48 49 b then Some (digits_value s)
      else if in_range 49 50 a then d ← decimal_digit b; Some (digits_value [a] * 10 + d)%Z
      else if ((a =? 48)%N || (a =? 32)%N) && in_range 49 57 b then Some (digits_value [b])
      else None
  | _ => None
  end.

Definition strptime_date (s : pystr) : res (Z * Z * Z) :=
  let no_match {A} : res A := raise ValueError "time data does not match format" in
  match s with
  | y1 :: y2 :: y3 :: y4 :: 45%N :: rest =>
      match mapM decimal_digit [y1; y2; y3; y4] with
      | Some [a; b; c; d] =>
          match strptime_month rest with
          | Some (month, rest) =>
              match strptime_day rest with
              | Some day =>
                  let year := (a * 1000 + b * 100 + c * 10 + d)%Z in
                  if GoTime.date_valid year month day then Ok (year, month, day)
                  else raise ValueError "day is out of range for month"
              | None => no_match
              end
          | None => no_match
          end
      | _ => no_match
      end
  | _ => no_match
  end.

Definition date_number (d : Z * Z * Z) : Z := let '(y, m, day) := d in GoTime.day_number y m day.

Definition month_name (m : Z) : pystr :=
  lit (nth (Z.to_nat (m - 1)) ["Jan"; "Feb"; "Mar"; "Apr"; "May"; "Jun"; "Jul"; "Aug"; "Sep"; "Oct"; "Nov"; "Dec"]%string
         EmptyString).

(** [format_datetime(now)] of a time in UTC. *)
Definition weekday_name (n : Z) : pystr :=
  lit (nth (Z.to_nat (n mod 7)) ["Mon"; "Tue"; "Wed"; "Thu"; "Fri"; "Sat"; "Sun"]%string EmptyString).

Definition format_datetime (t : GoTime.datetime) : pystr :=
  let y := GoTime.dt_year t in let m := GoTime.dt_month t in let d := GoTime.dt_day t in
  weekday_name (GoTime.day_number y m d) ++ ", " ++ two_digits d ++ " " ++ month_name m ++ " " ++ GoTime.padded 4 y
  ++ " " ++ two_digits (GoTime.dt_hour t) ++ ":" ++ two_digits (GoTime.dt_minute t) ++ ":" ++ two_digits (GoTime.dt_second t)
  ++ " +0000".

Definition without_micros (t : GoTime.datetime) : GoTime.datetime :=
  GoTime.DT (GoTime.dt_year t) (GoTime.dt_month t) (GoTime.dt_day t) (GoTime.dt_hour t) (GoTime.dt_minute t)
    (GoTime.dt_second t) 0 (GoTime.dt_offset t).

(** ** searchMessages *)

Module SearchMessages.

Record Input := mkInput {
  i_mailbox : pystr;
  i_from : pystr;
  i_to : pystr;
  subject_contains : pystr;
  since_date : pystr;
  before_date : pystr;
  is_unseen : bool;
  older_than_uid : Z;
  i_uid_validity : Z;
  limit : Z
}.

Record Output := mkOutput {
  o_mailbox : pystr;
  o_uid_validity : Z;
  messages : list MessageSummary;
  total_matched : Z;
  has_more : bool;
  next_older_than_uid : Z
}.

Definition zero : Output := mkOutput [] 0 [] 0 false 0.

(** The body of the loop over the three text filters: whether the value is refused. *)
Definition text_refused (value : pystr) : res bool :=
  if negb (truthy value) then Ok false
  else if negb (bool_decide (py_strip value = value)) then Ok true
  else b ← CallID.encode value;
       Ok ((256 <? length b)%nat || existsb (λ c, (c <? 32)%N || (c =? 127)%N) value).

Fixpoint any_refused (values : list pystr) : res bool :=
  match values with
  | [] => Ok false
  | value :: values' => r ← text_refused value; if (r : bool) then Ok true else any_refused values'
  end.

Definition optional_date (s : pystr) : res (option (Z * Z * Z)) :=
  if truthy s then d ← strptime_date s; Ok (Some d) else Ok None.

(** The page checks of [invoke]: dates in order, and a page only with its UIDVALIDITY. *)
Definition check_page (input : Input) : res unit :=
  since ← optional_date (since_date input);
  before ← optional_date (before_date input);
  raise_if
    (match since, before with Some s, Some b => (date_number b <=? date_number s)%Z | _, _ => false end
     || (negb (older_than_uid input =? 0)%Z && ((i_uid_validity input =? 0)%Z || (older_than_uid input <=? 1)%Z))
     || (negb (i_uid_validity input =? 0)%Z && (older_than_uid input =? 0)%Z))
    ValueError "invalid search page".

Section Search.
Context `{EmailLibrary}.

(** [strftime("%d-%b-%Y")]; the C library does not pad the year. *)
Definition search_date (text : pystr) : res pystr :=
  '(y, m, d) ← strptime_date text;
  Ok (two_digits d ++ "-" ++ month_name m ++ "-" ++ str_of_Z y).

Definition header_criterion (name : string) (value : pystr) : list pystr :=
  if truthy value then [lit "HEADER"; lit name; quote_argument value] else [].

Definition date_criterion (key : string) (text : pystr) : res (list pystr) :=
  if truthy text then d ← search_date text; Ok [lit key; d] else Ok [].

Definition criteria (input : Input) : res (list pystr) :=
  since ← date_criterion "SINCE" (since_date input);
  before ← date_criterion "BEFORE" (before_date input);
  Ok (header_criterion "From" (i_from input) ++ header_criterion "To" (i_to input)
      ++ header_criterion "Subject" (subject_contains input) ++ since ++ before
      ++ (if is_unseen input then [lit "UNSEEN"] else [])
      ++ (if (older_than_uid input =? 0)%Z then [] else [lit "UID"; "1:" ++ str_of_Z (older_than_uid input - 1)])).

Definition search_arguments (criteria : list pystr) : res (list arg) :=
  if existsb (existsb (λ c, (127 <? c)%N)) criteria then
    encoded ← mapR CallID.encode criteria;
    Ok ([AText "CHARSET"; AText "UTF-8"] ++ map ABytes encoded)
  else Ok (map AText (match criteria with [] => [lit "ALL"] | _ => criteria end)).

(** [int(item)] of bytes. *)
Definition int_of_bytes (b : list N) : res Z :=
  raise_if (existsb (λ c, (127 <? c)%N) b) ValueError "invalid literal for int() with base 10" ≫= λ _, int_of_text b.

(** [item.split()] of bytes. *)
Definition bytes_split (b : list N) : list (list N) :=
  List.filter truthy (split_char 32 (map (λ c, if re_space c then 32%N else c) b)).

Definition uid_list (b : list N) : res (list Z) := mapR int_of_bytes (bytes_split b).

Definition descending (l : list Z) : list Z := merge_sort Z.ge l.

(** [sorted({int(uid) for uid in data[0].split()}, reverse=True)]. *)
Definition matched_uids (data : list item) : res (list Z) :=
  match data with
  | [] | INone :: _ => raise ValueError "SEARCH returned no UID set"
  | IPair _ _ :: _ => raise AttributeError "'tuple' object has no attribute 'split'"
  | IBytes b :: _ => uids ← uid_list b; Ok (descending (remove_dups uids))
  end.

(** The summaries of the page; a message that is gone is left out. *)
Fixpoint summaries (box : pystr) (validity : Z) (uids : list Z) : prog (list MessageSummary) :=
  match uids with
  | [] => Ret (Ok [])
  | uid :: uids' =>
      fetched ← _fetch uid "searchMessages";
      match fetched with
      | None => summaries box validity uids'
      | Some (metadata, headers) =>
          message ← or_invalid "searchMessages"
            (_parse_message (mkReference box validity uid) metadata headers false false "getMessage");
          rest ← summaries box validity uids';
          Ret (Ok (summary message :: rest))
      end
  end.

Definition page_output (box : pystr) (validity : Z) (uids : list Z) (limit : Z) (messages : list MessageSummary) : Output :=
  let more := (limit <? Z.of_nat (length uids))%Z in
  mkOutput box validity messages (Z.of_nat (length uids)) more
    (if more then default 0%Z (uids !! Z.to_nat (limit - 1)) else 0%Z).

Definition _search (cl : Client) (credentials : Credentials) (input : Input) (box : pystr) (limit : Z) :
    prog (Attempt Output) :=
  let operation : pystr := "searchMessages" in
  _ ← open_imap cl credentials operation;
  finally
    (validity ← _imap_select box true 0 operation;
     if negb (i_uid_validity input =? 0)%Z && negb (i_uid_validity input =? validity)%Z then
       lift (QueryAttempt (branch_result "providerRejected" zero (receipt_for [])
         (Some (mail_failure CONFLICT operation "the mailbox's UIDVALIDITY changed"))))
     else
       criteria ← lift (criteria input);
       uids ← reclassified operation "IMAP" "SEARCH"
         (arguments ← lift (search_arguments criteria);
          answer ← call_ (ImapUid "SEARCH" arguments);
          data ← Ret (expect_ok answer);
          lift (matched_uids data));
       messages ← summaries box validity (take (Z.to_nat limit) uids);
       lift (QueryAttempt (branch_result "searched" (page_output box validity uids limit messages) (receipt_for []) None)))
    _imap_close.

Definition invoke (cl : Client) (input : Input) : prog (Attempt Output) :=
  let operation : pystr := "searchMessages" in
  let box := nonempty_or (i_mailbox input) "INBOX" in
  let limit := if (limit input =? 0)%Z then 10%Z else limit input in
  valid ← lift (_valid_mailbox box);
  if negb valid || (limit <? 1)%Z || (50 <? limit)%Z then
    lift (defect_branch QueryAttempt zero operation "invalid mailbox or limit")
  else
    refused ← lift (any_refused [i_from input; i_to input; subject_contains input]);
    if (refused : bool) then lift (defect_branch QueryAttempt zero operation "invalid search text")
    else match check_page input with
         | Err x => if isinst x ValueError then lift (defect_branch QueryAttempt zero operation "invalid search date or page")
                    else lift (Err x)
         | Ok _ =>
             on_mail_failure
               (credentials ← resolve_credentials operation; _search cl credentials input box limit)
               (λ f, lift (query_failure f false))
         end.

End Search.
End SearchMessages.

(** ** Submitting a message *)

Definition _message_identifier (key sender : pystr) : res pystr :=
  raise_if (negb (truthy key) || (128 <? length key)%nat || negb (forallb (λ c, is_alnum c || (c =? 45)%N) key))
    ValueError "the idempotency key cannot form a Message-ID" ≫= λ _,
  Ok ("dex-" ++ ascii_lower key ++ "@" ++ ascii_lower (snd (rsplit_at sender))).

Definition _validate_text (text : pystr) : res bool :=
  if negb (truthy (py_strip text)) then Ok false
  else b ← CallID.encode text;
       Ok ((N.of_nat (length b) <=? _MAX_TEXT)%N
           && negb (existsb (λ c, ((c <? 32)%N && negb ((c =? 13)%N || (c =? 10)%N || (c =? 9)%N)) || (c =? 127)%N
                                  || in_range 0x2028 0x2029 c) text)).

(** *** The content on the wire *)

(** [data.split(b"\r\n")]. *)
Fixpoint split_crlf (s : list N) : list (list N) :=
  match s with
  | 13%N :: (10%N :: s'') => [] :: split_crlf s''
  | c :: s' => match split_crlf s' with line :: rest => (c :: line) :: rest | [] => [[c]] end
  | [] => [[]]
  end.

(** [content.replace(b"\r\n", b"\n").replace(b"\r", b"\n").replace(b"\n", b"\r\n")]. *)
Definition normalized (content : list N) : list N :=
  replace_char 10 [13; 10]%N (replace_char 13 [10]%N (replace_crlf content)).

Definition stuff_line (line : list N) : list N := if starts_with "." line then 46%N :: line else line.
Definition stuffed (content : list N) : list N := Prelude.join [13; 10]%N (map stuff_line (split_crlf (normalized content))).

Definition is_line_end (c : N) : bool := (c =? 13)%N || (c =? 10)%N.

(** The argument of the [send] before the final dot. *)
Definition data_lines (content : list N) : list N := drop_while_end is_line_end (stuffed content) ++ [13; 10]%N.
Definition final_dot : list N := [46; 13; 10]%N.

(** [size_limit.isdigit()] and [int(size_limit)]; the library decodes extensions as Latin-1. *)
Definition latin1_digit (c : N) : bool := is_digit c || existsb (N.eqb c) [0xB2; 0xB3; 0xB9]%N.
Definition size_limit (features : list (pystr * pystr)) : res (option Z) :=
  let text := default [] (dget "size" features) in
  if truthy text && forallb latin1_digit text then
    if forallb is_digit text then n ← int_of_digits text; Ok (Some n)
    else raise ValueError "invalid literal for int() with base 10"
  else Ok None.

Record SentMessage := mkSent {
  s_message_id : pystr;
  s_from : pystr;
  recipients : list pystr;
  s_subject : pystr;
  s_in_reply_to : pystr;
  s_references : list pystr;
  s_sent_at : GoTime.datetime
}.

Definition no_sent : SentMessage := mkSent [] [] [] [] [] [] GoTime.datetime_min_utc.

Section Submission.
Context `{EmailLibrary}.

Definition _validate_recipients (l : list pystr) : bool := (length l <=? 50)%nat && forallb is_bare_email_address l.

(** The loops of [_unique_recipients]. *)
Fixpoint unique_from (found : list pystr) (addresses : list pystr) : list pystr :=
  match addresses with
  | [] => []
  | a :: addresses' =>
      if bool_decide (lower a ∈ found) then unique_from found addresses'
      else a :: unique_from (lower a :: found) addresses'
  end.
Definition _unique_recipients (groups : list (list pystr)) : list pystr := unique_from [] (concat groups).

Definition angle (s : pystr) : pystr := "<" ++ s ++ ">".

Definition _render_message (sender sender_name : pystr) (to cc : list pystr) (reply_to subject text identifier in_reply_to : pystr)
    (references : list pystr) : prog (list N * GoTime.datetime) :=
  from ← lift (address_text sender_name sender);
  now ← call_ Now;
  let now := without_micros now in
  content ← lift (as_bytes
    ([(lit "From", from); (lit "To", Prelude.join ", " to)]
     ++ (match cc with [] => [] | _ => [(lit "Cc", Prelude.join ", " cc)] end)
     ++ (if truthy reply_to then [(lit "Reply-To", reply_to)] else [])
     ++ [(lit "Subject", subject); (lit "Message-ID", angle identifier)]
     ++ (if truthy in_reply_to then [(lit "In-Reply-To", angle in_reply_to)] else [])
     ++ (match references with [] => [] | _ => [(lit "References", Prelude.join " " (map angle references))] end)
     ++ [(lit "Date", format_datetime now)]) text);
  Ret (Ok (content, now)).

Fixpoint smtp_recipients (l : list pystr) : prog unit :=
  match l with
  | [] => Ret (Ok ())
  | recipient :: l' =>
      code ← call_ (SmtpRcpt recipient);
      if negb ((code =? 250)%Z || (code =? 251)%Z) then fail (ERecipientsRefused [(recipient, code)])
      else smtp_recipients l'
  end.

Definition raised_as {A} (p : prog A) (f : MailFailure) : prog A := catch p (λ _, fail (EMail f)).

(** The commands after authentication, up to the answer to the final dot. *)
Definition smtp_transaction (features : list (pystr * pystr)) (sender : pystr) (l : list pystr) (content : list N)
    (operation : pystr) : prog unit :=
  classified operation "SMTP" "submission"
    (code ← call_ (SmtpMail sender
       (if dhas "size" features then ["SIZE=" ++ str_of_N (N.of_nat (length content))] else []));
     if negb (code =? 250)%Z then fail (ESMTPResponse code)
     else
       smtp_recipients l ≫= λ _,
       call_ (SmtpPutCmd "DATA") ≫= λ _,
       code ← call_ SmtpGetReply;
       if negb (code =? 354)%Z then fail (ESMTPResponse code)
       else
         raised_as (call_ (SmtpSend (data_lines content)))
           (mail_error ORetry TRANSPORT operation "the SMTP connection was lost before the message was complete") ≫= λ _,
         code ← raised_as
           (call_ (SmtpSetTimeout 90) ≫= λ _, call_ (SmtpSend final_dot) ≫= λ _, call_ SmtpGetReply)
           (mail_error OUncertain TRANSPORT operation
              "the message was submitted but the SMTP server's answer did not arrive");
         if negb (code =? 250)%Z then fail (ESMTPResponse code) else Ret (Ok ())).

Definition _smtp_submit (cl : Client) (credentials : Credentials) (sender : pystr) (l : list pystr) (content : list N)
    (operation : pystr) : prog unit :=
  features ← open_smtp cl credentials operation;
  finally
    (size ← lift (size_limit features);
     if match size with Some n => (0 <? n)%Z && (n <? Z.of_nat (length content))%Z | None => false end then
       fail (EMail (mail_error ORejected PROVIDER_REJECTION operation
         "the message is larger than the SMTP server's SIZE limit"))
     else smtp_transaction features sender l content operation)
    (catch (call_ SmtpQuit) (λ _, call_ SmtpClose)).

(** *** The heartbeat claim *)

Definition _has_submission_claim (context : bool) : prog bool :=
  if negb context then Ret (Ok true) else catch (call_ HasHeartbeat) (λ _, Ret (Ok true)).

Definition not_recorded (operation : pystr) : Failure.t :=
  mail_failure AVAILABILITY operation "Dex did not record the submission checkpoint; nothing was submitted".

(** [None] when the claim is recorded. *)
Definition _claim_submission (context : bool) (call_id operation : pystr) : prog (option (Attempt SentMessage)) :=
  let refused := lift (attempt ← MutationAttempt (retry (not_recorded operation) (FFin 0 0)); Ok (Some attempt)) in
  if negb context then refused
  else catch (call_ (Heartbeat (Some call_id)) ≫= λ _, Ret (Ok None)) (λ _, refused).

Definition _release_submission (context : bool) : prog unit :=
  if context then catch (call_ (Heartbeat None)) (λ _, Ret (Ok ())) else Ret (Ok ()).

Definition _submit_attempt (cl : Client) (context : bool) (call_id : pystr) (credentials : Credentials) (sender : pystr)
    (l : list pystr) (content : list N) (sent : SentMessage) (operation : pystr) : prog (Attempt SentMessage) :=
  claim ← _claim_submission context call_id operation;
  match claim with
  | Some attempt => Ret (Ok attempt)
  | None =>
      on_mail_failure
        (_smtp_submit cl credentials sender l content operation ≫= λ _,
         lift (MutationAttempt (branch_result "sent" sent (receipt_for (s_message_id sent)) None)))
        (λ f, if bool_decide (outcome f = OUncertain) then
                lift (MutationAttempt (uncertain sent (failure f) (receipt_for (s_message_id sent))))
              else
                _release_submission context ≫= λ _,
                if bool_decide (outcome f = ORetry) then lift (MutationAttempt (retry (failure f) (FFin 0 0)))
                else lift (MutationAttempt (branch_result "providerRejected" no_sent (receipt_for []) (Some (failure f)))))
  end.

(** [MutationAttempt.uncertain(sent, ...)] of an attempt that finds a claim. *)
Definition already_claimed (sent : SentMessage) (operation : pystr) : res (Attempt SentMessage) :=
  MutationAttempt (uncertain sent
    (mail_failure TRANSPORT operation "an earlier attempt may have submitted the message") (receipt_for (s_message_id sent))).

(** [except ValueError as error: return defect]. *)
Definition on_value_error {A} (p : prog A) (answer : pystr → prog A) : prog A :=
  catch p (λ e, match e with EPy x => if isinst x ValueError then answer (exn_msg x) else fail e | _ => fail e end).

End Submission.

(** ** sendMessage *)

Module SendMessage.

Record Input := mkInput {
  to : list pystr;
  cc : list pystr;
  bcc : list pystr;
  reply_to : pystr;
  subject : pystr;
  text : pystr
}.

Section Send.
Context `{EmailLibrary}.

Definition refused (input : Input) : res bool :=
  if (match to input with [] => true | _ => false end)
     || (50 <? length (to input) + length (cc input) + length (bcc input))%nat
     || negb (forallb _validate_recipients [to input; cc input; bcc input])
     || (truthy (reply_to input) && negb (is_bare_email_address (reply_to input)))
  then Ok true
  else
    b ← CallID.encode (subject input);
    if (998 <? length b)%nat || _has_control (subject input) then Ok true
    else valid ← _validate_text (text input); Ok (negb valid).

Definition invoke (cl : Client) (context : bool) (call : Call.t) (input : Input) : prog (Attempt SentMessage) :=
  let operation : pystr := "sendMessage" in
  refused ← lift (refused input);
  if (refused : bool) then lift (defect_branch MutationAttempt no_sent operation "invalid recipients, subject, or text")
  else
    on_value_error
      (on_mail_failure
        (credentials ← resolve_credentials operation;
         sender ← Ret (sender cl credentials operation);
         identifier ← lift (_message_identifier (Call.idempotency_key call) sender);
         let l := _unique_recipients [to input; cc input; bcc input] in
         '(content, now) ← _render_message sender (from_name (config cl)) (to input) (cc input) (reply_to input)
           (subject input) (text input) identifier [] [];
         let sent := mkSent identifier sender l (subject input) [] [] now in
         claimed ← _has_submission_claim context;
         if (claimed : bool) then
           lift (already_claimed (mkSent identifier sender l (subject input) [] [] GoTime.datetime_min_utc) operation)
         else _submit_attempt cl context (Call.id call) credentials sender l content sent operation)
        (λ f, lift (MutationAttempt (branch_result "defect" no_sent (receipt_for []) (Some (failure f))))))
      (λ message, lift (defect_branch MutationAttempt no_sent operation message)).

End Send.
End SendMessage.

(** ** replyToMessage *)

Module ReplyToMessage.

Record Input := mkInput {
  message : MessageReference;
  text : pystr;
  is_reply_all : bool;
  cc : list pystr
}.

Section Reply.
Context `{EmailLibrary}.

Definition refused (input : Input) : res bool :=
  reference ← _valid_reference (message input);
  if negb reference then Ok true
  else valid ← _validate_text (text input);
       Ok (negb valid || negb (_validate_recipients (cc input))).

Definition usable (l : list EmailAddress) : list pystr := List.filter is_bare_email_address (map address l).
Definition is_sender (sender a : pystr) : bool := bool_decide (lower a = lower sender).

(** The addressees of the reply: [to], then [cc]. *)
Definition reply_targets (sender : pystr) (source : MessageSummary) : list pystr :=
  let primary := match EmailMessages.reply_to source with [] => [from_ source] | l => l end in
  _unique_recipients [List.filter (λ a, negb (is_sender sender a)) (usable primary)].

Definition copy_targets (sender : pystr) (source : MessageSummary) (input : Input) (to : list pystr) : list pystr :=
  let copies := if is_reply_all input then usable (EmailMessages.to source ++ EmailMessages.cc source) else [] in
  List.filter (λ a, negb (is_sender sender a) && negb (bool_decide (lower a ∈ map lower to)))
    (_unique_recipients [copies; cc input]).

Definition reply_subject (source : pystr) : pystr :=
  let trimmed := py_strip source in
  if starts_with "re:" (lower trimmed) then trimmed else py_strip ("Re: " ++ trimmed).

Definition reply_references (source : Message) : list pystr :=
  let i := message_id (summary source) in
  last_n 20 (if truthy i then references source ++ [i] else references source).

(** The answer to a [MailFailure] of the attempt. *)
Definition answer_failure (f : MailFailure) : res (Attempt SentMessage) :=
  match outcome f with
  | ONotFound => MutationAttempt (branch_result "notFound" no_sent (receipt_for []) (Some (failure f)))
  | ORetry => MutationAttempt (retry (failure f) (FFin 0 0))
  | o =>
      let branch := match o with OInvalid => "invalidResponse" | ORejected => "providerRejected" | _ => "defect" end in
      MutationAttempt (branch_result (lit branch) no_sent (receipt_for []) (Some (failure f)))
  end.

Definition invoke (cl : Client) (context : bool) (call : Call.t) (input : Input) : prog (Attempt SentMessage) :=
  let operation : pystr := "replyToMessage" in
  let invalid message := lift (MutationAttempt (branch_result "invalidResponse" no_sent (receipt_for [])
                                (Some (mail_failure PROTOCOL operation message)))) in
  refused ← lift (refused input);
  if (refused : bool) then
    lift (defect_branch MutationAttempt no_sent operation "invalid message reference, text, or recipients")
  else
    on_value_error
      (on_mail_failure
        (credentials ← resolve_credentials operation;
         sender ← Ret (sender cl credentials operation);
         identifier ← lift (_message_identifier (Call.idempotency_key call) sender);
         claimed ← _has_submission_claim context;
         if (claimed : bool) then
           lift (already_claimed (mkSent identifier sender [] [] [] [] GoTime.datetime_min_utc) operation)
         else
           source ← _read_message cl credentials (message input) operation false;
           let to := reply_targets sender (summary source) in
           if (length to =? 0)%nat then invalid "the source message has no usable reply address"
           else
             let cc := copy_targets sender (summary source) input to in
             if (50 <? length to + length cc)%nat then invalid "the reply has too many recipients"
             else
               let subject := reply_subject (EmailMessages.subject (summary source)) in
               _ ← lift (CallID.encode subject);
               let subject := utf8_prefix 998 subject in
               let references := reply_references source in
               let source_id := message_id (summary source) in
               '(content, now) ← _render_message sender (from_name (config cl)) to cc [] subject (text input) identifier
                 source_id references;
               let l := _unique_recipients [to; cc] in
               let sent := mkSent identifier sender l subject source_id references now in
               _submit_attempt cl context (Call.id call) credentials sender l content sent operation)
        (λ f, lift (answer_failure f)))
      (λ message, lift (defect_branch MutationAttempt no_sent operation message)).

End Reply.
End ReplyToMessage.

(** ** setFlags *)

(** [_uid_command]: the data of an accepted command. *)
Definition _uid_command (command operation : pystr) (arguments : list pystr) : prog (list item) :=
  reclassified operation "IMAP" command
    (answer ← call_ (ImapUid command (map AText arguments)); Ret (expect_ok answer)).

Module SetFlags.

Record Input := mkInput {
  message : MessageReference;
  is_seen : option bool;
  is_flagged : option bool;
  is_answered : option bool
}.

Record MessageFlags := mkFlags {
  f_message : MessageReference;
  seen : bool;
  flagged : bool;
  answered : bool;
  was_already_applied : bool
}.

Definition zero : MessageFlags := mkFlags (mkReference [] 0 0) false false false false.

(** The flags of the first item that has any; a literal's text precedes it. *)
Fixpoint flags_in (data : list item) : option (list (list N)) :=
  match data with
  | [] => None
  | i :: data' =>
      let metadata := match i with IPair prefix _ => Some prefix | IBytes b => Some b | INone => None end in
      match (b ← metadata; search flags_pattern None b) with
      | Some flags => Some (flag_words flags)
      | None => flags_in data'
      end
  end.

Definition _read_flags (reference : MessageReference) (operation : pystr) : prog MessageFlags :=
  data ← _uid_command "FETCH" operation [str_of_Z (uid reference); lit "(UID FLAGS)"];
  match flags_in data with
  | Some flags =>
      Ret (Ok (mkFlags reference (has_flag "\SEEN" flags) (has_flag "\FLAGGED" flags) (has_flag "\ANSWERED" flags) false))
  | None => fail (EMail (mail_error ONotFound NOT_FOUND operation "no message in the mailbox has the UID"))
  end.

(** [changes]: what is asked for each flag, whether it is there, and its name. *)
Definition changes (input : Input) (current : MessageFlags) : list (option bool * bool * pystr) :=
  [(is_seen input, seen current, lit "\Seen"); (is_flagged input, flagged current, lit "\Flagged");
   (is_answered input, answered current, lit "\Answered")].

Definition to_add (l : list (option bool * bool * pystr)) : list pystr :=
  omap (λ c, let '(requested, present, flag) := c in
             if bool_decide (requested = Some true) && negb present then Some flag else None) l.
Definition to_remove (l : list (option bool * bool * pystr)) : list pystr :=
  omap (λ c, let '(requested, present, flag) := c in
             if bool_decide (requested = Some false) && present then Some flag else None) l.

Definition not_kept (l : list (option bool * bool * pystr)) : bool :=
  existsb (λ c, let '(requested, present, _) := c in
                match requested with Some r => negb (Bool.eqb r present) | None => false end) l.

(** One STORE, when there is a flag to change. *)
Definition store_flags (reference : MessageReference) (mode : string) (flags : list pystr) (operation : pystr) : prog unit :=
  match flags with
  | [] => Ret (Ok ())
  | _ => _uid_command "STORE" operation
           [str_of_Z (uid reference); lit mode; "(" ++ Prelude.join " " flags ++ ")"] ≫= λ _, Ret (Ok ())
  end.

Definition already_applied (f : MessageFlags) : MessageFlags :=
  mkFlags (f_message f) (seen f) (flagged f) (answered f) true.

Section Flags.
Context `{EmailLibrary}.

Definition _update (cl : Client) (credentials : Credentials) (input : Input) : prog (Attempt MessageFlags) :=
  let operation : pystr := "setFlags" in
  let reference := message input in
  _ ← open_imap cl credentials operation;
  finally
    (_imap_select (mailbox reference) false (uid_validity reference) operation ≫= λ _,
     current ← _read_flags reference operation;
     let add := to_add (changes input current) in
     let remove := to_remove (changes input current) in
     match add, remove with
     | [], [] => lift (MutationAttempt (branch_result "updated" (already_applied current) (receipt_for []) None))
     | _, _ =>
         store_flags reference "+FLAGS.SILENT" add operation ≫= λ _,
         store_flags reference "-FLAGS.SILENT" remove operation ≫= λ _,
         updated ← _read_flags reference operation;
         if not_kept (changes input updated) then
           lift (MutationAttempt (branch_result "providerRejected" updated (receipt_for [])
             (Some (mail_failure PROVIDER_REJECTION operation
                "the IMAP server accepted STORE but did not keep the requested flags"))))
         else lift (MutationAttempt (branch_result "updated" updated (receipt_for []) None))
     end)
    _imap_close.

Definition invoke (cl : Client) (input : Input) : prog (Attempt MessageFlags) :=
  let operation : pystr := "setFlags" in
  valid ← lift (_valid_reference (message input));
  if negb valid || forallb (λ r, bool_decide (r = None)) [is_seen input; is_flagged input; is_answered input] then
    lift (defect_branch MutationAttempt zero operation "invalid message reference or no flag change")
  else
    on_mail_failure
      (credentials ← resolve_credentials operation; _update cl credentials input)
      (λ f, lift (mutation_failure f true)).

End Flags.
End SetFlags.

(** ** moveMessage *)

Module MoveMessage.

Record Input := mkInput {
  message : MessageReference;
  destination_mailbox : pystr;
  message_id : pystr
}.

Record MovedMessage := mkMoved {
  destination : MessageReference;
  was_already_moved : bool
}.

Definition zero : MovedMessage := mkMoved (mkReference [] 0 0) false.

(** [data.split()] of the identifiers a SEARCH found, each as a number, the largest first. *)
Definition candidates (found : list item) : res (list Z) :=
  match found with
  | [] | INone :: _ | IBytes [] :: _ => Ok []
  | IBytes b :: _ => uids ← SearchMessages.uid_list b; Ok (SearchMessages.descending uids)
  | IPair _ _ :: _ => raise AttributeError "'tuple' object has no attribute 'split'"
  end.

Definition spaces1 (s : list N) : option (list N) :=
  match s with c :: s' => if re_space c then Some (drop_while re_space s') else None | [] => None end.
Definition digits1 (s : list N) : option (list N * list N) :=
  match digit_run s with ((_ :: _) as d, rest) => Some (d, rest) | _ => None end.

(** [(?:COPYUID\s+)?(\d+)\s+\d+\s+(\d+)]. *)
Definition copy_uid_numbers (s : list N) : option (list N * list N) :=
  '(validity, s1) ← digits1 s; s2 ← spaces1 s1;
  '(_, s3) ← digits1 s2; s4 ← spaces1 s3;
  '(uid, _) ← digits1 s4; Some (validity, uid).

Definition copy_uid_pattern (_ : option N) (s : list N) : option (list N * list N) :=
  match (s1 ← expect_text "COPYUID" s; s2 ← spaces1 s1; copy_uid_numbers s2) with
  | Some r => Some r
  | None => copy_uid_numbers s
  end.

Definition copied_to (box : pystr) (data : list item) : res MessageReference :=
  let joined := Prelude.join " " (omap (λ i, match i with IBytes b => Some b | _ => None end) data) in
  match search copy_uid_pattern None joined with
  | Some (validity, uid) => v ← int_of_digits validity; u ← int_of_digits uid; Ok (mkReference box v u)
  | None => Ok (mkReference box 0 0)
  end.

Section Move.
Context `{EmailLibrary}.

Definition same_mailbox (a b : pystr) : bool :=
  if bool_decide (casefold a = lit "inbox") then bool_decide (casefold a = casefold b) else bool_decide (a = b).

Definition bad_message_id (i : pystr) : bool :=
  truthy i && ((250 <? length i)%nat || negb (has_char 64 i)
               || existsb (λ c, (c <=? 32)%N || (127 <=? c)%N || (c =? 60)%N || (c =? 62)%N) i).

Definition refused (input : Input) : res bool :=
  reference ← _valid_reference (message input);
  if negb reference then Ok true
  else box ← _valid_mailbox (destination_mailbox input);
       Ok (negb box || same_mailbox (mailbox (message input)) (destination_mailbox input)
           || bad_message_id (message_id input)).

(** The Message-ID of fetched headers. *)
Definition fetched_id (headers : list N) : res pystr := h ← header headers "Message-ID"; Ok (_message_id h).

(** The loop over the messages the destination has under the Message-ID. *)
Fixpoint find_moved (input : Input) (validity : Z) (uids : list Z) : prog (option MessageReference) :=
  match uids with
  | [] => Ret (Ok None)
  | uid :: uids' =>
      candidate ← _fetch uid "moveMessage";
      match candidate with
      | None => find_moved input validity uids'
      | Some (_, headers) =>
          i ← lift (fetched_id headers);
          if bool_decide (i = message_id input) then
            Ret (Ok (Some (mkReference (destination_mailbox input) validity uid)))
          else find_moved input validity uids'
      end
  end.

Definition not_found (operation text : pystr) : prog (Attempt MovedMessage) :=
  lift (MutationAttempt (branch_result "notFound" zero (receipt_for []) (Some (mail_failure NOT_FOUND operation text)))).

(** The source has no message with the UID: look for it in the destination. *)
Definition already_moved (input : Input) (operation : pystr) : prog (Attempt MovedMessage) :=
  if negb (truthy (message_id input)) then not_found operation "no message in the source mailbox has the UID"
  else
    validity ← _imap_select (destination_mailbox input) true 0 operation;
    found ← _uid_command "SEARCH" operation
      [lit "HEADER"; lit "Message-ID"; [34%N] ++ angle (message_id input) ++ [34%N]];
    uids ← lift (candidates found);
    moved ← find_moved input validity uids;
    match moved with
    | Some reference => lift (MutationAttempt (branch_result "moved" (mkMoved reference true) (receipt_for (message_id input)) None))
    | None => not_found operation "the message was not in the source or destination"
    end.

(** The commands that move the message, and the answer's COPYUID. *)
Definition transfer (input : Input) (has_move : bool) (operation : pystr) : prog (list item) :=
  let uid := str_of_Z (uid (message input)) in
  call_ (ImapResponse "COPYUID") ≫= λ _,
  argument ← lift (_imap_mailbox_argument (destination_mailbox input));
  _uid_command (if has_move then "MOVE" else "COPY") operation [uid; argument] ≫= λ _,
  copy_uid_data ← call_ (ImapResponse "COPYUID");
  (if has_move then Ret (Ok [])
   else _uid_command "STORE" operation [uid; lit "+FLAGS.SILENT"; lit "(\Deleted)"] ≫= λ _,
        _uid_command "EXPUNGE" operation [uid]) ≫= λ _,
  Ret (Ok copy_uid_data).

Definition _move (cl : Client) (credentials : Credentials) (input : Input) : prog (Attempt MovedMessage) :=
  let operation : pystr := "moveMessage" in
  let reference := message input in
  session ← open_imap cl credentials operation;
  finally
    (let capabilities := map upper session in
     let has_move := bool_decide (lit "MOVE" ∈ capabilities) in
     if negb has_move && negb (bool_decide (lit "UIDPLUS" ∈ capabilities)) then
       lift (MutationAttempt (branch_result "providerRejected" zero (receipt_for [])
         (Some (mail_failure PROVIDER_REJECTION operation "the IMAP server supports neither MOVE nor UIDPLUS"))))
     else
       _imap_select (mailbox reference) false (uid_validity reference) operation ≫= λ _,
       fetched ← _fetch (uid reference) operation;
       match fetched with
       | None => already_moved input operation
       | Some (_, headers) =>
           source_id ← lift (fetched_id headers);
           if truthy (message_id input) && negb (bool_decide (source_id = message_id input)) then
             not_found operation "the message at the UID has a different Message-ID"
           else
             copy_uid_data ← transfer input has_move operation;
             destination ← lift (copied_to (destination_mailbox input) copy_uid_data);
             lift (MutationAttempt (branch_result "moved" (mkMoved destination false) (receipt_for (message_id input)) None))
       end)
    _imap_close.

Definition invoke (cl : Client) (input : Input) : prog (Attempt MovedMessage) :=
  let operation : pystr := "moveMessage" in
  refused ← lift (refused input);
  if (refused : bool) then
    lift (defect_branch MutationAttempt zero operation "invalid source, destination, or Message-ID")
  else
    on_mail_failure
      (credentials ← resolve_credentials operation; _move cl credentials input)
      (λ f, lift (mutation_failure f true)).

End Move.
End MoveMessage.
