(* ===== verification/EmailSessions.v ===== *)
(** * What travels where

    Every operation of the email connector, run against any servers and cut short anywhere: the
    credentials, the mailbox and the message only travel inside TLS that verifies the server, and no
    argument of a command can end the command's line. *)

From S2P Require Import Prelude Errors Timestamps Identity Results Calls MailProgram EmailClient EmailBody EmailMessages EmailOperations.

(** The libraries may answer anything but an exception of the connector. *)
Definition any_answer : history → ∀ X, cmd X → mres X → Prop := λ _ _ _ r, answers r.

(** The six operations of a client. *)
Inductive operation `{EmailLibrary} (cl : Client) : ∀ {A}, prog A → Prop :=
  | op_search input : operation cl (SearchMessages.invoke cl input)
  | op_get input : operation cl (get_message cl input)
  | op_send context call input : operation cl (SendMessage.invoke cl context call input)
  | op_reply context call input : operation cl (ReplyToMessage.invoke cl context call input)
  | op_flags input : operation cl (SetFlags.invoke cl input)
  | op_move input : operation cl (MoveMessage.invoke cl input).

(** Follow a program through its binds, handlers and branches. *)
Ltac keep_step :=
  lazymatch goal with
  | |- keeps _ _ (_ ≫= _) _ _ => apply keeps_bind
  | |- keeps _ _ (catch _ _) _ _ => apply keeps_catch
  | |- keeps _ _ (classified _ _ _ _) _ _ => apply keeps_catch
  | |- keeps _ _ (reclassified _ _ _ _) _ _ => apply keeps_catch
  | |- keeps _ _ (on_mail_failure _ _) _ _ => apply keeps_catch
  | |- keeps _ _ (on_value_error _ _) _ _ => apply keeps_catch
  | |- keeps _ _ (or_invalid _ _) _ _ => apply keeps_catch
  | |- keeps _ _ (raised_as _ _) _ _ => apply keeps_catch
  | |- keeps _ _ (finally _ _) _ _ => apply keeps_finally
  | |- keeps _ _ (if ?b then _ else _) _ _ => let E := fresh "E" in destruct b eqn:E
  | |- keeps _ _ (match ?x with _ => _ end) _ _ => let E := fresh "E" in destruct x eqn:E
  | |- keeps _ _ (call_ _) _ _ => apply keeps_call; intros ? ?
  | |- keeps _ _ (lift _) _ _ => unfold lift; cbn [keeps]
  | |- keeps _ _ (fail _) _ _ => unfold fail; cbn [keeps]
  | |- keeps _ _ (Ret _) _ _ => cbn [keeps]
  | |- match ?x with _ => _ end => let E := fresh "E" in destruct x eqn:E
  | |- _ ∧ _ => split
  end; cbn beta iota zeta.

(** All of a program; [tac] closes what is left. *)
Ltac keep_all tac := repeat keep_step; tac.

(** A handler that classifies: what is returned, or some other error. *)
Lemma keeps_classified `{EmailLibrary} {A} possible I op protocol command (p : prog A) h Q :
  keeps possible I p h (λ r h', match r with Ok a => Q (Ok a) h' | Err _ => ∀ e, Q (Err e) h' end) →
  keeps possible I (classified op protocol command p) h Q.
Proof. intros Hp. apply keeps_catch. eapply keeps_weaken; [|exact Hp]. intros [a|e] h' Hq; [done|]. destruct e; apply Hq. Qed.

Lemma keeps_reclassified `{EmailLibrary} {A} possible I op protocol command (p : prog A) h Q :
  keeps possible I p h (λ r h', match r with Ok a => Q (Ok a) h' | Err _ => ∀ e, Q (Err e) h' end) →
  keeps possible I (reclassified op protocol command p) h Q.
Proof. intros Hp. apply keeps_catch. eapply keeps_weaken; [|exact Hp]. intros [a|e] h' Hq; [done|apply Hq]. Qed.

Lemma MutationAttempt_Ok {V} (a a' : Attempt V) : MutationAttempt a = Ok a' → a' = a.
Proof. unfold MutationAttempt. intros H0. repeat (apply bind_Ok in H0 as (? & _ & H0)). by apply Ok_inj in H0. Qed.

Module SessionFacts.

Inductive protocol := IMAP | SMTP.

#[global] Instance protocol_eq_dec : EqDecision protocol.
Proof. solve_decision. Defined.

(** TLS that verifies the certificate and the host name, from version 1.2. *)
Definition trusted (t : TlsContext) : bool := verifies t && check_hostname t && (TLSv1_2 <=? minimum_version t)%Z.

(** The commands that open a connection or secure it. *)
Definition secures {X} (c : cmd X) : option (protocol * option TlsContext) :=
  match c with
  | ImapConnect t _ _ => Some (IMAP, t)
  | ImapStartTls t => Some (IMAP, Some t)
  | SmtpConnect t _ _ => Some (SMTP, t)
  | SmtpStartTls t => Some (SMTP, Some t)
  | _ => None
  end.

(** Whether the newest connection of the protocol is encrypted. *)
Fixpoint encrypted (p : protocol) (h : history) : bool :=
  match h with
  | [] => false
  | mkCall c r :: h' =>
      match secures c with
      | Some (p', t) =>
          if bool_decide (p = p') then is_ok r && match t with Some t => trusted t | None => false end
          else encrypted p h'
      | None => encrypted p h'
      end
  end.

(** The commands that carry credentials, a mailbox or a message. *)
Definition carries {X} (c : cmd X) : option protocol :=
  match c with
  | ImapLogin _ _ | ImapAuthenticate _ _ | ImapSelect _ _ | ImapUid _ _ => Some IMAP
  | SmtpLogin _ _ _ | SmtpMail _ _ | SmtpRcpt _ | SmtpPutCmd _ | SmtpSend _ => Some SMTP
  | _ => None
  end.

Fixpoint inside_tls (h : history) : Prop :=
  match h with
  | [] => True
  | mkCall c r :: h' => match carries c with Some p => encrypted p h' = true | None => True end ∧ inside_tls h'
  end.

Section Tls.
Context `{EmailLibrary} (cl : Client) (Htrusted : trusted (tls_context cl) = true).

Abbreviation kept := (keeps any_answer inside_tls).

Lemma open_imap_encrypted credentials op h : inside_tls h →
  kept (open_imap cl credentials op) h (λ r h', inside_tls h' ∧ (is_ok r = true → encrypted IMAP h' = true)).
Proof. intros Hh. unfold open_imap. keep_all ltac:(cbn; rewrite ?Htrusted; done). Qed.

Lemma open_smtp_encrypted credentials op h : inside_tls h →
  kept (open_smtp cl credentials op) h (λ r h', inside_tls h' ∧ (is_ok r = true → encrypted SMTP h' = true)).
Proof. intros Hh. unfold open_smtp, ehlo. keep_all ltac:(cbn; rewrite ?Htrusted; done). Qed.

(** The commands of an open session. *)
Definition in_session (p : protocol) (X : Type) (c : cmd X) : bool :=
  match c with
  | ImapSelect _ _ | ImapResponse _ | ImapUid _ _ | ImapLogout => bool_decide (p = IMAP)
  | SmtpSetTimeout _ | SmtpMail _ _ | SmtpRcpt _ | SmtpPutCmd _ | SmtpGetReply | SmtpSend _ | SmtpQuit | SmtpClose =>
      bool_decide (p = SMTP)
  | _ => false
  end.

Lemma session_kept {A} p (body : prog A) h : only (in_session p) body → encrypted p h = true → inside_tls h →
  kept body h (λ _ h', inside_tls h').
Proof.
  intros Hb He Hh. eapply keeps_weaken; [|apply (only_keeps _ (in_session p) _ _ (λ h, encrypted p h = true)); try done].
  - by intros r h' [_ ?].
  - intros h0 X c r H1 H2 Hc. destruct c; try discriminate Hc; apply bool_decide_eq_true in Hc as ->; done.
Qed.

Lemma with_imap {A} credentials op (body : list pystr → prog A) :
  (∀ capabilities, only (in_session IMAP) (body capabilities)) →
  preserves any_answer inside_tls (open_imap cl credentials op ≫= body).
Proof.
  intros Hb h Hh. apply keeps_bind. eapply keeps_weaken; [|by apply open_imap_encrypted].
  intros [a|e] h' [Hh' He]; [|done]. apply (session_kept IMAP); [apply Hb|by apply He|done].
Qed.

Lemma with_smtp {A} credentials op (body : list (pystr * pystr) → prog A) :
  (∀ features, only (in_session SMTP) (body features)) →
  preserves any_answer inside_tls (open_smtp cl credentials op ≫= body).
Proof.
  intros Hb h Hh. apply keeps_bind. eapply keeps_weaken; [|by apply open_smtp_encrypted].
  intros [a|e] h' [Hh' He]; [|done]. apply (session_kept SMTP); [apply Hb|by apply He|done].
Qed.

(** *** The programs of a session *)

Lemma only_select box ro v op : only (in_session IMAP) (_imap_select box ro v op).
Proof. unfold _imap_select, classified. repeat only_step; done. Qed.

Lemma only_fetch uid op : only (in_session IMAP) (_fetch uid op).
Proof. unfold _fetch, reclassified. repeat only_step; done. Qed.

Lemma only_parse reference metadata headers text session op :
  only (in_session IMAP) (_parse_message reference metadata headers text session op).
Proof. unfold _parse_message, _fetch_text, classified. repeat only_step; done. Qed.

Lemma only_uid command op arguments : only (in_session IMAP) (_uid_command command op arguments).
Proof. unfold _uid_command, reclassified. repeat only_step; done. Qed.

Lemma only_close : only (in_session IMAP) _imap_close.
Proof. unfold _imap_close. repeat only_step; done. Qed.

Ltac in_imap :=
  repeat lazymatch goal with
  | |- only _ (_imap_select _ _ _ _) => apply only_select
  | |- only _ (_fetch _ _) => apply only_fetch
  | |- only _ (_parse_message _ _ _ _ _ _) => apply only_parse
  | |- only _ (_uid_command _ _ _) => apply only_uid
  | |- only _ _imap_close => apply only_close
  | |- _ => only_step
  end; try done.

Lemma only_summaries box validity uids : only (in_session IMAP) (SearchMessages.summaries box validity uids).
Proof.
  induction uids as [|uid uids IH]; cbn [SearchMessages.summaries]; [done|]. unfold or_invalid.
  repeat first [apply IH | apply only_fetch | apply only_parse | only_step]; done.
Qed.

Lemma only_find_moved input validity uids : only (in_session IMAP) (MoveMessage.find_moved input validity uids).
Proof.
  induction uids as [|uid uids IH]; cbn [MoveMessage.find_moved]; [done|].
  repeat first [apply IH | apply only_fetch | only_step]; done.
Qed.

Lemma read_message_inside credentials reference op text :
  preserves any_answer inside_tls (_read_message cl credentials reference op text).
Proof. apply with_imap. intros capabilities. unfold or_invalid. in_imap. Qed.

Lemma search_inside credentials input box limit :
  preserves any_answer inside_tls (SearchMessages._search cl credentials input box limit).
Proof. apply with_imap. intros capabilities. unfold reclassified. cbv zeta. repeat first [apply only_summaries | in_imap]. Qed.

Lemma update_inside credentials input : preserves any_answer inside_tls (SetFlags._update cl credentials input).
Proof. apply with_imap. intros capabilities. unfold SetFlags._read_flags, SetFlags.store_flags. cbv zeta. in_imap. Qed.

Lemma move_inside credentials input : preserves any_answer inside_tls (MoveMessage._move cl credentials input).
Proof.
  apply with_imap. intros capabilities.
  unfold MoveMessage.already_moved, MoveMessage.transfer, MoveMessage.not_found. cbv zeta.
  repeat first [apply only_find_moved | in_imap].
Qed.

Lemma only_recipients l : only (in_session SMTP) (smtp_recipients l).
Proof. induction l as [|a l IH]; cbn [smtp_recipients]; [done|]. repeat first [apply IH | only_step]; done. Qed.

Lemma submit_inside credentials sender l content op :
  preserves any_answer inside_tls (_smtp_submit cl credentials sender l content op).
Proof.
  apply with_smtp. intros features. unfold smtp_transaction, classified, raised_as.
  repeat first [apply only_recipients | only_step]; done.
Qed.

Lemma free_call {X} (c : cmd X) : secures c = None → carries c = None → preserves any_answer inside_tls (call_ c).
Proof. intros Hs Hc. apply preserves_call. intros h r _ Hh. cbn. by rewrite Hc. Qed.

Ltac inside :=
  repeat lazymatch goal with
  | |- preserves _ _ (_read_message _ _ _ _ _) => apply read_message_inside
  | |- preserves _ _ (SearchMessages._search _ _ _ _ _) => apply search_inside
  | |- preserves _ _ (SetFlags._update _ _ _) => apply update_inside
  | |- preserves _ _ (MoveMessage._move _ _ _) => apply move_inside
  | |- preserves _ _ (_smtp_submit _ _ _ _ _ _) => apply submit_inside
  | |- preserves _ _ (call_ _) => apply free_call; reflexivity
  | |- _ => preserve_step
  end.

Lemma resolve_inside op : preserves any_answer inside_tls (resolve_credentials op).
Proof. unfold resolve_credentials. inside. Qed.

Lemma attempt_inside context call_id credentials sender l content sent op :
  preserves any_answer inside_tls (_submit_attempt cl context call_id credentials sender l content sent op).
Proof. unfold _submit_attempt, _claim_submission, _release_submission, on_mail_failure. inside. Qed.

Lemma operation_inside {A} (p : prog A) : operation cl p → preserves any_answer inside_tls p.
Proof.
  intros [input|input|context call input|context call input|input|input];
    unfold SearchMessages.invoke, get_message, SendMessage.invoke, ReplyToMessage.invoke, SetFlags.invoke,
      MoveMessage.invoke, on_mail_failure, on_value_error, _render_message, _has_submission_claim; cbv zeta;
    repeat first [progress inside | apply resolve_inside | apply attempt_inside].
Qed.

End Tls.

Lemma init_trusted `{EmailLibrary} c tls cl : init c tls = Ok cl → trusted (tls_context cl) = true.
Proof.
  unfold init. intros H0. res_inv. destruct tls as [t|]; [|done]. cbn [default from_option tls_context]. unfold trusted.
  bool_inv. cbn [id]. apply Z.leb_le in H1. by rewrite H0, H2, H1.
Qed.

(** C7: credentials, mailbox names, flags and messages only travel inside TLS that verifies the server.
    Whatever the servers answer and wherever the run is cut short, each command of any of the six
    operations that logs in, names a mailbox or a message, or carries one follows a connection of its
    protocol that was opened with TLS or secured by an accepted STARTTLS, under a context that checks
    the certificate and the host name from TLS 1.2 on. *)
Theorem credentials_inside_tls `{EmailLibrary} c tls cl {A} (p : prog A) h o :
  init c tls = Ok cl → operation cl p → runs any_answer p [] h o → inside_tls h.
Proof.
  intros Hc Hp Hr. apply (preserves_runs any_answer inside_tls p [] h o); [|exact I|exact Hr].
  apply (operation_inside cl); [by apply (init_trusted c tls)|done].
Qed.

(** *** A mailbox with one message *)

Module Sample.

Definition q : pystr := [34%N].
Definition quote (s : pystr) : pystr := q ++ s ++ q.

#[export] Instance library : EmailLibrary := {|
  addr_spec_of := Some;
  header := λ headers name,
    Ok (if bool_decide (name = lit "Message-ID") then Some headers
        else if bool_decide (name = lit "From") then Some (lit "jane@example.com") else None);
  getaddresses := λ s, Ok [([], s)];
  parsedate_to_datetime := λ _, Ok (GoTime.DT 2024 5 1 10 0 0 0 (Some 0%Z));
  decode := λ _ b, Ok b;
  lower := ascii_lower;
  upper := map (λ c, if is_lower c then (c - 32)%N else c);
  casefold := ascii_lower;
  decode_header := λ s, Ok [inl s];
  b64decode := Ok;
  quopri_decodestring := λ b, b;
  html_events := λ s, [HData s];
  as_bytes := λ headers text, Ok (flat_map (λ h, fst h ++ ": " ++ snd h ++ [13; 10]%N) headers ++ [13; 10]%N ++ text);
  address_text := λ name spec, Ok (name ++ " <" ++ spec ++ ">")
|}.

Definition config : Config :=
  mkEmailConfig "imap.example.com" "smtp.example.com" [] [] 143 "startTLS" 587 "startTLS".
Definition client : Client := mkClient config default_context.
Definition reference : MessageReference := mkReference "INBOX" 7 5.

Definition structure : pystr :=
  "(" ++ quote "text" ++ " " ++ quote "plain" ++ " NIL NIL NIL " ++ quote "7bit" ++ " 5 1)".
Definition metadata : pystr :=
  "1 (UID 5 FLAGS (\Seen) INTERNALDATE " ++ quote "01-May-2024 10:00:00 +0000" ++ " RFC822.SIZE 40 BODYSTRUCTURE " ++ structure.

Definition is_fetch_of (text : pystr) (arguments : list arg) : bool :=
  match arguments with [_; AText s] => starts_with text s | _ => false end.

(** A server with one message, [flags] its flags and [moves] whether it has MOVE; [code] answers the
    final dot, and the credentials have a login that is an address. *)
Definition served (flags : pystr) (moves : bool) (code : Z) : server := λ h X c,
  match c in cmd X return mres X with
  | Resolve => Ok (mkCredentials "agent@example.com" "secret" [] [])
  | HasHeartbeat => Ok false
  | Heartbeat _ => Ok ()
  | Now => Ok (GoTime.DT 2024 5 1 10 0 0 0 (Some 0%Z))
  | ImapConnect _ _ _ => Ok [lit "STARTTLS"]
  | ImapStartTls _ => Ok [lit "IMAP4REV1"; if moves then lit "MOVE" else lit "UIDPLUS"]
  | ImapShutdown => Ok ()
  | ImapLogin _ _ => Ok ()
  | ImapAuthenticate _ _ => Ok ()
  | ImapSelect _ _ => Ok (lit "OK", [IBytes "1"])
  | ImapResponse r => Ok (if bool_decide (r = lit "UIDVALIDITY") then [IBytes "7"] else [IBytes "7 5 12"])
  | ImapUid command arguments =>
      Ok (lit "OK",
          if bool_decide (command = lit "SEARCH") then [IBytes "5"]
          else if negb (bool_decide (command = lit "FETCH")) then [INone]
          else if is_fetch_of "(UID FLAGS)" arguments then [IBytes ("1 (UID 5 FLAGS (" ++ flags ++ "))")]
          else if is_fetch_of "(UID BODY" arguments then [IPair "1 (BODY[TEXT] {5}" "Hello"; IBytes ")"]
          else [IPair (metadata ++ " BODY[HEADER] {5}") "<a@b>"; IBytes ")"])
  | ImapLogout => Ok ()
  | SmtpConnect _ _ _ => Ok ()
  | SmtpSetTimeout _ => Ok ()
  | SmtpEhlo _ => Ok (250%Z, [(lit "starttls", []); (lit "auth", lit "LOGIN PLAIN"); (lit "size", lit "1000000")])
  | SmtpStartTls _ => Ok ()
  | SmtpLogin _ _ _ => Ok ()
  | SmtpMail _ _ => Ok 250%Z
  | SmtpRcpt _ => Ok 250%Z
  | SmtpPutCmd _ => Ok ()
  | SmtpGetReply =>
      Ok (match h with mkCall (SmtpPutCmd _) _ :: _ => 354%Z | _ => code end)
  | SmtpSend _ => Ok ()
  | SmtpQuit => Ok ()
  | SmtpClose => Ok ()
  end.

Lemma served_answers flags moves code h X c : any_answer h X c (served flags moves code h X c).
Proof. by destruct c. Qed.

Definition call : Call.t :=
  Call.mk "11111111-2222-5333-8444-555555555555" (ConnectionRef.mk "email" "main")
    (OperationRef.mk "email" "sendMessage") "11111111-2222-5333-8444-555555555555" None None.
Definition message : SendMessage.Input :=
  SendMessage.mkInput [lit "jane@example.com"] [lit "Jane@example.com"; lit "joe@example.com"] [] [] "Hello" ("." ++ [10%N] ++ "Dear Jane").

Definition got := exec (served "\Seen" true 250) (get_message client reference) [].
Definition sent := exec (served [] true 250) (SendMessage.invoke client true call message) [].

Lemma initialized : init config None = Ok client.
Proof. vm_compute. reflexivity. Qed.

End Sample.

#[local] Existing Instance Sample.library.

Lemma credentials_inside_tls_witness :
  init Sample.config None = Ok Sample.client ∧ inside_tls (snd Sample.got) ∧ length (snd Sample.got) = 9%nat.
Proof.
  split; [exact Sample.initialized|]. split; [|vm_compute; reflexivity].
  refine (credentials_inside_tls Sample.config None Sample.client _ _ _ Sample.initialized (op_get _ _) _).
  apply exec_runs. apply Sample.served_answers.
Defined.

End SessionFacts.
