(* ===== verification/EmailArguments.v ===== *)
(** * Arguments of the mail commands

    A mailbox name reads back from the argument [_imap_mailbox_argument] writes, and no argument of a
    command holds a control character, whatever the input and the servers' answers: nothing a caller or
    a message says can end a command's line and start another command. *)

From Stdlib Require Import ZifyBool.
From S2P Require Import Prelude Errors JsonText Timestamps Identity Results Calls Steps Base64 MailProgram EmailClient EmailBody EmailMessages EmailOperations EmailSessions.

Module ArgumentFacts.
Import Base64Facts.

(** ** Quoted strings *)

Lemma escape_cons c s : escape_quoted (c :: s) =
  (if (c =? 92)%N then [92; 92]%N else if (c =? 34)%N then [92; 34]%N else [c]) ++ escape_quoted s.
Proof.
  unfold escape_quoted, replace_char. cbn [flat_map]. rewrite flat_map_app. f_equal.
  destruct (N.eqb_spec c 92) as [->|]; [done|]. cbn [flat_map app]. by destruct (c =? 34)%N.
Qed.

Lemma quoted_string_escaped s rest : quoted_string (escape_quoted s ++ [34%N] ++ rest) = Ok (s, rest).
Proof.
  change ([34%N] ++ rest) with (34%N :: rest).
  induction s as [|c s IH]; [done|]. rewrite escape_cons, <- app_assoc.
  destruct (N.eqb_spec c 92) as [->|H92]; [cbn [app quoted_string]; by rewrite IH|].
  destruct (N.eqb_spec c 34) as [->|H34]; [cbn [app quoted_string]; by rewrite IH|].
  cbn [app]. destruct c as [|p]; [cbn; by rewrite IH|].
  do 7 (destruct p as [p|p|]; try (cbn [quoted_string]; by rewrite IH); try done).
Qed.

(** ** UTF-16 *)

Lemma utf16_roundtrip s b : utf16_be s = Some b →
  utf16_decode false b = Some s ∧ Forall (λ x, (x < 256)%N) b.
Proof.
  revert b. induction s as [|c s IH]; intros b; [by intros [= <-]|]. cbn [utf16_be].
  destruct (in_range _ _ _ || _) eqn:E; [done|]. apply orb_false_elim in E as [Hs Hc]. apply N.ltb_ge in Hc.
  destruct (utf16_be s) as [rest|]; [|done]. cbn [mbind option_bind]. intros [= <-].
  destruct (IH rest eq_refl) as [Hd Hb]. unfold in_range in Hs.
  assert (Hsum : ∀ n, (n / 256 * 256 + n mod 256 = n)%N).
  { intros n. rewrite N.mul_comm. symmetry. by apply N.div_mod. }
  assert (Hq : ∀ n k, (n < k * 256 → n / 256 < k)%N) by (intros; apply N.Div0.div_lt_upper_bound; lia).
  assert (Hr : ∀ n, (n = 256 * (n / 256) + n mod 256 ∧ n mod 256 < 256)%N).
  { intros n. split; [by apply N.div_mod|by apply N.mod_lt]. }
  destruct (N.ltb_spec c 0x10000) as [Hlow|Hhigh].
  - split.
    2:{ repeat apply Forall_cons_2; [apply Hq; lia|apply Hr|done]. }
    assert (Hh : is_high c = false) by (unfold is_high, in_range; lia).
    cbn [app utf16_decode]. rewrite Hsum, Hh. cbn [andb]. destruct rest as [|x [|y rest]]; by rewrite Hd.
  - set (d := (c - 0x10000)%N).
    pose proof (N.div_mod d 1024 ltac:(done)) as Hd1. pose proof (N.mod_lt d 1024 ltac:(done)) as Hd2.
    assert (Hd3 : (d / 1024 < 1024)%N) by (apply N.Div0.div_lt_upper_bound; unfold d; lia).
    set (hi := (0xD800 + d / 1024)%N) in *. set (lo := (0xDC00 + d mod 1024)%N) in *.
    assert (Hhi : (0xD800 <= hi < 0xDC00)%N) by (unfold hi; clear -Hd3; generalize dependent (d / 1024)%N; lia). assert (Hlo : (0xDC00 <= lo < 0xE000)%N) by (unfold lo; clear -Hd2; generalize dependent (d mod 1024)%N; lia).
    split; [|repeat apply Forall_cons_2; [apply Hq; lia|apply Hr|apply Hq; lia|apply Hr|done]].
    cbn [app utf16_decode]. rewrite !Hsum.
    assert (is_high hi = true) as -> by (unfold is_high, in_range; clear -Hhi; lia).
    assert (is_low lo = true) as -> by (unfold is_low, in_range; clear -Hlo; lia). cbn [andb].
    rewrite Hd. cbn [fmap option_fmap option_map]. f_equal. f_equal. unfold join_surrogates, hi, lo, d in *. lia.
Qed.

(** ** Mailbox names *)

(** A server reads a mailbox name (RFC 3501, 5.1.3): [&-] is an ampersand, and [&...-] is UTF-16 in
    base64 with a comma for the slash. *)
Definition standard_digit (c : N) : N := if (c =? 43)%N then 45%N else if (c =? 44)%N then 95%N else c.

Fixpoint mailbox_of (fuel : nat) (s : pystr) : option pystr :=
  match fuel with
  | O => None
  | S fuel =>
      match s with
      | [] => Some []
      | 38%N :: s' =>
          match s' with
          | 45%N :: s'' => cons 38%N <$> mailbox_of fuel s''
          | _ =>
              run ← until 45 s';
              b ← urlsafe_b64decode (map standard_digit run);
              cs ← utf16_decode false b;
              rest ← mailbox_of fuel (drop (S (length run)) s');
              Some (cs ++ rest)
          end
      | c :: s' => cons c <$> mailbox_of fuel s'
      end
  end.

Definition mail_digit (c : N) : N := if (c =? 45)%N then 43%N else if (c =? 95)%N then 44%N else c.

Lemma b64_replaced data : replace_char 47 "," (b64encode data) = map mail_digit (urlsafe_b64encode data).
Proof.
  unfold b64encode. pose proof (encode_chars data) as Hc. induction (urlsafe_b64encode data) as [|c s IH]; [done|].
  cbn [forallb] in Hc. apply andb_prop in Hc as [Hc Hs]. unfold replace_char in *. cbn [map flat_map].
  rewrite (IH Hs). unfold b64_char, is_alnum, is_alpha, is_lower, is_upper, is_digit, in_range, mail_digit in *.
  destruct (N.eqb_spec c 45) as [->|]; [done|]. destruct (N.eqb_spec c 95) as [->|]; [done|].
  destruct (N.eqb_spec c 47) as [->|]; [discriminate Hc|done].
Qed.

Lemma mail_digits s : forallb b64_char s = true → map standard_digit (map mail_digit s) = s ∧ 45%N ∉ map mail_digit s.
Proof.
  induction s as [|c s IH]; [split; [done|apply not_elem_of_nil]|]. cbn [forallb map]. intros [Hc Hs]%andb_prop.
  destruct (IH Hs) as [H1 H2]. rewrite H1, not_elem_of_cons.
  unfold b64_char, is_alnum, is_alpha, is_lower, is_upper, is_digit, in_range, mail_digit, standard_digit in *.
  destruct (N.eqb_spec c 45) as [->|]; [by split|]. destruct (N.eqb_spec c 95) as [->|]; [by split|].
  destruct (N.eqb_spec c 43) as [->|]; [discriminate Hc|]. destruct (N.eqb_spec c 44) as [->|]; [discriminate Hc|].
  split; [done|]. by split.
Qed.

Lemma until_here stop a b : stop ∉ a → until stop (a ++ stop :: b) = Some a.
Proof.
  induction a as [|c a IH]; cbn [until app]; [by rewrite N.eqb_refl|].
  intros [Hc Ha]%not_elem_of_cons. destruct (N.eqb_spec c stop); [done|]. by rewrite IH.
Qed.

(** A run of non-ASCII characters reads back before any rest. *)
Lemma shifted_reads run t rest r fuel : run ≠ [] → shifted run = Ok t →
  mailbox_of fuel rest = Some r → mailbox_of (S fuel) (t ++ rest) = Some (run ++ r).
Proof.
  intros Hne. unfold shifted. destruct run as [|c run]; [done|]. destruct (utf16_be (c :: run)) as [b|] eqn:Hb; [|done].
  intros [= <-]. rewrite b64_replaced. destruct (utf16_roundtrip _ _ Hb) as [Hd Hbytes].
  destruct (mail_digits _ (encode_chars b)) as [H1 H2].
  assert (Hbne : urlsafe_b64encode b ≠ []).
  { destruct b as [|? [|? [|? ?]]]; [discriminate Hd|done..]. }
  destruct (map mail_digit (urlsafe_b64encode b)) as [|x run'] eqn:Hr; [by destruct (urlsafe_b64encode b)|].
  apply not_elem_of_cons in H2 as [Hx Hrun'].
  change (lit "&") with [38%N]. change (lit "-") with [45%N]. intros Hrest. cbn [app mailbox_of].
  rewrite <- app_assoc. change ([45%N] ++ rest) with (45%N :: rest).
  assert (Hu : until 45 (x :: run' ++ 45%N :: rest) = Some (x :: run')).
  { apply (until_here 45 (x :: run')). by rewrite not_elem_of_cons. }
  assert (Hdrop : drop (S (length (x :: run'))) (x :: run' ++ 45%N :: rest) = rest).
  { cbn [drop length]. clear. induction run' as [|y run' IH]; [done|]. exact IH. }
  assert (Hbranch : ∀ A (a b : A), match x with 45%N => a | _ => b end = b).
  { intros A a b'. destruct x as [|p]; [done|]. do 6 (destruct p as [p|p|]; try done). }
  rewrite Hbranch, Hu. cbn [mbind option_bind]. rewrite H1, (decode_encode _ Hbytes).
  cbn [mbind option_bind]. rewrite Hd. cbn [mbind option_bind]. by rewrite Hdrop, Hrest.
Qed.

Definition non_ascii (run : pystr) : Prop := Forall (λ c, (127 < c)%N) run.

Lemma mailbox_reads s : ∀ run t, mailbox_text run s = Ok t → ∀ fuel, (length t < fuel)%nat →
  mailbox_of fuel t = Some (run ++ s).
Proof.
  induction s as [|c s IH]; intros run t; cbn [mailbox_text].
  - intros Ht fuel Hf. destruct run as [|c run]; [apply Ok_inj in Ht as <-; by destruct fuel; [lia|]|].
    destruct fuel as [|fuel]; [lia|]. rewrite <- (app_nil_r t). apply shifted_reads; [done|done|].
    destruct fuel; [|done]. destruct t; [|cbn in Hf; lia]. cbn [shifted] in Ht. by destruct (utf16_be (c :: run)).
  - destruct (N.ltb_spec 127 c) as [Hc|Hc]; [intros Ht fuel Hf; rewrite (IH _ _ Ht fuel Hf); by rewrite <- app_assoc|].
    intros (before & Hb & H)%bind_Ok. apply bind_Ok in H as (rest & Hrest & H). apply Ok_inj in H as <-.
    set (this := if (c =? 38)%N then lit "&-" else [c]).
    assert (Hthis : ∀ fuel, (length (this ++ rest) < fuel)%nat → mailbox_of fuel (this ++ rest) = Some (c :: s)).
    { intros fuel Hf. destruct fuel as [|fuel]; [lia|]. rewrite length_app in Hf.
      assert (Hl : (1 <= length this)%nat) by (unfold this; destruct (c =? 38)%N; [vm_compute|cbn]; lia).
      pose proof (IH [] rest Hrest fuel ltac:(lia)) as Hr. unfold this. destruct (N.eqb_spec c 38) as [->|Hne].
      - change (lit "&-") with [38; 45]%N. cbn [app mailbox_of]. by rewrite Hr.
      - cbn [app mailbox_of]. rewrite Hr. destruct c as [|p]; [done|]. do 6 (destruct p as [p|p|]; try done). }
    intros fuel Hf. destruct run as [|x run].
    + apply Ok_inj in Hb as <-. by apply Hthis.
    + destruct fuel as [|fuel]; [lia|]. apply shifted_reads; [done|done|]. apply Hthis.
      rewrite length_app in Hf. assert (1 <= length before)%nat; [|lia].
      cbn [shifted] in Hb. destruct (utf16_be (x :: run)); [|done]. injection Hb as <-.
      change (lit "&") with [38%N]. cbn [app length]. lia.
Qed.

(** ** Lines *)

(** Text without control characters: neither a line break nor a NUL. *)
Definition line_safe (s : list N) : bool := forallb (λ c, (32 <=? c)%N) s.

Lemma line_safe_app a b : line_safe (a ++ b) = line_safe a && line_safe b.
Proof. apply forallb_app. Qed.

Lemma line_safe_char c s : line_safe (c :: s) = (32 <=? c)%N && line_safe s.
Proof. done. Qed.

Lemma line_safe_digits s : forallb is_digit s = true → line_safe s = true.
Proof.
  unfold line_safe. rewrite !forallb_forall. intros H c Hc. specialize (H c Hc). unfold is_digit, in_range in H. lia.
Qed.

Lemma line_safe_number n : line_safe (str_of_N n) = true.
Proof.
  destruct n as [|p]; [done|]. destruct (str_of_N_shape (Npos p) ltac:(done)) as (c & s & -> & Hc & Hs).
  rewrite line_safe_char, (line_safe_digits s Hs). lia.
Qed.

Lemma line_safe_int z : line_safe (str_of_Z z) = true.
Proof.
  destruct z as [|p|p]; [done|apply line_safe_number|]. cbn [str_of_Z]. rewrite line_safe_char. by rewrite line_safe_number.
Qed.

Lemma line_safe_join sep l : line_safe sep = true → forallb line_safe l = true → line_safe (Prelude.join sep l) = true.
Proof.
  intros Hsep. induction l as [|x l IH]; [done|]. cbn [forallb]. intros [Hx Hl]%andb_prop. cbn [Prelude.join].
  destruct l as [|y l]; [done|]. rewrite !line_safe_app, Hx, Hsep. by apply IH.
Qed.

Lemma line_safe_escaped s : line_safe s = true → line_safe (escape_quoted s) = true.
Proof.
  induction s as [|c s IH]; [done|]. rewrite line_safe_char, escape_cons, line_safe_app. intros [Hc Hs]%andb_prop.
  rewrite (IH Hs), andb_true_r. destruct (c =? 92)%N; [done|]. destruct (c =? 34)%N; [done|]. by rewrite line_safe_char, Hc.
Qed.

Lemma line_safe_quoted s : line_safe s = true → line_safe (quote_argument s) = true.
Proof. intros Hs. unfold quote_argument. by rewrite !line_safe_app, line_safe_escaped. Qed.

Lemma line_safe_shifted run t : shifted run = Ok t → line_safe t = true.
Proof.
  unfold shifted. destruct run as [|c run]; [by intros [= <-]|]. destruct (utf16_be (c :: run)) as [b|]; [|done].
  intros H. apply Ok_inj in H as <-. rewrite b64_replaced, !line_safe_app.
  change (line_safe (lit "&")) with true. change (line_safe (lit "-")) with true. rewrite andb_true_r. cbn [andb]. pose proof (encode_chars b) as Hb. unfold line_safe. rewrite forallb_forall in *.
  intros c' Hc'. apply in_map_iff in Hc' as (d & <- & Hd). specialize (Hb d Hd).
  unfold b64_char, is_alnum, is_alpha, is_lower, is_upper, is_digit, in_range, mail_digit in *.
  destruct (d =? 45)%N; [done|]. destruct (d =? 95)%N; [done|]. lia.
Qed.

Lemma line_safe_mailbox s : ∀ run t, line_safe s = true → mailbox_text run s = Ok t → line_safe t = true.
Proof.
  induction s as [|c s IH]; intros run t; cbn [mailbox_text]; [intros _; apply line_safe_shifted|].
  rewrite line_safe_char. intros [Hc Hs]%andb_prop. destruct (127 <? c)%N; [by apply IH|].
  intros (before & Hb & H)%bind_Ok. apply bind_Ok in H as (rest & Hrest & H). apply Ok_inj in H as <-.
  rewrite !line_safe_app, (line_safe_shifted _ _ Hb), (IH _ _ Hs Hrest), andb_true_r. cbn [andb].
  destruct (c =? 38)%N; [done|]. by rewrite line_safe_char, Hc.
Qed.

Lemma line_safe_argument m t : line_safe m = true → _imap_mailbox_argument m = Ok t → line_safe t = true.
Proof.
  unfold _imap_mailbox_argument. intros Hm. destruct (mailbox_text [] m) as [s|] eqn:Hs; [|done].
  intros [= <-]. apply line_safe_quoted. by eapply line_safe_mailbox.
Qed.

Lemma not_any_safe (f : N → bool) s : (∀ c, (c <? 32)%N = true → f c = true) → existsb f s = false → line_safe s = true.
Proof.
  intros Hf Hs. unfold line_safe. apply forallb_forall. intros c Hc. apply N.leb_le. destruct (N.ltb_spec c 32) as [H|H]; [|done].
  assert (existsb f s = true); [|congruence]. apply existsb_exists. exists c. split; [done|]. by apply Hf, N.ltb_lt.
Qed.

Lemma valid_mailbox_safe m : _valid_mailbox m = Ok true → line_safe m = true.
Proof.
  unfold _valid_mailbox. destruct (negb (truthy m)); [done|]. intros (b & _ & H)%bind_Ok. apply Ok_inj in H.
  apply andb_prop in H as [_ H]. apply negb_true_iff in H. eapply not_any_safe; [|exact H].
  intros c Hc. cbn beta. by rewrite Hc.
Qed.

(** Text that UTF-8 can encode can be written in UTF-16. *)
Lemma utf8_utf16 s b : utf8 s = Some b → is_Some (utf16_be s).
Proof.
  revert b. induction s as [|c s IH]; intros b; [done|]. cbn [utf8 utf16_be].
  destruct (utf8_char c) as [x|] eqn:Hc; [|done]. cbn [mbind option_bind]. destruct (utf8 s) as [y|] eqn:Hs; [|done].
  intros _. destruct (IH y eq_refl) as [z ->].
  destruct (in_range 0xD800 0xDFFF c || (0x10FFFF <? c)%N) eqn:E; [|by eexists]. exfalso.
  unfold utf8_char, in_range in *.
  destruct (N.ltb_spec c 0x80); [lia|]. destruct (N.ltb_spec c 0x800); [lia|].
  destruct ((0xD800 <=? c)%N && (c <=? 0xDFFF)%N) eqn:E2; [done|].
  destruct (N.ltb_spec c 0x10000); [lia|]. destruct (N.ltb_spec c 0x110000); [lia|done].
Qed.

Lemma utf16_app a b : is_Some (utf16_be a) → is_Some (utf16_be b) → is_Some (utf16_be (a ++ b)).
Proof.
  induction a as [|c a IH]; [done|]. cbn [app utf16_be]. destruct (_ || _); [intros [? ?]; done|].
  destruct (utf16_be a); [|by intros [? ?]]. intros _ Hb. destruct (IH ltac:(by eexists) Hb) as [z ->]. by eexists.
Qed.

Lemma mailbox_text_total s : ∀ run, is_Some (utf16_be run) → is_Some (utf16_be s) → ∃ t, mailbox_text run s = Ok t.
Proof.
  assert (Hshift : ∀ run, is_Some (utf16_be run) → ∃ t, shifted run = Ok t).
  { intros [|c run] [b Hb]; [by exists []|]. cbn [shifted]. rewrite Hb. by eexists. }
  induction s as [|c s IH]; intros run Hrun Hs; cbn [mailbox_text]; [by apply Hshift|].
  assert (Hc : is_Some (utf16_be [c]) ∧ is_Some (utf16_be s)).
  { cbn [utf16_be] in Hs |- *. destruct (_ || _); [by destruct Hs|]. by destruct (utf16_be s); [|destruct Hs]. }
  destruct Hc as [Hc Hs']. destruct (127 <? c)%N; [apply IH; [by apply utf16_app|done]|].
  destruct (Hshift run Hrun) as [t ->]. destruct (IH [] ltac:(done) Hs') as [t' ->]. by eexists.
Qed.

Lemma valid_mailbox_text m : _valid_mailbox m = Ok true → ∃ t, mailbox_text [] m = Ok t.
Proof.
  unfold _valid_mailbox. destruct (negb (truthy m)); [done|]. intros (b & Hb & _)%bind_Ok.
  apply mailbox_text_total; [done|]. unfold CallID.encode in Hb. destruct (utf8 m) eqn:Hu; [|done]. by eapply utf8_utf16.
Qed.

(** C26: a mailbox name reads back.  For every name the operations accept (text that can be encoded), the
    argument is written, is one quoted string with nothing after it, holds no control character, and
    the name a server decodes from it is the name that was given: ampersands, quotes, backslashes and
    non-ASCII characters included. *)
Theorem mailbox_argument_roundtrip m :
  _valid_mailbox m = Ok true →
  ∃ text argument, _imap_mailbox_argument m = Ok argument ∧ argument = [34%N] ++ escape_quoted text ++ [34%N] ∧
    quoted_string (drop 1 argument) = Ok (text, []) ∧ mailbox_of (S (length text)) text = Some m ∧
    line_safe argument = true.
Proof.
  intros Hm. destruct (valid_mailbox_text m Hm) as [text Ht].
  exists text, ([34%N] ++ escape_quoted text ++ [34%N]).
  assert (Ha : _imap_mailbox_argument m = Ok ([34%N] ++ escape_quoted text ++ [34%N])).
  { unfold _imap_mailbox_argument. by rewrite Ht. }
  split_and!; [done|done| | |].
  - exact (quoted_string_escaped text []).
  - apply (mailbox_reads m [] text Ht). lia.
  - eapply line_safe_argument; [by apply valid_mailbox_safe|exact Ha].
Qed.

(** ** Every command *)

Definition line_safe_arg (a : arg) : bool := match a with AText s | ABytes s => line_safe s end.

(** The texts a command writes into its line.  The secrets of AUTHENTICATE and AUTH travel in base64. *)
Definition confined_call {X} (c : cmd X) : bool :=
  match c with
  | ImapLogin user pass => line_safe user && line_safe pass
  | ImapSelect box _ => line_safe box
  | ImapUid command arguments => line_safe command && forallb line_safe_arg arguments
  | SmtpEhlo name => line_safe name
  | SmtpMail sender options => line_safe sender && forallb line_safe options
  | SmtpRcpt recipient => line_safe recipient
  | SmtpPutCmd command => line_safe command
  | _ => true
  end.

Definition confined (h : history) : Prop :=
  Forall (λ call, match call with mkCall c _ => confined_call c = true end) h.

Abbreviation stays := (preserves any_answer confined).

Lemma confined_preserves {X} (c : cmd X) : confined_call c = true → stays (call_ c).
Proof. intros Hc. apply preserves_call. intros h r _ Hh. by constructor. Qed.

(** Follow a program; calls with fixed arguments are evaluated. *)
Ltac confine :=
  repeat lazymatch goal with
  | |- preserves _ _ (call_ _) => apply confined_preserves
  | |- preserves _ _ (classified _ _ _ _) => apply preserves_catch
  | |- preserves _ _ (reclassified _ _ _ _) => apply preserves_catch
  | |- preserves _ _ (or_invalid _ _) => apply preserves_catch
  | |- preserves _ _ (raised_as _ _) => apply preserves_catch
  | |- preserves _ _ (on_mail_failure _ _) => apply preserves_catch
  | |- preserves _ _ (on_value_error _ _) => apply preserves_catch
  | |- confined_call _ = true => first [reflexivity | progress cbn [confined_call forallb line_safe_arg]]
  | |- _ => preserve_step
  end.

Section Confined.
Context `{EmailLibrary}.

Lemma bare_safe a : is_bare_email_address a = true → line_safe a = true.
Proof.
  unfold is_bare_email_address. destruct (_ || existsb _ a) eqn:E; [done|]. intros _. apply orb_false_elim in E as [_ E].
  eapply not_any_safe; [|exact E]. intros c Hc. cbn beta. by rewrite Hc, orb_true_r.
Qed.

Lemma control_free_safe s : _has_control s = false → line_safe s = true.
Proof. apply not_any_safe. intros c Hc. by rewrite Hc. Qed.

Lemma resolved_safe op :
  ensures any_answer confined (λ c, line_safe (username c) = true ∧ line_safe (password c) = true) (resolve_credentials op).
Proof.
  unfold resolve_credentials. apply ensures_catch; [|intros e; apply ensures_fail].
  apply (ensures_bind _ _ (λ _, True)).
  - apply ensures_call. intros h r _ Hh. split; [by constructor|by destruct r].
  - intros c _. destruct (_ || existsb _ _) eqn:E.
    + by apply ensures_lift.
    + apply ensures_ret. intros a Ha. apply Ok_inj in Ha as <-. apply orb_false_elim in E as [_ E]. cbn [existsb] in E.
      bool_inv. split; by apply control_free_safe.
Qed.

Lemma open_imap_confined cl c op : line_safe (username c) = true → line_safe (password c) = true →
  stays (open_imap cl c op).
Proof. intros Hu Hp. unfold open_imap. cbv zeta. confine. by rewrite Hu, Hp. Qed.

Lemma open_smtp_confined cl c op : stays (open_smtp cl c op).
Proof. unfold open_smtp, ehlo. cbv zeta. confine. Qed.

Lemma select_confined box ro v op : line_safe box = true → stays (_imap_select box ro v op).
Proof. intros Hb. unfold _imap_select. confine. by eapply line_safe_argument. Qed.

Lemma uid_text_safe n : line_safe_arg (uid_text n) = true.
Proof. apply line_safe_int. Qed.

Lemma fetch_confined uid op : stays (_fetch uid op).
Proof. unfold _fetch. confine. by rewrite uid_text_safe. Qed.

Lemma close_confined : stays _imap_close.
Proof. unfold _imap_close. confine. Qed.

Lemma section_safe p : line_safe (section_text p) = true.
Proof.
  apply line_safe_join; [done|]. induction (path p) as [|n l IH]; [done|]. cbn [map forallb]. by rewrite line_safe_number.
Qed.

Lemma parse_confined reference metadata headers text session op :
  stays (_parse_message reference metadata headers text session op).
Proof.
  unfold _parse_message, _fetch_text. cbv zeta. confine. rewrite uid_text_safe, !line_safe_app, line_safe_number.
  unfold nonempty_or. destruct (truthy _); rewrite ?section_safe; done.
Qed.

Lemma uid_confined command op arguments : line_safe command = true → forallb line_safe arguments = true →
  stays (_uid_command command op arguments).
Proof.
  intros Hc Ha. unfold _uid_command. confine. rewrite Hc. cbn [andb]. induction arguments as [|a l IH]; [done|].
  cbn [forallb map] in *. apply andb_prop in Ha as [Ha Hl]. cbn [line_safe_arg]. rewrite Ha. by apply IH.
Qed.

Lemma with_session {A} cl credentials op (body : list pystr → prog A) :
  line_safe (username credentials) = true → line_safe (password credentials) = true →
  (∀ capabilities, stays (body capabilities)) → stays (open_imap cl credentials op ≫= body).
Proof. intros. apply preserves_bind; [by apply open_imap_confined|done]. Qed.

Lemma valid_reference_safe r : _valid_reference r = Ok true → line_safe (mailbox r) = true.
Proof.
  unfold _valid_reference. intros (ok & Hok & H1)%bind_Ok. apply Ok_inj in H1. bool_inv. subst ok. by apply valid_mailbox_safe.
Qed.

Lemma read_confined cl c reference op text : line_safe (username c) = true → line_safe (password c) = true →
  line_safe (mailbox reference) = true → stays (_read_message cl c reference op text).
Proof.
  intros Hu Hp Hm. apply with_session; [done..|]. intros capabilities.
  apply preserves_finally; [|apply close_confined]. apply preserves_bind; [by apply select_confined|]. intros v.
  apply preserves_bind; [apply fetch_confined|]. intros [[metadata headers]|]; [|apply preserves_fail].
  unfold or_invalid. apply preserves_catch; [apply parse_confined|]. intros e. by destruct e; apply preserves_fail.
Qed.

(** *** Searching *)

Lemma month_name_safe m : line_safe (month_name m) = true.
Proof.
  unfold month_name. generalize (Z.to_nat (m - 1)). intros n.
  do 12 (destruct n as [|n]; [vm_compute; reflexivity|]). by destruct n.
Qed.

Lemma two_digits_safe z : (0 <= z <= 99)%Z → line_safe (two_digits z) = true.
Proof.
  intros Hz. pose proof (Z.div_pos z 10 ltac:(lia) ltac:(lia)). pose proof (Z.mod_pos_bound z 10 ltac:(lia)).
  unfold two_digits. rewrite !line_safe_char. apply andb_true_intro. split; [|rewrite andb_true_r]; apply N.leb_le; lia.
Qed.

Lemma search_date_safe text d : SearchMessages.search_date text = Ok d → line_safe d = true.
Proof.
  unfold SearchMessages.search_date. intros ([[y m] day] & Hd & H1)%bind_Ok. apply Ok_inj in H1 as <-.
  rewrite !line_safe_app, month_name_safe, line_safe_int, two_digits_safe; [done|].
  assert (Hv : GoTime.date_valid y m day = true).
  { unfold strptime_date in Hd. repeat case_match; try done. by injection Hd as <- <- <-. }
  unfold GoTime.date_valid in Hv. bool_inv.
  assert (GoTime.days_in_month y m <= 31)%Z; [|lia]. unfold GoTime.days_in_month. repeat case_match; lia.
Qed.

Lemma date_criterion_safe key text l : line_safe (lit key) = true →
  SearchMessages.date_criterion key text = Ok l → forallb line_safe l = true.
Proof.
  intros Hk. unfold SearchMessages.date_criterion. destruct (truthy text); [|by intros [= <-]].
  intros (d & Hd & H1)%bind_Ok. apply Ok_inj in H1 as <-. cbn [forallb]. by rewrite Hk, (search_date_safe _ _ Hd).
Qed.

Lemma header_criterion_safe name value : line_safe (lit name) = true → line_safe value = true →
  forallb line_safe (SearchMessages.header_criterion name value) = true.
Proof.
  intros Hn Hv. unfold SearchMessages.header_criterion. destruct (truthy value); [|done]. cbn [forallb].
  by rewrite Hn, line_safe_quoted.
Qed.

Definition filters (input : SearchMessages.Input) : list pystr :=
  [SearchMessages.i_from input; SearchMessages.i_to input; SearchMessages.subject_contains input].

Lemma refused_safe values : SearchMessages.any_refused values = Ok false → forallb line_safe values = true.
Proof.
  induction values as [|v values IH]; [done|]. cbn [SearchMessages.any_refused forallb].
  intros (r & Hr & H1)%bind_Ok. destruct r; [done|]. rewrite (IH H1), andb_true_r.
  unfold SearchMessages.text_refused in Hr. destruct (negb (truthy v)) eqn:Hv; [by destruct v|].
  destruct (negb (bool_decide (py_strip v = v))); [done|]. apply bind_Ok in Hr as (b & _ & Hr). apply Ok_inj in Hr.
  apply orb_false_elim in Hr as [_ Hr]. eapply not_any_safe; [|exact Hr]. intros c Hc. cbn beta. by rewrite Hc.
Qed.

Lemma criteria_safe input l : forallb line_safe (filters input) = true →
  SearchMessages.criteria input = Ok l → forallb line_safe l = true.
Proof.
  unfold filters. cbn [forallb]. intros Hf. bool_inv. unfold SearchMessages.criteria.
  intros (since & Hs & Hl)%bind_Ok. apply bind_Ok in Hl as (before & Hb & Hl). apply Ok_inj in Hl as <-.
  rewrite !forallb_app, !header_criterion_safe by done.
  rewrite (date_criterion_safe "SINCE" _ _ eq_refl Hs), (date_criterion_safe "BEFORE" _ _ eq_refl Hb). cbn [andb].
  apply andb_true_intro. split; [by destruct (SearchMessages.is_unseen input)|]. destruct (_ =? 0)%Z; [done|].
  cbn [forallb]. rewrite line_safe_app. by rewrite line_safe_int.
Qed.

Lemma encode_safe s b : CallID.encode s = Ok b → line_safe s = true → line_safe b = true.
Proof.
  unfold CallID.encode. destruct (utf8 s) as [b'|] eqn:Hu; [|done]. intros [= ->]. revert b Hu.
  induction s as [|c s IH]; intros b; [by intros [= <-]|]. cbn [utf8]. rewrite line_safe_char.
  destruct (utf8_char c) as [x|] eqn:Hc; [|done]. destruct (utf8 s) as [y|]; [|done]. intros [= <-] [Hc' Hs]%andb_prop.
  rewrite line_safe_app, (IH y eq_refl Hs), andb_true_r. unfold utf8_char in Hc.
  destruct (c <? 0x80)%N; [injection Hc as <-; cbn [line_safe forallb]; by rewrite Hc'|].
  assert (Hbig : ∀ k n, (32 <= k)%N → (32 <=? k + n)%N = true) by lia.
  destruct (c <? 0x800)%N; [|destruct (in_range _ _ _); [done|]; destruct (c <? 0x10000)%N; [|destruct (c <? 0x110000)%N; [|done]]];
    injection Hc as <-; cbn [line_safe forallb]; by rewrite !Hbig by lia.
Qed.

Lemma arguments_safe l arguments : forallb line_safe l = true →
  SearchMessages.search_arguments l = Ok arguments → forallb line_safe_arg arguments = true.
Proof.
  intros Hl. unfold SearchMessages.search_arguments. destruct (existsb _ l).
  - intros (encoded & He & Ha)%bind_Ok. apply Ok_inj in Ha as <-. cbn [app forallb]. change (line_safe_arg (AText "CHARSET")) with true.
    change (line_safe_arg (AText "UTF-8")) with true. cbn [andb]. apply mapR_Ok in He. revert Hl.
    induction He as [|x y l l' Hxy _ IH]; [done|]. cbn [forallb map]. intros [Hx Hl]%andb_prop.
    cbn [line_safe_arg]. by rewrite (encode_safe _ _ Hxy Hx), IH.
  - intros [= <-]. assert (Hall : ∀ l, forallb line_safe l = true → forallb line_safe_arg (map AText l) = true).
    { clear. induction l as [|x l IH]; [done|]. cbn [forallb map]. intros [Hx Hl]%andb_prop. cbn [line_safe_arg].
      by rewrite Hx, IH. }
    apply Hall. by destruct l.
Qed.

Lemma summaries_confined box validity uids : stays (SearchMessages.summaries box validity uids).
Proof.
  induction uids as [|uid uids IH]; cbn [SearchMessages.summaries]; [apply preserves_ret|].
  apply preserves_bind; [apply fetch_confined|]. intros [[metadata headers]|]; [|done].
  apply preserves_bind; [unfold or_invalid; apply preserves_catch; [apply parse_confined|intros e; by destruct e; apply preserves_fail]|].
  intros message. apply preserves_bind; [done|]. intros rest. apply preserves_ret.
Qed.

Lemma search_confined cl c input box limit : line_safe (username c) = true → line_safe (password c) = true →
  line_safe box = true → forallb line_safe (filters input) = true →
  stays (SearchMessages._search cl c input box limit).
Proof.
  intros Hu Hp Hb Hf. apply with_session; [done..|]. intros capabilities.
  apply preserves_finally; [|apply close_confined]. apply preserves_bind; [by apply select_confined|]. intros v.
  destruct (_ && _); [apply preserves_lift|]. apply preserves_lift_bind. intros criteria Hc.
  apply preserves_bind.
  - confine. eapply arguments_safe; [|eassumption]. by eapply criteria_safe.
  - intros uids. apply preserves_bind; [apply summaries_confined|]. intros messages. apply preserves_lift.
Qed.

(** *** Changing messages *)

Lemma flags_confined reference op : stays (SetFlags._read_flags reference op).
Proof.
  unfold SetFlags._read_flags. apply preserves_bind.
  - apply uid_confined; [done|]. cbn [forallb]. by rewrite line_safe_int.
  - intros data. destruct (SetFlags.flags_in data); [apply preserves_ret|apply preserves_fail].
Qed.

Definition flag_names : list pystr := [lit "\Seen"; lit "\Flagged"; lit "\Answered"].

Lemma store_confined reference mode flags op : line_safe (lit mode) = true → flags ⊆ flag_names →
  stays (SetFlags.store_flags reference mode flags op).
Proof.
  intros Hm Hf. unfold SetFlags.store_flags. destruct flags as [|flag flags]; [apply preserves_ret|].
  apply preserves_bind; [|intros data; apply preserves_ret]. apply uid_confined; [done|]. cbn [forallb].
  rewrite line_safe_int, Hm, !line_safe_app, line_safe_join; [done|done|].
  apply forallb_forall. intros x Hx%list_elem_of_In%Hf. unfold flag_names in Hx. rewrite !elem_of_cons in Hx.
  destruct Hx as [->|[->|[->|Hx]]]; [reflexivity..|]. by apply elem_of_nil in Hx.
Qed.

Lemma changed_names (f : option bool * bool * pystr → bool) input current :
  omap (λ c, if f c then Some (snd c) else None) (SetFlags.changes input current) ⊆ flag_names.
Proof.
  intros x Hx. apply list_elem_of_omap in Hx as (c & Hc & Hx). destruct (f c); [|done]. injection Hx as <-.
  unfold SetFlags.changes in Hc. rewrite !elem_of_cons in Hc. unfold flag_names.
  destruct Hc as [->|[->|[->|Hc]]]; [set_solver..|]. by apply elem_of_nil in Hc.
Qed.

Lemma to_add_names input current : SetFlags.to_add (SetFlags.changes input current) ⊆ flag_names.
Proof.
  exact (changed_names (λ c, let '(requested, present, _) := c in bool_decide (requested = Some true) && negb present) input current).
Qed.

Lemma to_remove_names input current : SetFlags.to_remove (SetFlags.changes input current) ⊆ flag_names.
Proof.
  exact (changed_names (λ c, let '(requested, present, _) := c in bool_decide (requested = Some false) && present) input current).
Qed.

Lemma update_confined cl c input : line_safe (username c) = true → line_safe (password c) = true →
  line_safe (mailbox (SetFlags.message input)) = true → stays (SetFlags._update cl c input).
Proof.
  intros Hu Hp Hm. apply with_session; [done..|]. intros capabilities. cbv zeta.
  apply preserves_finally; [|apply close_confined]. apply preserves_bind; [by apply select_confined|]. intros v.
  apply preserves_bind; [apply flags_confined|]. intros current.
  pose proof (to_add_names input current) as Ha. pose proof (to_remove_names input current) as Hr.
  assert (Hrest : stays (SetFlags.store_flags (SetFlags.message input) "+FLAGS.SILENT"
      (SetFlags.to_add (SetFlags.changes input current)) "setFlags" ≫= λ _,
    SetFlags.store_flags (SetFlags.message input) "-FLAGS.SILENT"
      (SetFlags.to_remove (SetFlags.changes input current)) "setFlags" ≫= λ _,
    updated ← SetFlags._read_flags (SetFlags.message input) "setFlags";
    if SetFlags.not_kept (SetFlags.changes input updated) then
      lift (MutationAttempt (branch_result "providerRejected" updated (receipt_for [])
        (Some (mail_failure PROVIDER_REJECTION "setFlags"
          "the IMAP server accepted STORE but did not keep the requested flags"))))
    else lift (MutationAttempt (branch_result "updated" updated (receipt_for []) None)))).
  { apply preserves_bind; [by apply store_confined|]. intros _. apply preserves_bind; [by apply store_confined|]. intros _.
    apply preserves_bind; [apply flags_confined|]. intros updated. destruct (SetFlags.not_kept _); apply preserves_lift. }
  destruct (SetFlags.to_add _), (SetFlags.to_remove _); try exact Hrest. apply preserves_lift.
Qed.

Lemma find_confined input validity uids : stays (MoveMessage.find_moved input validity uids).
Proof.
  induction uids as [|uid uids IH]; cbn [MoveMessage.find_moved]; [apply preserves_ret|].
  apply preserves_bind; [apply fetch_confined|]. intros [[metadata headers]|]; [|done].
  apply preserves_lift_bind. intros i _. destruct (bool_decide _); [apply preserves_ret|done].
Qed.

Lemma message_id_safe i : MoveMessage.bad_message_id i = false → line_safe i = true.
Proof.
  unfold MoveMessage.bad_message_id. destruct (truthy i) eqn:Ht; [|by destruct i]. intros H1.
  apply orb_false_elim in H1 as [_ H1]. eapply not_any_safe; [|exact H1]. intros c Hc. cbn beta.
  apply N.ltb_lt in Hc. assert ((c <=? 32)%N = true) as -> by (apply N.leb_le; lia). done.
Qed.

Lemma move_confined cl c input : line_safe (username c) = true → line_safe (password c) = true →
  line_safe (mailbox (MoveMessage.message input)) = true → line_safe (MoveMessage.destination_mailbox input) = true →
  line_safe (MoveMessage.message_id input) = true → stays (MoveMessage._move cl c input).
Proof.
  intros Hu Hp Hm Hd Hi. apply with_session; [done..|]. intros capabilities. cbv zeta.
  apply preserves_finally; [|apply close_confined]. destruct (_ && _); [apply preserves_lift|].
  apply preserves_bind; [by apply select_confined|]. intros v. apply preserves_bind; [apply fetch_confined|].
  intros [[metadata headers]|].
  - apply preserves_lift_bind. intros source_id _. destruct (_ && _); [apply preserves_lift|].
    apply preserves_bind; [|intros data; apply preserves_lift_bind; intros d _; apply preserves_lift].
    unfold MoveMessage.transfer. cbv zeta. apply preserves_bind; [by apply confined_preserves|]. intros _.
    apply preserves_lift_bind. intros argument Ha. pose proof (line_safe_argument _ _ Hd Ha) as Hsafe.
    apply preserves_bind; [apply uid_confined; [by destruct (bool_decide _)|cbn [forallb]; by rewrite line_safe_int, Hsafe]|].
    intros _. apply preserves_bind; [by apply confined_preserves|]. intros data.
    apply preserves_bind; [|intros _; apply preserves_ret]. destruct (bool_decide _); [apply preserves_ret|].
    apply preserves_bind; [|intros _]; apply uid_confined; try done; cbn [forallb]; by rewrite line_safe_int.
  - unfold MoveMessage.already_moved. destruct (negb _); [apply preserves_lift|].
    apply preserves_bind; [by apply select_confined|]. intros validity. apply preserves_bind.
    { apply uid_confined; [done|]. cbn [forallb]. unfold angle. rewrite !line_safe_app. by rewrite Hi. }
    intros found. apply preserves_lift_bind. intros uids _. apply preserves_bind; [apply find_confined|].
    intros [reference|]; apply preserves_lift.
Qed.

(** *** Submitting *)

Lemma recipients_confined l : forallb line_safe l = true → stays (smtp_recipients l).
Proof.
  induction l as [|a l IH]; cbn [smtp_recipients forallb]; [intros _; apply preserves_ret|]. intros [Ha Hl]%andb_prop.
  apply preserves_bind; [by apply confined_preserves|]. intros code. destruct (negb _); [apply preserves_fail|by apply IH].
Qed.

Lemma submit_confined cl c sender l content op : line_safe sender = true → forallb line_safe l = true →
  stays (_smtp_submit cl c sender l content op).
Proof.
  intros Hs Hl. unfold _smtp_submit. apply preserves_bind; [apply open_smtp_confined|]. intros features.
  apply preserves_finally; [|confine]. apply preserves_lift_bind. intros size _. destruct (match size with Some _ => _ | None => _ end);
    [apply preserves_fail|].
  unfold smtp_transaction. apply preserves_catch; [|intros e; by destruct e; apply preserves_fail].
  apply preserves_bind.
  - apply confined_preserves. cbn [confined_call]. rewrite Hs. destruct (dhas _ _); [|done]. cbn [forallb].
    rewrite line_safe_app. by rewrite line_safe_number.
  - intros code. destruct (negb _); [apply preserves_fail|]. apply preserves_bind; [by apply recipients_confined|]. intros _.
    confine.
Qed.

Lemma unique_from_subset found l a : a ∈ unique_from found l → a ∈ l.
Proof.
  revert found. induction l as [|x l IH]; intros found; cbn [unique_from]; [done|].
  destruct (bool_decide _); [intros Ha; right; by eapply IH|]. intros [->|Ha]%elem_of_cons; [by left|right; by eapply IH].
Qed.

Lemma unique_safe groups : (∀ a, a ∈ concat groups → line_safe a = true) → forallb line_safe (_unique_recipients groups) = true.
Proof.
  intros Hall. apply forallb_forall. intros a Ha%list_elem_of_In. by apply Hall, (unique_from_subset []).
Qed.

Lemma attempt_confined cl context call_id c sender l content sent op : line_safe sender = true →
  forallb line_safe l = true → stays (_submit_attempt cl context call_id c sender l content sent op).
Proof.
  intros Hs Hl. unfold _submit_attempt. apply preserves_bind.
  { unfold _claim_submission. destruct (negb context); [apply preserves_lift|]. confine. }
  intros [attempt|]; [apply preserves_ret|]. unfold on_mail_failure. apply preserves_catch.
  - apply preserves_bind; [by apply submit_confined|]. intros _. apply preserves_lift.
  - intros [f| | | | | | | | |]; [|apply preserves_fail..]. unfold _release_submission.
    destruct (bool_decide _); [apply preserves_lift|].
    apply preserves_bind; [destruct context; confine|]. intros _. destruct (bool_decide _); apply preserves_lift.
Qed.

(** *** The operations *)

Lemma sender_safe cl c op a : sender cl c op = Ok a → line_safe a = true.
Proof.
  unfold sender. destruct (is_bare_email_address _) eqn:E; [|done]. intros Ha. apply Ok_inj in Ha as <-. by apply bare_safe.
Qed.

Lemma bare_list_safe l a : forallb is_bare_email_address l = true → a ∈ l → line_safe a = true.
Proof. intros Hl Ha%list_elem_of_In. apply bare_safe. rewrite forallb_forall in Hl. by apply Hl. Qed.

(** The handlers of [invoke] make no call. *)
Lemma handled {A} (p : prog A) (answer : MailFailure → res A) :
  stays p → stays (on_mail_failure p (λ f, lift (answer f))).
Proof. intros Hp. apply preserves_catch; [done|]. intros [f| | | | | | | | |]; [apply preserves_lift|apply preserves_fail..]. Qed.

Lemma value_handled {A} (p : prog A) (answer : pystr → res A) :
  stays p → stays (on_value_error p (λ m, lift (answer m))).
Proof.
  intros Hp. apply preserves_catch; [done|]. intros [f| | | | | | | | |x]; [apply preserves_fail..|].
  destruct (isinst x ValueError); [apply preserves_lift|apply preserves_fail].
Qed.

Lemma render_confined sender name to cc reply_to subject text i in_reply_to references :
  stays (_render_message sender name to cc reply_to subject text i in_reply_to references).
Proof. unfold _render_message. cbv zeta. confine. Qed.

Lemma claimed_confined context : stays (_has_submission_claim context).
Proof. unfold _has_submission_claim. confine. Qed.

Lemma search_invoke_confined cl input : stays (SearchMessages.invoke cl input).
Proof.
  unfold SearchMessages.invoke. cbv zeta. apply preserves_lift_bind. intros valid Hv. destruct valid; [|apply preserves_lift].
  cbn [negb orb]. destruct (_ || _); [apply preserves_lift|]. apply preserves_lift_bind. intros refused Hr.
  destruct refused; [apply preserves_lift|]. destruct (SearchMessages.check_page input) as [u|x]; [|destruct (isinst x ValueError); apply preserves_lift].
  apply handled. eapply preserves_bind_ensures; [apply resolved_safe|]. intros c [Hu Hp].
  apply search_confined; [done..|by apply valid_mailbox_safe|by apply refused_safe].
Qed.

Lemma get_invoke_confined cl input : stays (get_message cl input).
Proof.
  unfold get_message. cbv zeta. apply preserves_lift_bind. intros valid Hv. destruct valid; [|apply preserves_lift].
  apply handled. eapply preserves_bind_ensures; [apply resolved_safe|]. intros c [Hu Hp].
  apply preserves_bind; [apply read_confined; [done..|by apply valid_reference_safe]|]. intros message. apply preserves_lift.
Qed.

Lemma flags_invoke_confined cl input : stays (SetFlags.invoke cl input).
Proof.
  unfold SetFlags.invoke. cbv zeta. apply preserves_lift_bind. intros valid Hv. destruct (_ || _) eqn:E; [apply preserves_lift|].
  apply orb_false_elim in E as [E _]. apply negb_false_iff in E as ->. apply handled.
  eapply preserves_bind_ensures; [apply resolved_safe|]. intros c [Hu Hp].
  apply update_confined; [done..|by apply valid_reference_safe].
Qed.

Lemma move_invoke_confined cl input : stays (MoveMessage.invoke cl input).
Proof.
  unfold MoveMessage.invoke. cbv zeta. apply preserves_lift_bind. intros refused Hr. destruct refused; [apply preserves_lift|].
  unfold MoveMessage.refused in Hr. apply bind_Ok in Hr as (reference & Href & Hr). destruct reference; [|done]. cbn [negb] in Hr.
  apply bind_Ok in Hr as (box & Hbox & Hr). apply Ok_inj in Hr. bool_inv. subst box. apply handled.
  eapply preserves_bind_ensures; [apply resolved_safe|]. intros c [Hu Hp].
  apply move_confined; [done..|by apply valid_reference_safe|by apply valid_mailbox_safe|by apply message_id_safe].
Qed.

Lemma send_invoke_confined cl context call input : stays (SendMessage.invoke cl context call input).
Proof.
  unfold SendMessage.invoke. cbv zeta. apply preserves_lift_bind. intros refused Hr. destruct refused; [apply preserves_lift|].
  apply value_handled, handled. eapply preserves_bind_ensures; [apply resolved_safe|]. intros c [Hu Hp].
  apply preserves_ret_bind. intros a Ha%sender_safe. apply preserves_lift_bind. intros i _.
  apply preserves_bind; [apply render_confined|]. intros [content now]. apply preserves_bind; [apply claimed_confined|].
  intros claimed. destruct claimed; [apply preserves_lift|]. apply attempt_confined; [done|]. apply unique_safe.
  unfold SendMessage.refused in Hr. destruct (_ || (truthy _ && _)) eqn:E; [done|]. apply orb_false_elim in E as [E _].
  apply orb_false_elim in E as [_ E]. apply negb_false_iff in E. cbn [forallb] in E. unfold _validate_recipients in E. bool_inv.
  cbn [concat app]. rewrite app_nil_r. intros x [Hx|[Hx|Hx]%elem_of_app]%elem_of_app; (eapply bare_list_safe; [|eassumption]; done).
Qed.

Lemma usable_safe l a : a ∈ ReplyToMessage.usable l → line_safe a = true.
Proof. unfold ReplyToMessage.usable. intros [_ Ha]%list_elem_of_In%List.filter_In. by apply bare_safe. Qed.

Lemma targets_safe sender source a : a ∈ ReplyToMessage.reply_targets sender source → line_safe a = true.
Proof.
  unfold ReplyToMessage.reply_targets. intros Ha%unique_from_subset. cbn [concat] in Ha. rewrite app_nil_r in Ha.
  apply list_elem_of_In, List.filter_In in Ha as [Ha _]. apply list_elem_of_In in Ha. exact (usable_safe _ _ Ha).
Qed.

Lemma copies_safe sender source input to a : forallb is_bare_email_address (ReplyToMessage.cc input) = true →
  a ∈ ReplyToMessage.copy_targets sender source input to → line_safe a = true.
Proof.
  unfold ReplyToMessage.copy_targets. intros Hcc [Ha _]%list_elem_of_In%List.filter_In.
  apply list_elem_of_In, unique_from_subset in Ha. cbn [concat] in Ha. rewrite app_nil_r in Ha.
  apply elem_of_app in Ha as [Ha|Ha]; [|(eapply bare_list_safe; [|eassumption]; done)].
  destruct (ReplyToMessage.is_reply_all input); [exact (usable_safe _ _ Ha)|by apply elem_of_nil in Ha].
Qed.

Lemma reply_invoke_confined cl context call input : stays (ReplyToMessage.invoke cl context call input).
Proof.
  unfold ReplyToMessage.invoke. cbv zeta. apply preserves_lift_bind. intros refused Hr. destruct refused; [apply preserves_lift|].
  unfold ReplyToMessage.refused in Hr. apply bind_Ok in Hr as (reference & Href & Hr). destruct reference; [|done]. cbn [negb] in Hr.
  apply bind_Ok in Hr as (valid & _ & Hr). apply Ok_inj in Hr. apply orb_false_elim in Hr as [_ Hcc].
  apply negb_false_iff in Hcc. unfold _validate_recipients in Hcc. apply andb_prop in Hcc as [_ Hcc].
  apply value_handled, handled. eapply preserves_bind_ensures; [apply resolved_safe|]. intros c [Hu Hp].
  apply preserves_ret_bind. intros a Ha%sender_safe. apply preserves_lift_bind. intros i _.
  apply preserves_bind; [apply claimed_confined|]. intros claimed. destruct claimed; [apply preserves_lift|].
  apply preserves_bind; [apply read_confined; [done..|by apply valid_reference_safe]|]. intros source.
  destruct (_ =? 0)%nat; [apply preserves_lift|]. destruct (_ <? _)%nat; [apply preserves_lift|].
  apply preserves_lift_bind. intros b _. apply preserves_bind; [apply render_confined|]. intros [content now].
  apply attempt_confined; [done|]. apply unique_safe. cbn [concat]. rewrite app_nil_r.
  intros x [Hx|Hx]%elem_of_app; [by eapply targets_safe|by eapply copies_safe].
Qed.

End Confined.

(** C16: nothing a caller or a message says can end a command and start another.  Whatever the input, the
    stored credentials and the servers' answers, no command of any of the six operations carries a
    control character in its line: not in a login, a mailbox name, a search text or date, a Message-ID
    to look for, a flag, an envelope address or an option. *)
Theorem commands_confined `{EmailLibrary} cl {A} (p : prog A) h o :
  operation cl p → runs any_answer p [] h o → confined h.
Proof.
  intros Hp Hr. apply (preserves_runs any_answer confined p [] h o); [|constructor|exact Hr].
  destruct Hp; [apply search_invoke_confined|apply get_invoke_confined|apply send_invoke_confined
    |apply reply_invoke_confined|apply flags_invoke_confined|apply move_invoke_confined].
Qed.

Import SessionFacts.
#[local] Existing Instance Sample.library.

Lemma mailbox_argument_roundtrip_witness :
  _valid_mailbox [65; 38; 34; 233; 0x1F4E7]%N = Ok true ∧
  ∃ text argument, _imap_mailbox_argument [65; 38; 34; 233; 0x1F4E7]%N = Ok argument ∧
    argument = [34%N] ++ escape_quoted text ++ [34%N] ∧
    quoted_string (drop 1 argument) = Ok (text, []) ∧
    mailbox_of (S (length text)) text = Some [65; 38; 34; 233; 0x1F4E7]%N ∧ line_safe argument = true.
Proof. split; [reflexivity|]. apply (mailbox_argument_roundtrip [65; 38; 34; 233; 0x1F4E7]%N). reflexivity. Defined.

Lemma commands_confined_witness : confined (snd Sample.sent) ∧ length (snd Sample.sent) = 22%nat.
Proof.
  split; [|vm_compute; reflexivity].
  refine (commands_confined Sample.client (SendMessage.invoke Sample.client true Sample.call Sample.message)
    (snd Sample.sent) (Some (fst Sample.sent)) (op_send _ _ _ _) _).
  apply exec_runs. apply Sample.served_answers.
Defined.

End ArgumentFacts.
