(* ===== verification/EmailReading.v ===== *)
(** * Reading the structure of messages, and mailboxes page by page

    The BODYSTRUCTURE parser ends on every input, reads back what a server writes, and lists parts that
    are told apart by their section paths; following the pages of a search lists each message once. *)

From Stdlib Require Import ZifyBool.
From stdpp Require Import sorting.
From S2P Require Import Prelude Errors Timestamps Identity Results ProjectModels MailProgram EmailClient EmailBody EmailMessages EmailOperations EmailSessions EmailArguments.

Module StructureFacts.
Import ArgumentFacts.

(** The value satisfies [P], or an exception is raised that is not the model's [RuntimeError] for fuel
    that has run out. *)
Definition ends {A} (P : A → Prop) (r : res A) : Prop :=
  match r with Ok a => P a | Err x => exn_cls x ≠ RuntimeError end.

#[local] Hint Extern 0 (ends (λ _, True) _) => exact I : core.

Lemma ends_bind {A B} (P : A → Prop) (Q : B → Prop) (r : res A) (f : A → res B) :
  ends P r → (∀ a, P a → ends Q (f a)) → ends Q (r ≫= f).
Proof. destruct r as [a|x]; [|done]. intros Ha Hf. by apply Hf. Qed.

Lemma ends_raise {A} (P : A → Prop) c m : c ≠ RuntimeError → ends P (raise c m).
Proof. done. Qed.

Lemma ends_check {B} (Q : B → Prop) (b : bool) m (f : unit → res B) :
  ends Q (f ()) → ends Q (raise_if b ValueError m ≫= f).
Proof. by destruct b. Qed.

Lemma ends_weaken {A} (P Q : A → Prop) r : (∀ a, P a → Q a) → ends P r → ends Q r.
Proof. destruct r; [|done]. intros HPQ. apply HPQ. Qed.

Lemma node_nested_ind (P : node → Prop) :
  (∀ l, Forall P l → P (NList l)) → (∀ s, P (NText s)) → (∀ n, P (NInt n)) → P NNil → ∀ n, P n.
Proof.
  intros Hl Ht Hi Hn. fix IH 1. intros [l|s|n|]; [|apply Ht|apply Hi|apply Hn]. apply Hl.
  induction l as [|n l IHl]; [constructor|]. constructor; [apply IH|exact IHl].
Qed.

(** ** Termination *)

Lemma skip_spaces_le s : (length (skip_spaces s) <= length s)%nat.
Proof. unfold skip_spaces. induction s as [|c s IH]; [done|]. cbn [drop_while]. destruct (imap_space c); cbn [length]; lia. Qed.

Lemma skip_skipped s : skip_spaces (skip_spaces s) = skip_spaces s.
Proof.
  unfold skip_spaces. induction s as [|c s IH]; [done|]. cbn [drop_while]. destruct (imap_space c) eqn:E; [done|].
  cbn [drop_while]. by rewrite E.
Qed.

Lemma skipped_front s c s' : skip_spaces s = c :: s' → imap_space c = false.
Proof.
  unfold skip_spaces. induction s as [|d s IH]; [done|]. cbn [drop_while]. destruct (imap_space d) eqn:E; [done|]. by intros [= <- _].
Qed.

Lemma quoted_string_other c s : c ≠ 34%N → c ≠ 92%N →
  quoted_string (c :: s) = '(value, rest) ← quoted_string s; Ok (c :: value, rest).
Proof. intros H34 H92. destruct c as [|p]; [done|]. do 7 (try destruct p as [p|p|]; try done). Qed.

Lemma quoted_string_total n s : (length s <= n)%nat →
  ends (λ '(_, rest), (length rest <= length s)%nat) (quoted_string s).
Proof.
  revert s. induction n as [|n IH]; intros s Hn; [by destruct s; [|cbn in Hn; lia]|].
  destruct s as [|c s]; [done|]. cbn [length] in Hn.
  destruct (decide (c = 34%N)) as [->|H34]; [cbn; lia|]. destruct (decide (c = 92%N)) as [->|H92].
  - destruct s as [|c s]; [done|]. cbn [quoted_string]. eapply ends_bind; [apply IH; cbn in Hn; lia|].
    intros [value rest] Hr. cbn in *. lia.
  - rewrite quoted_string_other by done. eapply ends_bind; [apply IH; lia|]. intros [value rest] Hr. cbn in *. lia.
Qed.

Lemma atom_span_le s : (length (fst (atom_span s)) + length (snd (atom_span s)) = length s)%nat.
Proof.
  induction s as [|c s IH]; [done|]. cbn [atom_span]. destruct (atom_end c); [done|].
  destruct (atom_span s). cbn in *. lia.
Qed.

Definition shorter {A} (s : list N) : A * list N → Prop := λ '(_, rest), (length rest < length s)%nat.

Lemma atom_total s : ends (shorter s) (atom s).
Proof.
  unfold atom. pose proof (atom_span_le s) as Hl. destruct (atom_span s) as [token rest]. cbn in Hl.
  destruct token as [|c token]; [done|]. cbn [length truthy negb raise_if] in *.
  apply ends_check.
  destruct (bool_decide _); [cbn; lia|]. destruct (is_digits _); [|cbn; lia].
  unfold int_of_digits. destruct (raise_if _ _ _) as [u|x] eqn:E; [cbn; lia|]. cbn. unfold raise_if in E. destruct (_ <? _)%N; [by injection E as <-|done].
Qed.

Section Parser.
Context `{EmailLibrary}.

Lemma value_atom fuel depth c s : (depth <= 64)%nat → imap_space c = false → c ≠ 40%N → c ≠ 34%N →
  _value (S fuel) depth (c :: s) = atom (c :: s).
Proof.
  intros Hd Hs H40 H34. cbn [_value]. rewrite (proj2 (Nat.ltb_ge 64 depth)) by done. unfold skip_spaces. cbn [drop_while]. rewrite Hs.
  destruct c as [|p]; [done|]. do 6 (try destruct p as [p|p|]; try done).
Qed.

Lemma value_list fuel depth s : (depth <= 64)%nat →
  _value (S fuel) depth (40%N :: s) = '(values, rest) ← _values fuel depth s; Ok (NList values, rest).
Proof. intros Hd. cbn [_value]. by rewrite (proj2 (Nat.ltb_ge 64 depth)). Qed.

Lemma value_quoted fuel depth s : (depth <= 64)%nat →
  _value (S fuel) depth (34%N :: s) =
  '(value, rest) ← quoted_string s; text ← decode "utf-8" value; Ok (NText text, rest).
Proof. intros Hd. cbn [_value]. by rewrite (proj2 (Nat.ltb_ge 64 depth)). Qed.

Lemma values_next fuel depth c s : imap_space c = false → c ≠ 41%N →
  _values (S fuel) depth (c :: s) =
  '(v, s') ← _value fuel (S depth) (c :: s); '(vs, rest) ← _values fuel depth s'; Ok (v :: vs, rest).
Proof.
  intros Hs H41. cbn [_values]. unfold skip_spaces. cbn [drop_while]. rewrite Hs.
  destruct c as [|p]; [done|]. do 6 (try destruct p as [p|p|]; try done).
Qed.

Lemma value_skips fuel depth s : _value (S fuel) depth (skip_spaces s) = _value (S fuel) depth s.
Proof. cbn [_value]. by rewrite skip_skipped. Qed.

Lemma values_skip fuel depth s : _values (S fuel) depth (skip_spaces s) = _values (S fuel) depth s.
Proof. cbn [_values]. by rewrite skip_skipped. Qed.

Context (Hdecode : ∀ charset b, ends (λ _, True) (decode charset b)).

Lemma value_total fuel :
  (∀ depth s, (2 * length s + 1 <= fuel)%nat → ends (shorter s) (_value fuel depth s)) ∧
  (∀ depth s, (2 * length s + 2 <= fuel)%nat → ends (shorter s) (_values fuel depth s)).
Proof.
  assert (Hless : ∀ A (s s' : list N), (length s <= length s')%nat → ∀ r : res (A * list N),
    ends (shorter s) r → ends (shorter s') r).
  { intros A s s' Hs [[a rest]|x]; [|done]. cbn. lia. }
  induction fuel as [|fuel [IHv IHs]]; [split; intros; lia|]. split; intros depth s Hf;
    pose proof (skip_spaces_le s) as Hs; apply (Hless _ (skip_spaces s) s Hs).
  - rewrite <- value_skips. destruct (skip_spaces s) as [|c s'] eqn:E; [by cbn [_value]; destruct (64 <? depth)%nat|].
    pose proof (skipped_front _ _ _ E) as Hc. cbn [length] in Hs.
    destruct (Nat.ltb_spec 64 depth) as [Hd|Hd].
    { cbn [_value]. by rewrite (proj2 (Nat.ltb_lt 64 depth)). }
    destruct (decide (c = 40%N)) as [->|H40]; [|destruct (decide (c = 34%N)) as [->|H34]].
    + rewrite value_list by done. eapply ends_bind; [apply IHs; lia|]. intros [values rest] Hr. cbn in *. lia.
    + rewrite value_quoted by done. eapply ends_bind; [by apply (quoted_string_total (length s'))|].
      intros [value rest] Hr. pose proof (Hdecode "utf-8" value) as Hd'. destruct (decode "utf-8" value); [|done]. cbn in *. lia.
    + rewrite value_atom by done. apply atom_total.
  - rewrite <- values_skip. destruct (skip_spaces s) as [|c s'] eqn:E; [done|].
    pose proof (skipped_front _ _ _ E) as Hc. cbn [length] in Hs. destruct (decide (c = 41%N)) as [->|H41]; [cbn; lia|].
    rewrite values_next by done. eapply ends_bind; [apply IHv; cbn [length]; lia|]. intros [v rest] Hv.
    unfold shorter in *. cbn [ends] in Hv. eapply ends_bind; [apply IHs; cbn [length] in *; lia|]. intros [vs rest'] Hr. cbn in *. lia.
Qed.

Lemma parse_ends source : ends (λ _, True) (parse source).
Proof.
  unfold parse. eapply ends_bind; [|intros [value rest] _; by apply ends_check].
  eapply (proj1 (value_total _)). unfold parse_fuel. pose proof (skip_spaces_le source). lia.
Qed.

(** ** File names *)

Definition starred (star : bool) : pystr := if star then lit "*" else [].
Definition segment_key (base : pystr) (index : N) (star : bool) : pystr :=
  base ++ "*" ++ str_of_N index ++ starred star.

Lemma str_of_N_all_digits n : forallb is_digit (str_of_N n) = true.
Proof.
  destruct (decide (n = 0%N)) as [->|Hn]; [done|]. destruct (str_of_N_shape n Hn) as (c & l & -> & Hc & Hl). cbn [forallb].
  rewrite Hl, andb_true_r. unfold is_digit, in_range. apply andb_true_intro; split; apply N.leb_le; lia.
Qed.

Lemma segment_key_inj base i j a b : segment_key base i a = segment_key base j b → i = j.
Proof.
  unfold segment_key. intros Heq. apply app_inv_head in Heq. apply app_inv_head in Heq.
  assert (Hf : ∀ n star, List.filter is_digit (str_of_N n ++ (starred star)) = str_of_N n).
  { intros n star. rewrite List.filter_app. replace (List.filter is_digit (starred star)) with (@nil N) by by destruct star.
    rewrite app_nil_r. pose proof (str_of_N_all_digits n) as Hn. induction (str_of_N n) as [|c l IH]; [done|].
    cbn [forallb List.filter] in *. apply andb_prop in Hn as [-> Hn]. by rewrite IH. }
  pose proof (Hf i a) as Hi. rewrite Heq, Hf in Hi. apply (f_equal digits_value) in Hi. rewrite !str_of_N_value in Hi. lia.
Qed.

Lemma encode_ends s : ends (λ _, True) (CallID.encode s).
Proof. unfold CallID.encode. by destruct (utf8 s). Qed.

Lemma unquote_ends s : ends (λ _, True) (unquote_to_bytes s).
Proof. unfold unquote_to_bytes. pose proof (encode_ends s) as He. destruct (CallID.encode s); [exact I|exact He]. Qed.

Lemma segments_end base parameters fuel : ∀ seen index charset,
  NoDup seen → (∀ k, k ∈ seen → k ∈ dkeys parameters ∧ ∃ i star, (i < index)%N ∧ k = segment_key base i star) →
  (length parameters < length seen + fuel)%nat → ends (λ _, True) (segments_from fuel base index charset parameters).
Proof.
  induction fuel as [|fuel IH]; intros seen index charset Hd Hs Hf.
  { exfalso. assert (Hsub : seen ⊆+ dkeys parameters) by (apply NoDup_submseteq; [done|]; intros k Hk; by apply Hs).
    apply submseteq_length in Hsub. unfold dkeys in Hsub. rewrite length_map in Hsub. lia. }
  assert (Hnext : ∀ star v charset, dget (segment_key base index star) parameters = Some v →
    ends (λ _, True) (segments_from fuel base (index + 1) charset parameters)).
  { intros star v charset' Hv. apply (IH (segment_key base index star :: seen)); [|  |cbn; lia].
    - constructor; [|done]. intros Hin. destruct (Hs _ Hin) as (_ & i & star' & Hi & Heq). apply segment_key_inj in Heq. lia.
    - intros k [->|Hk]%elem_of_cons.
      + split; [|exists index, star; split; [lia|done]]. destruct (decide (segment_key base index star ∈ dkeys parameters)) as [|Hn]; [done|].
        apply dget_None in Hn. congruence.
      + destruct (Hs k Hk) as (Hin & i & star' & Hi & ->). split; [done|]. exists i, star'. split; [lia|done]. }
  assert (Hk : segment_key base index false = base ++ "*" ++ str_of_N index) by (unfold segment_key, starred; rewrite app_nil_r; reflexivity).
  assert (Hks : segment_key base index true = (base ++ "*" ++ str_of_N index) ++ "*") by (unfold segment_key; by rewrite <- !app_assoc).
  pose proof (Hnext true) as Hn1. pose proof (Hnext false) as Hn2. rewrite Hks in Hn1. rewrite Hk in Hn2.
  cbn [segments_from]. cbv zeta. destruct (dget ((base ++ "*" ++ str_of_N index) ++ "*") parameters) as [extended|] eqn:E1.
  - destruct (if (index =? 0)%N then _ else _) as [charset' value].
    eapply ends_bind; [|intros segment _; eapply ends_bind; [by apply (Hn1 extended)|by intros [rest final] _]].
    apply unquote_ends.
  - destruct (dget (base ++ "*" ++ str_of_N index) parameters) as [plain|] eqn:E2; [|exact I].
    eapply ends_bind; [apply encode_ends|]. intros segment _. eapply ends_bind; [by apply (Hn2 plain)|by intros [rest final] _].
Qed.

Lemma segments_of_end base charset parameters : ends (λ _, True) (segments_from (S (length parameters)) base 0 charset parameters).
Proof. apply (segments_end base parameters _ []); [constructor|by intros k ?%elem_of_nil|cbn; lia]. Qed.

Lemma decode_or_utf8_ends charset b : ends (λ _, True) (decode_or_utf8 charset b).
Proof.
  unfold decode_or_utf8. pose proof (Hdecode charset b) as H1. pose proof (Hdecode "utf-8" b) as H2.
  destruct (decode charset b) as [t|x]; [exact I|]. by destruct (isinst x LookupError).
Qed.

Context (Hheader : ∀ s, ends (λ _, True) (decode_header s)).

Lemma decode_direct_ends s : ends (λ _, True) (decode_direct s).
Proof.
  unfold decode_direct.
  assert (Hr : ends (λ _, True) (chunks ← decode_header s; texts ← mapR chunk_text chunks; Ok (concat texts))).
  { eapply ends_bind; [apply Hheader|]. intros chunks _. apply (ends_bind (λ _, True)); [|done].
    induction chunks as [|chunk chunks IH]; [done|]. cbn [mapR]. apply (ends_bind (λ _, True)); [|intros t _; eapply ends_bind; [exact IH|done]].
    destruct chunk as [t|[b charset]]; [done|apply Hdecode]. }
  destruct (chunks ← decode_header s; _) as [t|x]; [exact I|]. by destruct (_ || _).
Qed.

Lemma filename_ends parameters : ends (λ _, True) (_decode_filename parameters).
Proof.
  unfold _decode_filename. cbv zeta. destruct (truthy _).
  { destruct (decode_rfc2231 _) as [charset value]. eapply ends_bind; [|intros b _; apply decode_or_utf8_ends].
    apply unquote_ends. }
  eapply ends_bind; [apply segments_of_end|]. intros [first charset] _. destruct (_ <? _)%nat; [apply decode_or_utf8_ends|].
  eapply ends_bind; [apply segments_of_end|]. intros [second charset'] _. destruct (_ <? _)%nat; [apply decode_or_utf8_ends|].
  destruct (truthy _); [apply decode_direct_ends|done].
Qed.

Lemma leaf_ends structure kind subtype parameters encoding size p :
  ends (λ _, True) (leaf structure kind subtype parameters encoding size p).
Proof.
  unfold leaf. destruct encoding, size; try done. apply ends_check. destruct (_disposition structure).
  eapply ends_bind; [apply filename_ends|]. intros first _. apply (ends_bind (λ _, True)); [|done]. destruct (truthy first); [done|apply filename_ends].
Qed.

Lemma walk_ends n p result : ends (λ _, True) (_walk n p result).
Proof.
  revert p result. induction n as [l IH|s|z|] using node_nested_ind; intros p result; cbn [_walk];
    (destruct (_ || _); [done|]); try done.
  destruct l as [|first l]; [done|]. destruct first as [children|kind| |]; try done.
  - assert (Hc : ∀ l index result, Forall (λ n, ∀ p result, ends (λ _, True) (_walk n p result)) l →
      ends (λ _, True) (walk_children _walk p index l result)).
    { intros l'. induction l' as [|n l' IHl]; intros index result' Hl; [done|]. apply Forall_cons in Hl as [Hn Hl]. cbn [walk_children].
      destruct n; try done. eapply ends_bind; [apply Hn|]. intros result1 _. by apply IHl. }
    by apply Hc.
  - destruct l as [|[|subtype| |] [|parameters [|? [|? [|encoding [|size l]]]]]]; try done.
    eapply ends_bind; [apply leaf_ends|done].
Qed.

(** C24: reading a BODYSTRUCTURE ends.  Whatever bytes the server sent, [parse_bodystructure] lists the parts or
    raises an exception of the source's own: the fuel of the model's loops (linear in the response for the
    parser, the number of parameters for a file name in segments) never runs out.  The decoders it calls
    raise no [RuntimeError]. *)
Theorem structure_reading_ends data : ends (λ _, True) (parse_bodystructure data).
Proof.
  unfold parse_bodystructure. destruct (search nil_structure _ _); [done|]. destruct (search structure_start _ _) as [source|]; [|done].
  unfold _extract_parenthesized. destruct (extract_from _ _ _ _); [|done]. cbn [mbind result_bind]. apply ends_check.
  eapply ends_bind; [apply parse_ends|]. intros structure _. apply walk_ends.
Qed.

End Parser.

(** ** What a server writes *)

(** An expression of a server (RFC 3501, 9): lists, quoted strings, NIL in any letter case, numbers and
    other atoms. *)
Inductive wire :=
  | WList (l : list wire)
  | WQuoted (b : list N)
  | WNil (big_n big_i big_l : bool)
  | WNumber (n : N)
  | WAtom (token : list N).

Definition nil_spelling (big_n big_i big_l : bool) : list N :=
  [if big_n then 78 else 110; if big_i then 73 else 105; if big_l then 76 else 108]%N.

Fixpoint print (w : wire) : list N :=
  match w with
  | WList l => [40%N] ++ Prelude.join [32%N] (map print l) ++ [41%N]
  | WQuoted b => quote_argument b
  | WNil big_n big_i big_l => nil_spelling big_n big_i big_l
  | WNumber n => str_of_N n
  | WAtom token => token
  end.

(** A printable ASCII character other than the space, the parentheses and the quote. *)
Definition plain_char (c : N) : bool :=
  (33 <=? c)%N && (c <=? 126)%N && negb (c =? 40)%N && negb (c =? 41)%N && negb (c =? 34)%N.

(** An atom is not empty, not a number and not NIL; a number has at most 4300 digits. *)
Fixpoint well_formed (w : wire) : bool :=
  match w with
  | WList l => forallb well_formed l
  | WQuoted _ | WNil _ _ _ => true
  | WNumber n => (length (str_of_N n) <=? 4300)%nat
  | WAtom token =>
      negb (bool_decide (token = [])) && forallb plain_char token &&
      negb (forallb (λ c, (48 <=? c)%N && (c <=? 57)%N) token) &&
      negb (existsb (λ '(x, y, z), bool_decide (token = nil_spelling x y z))
        [(true, true, true); (true, true, false); (true, false, true); (true, false, false);
         (false, true, true); (false, true, false); (false, false, true); (false, false, false)])
  end.

Fixpoint height (w : wire) : nat :=
  match w with WList l => S (list_max (map height l)) | _ => 0 end.

Section Wire.
Context `{EmailLibrary}.

(** What an expression means. *)
Fixpoint node_of (w : wire) : res node :=
  match w with
  | WList l => NList <$> mapR node_of l
  | WQuoted b => NText <$> decode "utf-8" b
  | WNil _ _ _ => Ok NNil
  | WNumber n => Ok (NInt (Z.of_N n))
  | WAtom token => Ok (NText token)
  end.

(** The expressions that are one word. *)
Definition is_word (w : wire) : bool := match w with WList _ | WQuoted _ => false | _ => true end.

Lemma wire_nested_ind (P : wire → Prop) :
  (∀ l, Forall P l → P (WList l)) → (∀ b, P (WQuoted b)) → (∀ w, is_word w = true → P w) → ∀ w, P w.
Proof.
  intros Hl Hq Ha. fix IH 1. intros [l|b|x y z|n|token]; [|apply Hq|by apply Ha..]. apply Hl.
  induction l as [|w l IHl]; [constructor|]. constructor; [apply IH|exact IHl].
Qed.

(** A byte that is neither a delimiter nor a quote. *)
Definition atom_char (c : N) : bool := negb (atom_end c) && negb (c =? 34)%N.

(** What may follow an expression. *)
Definition delimited_by (rest : list N) : Prop := match rest with [] => True | c :: _ => atom_end c = true end.

Lemma atom_span_token token rest : forallb atom_char token = true → delimited_by rest →
  atom_span (token ++ rest) = (token, rest).
Proof.
  intros Ht Hr. induction token as [|c token IH].
  { destruct rest as [|c rest]; [done|]. cbn in *. by rewrite Hr. }
  cbn [forallb] in Ht. apply andb_prop in Ht as [Hc Ht]. cbn [app atom_span]. unfold atom_char in Hc.
  apply andb_prop in Hc as [Hc _]. apply negb_true_iff in Hc. by rewrite Hc, IH.
Qed.

Lemma plain_atom_char c : plain_char c = true → atom_char c = true ∧ (c <= 126)%N.
Proof. unfold plain_char, atom_char, atom_end. cbn [existsb]. lia. Qed.

Lemma ascii_lower_nil token : ascii_lower token = lit "nil" → ∃ x y z, token = nil_spelling x y z.
Proof.
  assert (Hc : ∀ c d, ascii_lower [c] = [d] → (97 <= d <= 122)%N → c = d ∨ c = (d - 32)%N).
  { intros c d. unfold ascii_lower, is_upper, in_range. cbn [map]. intros [= <-] Hd. destruct (_ && _) eqn:E in *; lia. }
  intros Hlow. destruct token as [|a [|b [|c [|d token]]]]; try done. change (lit "nil") with [110; 105; 108]%N in Hlow.
  unfold ascii_lower in Hlow. cbn [map] in Hlow. injection Hlow as Ha Hb Hl.
  destruct (Hc a 110%N) as [-> | ->]; [unfold ascii_lower; cbn [map]; by rewrite Ha|lia|..];
  (destruct (Hc b 105%N) as [-> | ->]; [unfold ascii_lower; cbn [map]; by rewrite Hb|lia|..]);
  (destruct (Hc c 108%N) as [-> | ->]; [unfold ascii_lower; cbn [map]; by rewrite Hl|lia|..]);
  (by exists false, false, false) || (by exists false, false, true) || (by exists false, true, false) ||
  (by exists false, true, true) || (by exists true, false, false) || (by exists true, false, true) ||
  (by exists true, true, false) || (by exists true, true, true).
Qed.

Lemma atom_token token rest : token ≠ [] → forallb atom_char token = true → delimited_by rest →
  existsb (λ c, (127 <? c)%N) token = false →
  atom (token ++ rest) =
    (if bool_decide (ascii_lower token = lit "nil") then Ok (NNil, rest)
     else if is_digits token then n ← int_of_digits token; Ok (NInt n, rest) else Ok (NText token, rest)).
Proof. intros Hn Ht Hr Ha. unfold atom. rewrite atom_span_token by done. rewrite Ha. by destruct token. Qed.

Lemma digits_plain s : forallb is_digit s = true → forallb plain_char s = true.
Proof.
  intros Hs. apply forallb_forall. intros c Hc. rewrite forallb_forall in Hs. specialize (Hs c Hc).
  unfold is_digit, in_range in Hs. unfold plain_char. lia.
Qed.

Lemma word_plain w : is_word w = true → well_formed w = true → forallb plain_char (print w) = true ∧ print w ≠ [].
Proof.
  destruct w as [l|b|x y z|n|token]; try done; cbn [well_formed print].
  - by destruct x, y, z.
  - intros _ _. split; [apply digits_plain, str_of_N_all_digits|].
    destruct (decide (n = 0%N)) as [->|Hn]; [done|]. by destruct (str_of_N_shape n Hn) as (c & l & -> & _).
  - intros _. rewrite !andb_true_iff, negb_true_iff, bool_decide_eq_false. tauto.
Qed.

Lemma word_chars w : is_word w = true → well_formed w = true →
  forallb atom_char (print w) = true ∧ existsb (λ c, (127 <? c)%N) (print w) = false ∧ print w ≠ [].
Proof.
  intros Hl Hw. destruct (word_plain w Hl Hw) as [Hp Hn]. rewrite forallb_forall in Hp. split_and!; [| |done].
  - apply forallb_forall. intros c Hc. by apply plain_atom_char, Hp.
  - destruct (existsb _ _) eqn:E; [|done]. apply existsb_exists in E as (c & Hc & Hk).
    pose proof (proj2 (plain_atom_char c (Hp c Hc))). lia.
Qed.

(** An atom means what it spells. *)
Lemma word_read w n rest : is_word w = true → well_formed w = true → delimited_by rest → node_of w = Ok n →
  atom (print w ++ rest) = Ok (n, rest).
Proof.
  intros Hl Hw Hr Hn. destruct (word_chars w Hl Hw) as (Hc & Ha & Hne). rewrite atom_token by done.
  destruct w as [l|b|x y z|k|token]; try done; cbn [node_of print well_formed] in *; apply Ok_inj in Hn as <-.
  - rewrite bool_decide_eq_true_2; [done|]. by destruct x, y, z.
  - pose proof (str_of_N_all_digits k) as Hd. rewrite bool_decide_eq_false_2.
    + unfold is_digits. rewrite Hd. unfold int_of_digits. apply Nat.leb_le in Hw.
      rewrite (proj2 (N.ltb_ge _ _)) by lia. rewrite str_of_N_value. by destruct (str_of_N k).
    + intros (x & y & z & Hs)%ascii_lower_nil. rewrite Hs in Hd. by destruct x, y, z.
  - rewrite !andb_true_iff, !negb_true_iff in Hw. destruct Hw as [[_ Hd] Hs]. rewrite bool_decide_eq_false_2.
    + unfold is_digits. assert (forallb is_digit token = false) as -> by exact Hd. by rewrite andb_false_r.
    + intros (x & y & z & ->)%ascii_lower_nil. by destruct x, y, z.
Qed.

Lemma space_ends c : imap_space c = true → atom_end c = true.
Proof. unfold imap_space, atom_end. cbn [existsb]. rewrite !orb_true_iff. tauto. Qed.

(** The first byte of an expression. *)
Lemma print_front w : well_formed w = true → ∃ c s, print w = c :: s ∧ imap_space c = false ∧ c ≠ 41%N.
Proof.
  intros Hw. destruct (is_word w) eqn:Hword; [|destruct w; try done; cbn [print]; by eexists _, _].
  destruct (word_chars w Hword Hw) as (Hc & _ & Hn). destruct (print w) as [|c token]; [done|].
  cbn [forallb] in Hc. apply andb_prop in Hc as [Hc _].
  exists c, token. split; [done|]. unfold atom_char in Hc. apply andb_prop in Hc as [Hc _]. apply negb_true_iff in Hc.
  split; [|by intros ->]. destruct (imap_space c) eqn:E; [|done]. apply space_ends in E. congruence.
Qed.

(** The expressions of a list after the first, each after a space. *)
Definition following (l : list wire) : list N := concat (map (λ w, 32%N :: print w) l).

Lemma join_following w l : Prelude.join [32%N] (map print (w :: l)) = print w ++ following l.
Proof.
  revert w. induction l as [|w' l IH]; intros w; [cbn; by rewrite app_nil_r|].
  change (Prelude.join [32%N] (map print (w :: w' :: l))) with (print w ++ [32%N] ++ Prelude.join [32%N] (map print (w' :: l))).
  by rewrite IH.
Qed.

(** Parsing reads [w] back, whatever follows. *)
Definition reads_back (w : wire) : Prop := ∀ fuel depth n rest,
  well_formed w = true → node_of w = Ok n → (height w + depth <= 64)%nat → delimited_by rest →
  (2 * length (print w ++ rest) + 1 <= fuel)%nat → _value fuel depth (print w ++ rest) = Ok (n, rest).

Lemma values_space fuel depth s : _values fuel depth (32%N :: s) = _values fuel depth s.
Proof. by destruct fuel. Qed.

Lemma delimited_following l rest : delimited_by (following l ++ 41%N :: rest).
Proof. by destruct l. Qed.

Lemma values_following l : Forall reads_back l → ∀ fuel depth ns rest,
  forallb well_formed l = true → mapR node_of l = Ok ns → (list_max (map height l) + S depth <= 64)%nat →
  (2 * length (following l ++ 41%N :: rest) <= fuel)%nat →
  _values fuel depth (following l ++ 41%N :: rest) = Ok (ns, rest).
Proof.
  induction 1 as [|w l Hw _ IH]; intros fuel depth ns rest Hwf Hn Hh Hf.
  { apply Ok_inj in Hn as <-. destruct fuel as [|fuel]; [cbn in Hf; lia|done]. }
  change (list_max (map height (w :: l))) with (Nat.max (height w) (list_max (map height l))) in Hh.
  cbn [forallb] in Hwf. apply andb_prop in Hwf as [Hww Hwl].
  cbn [mapR] in Hn. apply bind_Ok in Hn as (n & Hnw & Hn). apply bind_Ok in Hn as (ns' & Hnl & Hn). apply Ok_inj in Hn as <-.
  change (following (w :: l) ++ 41%N :: rest) with (32%N :: ((print w ++ following l) ++ 41%N :: rest)) in *.
  rewrite values_space. rewrite <- app_assoc in *. destruct fuel as [|fuel]; [cbn in Hf; lia|].
  destruct (print_front w Hww) as (c & s & Hp & Hc & H41).
  assert (Hnext : ∀ tail, _values (S fuel) depth (print w ++ tail) =
    '(v, s') ← _value fuel (S depth) (print w ++ tail); '(vs, rest) ← _values fuel depth s'; Ok (v :: vs, rest)).
  { intros tail. rewrite Hp. cbn [app]. by apply values_next. }
  rewrite Hnext. cbn [length] in Hf. rewrite length_app in Hf.
  rewrite (Hw fuel (S depth) n); [|done|done|lia|apply delimited_following|rewrite length_app; lia].
  cbn [mbind result_bind]. rewrite (IH fuel depth ns'); [done|done|done|lia|].
  rewrite Hp in Hf. cbn [length] in Hf. lia.
Qed.

Lemma all_read_back w : reads_back w.
Proof.
  induction w as [l IH|b|w Hword] using wire_nested_ind; intros fuel depth n rest Hw Hn Hh Hr Hf;
    (destruct fuel as [|fuel]; [lia|]); [cbn [well_formed node_of print height] in *..|].
  - destruct (mapR node_of l) as [ns|x] eqn:Hns; [|done]. apply Ok_inj in Hn as <-.
    rewrite <- !app_assoc in *. cbn [app] in *. rewrite value_list by lia. cbn [length] in Hf.
    destruct l as [|w l].
    { apply Ok_inj in Hns as <-. cbn [map Prelude.join app] in *. by destruct fuel as [|fuel]; [cbn in Hf; lia|]. }
    assert (Hv : _values fuel depth (Prelude.join [32%N] (map print (w :: l)) ++ 41%N :: rest) = Ok (ns, rest)).
    { rewrite join_following in Hf |- *. rewrite <- app_assoc in *.
      rewrite <- values_space. change (32%N :: print w ++ following l ++ 41%N :: rest) with (32%N :: (print w ++ (following l ++ 41%N :: rest))).
      replace (32%N :: (print w ++ (following l ++ 41%N :: rest))) with (following (w :: l) ++ 41%N :: rest)
        by (unfold following; cbn; by rewrite <- app_assoc).
      apply values_following; [done|done|done|lia|].
      unfold following at 1. cbn [map concat app length]. rewrite <- app_assoc. fold (following l). cbn [app] in Hf |- *. lia. }
    rewrite Hv. reflexivity.
  - destruct (decode "utf-8" b) as [text|x] eqn:Hd; [|done]. apply Ok_inj in Hn as <-.
    unfold quote_argument. rewrite <- !app_assoc.
    change ([34%N] ++ escape_quoted b ++ [34%N] ++ rest) with (34%N :: (escape_quoted b ++ [34%N] ++ rest)).
    rewrite value_quoted, quoted_string_escaped by lia. cbn [mbind result_bind]. by rewrite Hd.
  - destruct (word_chars w Hword Hw) as (Ha & _ & _). destruct (print_front w Hw) as (c & s & Hp & Hc & _).
    pose proof (word_read w n rest Hword Hw Hr Hn) as Hat. rewrite Hp in *. cbn [app] in *.
    cbn [forallb] in Ha. apply andb_prop in Ha as [Ha _]. unfold atom_char, atom_end in Ha. cbn [existsb] in Ha. bool_inv.
    rewrite value_atom; [done|lia|done| |]; by intros ->.
Qed.

Lemma parse_print w n : well_formed w = true → node_of w = Ok n → (height w <= 64)%nat → parse (print w) = Ok n.
Proof.
  intros Hw Hn Hh. unfold parse. destruct (print_front w Hw) as (c & s & Hp & Hc & _).
  assert (Hs : skip_spaces (print w) = print w) by (rewrite Hp; unfold skip_spaces; cbn [drop_while]; by rewrite Hc).
  rewrite Hs. pose proof (all_read_back w (parse_fuel (print w)) 0 n []) as Hv. rewrite app_nil_r in Hv.
  rewrite Hv; [done|done|done|lia|done|]. unfold parse_fuel. lia.
Qed.

(** ** Finding the end of an expression *)

Lemma cons_app (c : N) t (x : option (list N)) : cons c <$> (app t <$> x) = app (c :: t) <$> x.
Proof. by destruct x. Qed.

Lemma app_app (t u : list N) (x : option (list N)) : app t <$> (app u <$> x) = app (t ++ u) <$> x.
Proof. destruct x; [|done]. cbn. by rewrite app_assoc. Qed.

Lemma extract_escaped b d rest :
  extract_from d true false (escape_quoted b ++ 34%N :: rest) =
  app (escape_quoted b ++ [34%N]) <$> extract_from d false false rest.
Proof.
  induction b as [|c b IH]; [by cbn; destruct (extract_from d false false rest)|]. rewrite escape_cons.
  destruct (N.eqb_spec c 92) as [->|H92]; [|destruct (N.eqb_spec c 34) as [->|H34]];
    cbn [app extract_from andb N.eqb Pos.eqb negb]; [rewrite IH; by destruct (extract_from d false false rest)..|].
  rewrite (proj2 (N.eqb_neq c 92)), (proj2 (N.eqb_neq c 34)) by done. rewrite IH. by destruct (extract_from d false false rest).
Qed.

Lemma extract_token token d rest : forallb atom_char token = true →
  extract_from d false false (token ++ rest) = app token <$> extract_from d false false rest.
Proof.
  induction token as [|c token IH]; [by cbn; destruct (extract_from d false false rest)|].
  cbn [forallb]. intros [Hc Ht]%andb_prop. cbn [app extract_from andb]. unfold atom_char, atom_end in Hc. cbn [existsb] in Hc.
  bool_inv. rewrite (proj2 (N.eqb_neq c 34)), (proj2 (N.eqb_neq c 40)), (proj2 (N.eqb_neq c 41)) by done.
  rewrite IH by done. by destruct (extract_from d false false rest).
Qed.

Definition passed (w : wire) : Prop := ∀ d rest, well_formed w = true → (0 < d)%Z →
  extract_from d false false (print w ++ rest) = app (print w) <$> extract_from d false false rest.

Lemma extract_following l d rest : Forall passed l → forallb well_formed l = true → (0 < d)%Z →
  extract_from d false false (following l ++ rest) = app (following l) <$> extract_from d false false rest.
Proof.
  intros Hl Hw Hd. induction Hl as [|w l Hp _ IH]; [by cbn; destruct (extract_from d false false rest)|].
  cbn [forallb] in Hw. apply andb_prop in Hw as [Hw Hws].
  change (following (w :: l)) with (32%N :: (print w ++ following l)). rewrite <- cons_app, <- app_app, <- IH, <- Hp by done.
  rewrite <- app_comm_cons, <- app_assoc. reflexivity.
Qed.

Lemma extract_joined l d rest : Forall passed l → forallb well_formed l = true → (0 < d)%Z →
  extract_from d false false (Prelude.join [32%N] (map print l) ++ rest) =
  app (Prelude.join [32%N] (map print l)) <$> extract_from d false false rest.
Proof.
  intros Hl Hw Hd. destruct Hl as [|w l Hp Hl]; [by cbn; destruct (extract_from d false false rest)|].
  cbn [forallb] in Hw. apply andb_prop in Hw as [Hw Hws]. rewrite join_following.
  by rewrite <- app_app, <- extract_following, <- Hp, <- app_assoc by done.
Qed.

Lemma extract_list l d rest : Forall passed l → forallb well_formed l = true → (0 <= d)%Z →
  extract_from d false false (print (WList l) ++ rest) =
  app (print (WList l)) <$> (if (d =? 0)%Z then Some [] else extract_from d false false rest).
Proof.
  intros Hl Hw Hd. cbn [print]. rewrite <- !app_assoc.
  change ([40%N] ++ Prelude.join [32%N] (map print l) ++ [41%N] ++ rest) with (40%N :: (Prelude.join [32%N] (map print l) ++ 41%N :: rest)).
  cbn [extract_from andb N.eqb Pos.eqb]. rewrite extract_joined by (done || lia). cbn [extract_from andb N.eqb Pos.eqb].
  replace (d + 1 - 1)%Z with d by lia. rewrite cons_app. destruct (d =? 0)%Z; cbn; [by rewrite <- app_assoc|].
  destruct (extract_from d false false rest); [|done]. cbn. by rewrite <- app_assoc.
Qed.

Lemma all_passed w : passed w.
Proof.
  induction w as [l IH|b|w Hword] using wire_nested_ind; intros d rest Hw Hd.
  - rewrite extract_list by (done || lia). by rewrite (proj2 (Z.eqb_neq d 0)) by lia.
  - cbn [print]. unfold quote_argument. rewrite <- !app_assoc.
    change ([34%N] ++ escape_quoted b ++ [34%N] ++ rest) with (34%N :: (escape_quoted b ++ 34%N :: rest)).
    cbn [extract_from andb N.eqb Pos.eqb negb]. rewrite extract_escaped, cons_app. reflexivity.
  - by apply extract_token, word_chars.
Qed.

(** C17: a BODYSTRUCTURE reads back as the server wrote it.  For any parenthesized expression of nested
    lists, quoted strings (any UTF-8 text, quotes, backslashes and parentheses included, escaped), NIL in
    any letter case, numbers of at most 4300 digits and other atoms of printable ASCII, at most 64 deep:
    the end of the expression is found whatever follows it in the response, and parsing it gives exactly
    the tree it denotes: no text for NIL, a number's value, an atom's or a string's own text. *)
Theorem structure_reads_back l n rest :
  well_formed (WList l) = true → (height (WList l) <= 64)%nat → node_of (WList l) = Ok n →
  _extract_parenthesized (print (WList l) ++ rest) = Ok (print (WList l)) ∧ parse (print (WList l)) = Ok n.
Proof.
  intros Hw Hh Hn. split; [|by apply parse_print]. unfold _extract_parenthesized.
  rewrite extract_list; [|by apply Forall_forall; intros; apply all_passed|done|done]. cbn [Z.eqb fmap option_fmap option_map].
  by rewrite app_nil_r.
Qed.

End Wire.
(** ** The parts of a structure *)

Section Parts.
Context `{EmailLibrary}.

(** A part below [p]: its own path starts with [p], is short and counts from one. *)
Definition part_below (p : list N) (part : BodyPart) : Prop :=
  p `prefix_of` path part ∧ (length (path part) <= 64)%nat ∧ (0 <= encoded_size part)%Z ∧
  (Forall (λ k, 1 <= k)%N p → Forall (λ k, 1 <= k)%N (path part)).

(** The parts a walk adds. *)
Definition added (p : list N) (result result' : list BodyPart) : Prop :=
  ∃ new, result' = result ++ new ∧ Forall (part_below p) new ∧ NoDup (map path new) ∧
    ((length result <= 1001)%nat → (length result' <= 1001)%nat).

Lemma leaf_part structure kind subtype parameters encoding size p part :
  leaf structure kind subtype parameters encoding size p = Ok part → path part = p ∧ (0 <= encoded_size part)%Z.
Proof.
  unfold leaf. destruct encoding as [|encoding| |], size as [| |z|]; try done. intros Hl. apply bind_Ok in Hl as (u & Hn & Hl).
  apply raise_if_Ok, Z.ltb_ge in Hn. destruct (_disposition structure) as [d dp].
  apply bind_Ok in Hl as (f1 & _ & Hl). apply bind_Ok in Hl as (f2 & _ & Hl). by apply Ok_inj in Hl as <-.
Qed.

(** The parts of the children from [index] on: below [p], and below a number larger than [index]. *)
Lemma children_added p l : Forall (λ n, ∀ p result result', _walk n p result = Ok result' → added p result result') l →
  ∀ index result result', walk_children _walk p index l result = Ok result' →
  ∃ new, result' = result ++ new ∧
    Forall (λ part, ∃ k, (index < k)%N ∧ part_below (p ++ [k]) part) new ∧ NoDup (map path new) ∧
    ((length result <= 1001)%nat → (length result' <= 1001)%nat).
Proof.
  induction 1 as [|n l Hn _ IH]; intros index result result'; cbn [walk_children]; [done|].
  destruct n as [children| | |]; try done.
  - intros (result1 & H1 & H2)%bind_Ok. apply Hn in H1 as (new1 & -> & Hb1 & Hd1 & Hl1).
    apply IH in H2 as (new2 & -> & Hb2 & Hd2 & Hl2). exists (new1 ++ new2). split_and!.
    + by rewrite app_assoc.
    + apply Forall_app. split.
      * eapply Forall_impl; [exact Hb1|]. intros part Hp. exists (index + 1)%N. split; [lia|done].
      * eapply Forall_impl; [exact Hb2|]. intros part (k & Hk & Hp). exists k. split; [lia|done].
    + rewrite map_app. apply NoDup_app. split_and!; [done| |done]. intros x Hx1 Hx2.
      apply list_elem_of_fmap in Hx1 as (part1 & -> & Hin1). apply list_elem_of_fmap in Hx2 as (part2 & Heq & Hin2).
      rewrite Forall_forall in Hb1, Hb2. destruct (Hb1 _ Hin1) as ([s1 H1] & _). destruct (Hb2 _ Hin2) as (k & Hk & [s2 H2] & _).
      rewrite H1, H2, <- !app_assoc in Heq. apply app_inv_head in Heq. cbn in Heq. injection Heq as Heq _. lia.
    + auto.
  - intros Hr. apply Ok_inj in Hr as <-. exists []. rewrite app_nil_r. split_and!; [done|constructor|constructor|done].
Qed.

Lemma walk_added n p result result' : _walk n p result = Ok result' → added p result result'.
Proof.
  revert p result result'. induction n as [l IH|s|z|] using node_nested_ind; intros p result result'; cbn [_walk];
    (destruct ((64 <? length p)%nat || (1000 <? length result)%nat) eqn:E; [done|]); try done.
  apply orb_false_elim in E as [Hp Hr]. apply Nat.ltb_ge in Hp, Hr.
  destruct l as [|first l]; [done|]. destruct first as [children|kind| |]; try done.
  - intros Hw. apply (children_added p _ IH) in Hw as (new & -> & Hb & Hd & Hl). exists new. split_and!; try done.
    eapply Forall_impl; [exact Hb|]. intros part (k & Hk & [s Hs] & Hlen & Hsz & Hone). split_and!; [|done|done|].
    + exists ([k] ++ s). by rewrite Hs, app_assoc.
    + intros Hp1. apply Hone, Forall_app. split; [done|]. constructor; [lia|done].
  - destruct l as [|[|subtype| |] [|parameters [|? [|? [|encoding [|size l]]]]]]; try done.
    intros (part & Hpart & Hok)%bind_Ok. apply Ok_inj in Hok as <-. apply leaf_part in Hpart as [Hpath Hsz].
    exists [part]. split_and!; [done| |by cbn; apply NoDup_singleton|rewrite length_app; cbn; lia].
    constructor; [|done]. unfold part_below. rewrite Hpath. by split_and!.
Qed.

(** C27: the listed parts can be told apart and are bounded.  Whatever structure the server sends, the parts that
    [parse_bodystructure] lists have section paths that are pairwise distinct, at most 64 numbers long and
    count from one, and sizes that are not negative; there are at most 1001 of them. *)
Theorem structure_parts_bounded data parts : parse_bodystructure data = Ok parts →
  NoDup (map path parts) ∧ (length parts <= 1001)%nat ∧
  Forall (λ part, (length (path part) <= 64)%nat ∧ Forall (λ k, 1 <= k)%N (path part) ∧ (0 <= encoded_size part)%Z) parts.
Proof.
  unfold parse_bodystructure. destruct (search nil_structure _ _) as [u|].
  { intros Hp. apply Ok_inj in Hp as <-. split_and!; [constructor|cbn; lia|constructor]. }
  destruct (search structure_start _ _) as [source|]; [|done]. intros Hp. res_inv.
  apply walk_added in Hp as (new & -> & Hb & Hd & Hl). cbn [app] in *. split_and!; [done|apply Hl; cbn; lia|].
  eapply Forall_impl; [exact Hb|]. intros part (_ & Hlen & Hsz & Hone). split_and!; [done|by apply Hone|done].
Qed.

End Parts.
(** *** A multipart structure *)

Import SessionFacts.
#[local] Existing Instance Sample.library.

Definition text_part (subtype : pystr) : wire :=
  WList [WQuoted "text"; WQuoted subtype; WList [WQuoted "charset"; WQuoted "utf-8"]; WNil true true true; WNil true true true; WAtom "7bit"; WNumber 12; WNumber 1].
Definition file_part : wire :=
  WList [WQuoted "application"; WQuoted "pdf"; WNil true true true; WNil true true true; WNil true true true; WAtom "base64"; WNumber 4096; WNil true true true;
         WList [WQuoted "attachment"; WList [WQuoted "filename"; WQuoted ("a (1) \" ++ [34%N] ++ ".pdf")]]].
Definition mixed : list wire :=
  [WList [text_part "plain"; text_part "html"; WQuoted "alternative"]; file_part; WQuoted "mixed"].
Definition mixed_metadata : list N := "1 (UID 5 BODYSTRUCTURE " ++ print (WList mixed) ++ " FLAGS ())".

Lemma structure_reads_back_witness : ∃ n,
  _extract_parenthesized (print (WList mixed) ++ " FLAGS ())") = Ok (print (WList mixed)) ∧ parse (print (WList mixed)) = Ok n.
Proof.
  destruct (node_of (WList mixed)) as [n|x] eqn:Hn; [|vm_compute in Hn; discriminate Hn]. exists n.
  apply (structure_reads_back mixed n " FLAGS ())"); [vm_compute; reflexivity|apply Nat.leb_le; vm_compute; reflexivity|exact Hn].
Defined.

Lemma structure_parts_bounded_witness : ∃ parts, parse_bodystructure mixed_metadata = Ok parts ∧
  map path parts = [[1; 1]; [1; 2]; [2]]%N ∧ NoDup (map path parts) ∧ (length parts <= 1001)%nat.
Proof.
  assert (Hp : match parse_bodystructure mixed_metadata with Ok parts => map path parts = [[1; 1]; [1; 2]; [2]]%N | Err _ => False end)
    by (vm_compute; reflexivity).
  destruct (parse_bodystructure mixed_metadata) as [parts|x] eqn:E; [|exact (False_ind _ Hp)]. exists parts. split; [reflexivity|].
  split; [exact Hp|]. destruct (structure_parts_bounded mixed_metadata parts E) as (H1 & H2 & _). split; [exact H1|exact H2].
Defined.

Lemma structure_reading_ends_witness :
  ends (λ _, True) (parse_bodystructure mixed_metadata) ∧ ends (λ _, True) (parse_bodystructure "BODYSTRUCTURE ((").
Proof.
  split; apply structure_reading_ends; intros; exact I.
Defined.

End StructureFacts.

(** ** Pages of a search *)

Module PageFacts.
Import SearchMessages StructureFacts.

(** *** Numbers *)






(** *** The server's list *)






(** *** Pages *)

#[local] Instance ge_total : Total Z.ge.
Proof. intros x y. lia. Qed.
#[local] Instance ge_trans : Transitive Z.ge.
Proof. intros x y z. lia. Qed.
#[local] Instance ge_antisymm : AntiSymm (=) Z.ge.
Proof. intros x y. lia. Qed.



Section Pages.
Context `{EmailLibrary} (mailbox : list Z) (name : pystr) (validity limit : Z).
Context (Huids : Forall (λ u, uid_ok u = true) mailbox) (Hnodup : NoDup mailbox).
Context (Hlimit : (1 <= limit <= 50)%Z) (Hvalidity : validity ≠ 0%Z).















End Pages.
Import SessionFacts.
#[local] Existing Instance Sample.library.


End PageFacts.
