(* ===== verification/EmailSubmission.v ===== *)
(** * A message is submitted once, and arrives as it was written

    What an SMTP server reads from the bytes [_smtp_submit] writes; that over all attempts of a call at
    most one final dot is left without a refusal; and what an attempt's answer says of the server. *)

From S2P Require Import Prelude Errors Timestamps Identity Results Calls MailProgram EmailClient EmailBody EmailMessages EmailOperations EmailSessions.

Module WireFacts.

(** ** Lines *)

Lemma drop_while_end_all p a b : forallb p b = true → drop_while_end p (a ++ b) = drop_while_end p a.
Proof.
  intros Hb. unfold drop_while_end. rewrite rev_app_distr. f_equal.
  assert (Hr : forallb p (rev b) = true).
  { apply forallb_forall. intros c Hc. rewrite forallb_forall in Hb. by apply Hb, in_rev. }
  revert Hr. generalize (rev b). intros l. induction l as [|c l IH]; [done|]. cbn [forallb app drop_while].
  intros [-> Hl]%andb_prop. by apply IH.
Qed.

Lemma drop_while_end_last p a c : p c = false → drop_while_end p (a ++ [c]) = a ++ [c].
Proof. intros Hc. unfold drop_while_end. rewrite rev_app_distr. cbn [rev app drop_while]. rewrite Hc. cbn [rev]. by rewrite rev_involutive. Qed.

(** A line: no carriage return and no line feed. *)
Definition line (s : list N) : Prop := (13%N ∉ s) ∧ (10%N ∉ s).

Lemma line_cons c s : line (c :: s) ↔ (c ≠ 13%N ∧ c ≠ 10%N) ∧ line s.
Proof. unfold line. rewrite !not_elem_of_cons. naive_solver. Qed.

Lemma split_crlf_line s rest : line s → split_crlf (s ++ [13; 10]%N ++ rest) = s :: split_crlf rest.
Proof.
  induction s as [|c s IH]; [done|]. rewrite line_cons. intros [[H13 H10] Hs]. specialize (IH Hs).
  change ([13; 10]%N ++ rest) with (13 :: 10 :: rest)%N in *. cbn [app].
  assert (Hc : split_crlf (c :: s ++ 13%N :: 10%N :: rest) =
    match split_crlf (s ++ 13%N :: 10%N :: rest) with l :: r => (c :: l) :: r | [] => [[c]] end).
  { destruct c as [|p]; [done|]. do 4 (destruct p as [p|p|]; try done). }
  by rewrite Hc, IH.
Qed.

Lemma split_char_crlf s : 13%N ∉ s → split_crlf (replace_char 10 [13; 10]%N s) = split_char 10 s.
Proof.
  induction s as [|c s IH]; [done|]. intros [Hc Hs]%not_elem_of_cons. unfold replace_char in *. cbn [flat_map split_char].
  destruct (N.eqb_spec c 10) as [->|H10]; [cbn [app split_crlf]; by rewrite IH|]. cbn [app].
  assert (Hd : ∀ r, split_crlf (c :: r) = match split_crlf r with l :: r => (c :: l) :: r | [] => [[c]] end).
  { intros r. destruct c as [|p]; [done|]. do 4 (destruct p as [p|p|]; try done). }
  rewrite Hd, IH by done. by destruct (split_char 10 s).
Qed.

Lemma split_char_lines s l : 13%N ∉ s → l ∈ split_char 10 s → line l.
Proof.
  revert l. induction s as [|c s IH]; intros l Hs; cbn [split_char].
  { intros ->%list_elem_of_singleton. split; apply not_elem_of_nil. }
  apply not_elem_of_cons in Hs as [Hc Hs]. destruct (N.eqb_spec c 10) as [->|H10].
  { intros [->|Hl]%elem_of_cons; [split; apply not_elem_of_nil|by apply IH]. }
  destruct (split_char 10 s) as [|x rest] eqn:Hx; [by destruct s; cbn in Hx; repeat case_match|].
  intros [->|Hl]%elem_of_cons.
  - apply line_cons. split; [done|]. apply IH; [done|by left].
  - apply IH; [done|by right].
Qed.

Lemma replace_crlf_bare s : 13%N ∉ replace_char 13 [10%N] s.
Proof.
  unfold replace_char. induction s as [|c s IH]; [apply not_elem_of_nil|]. cbn [flat_map].
  destruct (N.eqb_spec c 13); cbn [app]; apply not_elem_of_cons; split; try done; by apply not_eq_sym.
Qed.

(** The lines of the content, whatever its line breaks: a carriage return ends a line, and so does a line
    feed, unless the return it follows just did. *)
Fixpoint lines_after (returned : bool) (content : list N) : list (list N) :=
  match content with
  | [] => [[]]
  | c :: rest =>
      if (c =? 13)%N then [] :: lines_after true rest
      else if (c =? 10)%N then if returned then lines_after false rest else [] :: lines_after false rest
      else match lines_after false rest with l :: ls => (c :: l) :: ls | [] => [[c]] end
  end.
Definition content_lines (content : list N) : list (list N) := lines_after false content.

Lemma replace_crlf_cons c s :
  replace_crlf (c :: s) = if (c =? 13)%N then
      match s with d :: s' => if (d =? 10)%N then 10%N :: replace_crlf s' else 13%N :: replace_crlf s | [] => [13%N] end
    else c :: replace_crlf s.
Proof.
  destruct (N.eqb_spec c 13) as [->|Hc].
  - destruct s as [|d s]; [done|]. destruct (N.eqb_spec d 10) as [->|Hd]; [done|].
    destruct d as [|p]; [done|]. do 4 (destruct p as [p|p|]; try done).
  - destruct c as [|p]; [done|]. do 4 (destruct p as [p|p|]; try done).
Qed.

Lemma content_lines_split content :
  lines_after false content = split_char 10 (replace_char 13 [10%N] (replace_crlf content)) ∧
  lines_after true content = match content with
    | c :: rest => if (c =? 10)%N then lines_after false rest else lines_after false content | [] => [[]] end.
Proof.
  induction content as [|c s [IH1 IH2]]; [done|]. split.
  2:{ cbn [lines_after]. destruct (N.eqb_spec c 13) as [E|E], (N.eqb_spec c 10) as [F|F]; done || congruence. }
  rewrite replace_crlf_cons. cbn [lines_after]. destruct (N.eqb_spec c 13) as [->|H13].
  - rewrite IH2. destruct s as [|d s]; [done|]. destruct (N.eqb_spec d 10) as [->|Hd].
    + unfold replace_char in *. cbn [flat_map N.eqb Pos.eqb app split_char]. f_equal. cbn [lines_after N.eqb Pos.eqb] in IH1.
      rewrite replace_crlf_cons in IH1. cbn [N.eqb Pos.eqb flat_map app split_char] in IH1. by injection IH1.
    + rewrite IH1. unfold replace_char. by cbn [flat_map N.eqb Pos.eqb app split_char].
  - unfold replace_char in *. cbn [flat_map]. rewrite (proj2 (N.eqb_neq c 13)) by done. cbn [app split_char].
    destruct (N.eqb_spec c 10) as [->|H10]; [by rewrite IH1|]. rewrite IH1. by destruct (split_char 10 _).
Qed.

Lemma content_lines_code content : split_crlf (normalized content) = content_lines content.
Proof. unfold content_lines. rewrite (proj1 (content_lines_split content)). apply split_char_crlf, replace_crlf_bare. Qed.

Lemma content_lines_eq content :
  content_lines content = split_char 10 (replace_char 13 [10%N] (replace_crlf content)).
Proof. apply content_lines_split. Qed.

Lemma content_lines_lines content : Forall line (content_lines content) ∧ content_lines content ≠ [].
Proof.
  rewrite content_lines_eq. split.
  - apply Forall_forall. intros l. apply split_char_lines, replace_crlf_bare.
  - destruct (replace_char 13 [10%N] (replace_crlf content)) as [|c s]; [done|]. cbn [split_char].
    destruct (c =? 10)%N; [done|]. by destruct (split_char 10 s).
Qed.

(** ** What the server reads *)

(** The lines before the terminating dot, each without the dot it was stuffed with (RFC 5321, 4.5.2), and
    the lines after it. *)
Definition unstuff (l : list N) : list N := match l with 46%N :: l' => l' | _ => l end.

Fixpoint received (lines : list (list N)) : option (list (list N) * list (list N)) :=
  match lines with
  | [] => None
  | l :: lines' =>
      if bool_decide (l = lit ".") then Some ([], lines')
      else '(message, rest) ← received lines'; Some (unstuff l :: message, rest)
  end.

(** The lines without the empty ones at the end; a message has one line at least. *)
Fixpoint drop_empty_end (lines : list (list N)) : list (list N) :=
  match lines with
  | [] => []
  | l :: lines' => match l, drop_empty_end lines' with [], [] => [] | _, rest => l :: rest end
  end.
Definition kept_lines (lines : list (list N)) : list (list N) :=
  match drop_empty_end lines with [] => [[]] | l => l end.

Lemma drop_empty_end_snoc lines l : drop_empty_end (lines ++ [l]) = match l with [] => drop_empty_end lines | _ => lines ++ [l] end.
Proof.
  induction lines as [|x lines IH]; [by destruct l|]. cbn [app drop_empty_end]. rewrite IH. destruct l as [|c l]; [done|].
  destruct x; [|done]. by destruct lines.
Qed.

Lemma drop_empty_end_spec lines : ∃ k, lines = drop_empty_end lines ++ replicate k [].
Proof.
  induction lines as [|l lines [k Hk]]; [by exists 0%nat|]. cbn [drop_empty_end].
  destruct l as [|c l]; [|exists k; cbn [app]; by rewrite <- Hk].
  destruct (drop_empty_end lines) as [|x rest]; [exists (S k)|exists k]; cbn [app replicate] in *; congruence.
Qed.

Abbreviation crlf := [13; 10]%N.

Lemma join_snoc lines l : lines ≠ [] → Prelude.join crlf (lines ++ [l]) = Prelude.join crlf lines ++ crlf ++ l.
Proof.
  induction lines as [|x lines IH]; [done|]. intros _. destruct lines as [|y lines]; [done|].
  change (Prelude.join crlf ((x :: y :: lines) ++ [l])) with (x ++ crlf ++ Prelude.join crlf ((y :: lines) ++ [l])).
  rewrite IH by done. change (Prelude.join crlf (x :: y :: lines)) with (x ++ crlf ++ Prelude.join crlf (y :: lines)).
  by rewrite <- !app_assoc.
Qed.

Lemma join_stripped lines : Forall line lines →
  drop_while_end is_line_end (Prelude.join crlf lines) = Prelude.join crlf (drop_empty_end lines).
Proof.
  induction lines as [|l lines IH] using rev_ind; [done|]. intros [Hlines [Hl _]%Forall_cons]%Forall_app.
  rewrite drop_empty_end_snoc. destruct l as [|c l].
  - destruct lines as [|x lines]; [done|]. rewrite join_snoc by done. rewrite app_nil_r, drop_while_end_all by done. by apply IH.
  - assert (Hs : ∃ a z, c :: l = a ++ [z] ∧ is_line_end z = false).
    { destruct (exists_last (l:=c :: l) ltac:(done)) as (a & z & Ha). exists a, z. split; [done|]. unfold is_line_end.
      destruct Hl as [H1 H2]. rewrite Ha in H1, H2. apply not_elem_of_app in H1 as [_ H1]. apply not_elem_of_app in H2 as [_ H2].
      rewrite list_elem_of_singleton in H1, H2. by destruct (N.eqb_spec z 13), (N.eqb_spec z 10); subst. }
    destruct Hs as (a & z & -> & Hz). destruct lines as [|x lines].
    + cbn [app Prelude.join]. by apply drop_while_end_last.
    + rewrite join_snoc by done. rewrite !app_assoc. by apply drop_while_end_last.
Qed.

Lemma split_joined lines rest : Forall line lines → lines ≠ [] →
  split_crlf (Prelude.join crlf lines ++ crlf ++ rest) = lines ++ split_crlf rest.
Proof.
  induction lines as [|l lines IH]; [done|]. intros [Hl Hlines]%Forall_cons _. destruct lines as [|x lines].
  - by apply split_crlf_line.
  - change (Prelude.join crlf (l :: x :: lines)) with (l ++ crlf ++ Prelude.join crlf (x :: lines)).
    rewrite <- !app_assoc. rewrite split_crlf_line by done. cbn [app]. f_equal. by apply IH.
Qed.

Lemma stuffed_line l : line l → line (stuff_line l).
Proof. intros Hl. unfold stuff_line. destruct (starts_with _ l); [by apply line_cons|done]. Qed.

Lemma stuffed_not_dot l : stuff_line l ≠ lit ".".
Proof.
  unfold stuff_line. destruct l as [|c l]; [done|]. change (lit ".") with [46%N]. cbn [starts_with]. rewrite andb_true_r.
  destruct (N.eqb_spec 46 c) as [<-|Hc]; congruence.
Qed.

Lemma unstuff_stuffed l : unstuff (stuff_line l) = l.
Proof.
  unfold stuff_line. destruct l as [|c l]; [done|]. change (lit ".") with [46%N]. cbn [starts_with]. rewrite andb_true_r.
  destruct (N.eqb_spec 46 c) as [<-|Hc]; [done|]. unfold unstuff. destruct c as [|p]; [done|].
  do 6 (destruct p as [p|p|]; try done).
Qed.

Lemma received_stuffed lines rest : received (map stuff_line lines ++ lit "." :: rest) = Some (lines, rest).
Proof.
  induction lines as [|l lines IH]; [done|]. cbn [map app received].
  rewrite bool_decide_eq_false_2 by apply stuffed_not_dot. rewrite IH. cbn [mbind option_bind]. by rewrite unstuff_stuffed.
Qed.

Lemma drop_empty_stuffed lines : drop_empty_end (map stuff_line lines) = map stuff_line (drop_empty_end lines).
Proof.
  induction lines as [|l lines IH]; [done|]. cbn [map drop_empty_end]. rewrite IH.
  destruct l as [|c l]; [by destruct (drop_empty_end lines)|]. cbn [map].
  assert (stuff_line (c :: l) ≠ []) by (unfold stuff_line; by destruct (starts_with _ _)).
  by destruct (stuff_line (c :: l)).
Qed.

Lemma content_received content :
  received (split_crlf (data_lines content ++ final_dot)) = Some (kept_lines (content_lines content), [[]]).
Proof.
  destruct (content_lines_lines content) as [Hl _].
  unfold data_lines, stuffed. rewrite content_lines_code.
  assert (Hs : Forall line (map stuff_line (content_lines content))).
  { rewrite Forall_map. eapply Forall_impl; [exact Hl|]. apply stuffed_line. }
  rewrite (join_stripped _ Hs), drop_empty_stuffed. unfold kept_lines.
  assert (Hd : Forall line (map stuff_line (drop_empty_end (content_lines content)))).
  { destruct (drop_empty_end_spec (content_lines content)) as [k Hk]. rewrite Hk in Hl. apply Forall_app in Hl as [Hl' _].
    rewrite Forall_map. eapply Forall_impl; [exact Hl'|]. apply stuffed_line. }
  rewrite <- app_assoc. destruct (drop_empty_end (content_lines content)) as [|l lines]; [done|].
  rewrite split_joined by done. exact (received_stuffed (l :: lines) [[]]).
Qed.

Lemma join_ended l lines :
  Prelude.join crlf (l :: lines) ++ crlf = concat (map (λ l, l ++ crlf) (l :: lines)).
Proof.
  revert l. induction lines as [|x lines IH]; intros l; [cbn; by rewrite app_nil_r|].
  change (Prelude.join crlf (l :: x :: lines)) with (l ++ crlf ++ Prelude.join crlf (x :: lines)).
  rewrite <- !app_assoc, IH. cbn [map]. by rewrite !concat_cons, <- !app_assoc.
Qed.

Lemma data_lines_eq content : Forall line (map stuff_line (kept_lines (content_lines content))) ∧
  data_lines content = concat (map (λ l, l ++ crlf) (map stuff_line (kept_lines (content_lines content)))).
Proof.
  destruct (content_lines_lines content) as [Hl _]. destruct (drop_empty_end_spec (content_lines content)) as [k Hk].
  assert (Hd : Forall line (drop_empty_end (content_lines content))) by (rewrite Hk in Hl; by apply Forall_app in Hl as [? _]).
  unfold data_lines, stuffed. rewrite content_lines_code, join_stripped, drop_empty_stuffed.
  2:{ rewrite Forall_map. eapply Forall_impl; [exact Hl|]. apply stuffed_line. }
  unfold kept_lines. destruct (drop_empty_end (content_lines content)) as [|l lines].
  - split; [|done]. constructor; [|constructor]. split; apply not_elem_of_nil.
  - split; [rewrite Forall_map; eapply Forall_impl; [exact Hd|]; apply stuffed_line|]. apply join_ended.
Qed.

(** C23: a message arrives as it was written.  Whatever bytes a message holds, what is sent after DATA is
    a sequence of lines, each ended by CRLF and with no other carriage return or line feed in it, that a
    server reading up to the first lone dot and removing the stuffed dots (RFC 5321, 4.5.2) takes for the
    message's own lines, lone dots and lines that start with dots included; only empty lines at the end
    are lost.  The dot that ends the message is the connector's, and the last line sent.  The lines of the
    message are those between its line breaks: CRLF, lone CR or lone LF. *)
Theorem content_survives_stuffing content :
  ∃ lines, data_lines content ++ final_dot = concat (map (λ l, l ++ crlf) lines) ∧ Forall line lines ∧
  received lines = Some (kept_lines (content_lines content), []) ∧
  ∃ k, content_lines content = drop_empty_end (content_lines content) ++ replicate k [].
Proof.
  destruct (data_lines_eq content) as [Hl Hd].
  exists (map stuff_line (kept_lines (content_lines content)) ++ [lit "."]). split_and!.
  - by rewrite Hd, map_app, concat_app.
  - apply Forall_app. split; [exact Hl|]. constructor; [|constructor]. split; (apply not_elem_of_cons; split; [done|apply not_elem_of_nil]).
  - apply received_stuffed.
  - apply drop_empty_end_spec.
Qed.

(** The lines of a message are never taken for its end. *)
Lemma data_not_dot content : data_lines content ≠ final_dot.
Proof.
  intros Heq. pose proof (content_received content) as Hr. rewrite Heq in Hr. discriminate Hr.
Qed.

End WireFacts.

Module SubmissionFacts.
Import WireFacts.

(** ** Dex's record of the claim *)

(** What Dex may report when a call of [h] was the attempt's newest, and [base] is what it may have
    reported before the attempt: a heartbeat that returns is in the Worker's stream and reaches Dex
    unless that Worker is lost first; one that failed may have reached it, and so may not one that clears. *)
Fixpoint recorded (base : bool → Prop) (h : history) (b : bool) : Prop :=
  match h with
  | [] => base b
  | mkCall c r :: h' =>
      match c with
      | Heartbeat (Some _) => b = true ∨ (is_ok r = false ∧ recorded base h' b)
      | Heartbeat None => b = false ∨ recorded base h' b
      | _ => recorded base h' b
      end
  end.

(** An attempt that asks for the claim is told what is recorded, or gets an exception. *)
Definition dex_answer (base : bool → Prop) (h : history) (X : Type) (c : cmd X) (r : mres X) : Prop :=
  answers r ∧
  match c in cmd X return mres X → Prop with
  | HasHeartbeat => λ r, match r with Ok b => recorded base h b | Err _ => True end
  | _ => λ _, True
  end r.

(** ** Submissions *)

Definition is_dot (c : call) : bool :=
  match c with mkCall c _ => match c with SmtpSend b => bool_decide (b = final_dot) | _ => false end end.

(** A reply whose code satisfies [p]. *)
Definition reply (p : Z → bool) (c : call) : bool :=
  match c with
  | mkCall c r =>
      match c in cmd X return mres X → bool with
      | SmtpGetReply => λ r, match r with Ok code => p code | Err _ => false end
      | _ => λ _, false
      end r
  end.

(** The server refuses what it answers, for now (4xx) or for good (5xx). *)
Definition refused_code (code : Z) : bool := (400 <=? code)%Z && (code <? 600)%Z.
(** It neither accepts nor refuses: no code at all (-1), or one that says neither. *)
Definition unclear_code (code : Z) : bool := negb (code =? 250)%Z && negb (refused_code code).
Definition refusal : call → bool := reply refused_code.

(** The final dots whose next call satisfies [p]; [last] says whether one without a next call counts. *)
Fixpoint dots (last : bool) (p : call → bool) (h : history) : nat :=
  match h with
  | [] => 0
  | c :: h' => (if is_dot c && last then 1 else 0) + dots (p c) p h'
  end.

(** The final dots the server did not refuse in its next reply: each message may have been accepted. *)
Definition submissions (h : history) : nat := dots true (λ c, negb (refusal c)) h.
(** Those of them it answered with neither an acceptance nor a refusal. *)
Definition unclear (h : history) : nat := dots false (reply unclear_code) h.
(** The others: accepted, or the answer was lost. *)
Definition unrefused (last : bool) (h : history) : nat :=
  dots last (λ c, negb (reply (λ code, negb (code =? 250)%Z) c)) h.
Definition suspect (h : history) : nat := unrefused true h.

Lemma submissions_split h : submissions h = (suspect h + unclear h)%nat.
Proof.
  unfold submissions, suspect, unrefused, unclear.
  assert (H : ∀ x y z, x = y || z → y && z = false →
    dots x (λ c, negb (refusal c)) h = (dots y (λ c, negb (reply (λ code, negb (code =? 250)%Z) c)) h
      + dots z (reply unclear_code) h)%nat); [|by apply H].
  induction h as [|c h IH]; intros x y z -> Hy; [done|]. cbn [dots].
  assert (Hc : negb (refusal c) = negb (reply (λ code, negb (code =? 250)%Z) c) || reply unclear_code c ∧
               negb (reply (λ code, negb (code =? 250)%Z) c) && reply unclear_code c = false).
  { destruct c as [X c r]. unfold refusal, reply. destruct c; try done. destruct r as [code|]; [|done].
    unfold unclear_code. destruct (Z.eqb_spec code 250) as [->|]; [done|]. by destruct (refused_code code). }
  rewrite (IH _ _ _ (proj1 Hc) (proj2 Hc)). destruct y, z, (is_dot c); cbn in *; done || lia.
Qed.

(** ** One attempt

    Before it, [prior] final dots were accepted or left without an answer, of which [excused] are excused by the
    loss of a Worker, and Dex may report [base]. *)
Section Attempt.
Context (base : bool → Prop) (prior excused : nat).

Definition idle (h : history) : Prop := (prior + suspect h <= excused)%nat.
Definition claimed (h : history) : Prop := ∀ b, recorded base h b → b = true.

(** At most one submission more than excused, and that one only under a recorded claim. *)
Definition once (h : history) : Prop :=
  (prior + suspect h <= S excused)%nat ∧ ((prior + suspect h)%nat = S excused → claimed h).

Lemma unrefused_le b h : (unrefused b h <= suspect h)%nat.
Proof. unfold suspect, unrefused. destruct h as [|c h]; [done|]. cbn [dots]. destruct (is_dot c), b; cbn; lia. Qed.

(** Everything but a heartbeat and the final dot. *)
Definition quiet (X : Type) (c : cmd X) : bool :=
  match c with
  | Heartbeat _ | HasHeartbeat => false
  | SmtpSend b => negb (bool_decide (b = final_dot))
  | _ => true
  end.

Lemma quiet_call {X} (c : cmd X) r h : quiet X c = true →
  (suspect (mkCall c r :: h) <= suspect h)%nat ∧ ∀ b, recorded base (mkCall c r :: h) b ↔ recorded base h b.
Proof.
  intros Hq. split; [|by destruct c].
  assert (Hd : is_dot (mkCall c r) = false) by (destruct c; try done; by apply negb_true_iff in Hq).
  unfold suspect at 1, unrefused. cbn [dots]. rewrite Hd. apply unrefused_le.
Qed.

Lemma quiet_claimed {X} (c : cmd X) r h : quiet X c = true → claimed h → claimed (mkCall c r :: h).
Proof. intros Hq Hc b Hb. apply Hc. by apply (proj2 (quiet_call c r h Hq) b). Qed.

Lemma quiet_idle {X} (c : cmd X) r h : quiet X c = true → idle h → idle (mkCall c r :: h).
Proof. unfold idle. intros Hq Hi. pose proof (proj1 (quiet_call c r h Hq)). lia. Qed.

Lemma quiet_once {X} (c : cmd X) r h : quiet X c = true → once h → once (mkCall c r :: h).
Proof.
  intros Hq [H1 H2]. pose proof (proj1 (quiet_call c r h Hq)). split; [lia|]. intros Hs. apply quiet_claimed; [done|].
  apply H2. lia.
Qed.

Abbreviation once_kept := (keeps (dex_answer base) once).

(** A quiet program keeps what quiet calls keep. *)
Lemma quiet_keeps {A} (p : prog A) (R : history → Prop) h :
  (∀ X (c : cmd X) r h, quiet X c = true → R h → R (mkCall c r :: h)) →
  only quiet p → once h → R h → once_kept p h (λ _ h', R h' ∧ once h').
Proof.
  intros HR Hp Ho Hh. apply (only_keeps (dex_answer base) quiet p once R h); try done. intros h0 X c r H1 H2 Hq.
  split; [by apply quiet_once|by apply HR].
Qed.

Lemma quiet_bind {A B} (p : prog A) (f : A → prog B) (R : history → Prop) h Q :
  (∀ X (c : cmd X) r h, quiet X c = true → R h → R (mkCall c r :: h)) →
  only quiet p → once h → R h →
  (∀ a h', once h' → R h' → once_kept (f a) h' Q) → (∀ e h', once h' → R h' → Q (Err e) h') →
  once_kept (p ≫= f) h Q.
Proof.
  intros HR Hp Ho Hh Hf He. apply keeps_bind. eapply keeps_weaken; [|by apply (quiet_keeps p R h)].
  intros [a|e] h' [H1 H2]; [by apply Hf|by apply He].
Qed.

Section Programs.
Context `{EmailLibrary}.

Lemma quiet_open_smtp cl c op : only quiet (open_smtp cl c op).
Proof. unfold open_smtp, ehlo, classified. cbv zeta. repeat only_step; done. Qed.

Lemma quiet_recipients l : only quiet (smtp_recipients l).
Proof. induction l as [|a l IH]; cbn [smtp_recipients]; [done|]. repeat first [apply IH | only_step]; done. Qed.

Lemma quiet_resolve op : only quiet (resolve_credentials op).
Proof. unfold resolve_credentials. repeat only_step; done. Qed.

Lemma quiet_read cl c reference op text : only quiet (_read_message cl c reference op text).
Proof.
  unfold _read_message, open_imap, _imap_select, _fetch, _imap_close, or_invalid, _parse_message, _fetch_text, classified,
    reclassified. cbv zeta. repeat only_step; done.
Qed.

Lemma quiet_render sender name to cc reply_to subject text i in_reply_to references :
  only quiet (_render_message sender name to cc reply_to subject text i in_reply_to references).
Proof. unfold _render_message. cbv zeta. repeat only_step; done. Qed.

(** How a submission may end: under the claim, and a failure that is not uncertain left nothing that
    may have been accepted. *)
Definition settled {A} (r : mres A) (h : history) : Prop :=
  claimed h ∧ (prior + suspect h <= S excused)%nat ∧
  match r with Err (EMail f) => outcome f ≠ OUncertain → idle h | _ => True end.

Definition unsent (h : history) : Prop := idle h ∧ claimed h.

Lemma unsent_quiet {X} (c : cmd X) r h : quiet X c = true → unsent h → unsent (mkCall c r :: h).
Proof. intros Hq [Hi Hc]. split; [by apply quiet_idle|by apply quiet_claimed]. Qed.

Lemma unsent_once h : unsent h → once h.
Proof. intros [Hi Hc]. split; [unfold idle in Hi; lia|done]. Qed.

Lemma unsent_settled {A} (r : mres A) h : unsent h → settled r h.
Proof. intros [Hi Hc]. split; [done|]. split; [unfold idle in Hi; lia|]. by destruct r as [|[]]. Qed.

Lemma settled_once {A} (r : mres A) h : settled r h → once h.
Proof. intros (Hc & Hs & _). by split. Qed.

Lemma settled_quiet {A X} (r : mres A) (c : cmd X) r' h : quiet X c = true → settled r h → settled r (mkCall c r' :: h).
Proof.
  intros Hq (Hc & Hs & Hr). split; [by apply quiet_claimed|]. pose proof (proj1 (quiet_call c r' h Hq)).
  split; [lia|]. destruct r as [|[]]; try done. intros Ho. apply quiet_idle; [done|by apply Hr].
Qed.

(** The final dot and its answer. *)
Lemma dot_settled op h : unsent h →
  once_kept
    (code ← raised_as (call_ (SmtpSetTimeout 90) ≫= λ _, call_ (SmtpSend final_dot) ≫= λ _, call_ SmtpGetReply)
       (mail_error OUncertain TRANSPORT op "the message was submitted but the SMTP server's answer did not arrive");
     if negb (code =? 250)%Z then fail (ESMTPResponse code) else Ret (Ok ())) h
    (λ r h', settled r h' ∧ match r with Err (ESMTPResponse _) => idle h' | Err (EMail _) | Ok _ => True | _ => False end).
Proof.
  intros Hh. assert (Hdot : ∀ r h, unsent h → once (mkCall (SmtpSend final_dot) r :: h) ∧
    claimed (mkCall (SmtpSend final_dot) r :: h) ∧ (prior + suspect (mkCall (SmtpSend final_dot) r :: h) <= S excused)%nat).
  { clear. intros r h [Hi Hc]. assert (Hs : suspect (mkCall (SmtpSend final_dot) r :: h) = S (suspect h)).
    { unfold suspect, unrefused. cbn [dots is_dot reply]. rewrite bool_decide_eq_true_2 by done. done. }
    unfold idle in Hi. split_and!; [split; [lia|by intros _]|done|lia]. }
  apply keeps_bind. unfold raised_as. apply keeps_catch. apply keeps_bind. apply keeps_call. intros r1 Hr1.
  assert (H1 : unsent (mkCall (SmtpSetTimeout 90) r1 :: h)) by by apply unsent_quiet.
  split; [by apply unsent_once|]. destruct r1 as [u|e].
  2:{ cbn [keeps fail]. split; [|done]. by apply unsent_settled. }
  apply keeps_bind. apply keeps_call. intros r2 Hr2. destruct (Hdot r2 _ H1) as (Ho2 & Hc2 & Hs2).
  split; [done|]. destruct r2 as [u2|e].
  2:{ cbn [keeps fail]. split; [|done]. split; [done|]. split; [lia|]. done. }
  apply keeps_call. intros r3 Hr3.
  assert (Hc3 : claimed (mkCall SmtpGetReply r3 :: mkCall (SmtpSend final_dot) (Ok u2) :: mkCall (SmtpSetTimeout 90) (Ok u) :: h))
    by by apply quiet_claimed.
  pose proof (proj1 (quiet_call SmtpGetReply r3 (mkCall (SmtpSend final_dot) (Ok u2) :: mkCall (SmtpSetTimeout 90) (Ok u) :: h) eq_refl)) as Hs3.
  split; [split; [lia|done]|]. destruct r3 as [code|e].
  2:{ cbn [keeps fail]. split; [|done]. split; [done|]. split; [lia|]. done. }
  destruct (negb (code =? 250)%Z) eqn:Ecode; cbn [keeps fail].
  - assert (Hi : idle (mkCall SmtpGetReply (Ok code) :: mkCall (SmtpSend final_dot) (Ok u2) :: mkCall (SmtpSetTimeout 90) (Ok u) :: h)).
    { unfold idle, suspect, unrefused. cbn [dots is_dot reply]. rewrite Ecode, andb_false_r. cbn [andb negb Nat.add]. apply Hh. }
    split; [by apply unsent_settled|done].
  - split; [|done]. split; [done|]. by split; [lia|].
Qed.

Lemma transaction_settled features sender l content op h : unsent h →
  once_kept (smtp_transaction features sender l content op) h (λ r h', settled r h').
Proof.
  intros Hh. unfold smtp_transaction. apply keeps_catch.
  assert (Hend : ∀ (r : mres unit) h', settled r h' → match r with Err (EMail _) => True | Err _ => idle h' | Ok _ => True end →
    match r with
    | Ok a => settled (Ok a) h'
    | Err e => once_kept (match e with EMail f => fail (EMail f)
        | _ => fail (EMail (classify_mail_error e op "SMTP" "submission")) end) h' (λ r h', settled (A:=unit) r h')
    end).
  { intros [u|e] h' Hs Hi; [done|]. destruct e; cbn [keeps fail]; try (apply unsent_settled; split; [exact Hi|apply Hs]). exact Hs. }
  assert (Hstop : ∀ (e : error) h', unsent h' → match (Err e : mres unit) with
    | Ok a => settled (Ok a) h'
    | Err e => once_kept (match e with EMail f => fail (EMail f)
        | _ => fail (EMail (classify_mail_error e op "SMTP" "submission")) end) h' (λ r h', settled (A:=unit) r h')
    end).
  { intros e h' Hu. apply (Hend (Err e)); [by apply unsent_settled|]. destruct e; try done; apply Hu. }
  apply (quiet_bind _ _ unsent); [intros; by apply unsent_quiet|done|by apply unsent_once|done| |by intros; apply Hstop].
  intros code h1 _ H1. destruct (negb _); [by apply Hstop|].
  apply (quiet_bind _ _ unsent); [intros; by apply unsent_quiet|apply quiet_recipients|by apply unsent_once|done| |by intros; apply Hstop].
  intros _ h2 _ H2.
  apply (quiet_bind _ _ unsent); [intros; by apply unsent_quiet|done|by apply unsent_once|done| |by intros; apply Hstop].
  intros _ h3 _ H3.
  apply (quiet_bind _ _ unsent); [intros; by apply unsent_quiet|done|by apply unsent_once|done| |by intros; apply Hstop].
  intros code' h4 _ H4. destruct (negb _); [by apply Hstop|].
  apply (quiet_bind _ _ unsent); [intros; by apply unsent_quiet| |by apply unsent_once|done| |by intros; apply Hstop].
  { unfold raised_as. apply only_catch; [|intros e; apply only_fail]. apply only_call. cbn [quiet].
    rewrite bool_decide_eq_false_2 by apply data_not_dot. done. }
  intros _ h5 _ H5. eapply keeps_weaken; [|by apply dot_settled]. intros r h' [Hs Hr].
  apply Hend; [done|]. destruct r as [u|[]]; done.
Qed.

Lemma submit_settled cl c sender l content op h : unsent h →
  once_kept (_smtp_submit cl c sender l content op) h (λ r h', settled r h').
Proof.
  intros Hh. unfold _smtp_submit.
  apply (quiet_bind _ _ unsent); [intros; by apply unsent_quiet|apply quiet_open_smtp|by apply unsent_once|done|
    |by intros; apply unsent_settled].
  intros features h1 _ H1. apply keeps_finally.
  assert (Hbody : once_kept (size ← lift (size_limit features);
     if match size with Some n => (0 <? n)%Z && (n <? Z.of_nat (length content))%Z | None => false end then
       fail (EMail (mail_error ORejected PROVIDER_REJECTION op
         "the message is larger than the SMTP server's SIZE limit"))
     else smtp_transaction features sender l content op) h1 (λ r h', settled r h')).
  { apply keeps_bind. cbn [lift keeps]. destruct (of_res (size_limit features)) as [size|e]; [|by apply unsent_settled].
    destruct (match size with Some _ => _ | None => _ end); [by apply unsent_settled|by apply transaction_settled]. }
  eapply keeps_weaken; [|exact Hbody]. intros r h2 H2.
  apply keeps_catch. apply keeps_call. intros r1 [Hr1 _].
  assert (Hs1 : settled r (mkCall SmtpQuit r1 :: h2)) by by apply settled_quiet.
  split; [by eapply settled_once|]. destruct r1 as [u|e]; [done|].
  apply keeps_call. intros r2 [Hr2 _].
  assert (Hs2 : settled r (mkCall SmtpClose r2 :: mkCall SmtpQuit (Err e) :: h2)) by by apply settled_quiet.
  split; [by eapply settled_once|]. destruct r2 as [u2|e2]; [done|].
  destruct Hs2 as (Hc & Hs & _). split; [done|]. split; [done|]. by destruct e2.
Qed.

(** *** The attempt *)

Lemma idle_once h : idle h → once h.
Proof. unfold idle. intros Hi. split; lia. Qed.

Lemma release_once {A} context (p : prog A) h : idle h → (∀ h', once h' → once_kept p h' (λ _ h', once h')) →
  once_kept (_release_submission context ≫= λ _, p) h (λ _ h', once h').
Proof.
  intros Hi Hp. pose proof (idle_once h Hi) as Ho.
  apply keeps_bind. unfold _release_submission. destruct context; [|by apply Hp].
  apply keeps_catch, keeps_call. intros r _.
  assert (Ho' : once (mkCall (Heartbeat None) r :: h)) by by apply idle_once.
  split; [done|]. destruct r as [u|e]; by apply Hp.
Qed.

Lemma attempt_once cl context call_id c sender l content sent op h : idle h →
  once_kept (_submit_attempt cl context call_id c sender l content sent op) h (λ _ h', once h').
Proof.
  intros Hi. pose proof (idle_once h Hi) as Ho.
  unfold _submit_attempt. apply keeps_bind. unfold _claim_submission. cbv zeta. destruct (negb context).
  { cbn [lift keeps]. by destruct (MutationAttempt _). }
  apply keeps_catch, keeps_bind, keeps_call. intros r _.
  assert (Hi' : idle (mkCall (Heartbeat (Some call_id)) r :: h)) by exact Hi.
  pose proof (idle_once _ Hi') as Ho'.
  split; [done|]. destruct r as [u|e]; [|cbn [lift keeps]; by destruct (MutationAttempt _)].
  cbn [keeps]. assert (Hu : unsent (mkCall (Heartbeat (Some call_id)) (Ok u) :: h)).
  { split; [done|]. intros b [Hb|[? _]]; [done|done]. }
  apply keeps_catch, keeps_bind. eapply keeps_weaken; [|by apply submit_settled].
  intros r h' Hs. pose proof (settled_once _ _ Hs) as Ho1. destruct r as [u'|e].
  { cbn [lift keeps]. by destruct (MutationAttempt (branch_result _ _ _ _)). }
  destruct e as [f| | | | | | | | |]; [|done..]. case_bool_decide as Hf; [done|]. cbn [keeps].
  apply release_once; [by apply Hs|]. intros h'' Hh''. by destruct (bool_decide _).
Qed.

(** Whatever comes before the claim is asked for. *)
Lemma quiet_once_bind {A B} (p : prog A) (f : A → prog B) h :
  only quiet p → once h → (∀ a h', once h' → once_kept (f a) h' (λ _ h', once h')) →
  once_kept (p ≫= f) h (λ _ h', once h').
Proof. intros Hp Hh Hf. apply (quiet_bind _ _ once); try done; [intros; by apply quiet_once|intros; by apply Hf]. Qed.

Lemma claim_checked {A} context (p q : prog A) h : once h →
  (∀ h', once h' → once_kept p h' (λ _ h', once h')) → (∀ h', idle h' → once_kept q h' (λ _ h', once h')) →
  once_kept (claimed ← _has_submission_claim context; if (claimed : bool) then p else q) h (λ _ h', once h').
Proof.
  intros Hh Hp Hq. apply keeps_bind. unfold _has_submission_claim. destruct (negb context); [by apply Hp|].
  apply keeps_catch, keeps_call. intros r [_ Hr].
  assert (Ho : once (mkCall HasHeartbeat r :: h)) by exact Hh.
  split; [done|]. destruct r as [[]|e]; [by apply Hp| |by apply Hp].
  apply Hq. destruct Hh as [H1 H2]. unfold idle. change (suspect (mkCall HasHeartbeat (Ok false) :: h)) with (suspect h).
  destruct (Nat.eq_dec (prior + suspect h) (S excused)) as [Heq|]; [|lia]. by specialize (H2 Heq false Hr).
Qed.

Lemma quiet_handled {A} (p : prog A) (answer : MailFailure → res A) h :
  once_kept p h (λ _ h', once h') → once_kept (on_mail_failure p (λ f, lift (answer f))) h (λ _ h', once h').
Proof. intros Hp. apply keeps_catch. eapply keeps_weaken; [|exact Hp]. by intros [a|[]] h' Hh'. Qed.

Lemma quiet_value_handled {A} (p : prog A) (answer : pystr → res A) h :
  once_kept p h (λ _ h', once h') → once_kept (on_value_error p (λ m, lift (answer m))) h (λ _ h', once h').
Proof.
  intros Hp. apply keeps_catch. eapply keeps_weaken; [|exact Hp]. intros [a|[]] h' Hh'; try done. by destruct (isinst _ _).
Qed.

Lemma send_once cl context call input h : once h →
  once_kept (SendMessage.invoke cl context call input) h (λ _ h', once h').
Proof.
  intros Hh. unfold SendMessage.invoke. cbv zeta. apply quiet_once_bind; [done|done|]. intros refused h1 H1. destruct refused; [done|].
  apply quiet_value_handled, quiet_handled. apply quiet_once_bind; [apply quiet_resolve|done|]. intros c h2 H2.
  apply quiet_once_bind; [done|done|]. intros a h3 H3. apply quiet_once_bind; [done|done|]. intros i h4 H4.
  apply quiet_once_bind; [apply quiet_render|done|]. intros [content now] h5 H5.
  apply claim_checked; [done|done|]. intros h6 H6. by apply attempt_once.
Qed.

Lemma reply_once cl context call input h : once h →
  once_kept (ReplyToMessage.invoke cl context call input) h (λ _ h', once h').
Proof.
  intros Hh. unfold ReplyToMessage.invoke. cbv zeta. apply quiet_once_bind; [done|done|]. intros refused h1 H1. destruct refused; [done|].
  apply quiet_value_handled, quiet_handled. apply quiet_once_bind; [apply quiet_resolve|done|]. intros c h2 H2.
  apply quiet_once_bind; [done|done|]. intros a h3 H3. apply quiet_once_bind; [done|done|]. intros i h4 H4.
  apply claim_checked; [done|done|]. intros h5 H5.
  assert (Hidle : ∀ X (c : cmd X) r h, quiet X c = true → idle h → idle (mkCall c r :: h)) by (intros; by apply quiet_idle).
  pose proof idle_once as Honce.
  apply (quiet_bind _ _ idle); [done|apply quiet_read|by apply Honce|done| |done]. intros source h6 _ H6.
  destruct (_ =? 0)%nat; [by apply Honce|]. destruct (_ <? _)%nat; [by apply Honce|].
  apply (quiet_bind _ _ idle); [done|done|by apply Honce|done| |done]. intros b h7 _ H7.
  apply (quiet_bind _ _ idle); [done|apply quiet_render|by apply Honce|done| |done]. intros [content now] h8 _ H8.
  by apply attempt_once.
Qed.

(** ** Attempts *)

Inductive submitting : prog (Attempt SentMessage) → Prop :=
  | submit_send cl context call input : submitting (SendMessage.invoke cl context call input)
  | submit_reply cl context call input : submitting (ReplyToMessage.invoke cl context call input).

Lemma attempt_runs p h o : once [] → submitting p → runs (dex_answer base) p [] h o → once h.
Proof.
  intros Ho Hp Hr. eapply (proj1 (keeps_runs (dex_answer base) once p [] h o (λ _ h, once h) Hr Ho _)).
  Unshelve. destruct Hp; [by apply send_once|by apply reply_once].
Qed.

End Programs.
End Attempt.

Section All.
Context `{EmailLibrary}.

(** The attempts Dex runs for one call, one after another, with any client, context and input:
    [attempts n k base] when they left [n] final dots that the server did not refuse in its next reply,
    [k] counts what excuses them, and Dex may now report [base].  An attempt runs to its end or is cut
    short between two calls, and what it handed over reaches Dex; or its Worker is lost and Dex may have
    any of its frames, or none, and that is an excuse; so is an answer to a final dot that is neither an
    acceptance nor a refusal. *)
Inductive attempts : nat → nat → (bool → Prop) → Prop :=
  | no_attempt : attempts 0 0 (λ b, b = false)
  | one_more n k base p h o :
      attempts n k base → submitting p → runs (dex_answer base) p [] h o →
      attempts (n + submissions h) (k + unclear h) (recorded base h)
  | one_lost n k base p h o :
      attempts n k base → submitting p → runs (dex_answer base) p [] h o →
      attempts (n + submissions h) (S (k + unclear h)) (λ _, True).

Lemma attempts_once n k base : attempts n k base → ∃ m l u, n = (m + u)%nat ∧ k = (l + u)%nat ∧
  (m <= S l)%nat ∧ (m = S l → ∀ b, base b → b = true).
Proof.
  induction 1 as [|n k base p h o _ (m & l & u & -> & -> & Hm & Hb) Hp Hr|n k base p h o _ (m & l & u & -> & -> & Hm & Hb) Hp Hr].
  - exists 0%nat, 0%nat, 0%nat. split_and!; lia.
  - destruct (attempt_runs base m l p h o) as [H1 H2]; [|done..|].
    { split; unfold suspect; cbn; [lia|]. intros Heq b Hb'. apply Hb; [lia|done]. }
    exists (m + suspect h)%nat, l, (u + unclear h)%nat. rewrite submissions_split. split_and!; [lia|lia|done|done].
  - destruct (attempt_runs base m l p h o) as [H1 H2]; [|done..|].
    { split; unfold suspect; cbn; [lia|]. intros Heq b Hb'. apply Hb; [lia|done]. }
    exists (m + suspect h)%nat, (S l), (u + unclear h)%nat. rewrite submissions_split. split_and!; lia.
Qed.

(** C3: a message is submitted at most once, but for two things the program cannot help.  Over any number
    of attempts of a call, one after another, each run to its end or stopped between any two calls,
    whatever the mail servers answer and however heartbeats fail, the final dots that the server did not
    refuse (4xx or 5xx) in its next reply are at most one, plus one for each Worker that was lost with an
    accepted claim before Dex had stored it, plus one for each answer to a final dot that is neither 250
    nor a refusal.  So an accepted message, and one whose answer was lost, are not sent again while the
    claims reach Dex: a cut attempt alone, or a failed heartbeat, excuses nothing. *)
Theorem submitted_at_most_once n k base : attempts n k base → (n <= S k)%nat.
Proof. intros (m & l & u & -> & -> & Hm & _)%attempts_once. lia. Qed.

(** ** What [sent] says *)

(** The calls of an accepted submission, the newest first: the envelope, the recipients' codes, DATA, the
    content, the final dot and its acceptance. *)
Definition rcpt_call (a : pystr) (code : Z) : call := mkCall (SmtpRcpt a) (Ok code).
Definition accepted_calls (sender : pystr) (options : list pystr) (l : list pystr) (codes : list Z) (content : list N) : history :=
  [mkCall SmtpGetReply (Ok 250%Z); mkCall (SmtpSend final_dot) (Ok ()); mkCall (SmtpSetTimeout 90) (Ok ());
   mkCall (SmtpSend (data_lines content)) (Ok ()); mkCall SmtpGetReply (Ok 354%Z); mkCall (SmtpPutCmd "DATA") (Ok ())]
  ++ rev (zip_with rcpt_call l codes) ++ [mkCall (SmtpMail sender options) (Ok 250%Z)].

Definition closing (c : call) : bool :=
  match c with mkCall c _ => match c with SmtpQuit | SmtpClose => true | _ => false end end.

(** The newest calls are an accepted submission, up to the connection's end. *)
Definition accepted (sender : pystr) (l : list pystr) (content : list N) (h : history) : Prop :=
  ∃ after options codes before,
    h = after ++ accepted_calls sender options l codes content ++ before ∧ forallb closing after = true ∧
    length codes = length l ∧ Forall (λ code, code = 250%Z ∨ code = 251%Z) codes.

Abbreviation runs_to := (keeps any_answer (λ _, True)).

Lemma keeps_top {A} (p : prog A) h (Q : mres A → history → Prop) : (∀ r h', Q r h') → runs_to p h Q.
Proof. intros HQ. revert h. induction p as [r|X c k IH]; intros h; [apply HQ|]. intros r _. by split. Qed.

Lemma recipients_accepted l h :
  runs_to (smtp_recipients l) h (λ r h', is_ok r = true → ∃ codes,
    h' = rev (zip_with rcpt_call l codes) ++ h ∧ length codes = length l ∧ Forall (λ code, code = 250%Z ∨ code = 251%Z) codes).
Proof.
  revert h. induction l as [|a l IH]; intros h; cbn [smtp_recipients]; [intros _; by exists []|].
  apply keeps_bind, keeps_call. intros r _. split; [done|]. destruct r as [code|e]; [|done].
  destruct (negb _) eqn:E; [done|]. apply negb_false_iff, orb_true_iff in E.
  eapply keeps_weaken; [|apply IH]. intros r h' Hr Hok. destruct (Hr Hok) as (codes & -> & Hl & Hc).
  exists (code :: codes). cbn [zip_with rev length]. split_and!; [by rewrite <- app_assoc|by f_equal|].
  constructor; [|done]. destruct E as [E|E]; apply Z.eqb_eq in E; [by left|by right].
Qed.

Lemma transaction_accepted features sender l content op h :
  runs_to (smtp_transaction features sender l content op) h (λ r h', is_ok r = true → accepted sender l content h').
Proof.
  unfold smtp_transaction. apply keeps_catch.
  set (Q := λ (r : mres unit) (h' : history), match r with
    | Ok a => is_ok (Ok (E:=error) a) = true → accepted sender l content h'
    | Err e => runs_to (match e with EMail f => fail (EMail f)
        | _ => fail (EMail (classify_mail_error e op "SMTP" "submission")) end) h'
        (λ (r : mres unit) h', is_ok r = true → accepted sender l content h') end).
  assert (Hstop : ∀ e h', Q (Err e) h') by (intros e h'; by destruct e). change (runs_to ?p h Q) with (runs_to p h Q).
  apply keeps_bind, keeps_call. intros r1 _. split; [done|]. destruct r1 as [code1|e]; [|apply Hstop].
  destruct (negb (code1 =? 250)%Z) eqn:E1; [apply Hstop|]. apply negb_false_iff, Z.eqb_eq in E1 as ->.
  apply keeps_bind. eapply keeps_weaken; [|apply recipients_accepted]. intros [u2|e] h2 H2; [|apply Hstop].
  destruct (H2 eq_refl) as (codes & -> & Hl & Hc).
  apply keeps_bind, keeps_call. intros r3 _. split; [done|]. destruct r3 as [[]|e]; [|apply Hstop].
  apply keeps_bind, keeps_call. intros r4 _. split; [done|]. destruct r4 as [code4|e]; [|apply Hstop].
  destruct (negb (code4 =? 354)%Z) eqn:E4; [apply Hstop|]. apply negb_false_iff, Z.eqb_eq in E4 as ->.
  apply keeps_bind, keeps_catch, keeps_call. intros r5 _. split; [done|]. destruct r5 as [[]|e]; [|apply Hstop].
  apply keeps_bind, keeps_catch, keeps_bind, keeps_call. intros r6 _. split; [done|]. destruct r6 as [[]|e]; [|apply Hstop].
  apply keeps_bind, keeps_call. intros r7 _. split; [done|]. destruct r7 as [[]|e]; [|apply Hstop].
  apply keeps_call. intros r8 _. split; [done|]. destruct r8 as [code8|e]; [|apply Hstop].
  destruct (negb (code8 =? 250)%Z) eqn:E8; [apply Hstop|]. apply negb_false_iff, Z.eqb_eq in E8 as ->.
  intros _. eexists [], _, codes, h. split_and!; [|done|done|done]. cbn [app]. unfold accepted_calls. cbn [app].
  rewrite <- app_assoc. reflexivity.
Qed.

Lemma submit_accepted cl c sender l content op h :
  runs_to (_smtp_submit cl c sender l content op) h (λ r h', is_ok r = true → accepted sender l content h').
Proof.
  unfold _smtp_submit. apply keeps_bind.
  apply keeps_top. intros [features|e] h1; [|done]. apply keeps_finally.
  assert (Hbody : runs_to (size ← lift (size_limit features);
     if match size with Some n => (0 <? n)%Z && (n <? Z.of_nat (length content))%Z | None => false end then
       fail (EMail (mail_error ORejected PROVIDER_REJECTION op
         "the message is larger than the SMTP server's SIZE limit"))
     else smtp_transaction features sender l content op) h1 (λ r h', is_ok r = true → accepted sender l content h')).
  { apply keeps_bind. cbn [lift keeps]. destruct (of_res (size_limit features)) as [size|e]; [|done].
    destruct (match size with Some _ => _ | None => _ end); [done|apply transaction_accepted]. }
  eapply keeps_weaken; [|exact Hbody]. intros r h2 H2.
  assert (Hafter : ∀ (c : cmd unit) r' h, closing (mkCall c r') = true → accepted sender l content h →
    accepted sender l content (mkCall c r' :: h)).
  { intros c' r' h' Hc (after & options & codes & before & -> & Ha & Hl & Hcodes).
    exists (mkCall c' r' :: after), options, codes, before. cbn [app forallb]. by rewrite Hc, Ha. }
  apply keeps_catch, keeps_call. intros r1 _. split; [done|]. destruct r1 as [u|e].
  { intros Hok. apply Hafter; [done|by apply H2]. }
  apply keeps_call. intros r2 _. split; [done|]. destruct r2 as [u2|e2]; [|done].
  intros Hok. do 2 (apply Hafter; [done|]). by apply H2.
Qed.

(** The attempt reports [sent]: this message, accepted. *)
Definition reports (sender : pystr) (l : list pystr) (content : list N) (sent : SentMessage) (r : mres (Attempt SentMessage))
    (h : history) : Prop :=
  ∀ a, r = Ok a → a_branch a = lit "sent" → a_value a = Some sent ∧ accepted sender l content h.

Lemma other_branch a x sender l content sent h : a_branch x ≠ lit "sent" →
  MutationAttempt x = Ok a → reports sender l content sent (Ok a) h.
Proof. intros Hx Ha a' Heq Hb. apply Ok_inj in Heq as <-. apply MutationAttempt_Ok in Ha as ->. done. Qed.

Lemma lifted_branch x sender l content sent h : a_branch x ≠ lit "sent" →
  reports sender l content sent (of_res (MutationAttempt x)) h.
Proof. intros Hx. destruct (MutationAttempt x) as [a|e] eqn:E; [by eapply other_branch|done]. Qed.

Lemma attempt_reports cl context call_id c sender l content sent op h :
  runs_to (_submit_attempt cl context call_id c sender l content sent op) h (reports sender l content sent).
Proof.
  unfold _submit_attempt. apply keeps_bind. unfold _claim_submission. cbv zeta.
  assert (Hrefused : ∀ h (f : option (Attempt SentMessage) → prog (Attempt SentMessage)), (∀ a, f (Some a) = Ret (Ok a)) →
    runs_to (lift (attempt ← MutationAttempt (retry (not_recorded op) (FFin 0 0)); Ok (Some attempt))) h
      (λ r h', match r with Ok a => runs_to (f a) h' (reports sender l content sent) | Err e => reports sender l content sent (Err e) h' end)).
  { intros h' f Hf. cbn [lift keeps]. destruct (MutationAttempt _) as [a|e] eqn:Ea; [|done]. cbn [mbind result_bind of_res].
    rewrite Hf. cbn [keeps]. eapply other_branch; [|exact Ea]. done. }
  destruct (negb context); [by apply Hrefused|]. apply keeps_catch, keeps_bind, keeps_call. intros r _. split; [done|].
  destruct r as [[]|e]; [|by apply Hrefused]. cbn [keeps].
  apply keeps_catch, keeps_bind. eapply keeps_weaken; [|apply submit_accepted]. intros [[]|e] h1 H1.
  - cbn [lift keeps]. destruct (MutationAttempt (branch_result _ _ _ _)) as [a|e] eqn:Ea; [|done]. cbn [of_res].
    intros a' Heq _. apply Ok_inj in Heq as <-. apply MutationAttempt_Ok in Ea as ->. split; [done|by apply H1].
  - destruct e as [f| | | | | | | | |]; [|done..]. destruct (bool_decide _); [by apply lifted_branch|].
    assert (Hend : ∀ h, runs_to (if bool_decide (outcome f = ORetry) then lift (MutationAttempt (retry (failure f) (FFin 0 0)))
      else lift (MutationAttempt (branch_result "providerRejected" no_sent (receipt_for []) (Some (failure f))))) h
      (reports sender l content sent)) by (intros h'; destruct (bool_decide _); by apply lifted_branch).
    apply keeps_bind. unfold _release_submission. destruct context; [|apply Hend].
    apply keeps_catch, keeps_call. intros r _. split; [done|]. destruct r; apply Hend.
Qed.

(** What [sendMessage] reports as sent: the input's message under its own Message-ID, accepted for every
    recipient once, with no header that names the blind copies. *)
Definition send_reports (input : SendMessage.Input) (r : mres (Attempt SentMessage)) (h : history) : Prop :=
  ∀ a, r = Ok a → a_branch a = lit "sent" →
  ∃ sent content headers,
    a_value a = Some sent ∧
    recipients sent = _unique_recipients [SendMessage.to input; SendMessage.cc input; SendMessage.bcc input] ∧
    as_bytes headers (SendMessage.text input) = Ok content ∧
    (lit "To", Prelude.join ", " (SendMessage.to input)) ∈ headers ∧
    (lit "Message-ID", angle (s_message_id sent)) ∈ headers ∧ (lit "Bcc" ∉ map fst headers) ∧
    accepted (s_from sent) (recipients sent) content h.

Lemma reported_other input x h : a_branch x ≠ lit "sent" → send_reports input (of_res (MutationAttempt x)) h.
Proof. intros Hx a Ha Hb. destruct (MutationAttempt x) as [a'|e] eqn:E; [|done]. apply MutationAttempt_Ok in E as ->. by apply Ok_inj in Ha as <-. Qed.

Lemma render_headers sender name to cc reply_to subject text i in_reply_to references h :
  runs_to (_render_message sender name to cc reply_to subject text i in_reply_to references) h
    (λ r _, ∀ content now, r = Ok (content, now) → ∃ headers, as_bytes headers text = Ok content ∧
       (lit "To", Prelude.join ", " to) ∈ headers ∧ (lit "Message-ID", angle i) ∈ headers ∧ (lit "Bcc" ∉ map fst headers)).
Proof.
  unfold _render_message. cbv zeta. apply keeps_bind. cbn [lift keeps]. destruct (address_text name sender) as [from|e]; [|done].
  cbn [of_res]. apply keeps_bind, keeps_call. intros r _. split; [done|]. destruct r as [now|e]; [|done].
  apply keeps_bind. cbn [lift keeps].
  match goal with |- context [as_bytes ?hs text] => set (headers := hs) end.
  destruct (as_bytes headers text) as [content|e] eqn:Hb; cbn [of_res]; [|done].
  intros content' now' Heq. apply Ok_inj in Heq. injection Heq as <- <-. exists headers. split; [done|]. unfold headers.
  split_and!; [set_solver|set_solver|]. rewrite !map_app. cbn [map fst].
  destruct cc, (truthy reply_to), (truthy in_reply_to), references; cbn [map fst app];
    rewrite !not_elem_of_cons; (split_and!; try discriminate; apply not_elem_of_nil).
Qed.

Lemma send_reports_kept cl context call input h :
  runs_to (SendMessage.invoke cl context call input) h (send_reports input).
Proof.
  unfold SendMessage.invoke. cbv zeta. apply keeps_bind. cbn [lift keeps]. destruct (SendMessage.refused input) as [refused|e]; [|done].
  cbn [of_res]. destruct refused; [by apply reported_other|].
  set (Q := λ (r : mres (Attempt SentMessage)) h, send_reports input r h).
  assert (HQ : ∀ e h, Q (Err e) h) by done. change (runs_to ?p h (send_reports input)) with (runs_to p h Q).
  apply keeps_catch.
  set (Q1 := λ (r : mres (Attempt SentMessage)) h, match r with Ok a => Q (Ok a) h | Err e => runs_to (match e with
    EPy x => if isinst x ValueError then lift (defect_branch MutationAttempt no_sent "sendMessage" (exn_msg x)) else fail e
    | _ => fail e end) h Q end).
  assert (HQ1 : ∀ e h, Q1 (Err e) h).
  { intros e h'. destruct e as [| | | | | | | | |x]; try done. cbn [Q1]. unfold Q1.
    destruct (isinst x ValueError); [by apply reported_other|done]. }
  change (runs_to ?p h (λ r h', _)) with (runs_to p h Q1). apply keeps_catch.
  set (Q2 := λ (r : mres (Attempt SentMessage)) h, match r with Ok a => Q1 (Ok a) h | Err e => runs_to (match e with
    EMail f => lift (MutationAttempt (branch_result "defect" no_sent (receipt_for []) (Some (failure f)))) | _ => fail e end) h Q1 end).
  assert (HQ2 : ∀ e h, Q2 (Err e) h).
  { intros e h'. destruct e as [f| | | | | | | | |]; try apply HQ1. unfold Q2. cbn [lift keeps].
    destruct (MutationAttempt _) as [a|e] eqn:Ea; [|by destruct (isinst e ValueError); apply HQ1]. cbn [of_res].
    pose proof (reported_other input _ h' (ltac:(discriminate) : a_branch (branch_result "defect" no_sent (receipt_for []) (Some (failure f))) ≠ lit "sent")) as Hd.
    rewrite Ea in Hd. exact Hd. }
  change (runs_to ?p h (λ r h', _)) with (runs_to p h Q2).
  apply keeps_bind, keeps_top. intros [c|e] h1; [|apply HQ2].
  apply keeps_bind. cbn [keeps]. destruct (sender cl c "sendMessage") as [from|e]; [|apply HQ2].
  apply keeps_bind. cbn [lift keeps]. destruct (_message_identifier _ from) as [i|e]; cbn [of_res]; [|apply HQ2].
  apply keeps_bind. eapply keeps_weaken; [|apply render_headers]. intros [[content now]|e] h2 Hr; [|apply HQ2].
  destruct (Hr content now eq_refl) as (headers & Hbytes & Hto & Hid & Hbcc).
  apply keeps_bind, keeps_top. intros [claimed|e] h3; [|apply HQ2]. destruct claimed.
  - unfold already_claimed. cbn [lift keeps]. destruct (MutationAttempt _) as [a|e] eqn:Ea; cbn [of_res]; [|apply HQ2].
    apply MutationAttempt_Ok in Ea as ->. intros a Ha Hb. by apply Ok_inj in Ha as <-.
  - eapply keeps_weaken; [|apply attempt_reports]. intros [a|e] h4 H4; [|apply HQ2]. intros a' Ha Hb. apply Ok_inj in Ha as <-.
    destruct (H4 a eq_refl Hb) as [Hv Hacc].
    exists (mkSent i from (_unique_recipients [SendMessage.to input; SendMessage.cc input; SendMessage.bcc input])
      (SendMessage.subject input) [] [] now), content, headers. by split_and!.
Qed.

(** C14: [sent] means accepted.  When [sendMessage] reports a message as sent, whatever the servers
    answered before, the run's last commands are one whole submission that the server accepted: the
    sender, each recipient of To, Cc and Bcc once and accepted, the rendered message of this input, and
    the 250 that answers the final dot.  The message names its To addresses and its own Message-ID, and
    has no Bcc header. *)
Theorem sent_means_accepted cl context call input h h' a :
  runs any_answer (SendMessage.invoke cl context call input) h h' (Some (Ok a)) → a_branch a = lit "sent" →
  ∃ sent content headers,
    a_value a = Some sent ∧
    recipients sent = _unique_recipients [SendMessage.to input; SendMessage.cc input; SendMessage.bcc input] ∧
    as_bytes headers (SendMessage.text input) = Ok content ∧
    (lit "To", Prelude.join ", " (SendMessage.to input)) ∈ headers ∧
    (lit "Message-ID", angle (s_message_id sent)) ∈ headers ∧ (lit "Bcc" ∉ map fst headers) ∧
    accepted (s_from sent) (recipients sent) content h'.
Proof.
  intros Hr Hb. destruct (keeps_runs any_answer (λ _, True) _ h h' _ _ Hr I (send_reports_kept cl context call input h)) as [_ Hk].
  exact (Hk _ eq_refl a eq_refl Hb).
Qed.

(** *** Recipients *)

Lemma unique_from_spec found l :
  NoDup (map lower (unique_from found l)) ∧ (∀ a, a ∈ unique_from found l → lower a ∉ found) ∧
  (∀ a, a ∈ l → lower a ∈ found ∨ lower a ∈ map lower (unique_from found l)) ∧ sublist (unique_from found l) l.
Proof.
  revert found. induction l as [|a l IH]; intros found; cbn [unique_from].
  { split_and!; [constructor|by intros a ?%elem_of_nil|by intros a ?%elem_of_nil|constructor]. }
  case_bool_decide as Ha.
  - destruct (IH found) as (H1 & H2 & H3 & H4). split_and!; [done|done| |by constructor].
    intros b [->|Hb]%elem_of_cons; [by left|by apply H3].
  - destruct (IH (lower a :: found)) as (H1 & H2 & H3 & H4). split_and!.
    + cbn [map]. constructor; [|done]. intros (b & Hb & Hin)%list_elem_of_fmap. apply (H2 b Hin). rewrite <- Hb. by left.
    + intros b [->|Hb]%elem_of_cons; [done|]. intros Hf. apply (H2 b Hb). by right.
    + intros b [->|Hb]%elem_of_cons; [right; by left|]. cbn [map]. destruct (H3 b Hb) as [[->|Hf]%elem_of_cons|Hf].
      * right. by left.
      * by left.
      * right. by right.
    + by constructor.
Qed.

(** Every recipient once.  The envelope of a message lists addresses of its groups in their order; no
    two of them differ in case alone, and every address of every group is there, under its own spelling
    or one that differs in case alone. *)
Theorem recipients_unique_complete groups :
  NoDup (map lower (_unique_recipients groups)) ∧ sublist (_unique_recipients groups) (concat groups) ∧
  ∀ group a, group ∈ groups → a ∈ group → ∃ b, b ∈ _unique_recipients groups ∧ lower b = lower a.
Proof.
  destruct (unique_from_spec [] (concat groups)) as (H1 & _ & H3 & H4). split_and!; [done|done|].
  intros group a Hg Ha. destruct (H3 a) as [Hf|Hf].
  - apply list_elem_of_In, in_concat. exists group. by rewrite <- !list_elem_of_In.
  - by apply elem_of_nil in Hf.
  - apply list_elem_of_fmap in Hf as (b & Hb & Hin). by exists b.
Qed.

End All.

(** ** Attempts against sample servers *)

Import SessionFacts.
#[local] Existing Instance Sample.library.

(** Dex answers what the newest heartbeat left. *)
Fixpoint claim_of (h : history) : bool :=
  match h with
  | [] => false
  | mkCall c r :: h' => match c with Heartbeat (Some _) => true | Heartbeat None => false | _ => claim_of h' end
  end.

Definition claiming (s : server) : server := λ h X c,
  match c in cmd X return mres X → mres X with HasHeartbeat => λ _, Ok (claim_of h) | _ => λ r, r end (s h X c).

(** The answer to the final dot is lost. *)
Definition losing (s : server) : server := λ h X c,
  match c in cmd X return mres X → mres X with
  | SmtpGetReply => λ r, match h with mkCall (SmtpSend _) _ :: _ => Err (EPy (Exn OSError [])) | _ => r end
  | _ => λ r, r
  end (s h X c).

Lemma claim_recorded (base : bool → Prop) h : base false → recorded base h (claim_of h).
Proof. intros Hb. induction h as [|[X c r] h IH]; [done|]. destruct c; try exact IH. destruct value; by left. Qed.

Lemma claiming_answers (base : bool → Prop) s h X c :
  base false → (∀ h X c, answers (s h X c)) → dex_answer base h X c (claiming s h X c).
Proof. intros Hb Hs. pose proof (Hs h X c) as Hr. unfold claiming. destruct c; split; try done. by apply claim_recorded. Qed.

Lemma losing_answers s h X c : (∀ h X c, answers (s h X c)) → answers (losing s h X c).
Proof. intros Hs. pose proof (Hs h X c) as Hr. unfold losing. destruct c; try done. by destruct h as [|[? [] ?] ?]. Qed.

Definition lossy : server := claiming (losing (Sample.served [] true 250)).
Definition send : prog (Attempt SentMessage) := SendMessage.invoke Sample.client true Sample.call Sample.message.
(** The answer is lost; Dex has the claim, and runs the call again. *)
Definition first_attempt := exec lossy send [].
Definition holding (s : server) : server := λ h X c,
  match c in cmd X return mres X → mres X with HasHeartbeat => λ _, Ok true | _ => λ r, r end (s h X c).
Definition second_attempt := exec (holding (Sample.served [] true 250)) send [].

Lemma lossy_answers (base : bool → Prop) h X c : base false → dex_answer base h X c (lossy h X c).
Proof. intros Hb. apply claiming_answers; [done|]. intros h' X' c'. apply losing_answers. apply Sample.served_answers. Qed.

Lemma holding_answers (base : bool → Prop) s h X c :
  base true → (∀ h X c, answers (s h X c)) → dex_answer base h X c (holding s h X c).
Proof.
  intros Hb Hs. pose proof (Hs h X c) as Hr. unfold holding.
  assert (Ht : recorded base h true).
  { clear Hr. induction h as [|[Y d r] h IH]; [done|]. destruct d; try exact IH. destruct value; [by left|by right]. }
  by destruct c; split.
Qed.

(** The two attempts submit one message; the second finds the claim, and is uncertain. *)
Lemma submitted_at_most_once_witness :
  ∃ base, attempts 1 0 base ∧ (1 <= 1)%nat ∧ submissions (snd first_attempt) = 1%nat ∧
  match fst second_attempt with Ok a => bool_decide (a_branch a = lit "uncertain") | Err _ => false end = true.
Proof.
  assert (H1 : attempts 1 0 (recorded (λ b, b = false) (snd first_attempt))).
  { apply (one_more 0 0 _ send (snd first_attempt) (Some (fst first_attempt)) no_attempt (submit_send _ _ _ _)).
    apply exec_runs. intros h X c. by apply lossy_answers. }
  assert (Hc : recorded (λ b, b = false) (snd first_attempt) true).
  { assert (Ht : claim_of (snd first_attempt) = true) by (vm_compute; reflexivity). rewrite <- Ht. by apply claim_recorded. }
  assert (H2 : attempts 1 0 (recorded (recorded (λ b, b = false) (snd first_attempt)) (snd second_attempt))).
  { apply (one_more 1 0 _ send (snd second_attempt) (Some (fst second_attempt)) H1 (submit_send _ _ _ _)).
    apply exec_runs. intros h X c. apply holding_answers; [exact Hc|]. apply Sample.served_answers. }
  eexists. split; [exact H2|]. split; [exact (submitted_at_most_once 1 0 _ H2)|]. split; vm_compute; reflexivity.
Defined.

Lemma sample_sent_branch : match fst Sample.sent with Ok a => a_branch a = lit "sent" | Err _ => False end.
Proof. vm_compute. reflexivity. Qed.

Lemma sent_means_accepted_witness :
  ∃ a, fst Sample.sent = Ok a ∧
  ∃ sent content headers, a_value a = Some sent ∧
    recipients sent = _unique_recipients [SendMessage.to Sample.message; SendMessage.cc Sample.message; SendMessage.bcc Sample.message] ∧
    as_bytes headers (SendMessage.text Sample.message) = Ok content ∧
    (lit "To", Prelude.join ", " (SendMessage.to Sample.message)) ∈ headers ∧
    (lit "Message-ID", angle (s_message_id sent)) ∈ headers ∧ (lit "Bcc" ∉ map fst headers) ∧
    accepted (s_from sent) (recipients sent) content (snd Sample.sent).
Proof.
  pose proof sample_sent_branch as Hb.
  pose proof (exec_runs any_answer (Sample.served [] true 250) send [] (Sample.served_answers _ _ _)) as Hr.
  change (exec (Sample.served [] true 250) send []) with Sample.sent in Hr.
  destruct (fst Sample.sent) as [a|e] eqn:Ea; [|destruct Hb]. exists a. split; [reflexivity|].
  exact (sent_means_accepted Sample.client true Sample.call Sample.message [] (snd Sample.sent) a Hr Hb).
Defined.

(** A reply to the final dot that is no reply code (the library reports -1) does not say that the message
    was refused, but the attempt reports a rejection and clears the claim. *)
Definition garbled := exec (claiming (Sample.served [] true (-1))) send [].

Lemma garbled_answer_released :
  match fst garbled with Ok a => a_branch a = lit "providerRejected" | Err _ => False end ∧
  claim_of (snd garbled) = false ∧
  existsb is_dot (snd garbled) = true.
Proof. split_and!; vm_compute; reflexivity. Qed.

End SubmissionFacts.
