(* ===== verification/EmailChanges.v ===== *)
(** * What setting flags and moving leave behind

    [setFlags] writes no flag that was not asked for and reports flags the server read back; [moveMessage]
    moves or removes only the message it identified, and removes it only after the server copied it. *)

From S2P Require Import Prelude Errors Timestamps Identity Results MailProgram EmailClient EmailBody EmailMessages EmailOperations EmailSessions.

(** ** Flags *)

(** ** Answers *)

(** A [MailFailure] is answered with a retry, [notFound] or [providerRejected]. *)
Lemma mutation_failure_branch {V} f (a : Attempt V) : mutation_failure f true = Ok a →
  a_branch a = [] ∨ a_branch a = lit "notFound" ∨ a_branch a = lit "providerRejected".
Proof.
  unfold mutation_failure. destruct (outcome f); cbn [andb]; intros Ha; apply MutationAttempt_Ok in Ha as ->;
    first [by left | right; by left | right; by right].
Qed.

Module FlagFacts.
Import SetFlags.

(** What the input asks of a flag. *)
Definition asked (input : Input) (flag : pystr) : option bool :=
  if bool_decide (flag = lit "\Seen") then is_seen input
  else if bool_decide (flag = lit "\Flagged") then is_flagged input
  else if bool_decide (flag = lit "\Answered") then is_answered input else None.

Definition store_arguments (input : Input) (mode : string) (flags : list pystr) : list arg :=
  map AText [str_of_Z (uid (message input)); lit mode; "(" ++ Prelude.join " " flags ++ ")"].

(** Every STORE adds flags that were asked to be set, or removes ones that were asked to be cleared. *)
Definition stores_asked (input : Input) (c : call) : Prop :=
  match c with
  | mkCall c _ =>
      match c with
      | ImapUid command arguments => command = lit "STORE" →
          ∃ flags, (∀ flag, flag ∈ flags → asked input flag = Some true) ∧ arguments = store_arguments input "+FLAGS.SILENT" flags ∨
                   (∀ flag, flag ∈ flags → asked input flag = Some false) ∧ arguments = store_arguments input "-FLAGS.SILENT" flags
      | _ => True
      end
  end.
Definition stores (input : Input) : history → Prop := Forall (stores_asked input).

(** The flags are those of the newest FETCH, and the session ends there. *)
Definition read_back (reference : MessageReference) (f : MessageFlags) (h : history) : Prop :=
  ∃ data words before,
    h = mkCall (ImapUid "FETCH" (map AText [str_of_Z (uid reference); lit "(UID FLAGS)"])) (Ok (lit "OK", data)) :: before ∧
    flags_in data = Some words ∧ f_message f = reference ∧
    seen f = has_flag "\SEEN" words ∧ flagged f = has_flag "\FLAGGED" words ∧ answered f = has_flag "\ANSWERED" words.

Definition agrees (input : Input) (f : MessageFlags) : Prop :=
  (∀ b, is_seen input = Some b → seen f = b) ∧ (∀ b, is_flagged input = Some b → flagged f = b) ∧
  (∀ b, is_answered input = Some b → answered f = b).

Definition updated_ok (input : Input) (r : mres (Attempt MessageFlags)) (h : history) : Prop :=
  ∀ a, r = Ok a → a_branch a = lit "updated" → ∃ f logout before,
    a_value a = Some f ∧ agrees input f ∧ h = mkCall ImapLogout logout :: before ∧ read_back (message input) f before.

Lemma not_kept_agrees input f : not_kept (changes input f) = false → agrees input f.
Proof.
  unfold not_kept, changes. cbn [existsb]. intros H. bool_inv. unfold agrees.
  split_and!; intros b Hb; rewrite Hb in *; bool_inv;
    match goal with Hx : Bool.eqb _ _ = true |- _ => apply Bool.eqb_prop in Hx; congruence end.
Qed.

Lemma nothing_to_change input f : to_add (changes input f) = [] → to_remove (changes input f) = [] → agrees input f.
Proof.
  unfold to_add, to_remove, changes. cbn [omap list_omap]. unfold agrees.
  destruct (is_seen input) as [[]|], (seen f); cbn; try discriminate;
  destruct (is_flagged input) as [[]|], (flagged f); cbn; try discriminate;
  destruct (is_answered input) as [[]|], (answered f); cbn; try discriminate;
  intros _ _; split_and!; congruence.
Qed.

Lemma added_asked input f flag : flag ∈ to_add (changes input f) → asked input flag = Some true.
Proof.
  unfold to_add, changes. intros ([[requested present] name] & Hin & Hf)%list_elem_of_omap.
  destruct (_ && _) eqn:E; [|done]. injection Hf as ->. apply andb_prop in E as [E _]. apply bool_decide_eq_true in E as ->.
  rewrite !elem_of_cons in Hin. destruct Hin as [[= Hq _ ->]|[[= Hq _ ->]|[[= Hq _ ->]|Hin]]]; [by rewrite Hq..|by apply elem_of_nil in Hin].
Qed.

Lemma removed_asked input f flag : flag ∈ to_remove (changes input f) → asked input flag = Some false.
Proof.
  unfold to_remove, changes. intros ([[requested present] name] & Hin & Hf)%list_elem_of_omap.
  destruct (_ && _) eqn:E; [|done]. injection Hf as ->. apply andb_prop in E as [E _]. apply bool_decide_eq_true in E as ->.
  rewrite !elem_of_cons in Hin. destruct Hin as [[= Hq _ ->]|[[= Hq _ ->]|[[= Hq _ ->]|Hin]]]; [by rewrite Hq..|by apply elem_of_nil in Hin].
Qed.

(** Commands that are no STORE. *)
Definition no_store (X : Type) (c : cmd X) : bool :=
  match c with ImapUid command _ => negb (bool_decide (command = lit "STORE")) | _ => true end.

Lemma no_store_asked input {X} (c : cmd X) r : no_store X c = true → stores_asked input (mkCall c r).
Proof. intros Hc. destruct c; try done. cbn in *. intros ->. by apply negb_true_iff, bool_decide_eq_false in Hc. Qed.

Section Update.
Context `{EmailLibrary} (input : Input).

Abbreviation kept := (keeps any_answer (stores input)).

Lemma kept_only {A} (p : prog A) h Q : only no_store p → stores input h →
  (∀ r h', stores input h' → Q r h') → kept p h Q.
Proof.
  intros Hp Hh HQ. eapply keeps_weaken; [|apply (only_keeps any_answer no_store p (stores input) (λ _, True)); try done].
  - intros r h' [_ Hh']. by apply HQ.
  - intros h0 X c r _ H0 Hc. split; [constructor; [by apply no_store_asked|done]|done].
Qed.

Lemma read_flags_kept h Q : stores input h →
  (∀ e h', stores input h' → Q (Err e) h') →
  (∀ f h', stores input h' → read_back (message input) f h' → was_already_applied f = false → Q (Ok f) h') →
  kept (_read_flags (message input) "setFlags") h Q.
Proof.
  intros Hh He Hf. unfold _read_flags, _uid_command. apply keeps_bind. unfold reclassified. apply keeps_catch, keeps_bind, keeps_call.
  intros r _. set (h1 := mkCall _ r :: h).
  assert (H1 : stores input h1) by (constructor; [by apply no_store_asked|done]).
  split; [done|]. destruct r as [[status data]|e]; [|by apply He]. cbn [keeps]. unfold expect_ok. cbn [fst snd].
  case_bool_decide as Hs; [|by apply He]. subst status. destruct (flags_in data) as [words|] eqn:Hw; [|by apply He].
  apply Hf; [done| |done]. exists data, words, h. by split_and!.
Qed.

Lemma store_kept mode flags b h Q : (mode = "+FLAGS.SILENT"%string ∧ b = true ∨ mode = "-FLAGS.SILENT"%string ∧ b = false) →
  (∀ flag, flag ∈ flags → asked input flag = Some b) → stores input h →
  (∀ r h', stores input h' → Q r h') → kept (store_flags (message input) mode flags "setFlags") h Q.
Proof.
  intros Hm Hf Hh HQ. unfold store_flags. destruct flags as [|flag flags]; [by apply HQ|].
  apply keeps_bind. unfold _uid_command, reclassified. apply keeps_catch, keeps_bind, keeps_call. intros r _.
  set (h1 := mkCall _ r :: h).
  assert (H1 : stores input h1).
  { constructor; [|done]. intros _. exists (flag :: flags). destruct Hm as [[-> ->]|[-> ->]]; [left|right]; by split. }
  split; [done|]. destruct r as [answer|e]; [|by apply HQ]. cbn [keeps]. by destruct (expect_ok answer); apply HQ.
Qed.

Lemma update_kept cl c h : stores input h → kept (_update cl c input) h (λ r h', stores input h' ∧ updated_ok input r h').
Proof.
  intros Hh. unfold _update. cbv zeta.
  assert (Herr : ∀ (e : error) h', stores input h' → stores input h' ∧ updated_ok input (Err e) h') by (intros; by split).
  apply keeps_bind. apply kept_only; [|done|].
  { unfold open_imap, classified. cbv zeta. repeat only_step; done. }
  intros [capabilities|e] h1 H1; [|by apply Herr]. apply keeps_finally.
  set (Q := λ (r : mres (Attempt MessageFlags)) (h : history), kept _imap_close h
    (λ u h', stores input h' ∧ updated_ok input (match u with Ok _ => r | Err e => Err e end) h')).
  assert (Hclose : ∀ (r : mres (Attempt MessageFlags)) h', stores input h' →
    (∀ a, r = Ok a → a_branch a = lit "updated" → ∃ f, a_value a = Some f ∧ agrees input f ∧ read_back (message input) f h') → Q r h').
  { intros r h' H' Hr. unfold Q, _imap_close. apply keeps_catch, keeps_call. intros r1 _. set (h2 := mkCall _ r1 :: h').
    assert (H2 : stores input h2) by (constructor; [by apply no_store_asked|done]).
    assert (Hok : stores input h2 ∧ updated_ok input r h2).
    { split; [done|]. intros a Ha Hb. destruct (Hr a Ha Hb) as (f & Hv & Hg & Hrb). by exists f, r1, h'. }
    split; [done|]. by destruct r1. }
  change (kept ?p h1 (λ r h', _)) with (kept p h1 Q).
  assert (HQe : ∀ e h', stores input h' → Q (Err e) h') by (intros; by apply Hclose).
  apply keeps_bind. apply kept_only; [unfold _imap_select, classified; repeat only_step; done|done|].
  intros [v|e] h2 H2; [|by apply HQe].
  apply keeps_bind. apply read_flags_kept; [done|done|]. intros current h3 H3 Hrb Hwas.
  assert (Hrest : kept (store_flags (message input) "+FLAGS.SILENT" (to_add (changes input current)) "setFlags" ≫= λ _,
    store_flags (message input) "-FLAGS.SILENT" (to_remove (changes input current)) "setFlags" ≫= λ _,
    updated ← _read_flags (message input) "setFlags";
    if not_kept (changes input updated) then
      lift (MutationAttempt (branch_result "providerRejected" updated (receipt_for [])
        (Some (mail_failure PROVIDER_REJECTION "setFlags" "the IMAP server accepted STORE but did not keep the requested flags"))))
    else lift (MutationAttempt (branch_result "updated" updated (receipt_for []) None))) h3 Q).
  { apply keeps_bind. apply (store_kept _ _ true); [by left|apply added_asked|done|]. intros [u|e] h4 H4; [|by apply HQe].
    apply keeps_bind. apply (store_kept _ _ false); [by right|apply removed_asked|done|]. intros [u'|e] h5 H5; [|by apply HQe].
    apply keeps_bind. apply read_flags_kept; [done|done|]. intros updated h6 H6 Hrb6 _.
    destruct (not_kept (changes input updated)) eqn:Hk; cbn [lift keeps].
    - destruct (MutationAttempt _) as [a|e] eqn:Ea; cbn [of_res]; [|by apply HQe]. apply Hclose; [done|].
      intros a' Ha Hb. apply Ok_inj in Ha as <-. unfold MutationAttempt in Ea. repeat (apply bind_Ok in Ea as (? & _ & Ea)).
      by apply Ok_inj in Ea as <-.
    - destruct (MutationAttempt _) as [a|e] eqn:Ea; cbn [of_res]; [|by apply HQe]. apply Hclose; [done|].
      intros a' Ha Hb. apply Ok_inj in Ha as <-. unfold MutationAttempt in Ea. repeat (apply bind_Ok in Ea as (? & _ & Ea)).
      apply Ok_inj in Ea as <-. exists updated. split_and!; [done|by apply not_kept_agrees|done]. }
  destruct (to_add (changes input current)) eqn:Eadd, (to_remove (changes input current)) eqn:Erem; try exact Hrest.
  cbn [lift keeps]. destruct (MutationAttempt _) as [a|e] eqn:Ea; cbn [of_res]; [|by apply HQe]. apply Hclose; [done|].
  intros a' Ha Hb. apply Ok_inj in Ha as <-. unfold MutationAttempt in Ea. repeat (apply bind_Ok in Ea as (? & _ & Ea)).
  apply Ok_inj in Ea as <-. exists (already_applied current). split; [done|]. split.
  - apply (nothing_to_change input current); [done|done].
  - destruct Hrb as (data & words & before & H4). by exists data, words, before.
Qed.

(** An answer of another branch says nothing of the flags. *)
Lemma other_update x h : a_branch x ≠ lit "updated" → updated_ok input (of_res (MutationAttempt x)) h.
Proof.
  intros Hx a Ha Hb. destruct (MutationAttempt x) as [a'|e] eqn:E; [|done]. apply MutationAttempt_Ok in E as ->.
  by apply Ok_inj in Ha as <-.
Qed.

Lemma handled_failure f h : updated_ok input (of_res (mutation_failure f true)) h.
Proof.
  intros a Ha Hb. destruct (mutation_failure f true) as [a'|e] eqn:E; [|done]. apply Ok_inj in Ha as <-.
  apply mutation_failure_branch in E as [E|[E|E]]; by rewrite Hb in E.
Qed.

Lemma invoke_kept cl h : stores input h → kept (invoke cl input) h (λ r h', stores input h' ∧ updated_ok input r h').
Proof.
  intros Hh. unfold invoke. cbv zeta. apply keeps_bind. cbn [lift keeps].
  destruct (_valid_reference (message input)) as [valid|e]; cbn [of_res]; [|by split].
  destruct (_ || _); [split; [done|by apply other_update]|].
  apply keeps_catch. apply keeps_bind. apply kept_only; [unfold resolve_credentials; repeat only_step; done|done|].
  intros [credentials|e] h1 H1.
  - eapply keeps_weaken; [|by apply update_kept]. intros [a|e] h2 [H2 Ha]; [done|].
    destruct e as [f| | | | | | | | |]; try by split. split; [done|]. by apply handled_failure.
  - destruct e as [f| | | | | | | | |]; try by split. split; [done|]. by apply handled_failure.
Qed.

End Update.

(** C15: flags change as they were asked to, and are reported as the server keeps them.  Whatever the
    server answers and wherever the run is cut short, every STORE of [setFlags] names the referenced UID
    and either adds flags that the input asks to set or removes flags that it asks to clear; when the
    attempt says [updated], the flags it reports agree with every flag the input asked for and are
    the ones the session's last FETCH of that UID found on the server. *)
Theorem flags_as_requested `{EmailLibrary} cl input h o : runs any_answer (invoke cl input) [] h o →
  stores input h ∧
  ∀ a, o = Some (Ok a) → a_branch a = lit "updated" → ∃ f logout before,
    a_value a = Some f ∧ agrees input f ∧ h = mkCall ImapLogout logout :: before ∧ read_back (message input) f before.
Proof.
  intros Hr. destruct (keeps_runs any_answer (stores input) _ [] h o _ Hr ltac:(constructor) (invoke_kept input cl [] ltac:(constructor)))
    as [Hs Hk]. split; [done|]. intros a -> Hb. destruct (Hk _ eq_refl) as [_ Ha]. by apply Ha.
Qed.

Import SessionFacts.
#[local] Existing Instance Sample.library.

Definition unflag : Input := mkInput Sample.reference (Some true) (Some false) None.
Definition unflagged := exec (Sample.served "\Seen" true 250) (invoke Sample.client unflag) [].
Definition refused := exec (Sample.served "\Flagged" true 250) (invoke Sample.client unflag) [].

Lemma flags_as_requested_witness :
  stores unflag (snd refused) ∧
  existsb (λ c, match c with mkCall (ImapUid command _) _ => bool_decide (command = lit "STORE") | _ => false end) (snd refused) = true ∧
  match fst unflagged with
  | Ok a => a_branch a = lit "updated" ∧ ∃ f, a_value a = Some f ∧ agrees unflag f
  | Err _ => False
  end.
Proof.
  pose proof (exec_runs any_answer (Sample.served "\Flagged" true 250) (invoke Sample.client unflag) []
    (Sample.served_answers _ _ _)) as H1.
  pose proof (exec_runs any_answer (Sample.served "\Seen" true 250) (invoke Sample.client unflag) []
    (Sample.served_answers _ _ _)) as H2.
  change (exec (Sample.served "\Flagged" true 250) (invoke Sample.client unflag) []) with refused in H1.
  change (exec (Sample.served "\Seen" true 250) (invoke Sample.client unflag) []) with unflagged in H2.
  split; [exact (proj1 (flags_as_requested Sample.client unflag _ _ H1))|]. split; [vm_compute; reflexivity|].
  assert (Hb : match fst unflagged with Ok a => a_branch a = lit "updated" | Err _ => False end) by (vm_compute; reflexivity).
  destruct (fst unflagged) as [a|e]; [|exact Hb]. split; [exact Hb|].
  destruct (proj2 (flags_as_requested Sample.client unflag _ _ H2) a eq_refl Hb) as (f & _ & _ & Hf & Hg & _). by exists f.
Defined.

End FlagFacts.

(** ** Moving *)

Module MoveFacts.
Import MoveMessage.

Definition uid_arg (input : Input) : pystr := str_of_Z (uid (message input)).
Definition accepted (command : string) (arguments : list pystr) (data : list item) : call :=
  mkCall (ImapUid command (map AText arguments)) (Ok (lit "OK", data)).

Definition fetched_text : pystr := lit "(UID FLAGS INTERNALDATE RFC822.SIZE BODYSTRUCTURE BODY.PEEK[HEADER])".
Definition changing (command : pystr) : bool := one_of command ["MOVE"; "COPY"; "STORE"; "EXPUNGE"].

Section Moves.
Context `{EmailLibrary} (input : Input).

(** The newest calls selected the mailbox, with the UIDVALIDITY that is expected. *)
Definition selected (box : pystr) (read_only : bool) (expected validity : Z) (h : history) : Prop :=
  ∃ argument data b more before,
    h = mkCall (ImapResponse "UIDVALIDITY") (Ok (IBytes b :: more)) ::
        mkCall (ImapSelect argument read_only) (Ok (lit "OK", data)) :: before ∧
    _imap_mailbox_argument box = Ok argument ∧ int_of_digits b = Ok validity ∧ (expected = 0 ∨ validity = expected)%Z.

(** The newest call fetched the message with the UID, and its headers. *)
Definition fetched (n : Z) (headers : list N) (h before : history) : Prop :=
  ∃ data metadata, h = accepted "FETCH" [str_of_Z n; fetched_text] data :: before ∧
    fetch_items data [] None = Ok (metadata, Some headers).

(** The message was found: in the referenced mailbox, at the referenced UID, with the expected Message-ID. *)
Definition located (h : history) : Prop :=
  ∃ headers before, fetched (uid (message input)) headers h before ∧
    selected (mailbox (message input)) false (uid_validity (message input)) (uid_validity (message input)) before ∧
    (message_id input ≠ [] → fetched_id headers = Ok (message_id input)).

(** The newest call copied or moved it to the destination. *)
Definition carried (command : string) (h : history) : Prop :=
  ∃ argument data response before,
    h = accepted command [uid_arg input; argument] data :: mkCall (ImapResponse "COPYUID") response :: before ∧
    _imap_mailbox_argument (destination_mailbox input) = Ok argument ∧ located before.

Definition marked (h : history) : Prop :=
  ∃ data response before,
    h = accepted "STORE" [uid_arg input; lit "+FLAGS.SILENT"; lit "(\Deleted)"] data ::
        mkCall (ImapResponse "COPYUID") response :: before ∧ carried "COPY" before.

(** What must precede a command that changes a mailbox, and its arguments. *)
Definition guarded (c : call) (h : history) : Prop :=
  match c with
  | mkCall c _ =>
      match c with
      | ImapUid command arguments => changing command = true →
          (∃ argument response before,
             (command = lit "MOVE" ∨ command = lit "COPY") ∧ arguments = map AText [uid_arg input; argument] ∧
             _imap_mailbox_argument (destination_mailbox input) = Ok argument ∧
             h = mkCall (ImapResponse "COPYUID") response :: before ∧ located before) ∨
          (∃ response before,
             command = lit "STORE" ∧ arguments = map AText [uid_arg input; lit "+FLAGS.SILENT"; lit "(\Deleted)"] ∧
             h = mkCall (ImapResponse "COPYUID") response :: before ∧ carried "COPY" before) ∨
          (command = lit "EXPUNGE" ∧ arguments = map AText [uid_arg input] ∧ marked h)
      | _ => True
      end
  end.

Fixpoint safe (h : history) : Prop := match h with [] => True | c :: h' => guarded c h' ∧ safe h' end.

(** Commands that change nothing. *)
Definition harmless (X : Type) (c : cmd X) : bool :=
  match c with ImapUid command _ => negb (changing command) | _ => true end.
Definition untouched : history → Prop := Forall (λ c, match c with mkCall c _ => harmless _ c = true end).

Lemma harmless_safe {X} (c : cmd X) r h : harmless X c = true → safe h → safe (mkCall c r :: h).
Proof. intros Hc Hh. split; [|done]. destruct c; try done. cbn in *. intros Hx. by rewrite Hx in Hc. Qed.

(** What looking for the message in the destination does: one search there by Message-ID. *)
Definition search_arguments : list pystr :=
  [lit "HEADER"; lit "Message-ID"; [34%N] ++ angle (message_id input) ++ [34%N]].
Definition candidate_fetch (c : call) : Prop :=
  ∃ n r, c = mkCall (ImapUid "FETCH" (map AText [str_of_Z n; fetched_text])) r.

(** After the destination was selected, read-only, with [validity], it was searched, and since then only
    candidates were fetched. *)
Definition searched (validity : Z) (uids : list Z) (h : history) : Prop :=
  ∃ fetches data before,
    h = fetches ++ accepted "SEARCH" search_arguments data :: before ∧ Forall candidate_fetch fetches ∧
    candidates data = Ok uids ∧ selected (destination_mailbox input) true 0 validity before.

(** How the message got to the destination. *)
Definition relocated (m : MovedMessage) (h : history) : Prop :=
  if was_already_moved m then
    untouched h ∧ mailbox (destination m) = destination_mailbox input ∧
    ∃ headers uids before, fetched (uid (destination m)) headers h before ∧ message_id input ≠ [] ∧
      fetched_id headers = Ok (message_id input) ∧
      searched (uid_validity (destination m)) uids before ∧ uid (destination m) ∈ uids
  else
    ∃ data response before, copied_to (destination_mailbox input) data = Ok (destination m) ∧
      ((h = mkCall (ImapResponse "COPYUID") (Ok data) :: before ∧ carried "MOVE" before) ∨
       (∃ data1 data2, h = accepted "EXPUNGE" [uid_arg input] data1 ::
          accepted "STORE" [uid_arg input; lit "+FLAGS.SILENT"; lit "(\Deleted)"] data2 ::
          mkCall (ImapResponse "COPYUID") response :: before ∧ response = Ok data ∧ carried "COPY" before)).

Definition moved_ok (r : mres (Attempt MovedMessage)) (h : history) : Prop :=
  ∀ a, r = Ok a → a_branch a = lit "moved" → ∃ m, a_value a = Some m ∧ relocated m h.
Definition moved_closed (r : mres (Attempt MovedMessage)) (h : history) : Prop :=
  ∀ a, r = Ok a → a_branch a = lit "moved" → ∃ m logout before,
    a_value a = Some m ∧ h = mkCall ImapLogout logout :: before ∧ relocated m before.

Abbreviation kept := (keeps any_answer safe).

Lemma kept_untouched {A} (p : prog A) h Q : only harmless p → safe h → untouched h →
  (∀ r h', safe h' → untouched h' → Q r h') → kept p h Q.
Proof.
  intros Hp Hh Hu HQ. eapply keeps_weaken; [|apply (only_keeps any_answer harmless p safe untouched); try done].
  - intros r h' [Hu' Hh']. by apply HQ.
  - intros h0 X c r H0 H1 Hc. split; [by apply harmless_safe|by constructor].
Qed.

(** ** The steps of the session *)

Lemma select_kept box read_only expected op h Q : safe h → untouched h →
  (∀ e h', safe h' → untouched h' → Q (Err e) h') →
  (∀ v h', safe h' → untouched h' → selected box read_only expected v h' → Q (Ok v) h') →
  kept (_imap_select box read_only expected op) h Q.
Proof.
  intros Hh Hu He Ho. unfold _imap_select. apply keeps_classified.
  apply keeps_bind. cbn [lift keeps]. destruct (_imap_mailbox_argument box) as [argument|e] eqn:Harg; cbn [of_res]; [|by intros ?; apply He].
  apply keeps_bind, keeps_call. intros r1 _. set (h1 := mkCall (ImapSelect argument read_only) r1 :: h).
  assert (H1 : safe h1) by done. assert (U1 : untouched h1) by by constructor. split; [done|].
  destruct r1 as [[status data]|e]; [|by intros ?; apply He]. apply keeps_bind. cbn [keeps]. unfold expect_ok. cbn [fst snd].
  case_bool_decide as Hs; [|by intros ?; apply He]. subst status.
  apply keeps_bind, keeps_call. intros r2 _. set (h2 := mkCall _ r2 :: h1).
  assert (H2 : safe h2) by done. assert (U2 : untouched h2) by by constructor. split; [done|].
  destruct r2 as [response|e]; [|by intros ?; apply He]. cbn [keeps].
  destruct response as [|[b| |a b] more]; try by (intros ?; apply He).
  destruct (is_digits b); [|by intros ?; apply He]. apply keeps_bind. cbn [lift keeps].
  destruct (int_of_digits b) as [v|e] eqn:Hv; cbn [of_res]; [|by intros ?; apply He].
  destruct (negb (expected =? 0)%Z && negb (expected =? v)%Z) eqn:Hx; [by intros ?; apply He|]. cbn [keeps].
  apply Ho; [done|done|]. exists argument, data, b, more, h. split_and!; try done.
  apply andb_false_iff in Hx as [Hx|Hx]; apply negb_false_iff, Z.eqb_eq in Hx; [by left|by right].
Qed.

Lemma fetch_kept n op h Q : safe h → untouched h →
  (∀ e h', safe h' → untouched h' → Q (Err e) h') →
  (∀ c, candidate_fetch c → safe (c :: h) → untouched (c :: h) → Q (Ok None) (c :: h)) →
  (∀ metadata headers h', safe h' → untouched h' → (∃ c, candidate_fetch c ∧ h' = c :: h) → fetched n headers h' h → Q (Ok (Some (metadata, headers))) h') →
  kept (_fetch n op) h Q.
Proof.
  intros Hh Hu He Hn Ho. unfold _fetch, uid_text. apply keeps_reclassified, keeps_bind, keeps_call. intros r _.
  set (h1 := mkCall _ r :: h).
  assert (H1 : safe h1) by by apply harmless_safe. assert (U1 : untouched h1) by by constructor.
  split; [done|]. destruct r as [[status data]|e]; [|by intros ?; apply He]. apply keeps_bind. cbn [keeps]. unfold expect_ok. cbn [fst snd].
  case_bool_decide as Hs; [|by intros ?; apply He]. subst status. apply keeps_bind. cbn [lift keeps].
  destruct (fetch_items data [] None) as [[metadata headers]|e] eqn:Hf; cbn [of_res]; [|by intros ?; apply He]. cbn [keeps].
  assert (Hc : candidate_fetch (mkCall (ImapUid "FETCH" (map AText [str_of_Z n; fetched_text])) (Ok (lit "OK", data)))) by by eexists _, _.
  destruct headers as [headers|]; [|by apply Hn]. apply Ho; [done|done|by eexists|]. by exists data, metadata.
Qed.

(** A command that may be given here, and its acceptance. *)
Lemma command_kept command op arguments h Q : safe h →
  (∀ r, guarded (mkCall (ImapUid command (map AText arguments)) r) h) →
  (∀ e h', safe h' → Q (Err e) h') →
  (∀ data, safe (mkCall (ImapUid command (map AText arguments)) (Ok (lit "OK", data)) :: h) →
     Q (Ok data) (mkCall (ImapUid command (map AText arguments)) (Ok (lit "OK", data)) :: h)) →
  kept (_uid_command command op arguments) h Q.
Proof.
  intros Hh Hg He Ho. unfold _uid_command. apply keeps_reclassified, keeps_bind, keeps_call. intros r _.
  assert (H1 : safe (mkCall (ImapUid command (map AText arguments)) r :: h)) by by split.
  split; [done|]. destruct r as [[status data]|e]; [|by intros ?; apply He]. cbn [keeps]. unfold expect_ok. cbn [fst snd].
  case_bool_decide as Hs; [|by intros ?; apply He]. subst status. by apply Ho.
Qed.

Lemma transfer_kept has_move op h (Q : mres (list item) → history → Prop) : safe h → located h →
  (∀ e h', safe h' → Q (Err e) h') →
  (∀ data h', safe h' → (∀ m, copied_to (destination_mailbox input) data = Ok (destination m) → was_already_moved m = false → relocated m h') →
     Q (Ok data) h') →
  kept (transfer input has_move op) h Q.
Proof.
  intros Hh Hl He Ho. unfold transfer. cbv zeta. apply keeps_bind, keeps_call. intros r0 _. set (h0 := mkCall _ r0 :: h).
  assert (H0 : safe h0) by done. split; [done|]. destruct r0 as [d0|e]; [|by apply He].
  apply keeps_bind. cbn [lift keeps].
  destruct (_imap_mailbox_argument (destination_mailbox input)) as [argument|e] eqn:Harg; cbn [of_res]; [|by apply He].
  apply keeps_bind. apply command_kept; [done| |by apply He|].
  { intros r Hc. left. exists argument, (Ok d0), h. split_and!; try done. destruct has_move; [by left|by right]. }
  intros d1 H1. apply keeps_bind, keeps_call. intros r2 _. split; [done|]. destruct r2 as [d2|e]; [|by apply He].
  destruct has_move.
  - apply keeps_bind. cbn [keeps]. apply Ho; [done|]. intros m Hm Hw. unfold relocated. rewrite Hw.
    exists d2, (Ok d2). eexists. split; [done|]. left. split; [reflexivity|]. exists argument, d1, (Ok d0), h. by split_and!.
  - set (h1 := mkCall (ImapUid "COPY" _) _ :: h0) in *. set (h2 := mkCall _ (Ok d2) :: h1).
    assert (Hc : carried "COPY" h1) by by exists argument, d1, (Ok d0), h.
    apply keeps_bind, keeps_bind. apply command_kept; [done| |by apply He|].
    { intros r _. right. left. exists (Ok d2), h1. by split_and!. }
    intros d3 H3. apply command_kept; [done| |by apply He|].
    { intros r _. right. right. split_and!; [done|done|]. exists d3, (Ok d2), h1. by split_and!. }
    intros d4 H4. cbn [keeps]. apply Ho; [done|]. intros m Hm Hw. unfold relocated. rewrite Hw.
    exists d2, (Ok d2), h1. split; [done|]. right. by exists d4, d3.
Qed.

Lemma find_moved_kept validity all uids h (Q : mres (option MessageReference) → history → Prop) :
  message_id input ≠ [] → safe h → untouched h → searched validity all h → uids ⊆ all →
  (∀ e h', safe h' → Q (Err e) h') → (∀ h', safe h' → Q (Ok None) h') →
  (∀ reference h', safe h' → (∀ m, destination m = reference → was_already_moved m = true → relocated m h') → Q (Ok (Some reference)) h') →
  kept (find_moved input validity uids) h Q.
Proof.
  intros Hi Hh Hu Hs Hall He Hn Ho. revert h Hh Hu Hs Hall. induction uids as [|n uids IH]; intros h Hh Hu Hs Hall; cbn [find_moved]; [by apply Hn|].
  assert (Hnext : ∀ c, candidate_fetch c → searched validity all (c :: h)).
  { intros c Hc. destruct Hs as (fetches & data & before & -> & Hf & ?). exists (c :: fetches), data, before.
    split; [done|]. split; [by constructor|done]. }
  assert (Hrest : uids ⊆ all) by set_solver. assert (Hn' : n ∈ all) by set_solver.
  apply keeps_bind. apply fetch_kept; [done|done|intros; by apply He|intros; apply IH; auto|].
  intros metadata headers h1 H1 U1 (c & Hc & ->) Hf. apply keeps_bind. cbn [lift keeps].
  destruct (fetched_id headers) as [i|e] eqn:Hid; cbn [of_res]; [|by apply He].
  case_bool_decide as Hb; [|apply IH; auto]. subst i. cbn [keeps]. apply Ho; [done|]. intros m Hm Hw. unfold relocated.
  rewrite Hw, Hm. split_and!; [done|done|]. by exists headers, all, h.
Qed.

Lemma other_move x h : a_branch x ≠ lit "moved" → moved_ok (of_res (MutationAttempt x)) h.
Proof.
  intros Hx a Ha Hb. destruct (MutationAttempt x) as [a'|e] eqn:E; [|done]. apply MutationAttempt_Ok in E as ->.
  by apply Ok_inj in Ha as <-.
Qed.

Lemma reported_move m i h : relocated m h →
  moved_ok (of_res (MutationAttempt (branch_result "moved" m (receipt_for i) None))) h.
Proof.
  intros Hm a Ha Hb. destruct (MutationAttempt _) as [a'|e] eqn:E; [|done]. apply MutationAttempt_Ok in E as ->.
  apply Ok_inj in Ha as <-. by exists m.
Qed.

Lemma already_moved_kept op h (Q : mres (Attempt MovedMessage) → history → Prop) : safe h → untouched h →
  (∀ r h', safe h' → moved_ok r h' → Q r h') → kept (already_moved input op) h Q.
Proof.
  intros Hh Hu HQ. assert (He : ∀ e h', safe h' → Q (Err e) h') by (intros; by apply HQ).
  unfold already_moved, not_found. destruct (truthy (message_id input)) eqn:Ht; cbn [negb]; [|by apply HQ; [|apply other_move]].
  assert (Hi : message_id input ≠ []) by (intros Hi; by rewrite Hi in Ht).
  apply keeps_bind. apply select_kept; [done|done|intros; by apply He|]. intros v h1 H1 U1 Hsel.
  apply keeps_bind. apply command_kept; [done|done|by apply He|]. intros found H2. apply keeps_bind. cbn [lift keeps].
  destruct (candidates found) as [uids|e] eqn:Hc; cbn [of_res]; [|by apply He].
  apply keeps_bind. apply (find_moved_kept v uids); try done; [by constructor|by exists [], found, h1| |].
  - intros h3 H3. apply HQ; [done|by apply other_move].
  - intros reference h3 H3 Hr. apply HQ; [done|]. apply reported_move. by apply Hr.
Qed.

Lemma move_kept cl c h : uid_validity (message input) ≠ 0%Z → safe h → untouched h → kept (_move cl c input) h moved_closed.
Proof.
  intros Hvalid Hh Hu. assert (Hstop : ∀ e h', moved_closed (Err e) h') by done.
  unfold _move. cbv zeta. apply keeps_bind. apply kept_untouched; [|done|done|].
  { unfold open_imap, classified. cbv zeta. repeat only_step; done. }
  intros [session|e] h1 H1 U1; [|apply Hstop]. apply keeps_finally.
  set (Q := λ (r : mres (Attempt MovedMessage)) (h : history), kept _imap_close h
    (λ u h', moved_closed (match u with Ok _ => r | Err e => Err e end) h')).
  change (kept ?p h1 (λ r h', _)) with (kept p h1 Q).
  assert (Hclose : ∀ r h', safe h' → moved_ok r h' → Q r h').
  { intros r h' H' Hr. unfold Q, _imap_close. apply keeps_catch, keeps_call. intros r1 _. split; [done|].
    assert (Hok : moved_closed r (mkCall ImapLogout r1 :: h')).
    { intros a Ha Hb. destruct (Hr a Ha Hb) as (m & Hv & Hm). by exists m, r1, h'. }
    by destruct r1. }
  assert (He : ∀ e h', safe h' → Q (Err e) h') by (intros; by apply Hclose).
  destruct (_ && _); [apply Hclose; [done|by apply other_move]|].
  apply keeps_bind. apply select_kept; [done|done|intros; by apply He|]. intros v h2 H2 U2 Hsel.
  apply keeps_bind. apply fetch_kept; [done|done|intros; by apply He| |].
  { intros c3 _ H3 U3. by apply already_moved_kept. }
  intros metadata headers h3 H3 U3 _ Hf. apply keeps_bind. cbn [lift keeps].
  destruct (fetched_id headers) as [source_id|e] eqn:Hid; cbn [of_res]; [|by apply He].
  destruct (_ && _) eqn:Hx; [unfold not_found; apply Hclose; [done|by apply other_move]|].
  assert (Hl : located h3).
  { exists headers, h2. split_and!; [done| |].
    - destruct Hsel as (argument & data & b & more & before & -> & Ha & Hb & Hv). exists argument, data, b, more, before.
      split_and!; [done|done| |by right]. destruct Hv as [Hz|<-]; [by destruct Hvalid|done].
    - intros Hi. rewrite Hid. f_equal. destruct (message_id input) as [|c0 i]; [done|]. cbn in Hx.
      by apply negb_false_iff, bool_decide_eq_true in Hx. }
  apply keeps_bind. apply transfer_kept; [done|done|done|]. intros data h4 H4 Hr.
  apply keeps_bind. cbn [lift keeps]. destruct (copied_to _ data) as [reference|e] eqn:Hc; cbn [of_res]; [|by apply He].
  apply Hclose; [done|]. apply reported_move. by apply Hr.
Qed.

Lemma accepted_reference : refused input = Ok false → uid_validity (message input) ≠ 0%Z.
Proof.
  unfold refused, _valid_reference. destruct (_valid_mailbox (mailbox (message input))) as [ok|e]; [|done].
  cbn [mbind result_bind]. destruct (ok && uid_ok (uid_validity (message input)) && _) eqn:E; [|done]. cbn [negb].
  intros _ Hz. rewrite Hz in E. cbn in E. by rewrite andb_false_r in E.
Qed.

Lemma handled_move f h : moved_closed (of_res (mutation_failure f true)) h.
Proof.
  intros a Ha Hb. destruct (mutation_failure f true) as [a'|e] eqn:E; [|done]. apply Ok_inj in Ha as <-.
  apply mutation_failure_branch in E as [E|[E|E]]; by rewrite Hb in E.
Qed.

Lemma move_invoked cl : kept (invoke cl input) [] moved_closed.
Proof.
  unfold invoke. cbv zeta. apply keeps_bind. cbn [lift keeps]. destruct (refused input) as [b|e] eqn:Hr; cbn [of_res]; [|done].
  destruct b.
  { unfold defect_branch. intros a Ha Hb. destruct (MutationAttempt _) as [a'|e] eqn:E; [|done].
    apply MutationAttempt_Ok in E as ->. by apply Ok_inj in Ha as <-. }
  apply keeps_catch, keeps_bind. unfold resolve_credentials. apply keeps_catch, keeps_bind, keeps_call.
  intros r _. split; [done|]. destruct r as [c|e]; [|by apply handled_move].
  destruct (_ || _); [by apply handled_move|]. cbn [keeps].
  eapply keeps_weaken; [|apply move_kept; [by apply accepted_reference|done|by repeat constructor]].
  intros [a|e] h Ha; [done|]. destruct e as [f| | | | | | | | |]; try done. by apply handled_move.
Qed.

End Moves.
(** C8: a message is only moved where it was found, and only removed once it was copied.  Whatever the
    server answers and wherever the run is cut short, a MOVE or COPY names the referenced UID and the
    destination mailbox, and directly follows the selection of the referenced mailbox under the referenced
    UIDVALIDITY and a FETCH that found the expected Message-ID there; the message is marked deleted only
    after an accepted COPY, and expunged, alone, only after the mark was accepted.  When the attempt says
    [moved], the session ended with an accepted MOVE, or an accepted COPY, mark and EXPUNGE; or it changed
    nothing, selected the destination, searched it for the Message-ID, and one of the messages it found
    there, whose UID and UIDVALIDITY it reports, has that Message-ID. *)
Theorem moved_only_when_copied `{EmailLibrary} cl input h o : runs any_answer (invoke cl input) [] h o →
  safe input h ∧
  ∀ a, o = Some (Ok a) → a_branch a = lit "moved" → ∃ m logout before,
    a_value a = Some m ∧ h = mkCall ImapLogout logout :: before ∧ relocated input m before.
Proof.
  intros Hr. destruct (keeps_runs any_answer (safe input) _ [] h o _ Hr I (move_invoked input cl)) as [Hs Hk].
  split; [done|]. intros a -> Hb. exact (Hk _ eq_refl a eq_refl Hb).
Qed.

Import SessionFacts.
#[local] Existing Instance Sample.library.

Definition archive : Input := mkInput Sample.reference "Archive" "a@b".
Definition over (moves : bool) := exec (Sample.served "\Seen" moves 250) (invoke Sample.client archive) [].

Lemma over_branch moves : match fst (over moves) with Ok a => a_branch a = lit "moved" | Err _ => False end.
Proof. destruct moves; vm_compute; reflexivity. Qed.

Definition moved_over (moves : bool) : Prop :=
  safe archive (snd (over moves)) ∧
  match fst (over moves) with Ok a => ∃ m before, a_value a = Some m ∧ relocated archive m before | Err _ => False end.

Lemma moved_only_when_copied_witness : moved_over true ∧ moved_over false.
Proof.
  assert (Hall : ∀ moves, moved_over moves).
  { intros moves. pose proof (over_branch moves) as Hb.
    pose proof (exec_runs any_answer (Sample.served "\Seen" moves 250) (invoke Sample.client archive) []
      (Sample.served_answers _ _ _)) as Hr.
    change (exec (Sample.served "\Seen" moves 250) (invoke Sample.client archive) []) with (over moves) in Hr.
    pose proof (moved_only_when_copied Sample.client archive _ _ Hr) as [Hs Hm]. split; [exact Hs|].
    destruct (fst (over moves)) as [a|e]; [|exact Hb]. destruct (Hm a eq_refl Hb) as (m & _ & before & Hv & _ & Hrel).
    by exists m, before. }
  split; apply Hall.
Defined.

(** On a server without MOVE, a STORE whose answer is lost makes Dex run the call again, which finds the
    message still there and copies it a second time. *)
Definition lossy_store (s : server) : server := λ h X c,
  match c in cmd X return mres X → mres X with
  | ImapUid command _ => λ r, if bool_decide (command = lit "STORE") then Err (EPy (Exn OSError [])) else r
  | _ => λ r, r
  end (s h X c).

Definition copies (h : history) : nat :=
  length (List.filter (λ c, match c with mkCall (ImapUid command _) r => bool_decide (command = lit "COPY") && is_ok r | _ => false end) h).

Definition stopped := exec (lossy_store (Sample.served "\Seen" false 250)) (invoke Sample.client archive) [].
Definition repeated := exec (Sample.served "\Seen" false 250) (invoke Sample.client archive) (snd stopped).

Lemma copy_repeated :
  match fst stopped with Ok a => a_kind a = KRetry | Err _ => False end ∧
  match fst repeated with Ok a => a_branch a = lit "moved" | Err _ => False end ∧ copies (snd repeated) = 2%nat.
Proof. split_and!; vm_compute; reflexivity. Qed.

(** Credentials that cannot be used are reported as a rejection by the provider. *)
Definition without_credentials (s : server) : server := λ h X c,
  match c in cmd X return mres X → mres X with Resolve => λ _, Err (EPy (Exn ValueError [])) | _ => λ r, r end (s h X c).

Lemma unusable_credentials_rejected :
  match fst (exec (without_credentials (Sample.served "\Seen" true 250)) (invoke Sample.client archive) []) with
  | Ok a => a_branch a = lit "providerRejected" ∧ (Failure.kind <$> a_failure a) = Some AUTHENTICATION
  | Err _ => False
  end.
Proof. vm_compute. by split. Qed.

End MoveFacts.
